(** * gorpn: the RPN expression simplifier and evaluator of eval.go

    A shallow embedding of [Expression], [simplify], [Evaluate], [Partial],
    [New] and [String], followed by the properties of the engine.

    Conventions.
    - [float64] is Rocq's primitive binary64 [float]; Go's [int] is [Z], with
      the 64-bit wrap-around written out ([wrap64]) wherever an operand comes
      from a float conversion.
    - An [interface{}] cell is a [value]: the engine stores [float64],
      [string] and (in two places) untyped [int] constants in its slices.
    - A method with receiver [e *Expression] is a function from the receiver
      to a [result] that carries the receiver as the call leaves it.
    - A run-time panic of Go (index out of range, failed type assertion, ...)
      is the outcome [Panic].
    - What the engine takes from Go's library and from the host (number
      parsing and printing, transcendental functions, the clock and the
      local time zone) is the record [Env]. *)

From Stdlib Require Import ZArith Floats Bool Lia String Ascii List.
From stdpp Require Import gmap strings list pretty.

Local Open Scope string_scope.
Local Open Scope Z_scope.

(** ** float64 *)

Module F64.

Definition eq (a b : float) : bool := PrimFloat.eqb a b.      (* a == b *)
Definition ne (a b : float) : bool := negb (PrimFloat.eqb a b). (* a != b *)
Definition lt (a b : float) : bool := PrimFloat.ltb a b.      (* a <  b *)
Definition le (a b : float) : bool := PrimFloat.leb a b.      (* a <= b *)
Definition gt (a b : float) : bool := PrimFloat.ltb b a.      (* a >  b *)
Definition ge (a b : float) : bool := PrimFloat.leb b a.      (* a >= b *)

Definition zero : float := 0%float.
Definition one : float := 1%float.
Definition NaN : float := PrimFloat.nan.               (* math.NaN() *)
Definition Inf (sign : Z) : float :=                   (* math.Inf(sign) *)
  if 0 <=? sign then PrimFloat.infinity else PrimFloat.neg_infinity.

Definition IsNaN (f : float) : bool := PrimFloat.is_nan f.
(* math.IsInf: sign >= 0 && f > MaxFloat64 || sign <= 0 && f < -MaxFloat64 *)
Definition IsInf (f : float) (sign : Z) : bool :=
  (0 <=? sign) && PrimFloat.eqb f PrimFloat.infinity
  || (sign <=? 0) && PrimFloat.eqb f PrimFloat.neg_infinity.
Definition Signbit (f : float) : bool := PrimFloat.get_sign f.

Definition Abs (f : float) : float := PrimFloat.abs f.
Definition Sqrt (f : float) : float := PrimFloat.sqrt f.
Definition Pi : float := 0x1.921fb54442d18p+1%float.

(** float64(n) for an integer n: round to nearest, ties to even. *)
Definition of_int (n : Z) : float :=
  SF2Prim (binary_normalize prec emax n 0 false).

(** The integer part of a finite float, toward zero; [None] for NaN and the
    infinities. *)
Definition trunc (f : float) : option Z :=
  match Prim2SF f with
  | S754_zero _ => Some 0
  | S754_finite s m e =>
      let mag := if 0 <=? e then Z.pos m * 2 ^ e else Z.pos m / 2 ^ (- e) in
      Some (if s then - mag else mag)
  | _ => None
  end.

(* math.Floor: Floor(±0) = ±0, Floor(±Inf) = ±Inf, Floor(NaN) = NaN *)
Definition Floor (x : float) : float :=
  match Prim2SF x with
  | S754_finite s m e =>
      if 0 <=? e then x
      else
        let q := Z.pos m / 2 ^ (- e) in
        let fract := negb (Z.pos m mod 2 ^ (- e) =? 0) in
        if s then PrimFloat.opp (of_int (if fract then q + 1 else q))
        else of_int q
  | _ => x
  end.
(* math.Ceil(x) = -Floor(-x) *)
Definition Ceil (x : float) : float := PrimFloat.opp (Floor (PrimFloat.opp x)).

(* math.Max *)
Definition Max (x y : float) : float :=
  if IsInf x 1 || IsInf y 1 then Inf 1
  else if IsNaN x || IsNaN y then NaN
  else if eq x zero && eq x y then (if Signbit x then y else x)
  else if gt x y then x else y.
(* math.Min *)
Definition Min (x y : float) : float :=
  if IsInf x (-1) || IsInf y (-1) then Inf (-1)
  else if IsNaN x || IsNaN y then NaN
  else if eq x zero && eq x y then (if Signbit x then x else y)
  else if lt x y then x else y.

(* sort.Float64s orders by: x < y || (isNaN(x) && !isNaN(y)) *)
Definition less (x y : float) : bool := lt x y || (IsNaN x && negb (IsNaN y)).

Fixpoint insert (x : float) (l : list float) : list float :=
  match l with
  | [] => [x]
  | y :: l' => if less y x then y :: insert x l' else x :: y :: l'
  end.
(** sort.Float64s; elements that compare equal keep their order. *)
Definition Float64s (l : list float) : list float := foldr insert [] l.

End F64.

(** ** int *)

Definition wrap64 (n : Z) : Z := (n + 2 ^ 63) mod 2 ^ 64 - 2 ^ 63.
Definition isub (a b : Z) : Z := wrap64 (a - b).
Definition iadd (a b : Z) : Z := wrap64 (a + b).

(** ** Values, errors, the host environment *)

(** A cell of [tokens] or [scratch] ([interface{}]): the zero value [nil], a
    [float64], a [string], or an [int] (the constant [0] of the [*] case and
    the depth stored by [DEPTH] are untyped integer constants, hence [int]). *)
Inductive value : Type :=
| VNil
| VFloat (f : float)
| VString (s : string)
| VInt (n : Z).

(* v.(float64) with the comma-ok form *)
Definition asFloat (v : value) : option float :=
  match v with VFloat f => Some f | _ => None end.
Definition asString (v : value) : option string :=
  match v with VString s => Some s | _ => None end.
Definition isFloat64 (v : value) : bool :=
  match v with VFloat _ => true | _ => false end.

(** A caller's binding before coercion. *)
#[local] Set Warnings "-register-all".
Inductive goval : Type :=
| GoNil
| GoFloat64 (f : float)
| GoFloat32 (f : float)
| GoInt (n : Z)
| GoInt64 (n : Z)
| GoInt32 (n : Z)
| GoSliceFloat64 (l : list float)
| GoSliceInt (l : list Z)
| GoSliceInterface (l : list goval)
| GoSliceFloat32 (l : list float)
| GoSliceInt32 (l : list Z)
| GoSliceInt64 (l : list Z)
| GoOtherSlice (type : string)
| GoOther (type : string).

(** A binding after [coerceMapValuesToFloat64]: float64 or []float64. *)
Inductive binding : Type :=
| BFloat (f : float)
| BSeries (l : list float).

(** An operand of a format string. *)
Inductive fmtArg : Type :=
| AString (s : string)
| AInt (n : Z)
| AFloat (f : float)
| AValue (v : value)
| AValues (l : list value)
| ABinding (b : binding)
| ASeries (l : list float).

Inductive error : Type :=
| ErrSyntax (format : string) (args : list fmtArg)  (* newErrSyntax(format, args...) *)
| ErrSyntaxMessage (message : string)               (* ErrSyntax{message, nil} *)
| ErrOpenBindings (names : list string)
| ExpectedFloat (v : value)
| ErrBadBindingType (key type : string).

Inductive panic : Type :=
| IndexOutOfRange
| SliceBounds
| MakeSliceCap
| TypeAssertion
| NilDereference.

(** What the engine calls outside this repository. *)
Record Env : Type := {
  (* strconv.ParseFloat(s, 64): the value when err == nil *)
  ParseFloat : string -> option float;
  (* fmt.Sprint of a finite float64 *)
  SprintFloat : float -> string;
  Mod : float -> float -> float;
  Atan2 : float -> float -> float;
  (* math.Pow outside its first special cases, see [Pow] *)
  PowGeneral : float -> float -> float;
  Atan : float -> float;
  Cos : float -> float;
  Sin : float -> float;
  Exp : float -> float;
  Log : float -> float;
  (* int(f) when f is NaN, infinite or outside the int64 range: Go leaves the
     result to the implementation *)
  intOutOfRange : float -> Z;
  intOutOfRange_int64 : forall f, - 2 ^ 63 <= intOutOfRange f < 2 ^ 63;
  (* the capacity append leaves a slice with after growing it from nil to
     the given length, one element at a time *)
  appendCap : Z -> Z;
  (* time.Now().Unix() *)
  NowUnix : Z;
  (* time.Unix(sec, 0) in the local zone: offset, day of month, weekday
     (Sunday = 0), month *)
  ZoneOffset : Z -> Z;
  LocalDay : Z -> Z;
  LocalWeekday : Z -> Z;
  LocalMonth : Z -> Z
}.

(** math.Pow: the special cases Go tests first; the rest is the library's. *)
Definition Pow (env : Env) (x y : float) : float :=
  if F64.eq y F64.zero || F64.eq x F64.one then F64.one
  else if F64.eq y F64.one then x
  else if F64.IsNaN x || F64.IsNaN y then F64.NaN
  else PowGeneral env x y.

(** int(f) *)
Definition toInt (env : Env) (f : float) : Z :=
  match F64.trunc f with
  | Some n => if (- 2 ^ 63 <=? n) && (n <? 2 ^ 63) then n else intOutOfRange env f
  | None => intOutOfRange env f
  end.

(** ** The operator catalog *)

Record arityTuple : Type := mkArity {
  popCount : Z;
  floatOffset : Z;
  floatCount : Z;
  nonOperatorOffset : Z;
  nonOperatorCount : Z
}.

Definition arityTable : list (string * arityTuple) :=
  [ ("%", mkArity 2 2 0 0 0);
    ("*", mkArity 2 2 0 0 0);
    ("+", mkArity 2 2 0 0 0);
    ("-", mkArity 2 2 0 0 0);
    ("/", mkArity 2 2 0 0 0);
    ("ABS", mkArity 1 1 1 0 0);
    ("ADDNAN", mkArity 2 2 2 0 0);
    ("ATAN", mkArity 1 1 1 0 0);
    ("ATAN2", mkArity 2 2 2 0 0);
    ("AVG", mkArity 1 1 1 0 0);
    ("CEIL", mkArity 1 1 1 0 0);
    ("COPY", mkArity 1 1 1 0 0);
    ("COS", mkArity 1 1 1 0 0);
    ("DEG2RAD", mkArity 1 1 1 0 0);
    ("DEPTH", mkArity 0 0 0 0 0);
    ("DUP", mkArity 1 0 0 1 1);
    ("EQ", mkArity 2 0 0 2 2);
    ("EXC", mkArity 2 0 0 2 2);
    ("EXP", mkArity 1 1 1 0 0);
    ("FLOOR", mkArity 1 1 1 0 0);
    ("GE", mkArity 2 0 0 2 2);
    ("GT", mkArity 2 0 0 2 2);
    ("IF", mkArity 3 3 1 2 2);
    ("INDEX", mkArity 1 1 1 0 0);
    ("ISINF", mkArity 1 1 1 0 0);
    ("LE", mkArity 2 0 0 2 2);
    ("LIMIT", mkArity 3 3 3 0 0);
    ("LOG", mkArity 1 1 1 0 0);
    ("LT", mkArity 2 0 0 2 2);
    ("MAD", mkArity 1 1 1 0 0);
    ("MAX", mkArity 2 0 0 2 2);
    ("MAXNAN", mkArity 2 0 0 2 2);
    ("MEDIAN", mkArity 1 1 1 0 0);
    ("MIN", mkArity 2 0 0 2 2);
    ("MINNAN", mkArity 2 0 0 2 2);
    ("NE", mkArity 2 0 0 2 2);
    ("PERCENT", mkArity 2 2 2 0 0);
    ("POP", mkArity 1 0 0 0 0);
    ("POW", mkArity 2 2 0 0 0);
    ("RAD2DEG", mkArity 1 1 1 0 0);
    ("REV", mkArity 1 1 1 0 0);
    ("ROLL", mkArity 2 2 2 0 0);
    ("SIN", mkArity 1 1 1 0 0);
    ("SMAX", mkArity 1 1 1 0 0);
    ("SMIN", mkArity 1 1 1 0 0);
    ("SORT", mkArity 1 1 1 0 0);
    ("SQRT", mkArity 1 1 1 0 0);
    ("STDEV", mkArity 1 1 1 0 0);
    ("TREND", mkArity 2 1 1 2 1);
    ("TRENDNAN", mkArity 2 1 1 2 1);
    ("UN", mkArity 1 1 1 0 0) ].

Fixpoint assoc {A : Type} (k : string) (l : list (string * A)) : option A :=
  match l with
  | [] => None
  | (k', a) :: l' => if String.eqb k' k then Some a else assoc k l'
  end.

(** arity[token], with the comma-ok form *)
Definition arity (token : string) : option arityTuple := assoc token arityTable.
Definition isOperator (token : string) : bool :=
  match arity token with Some _ => true | None => false end.

(** ** Expression *)

Record Expression : Type := mkExpression {
  delimiter : ascii;
  openBindings : gmap string Z;
  secondsPerInterval : float;
  tokens : list value;
  performTimeSubstitutions : bool;
  scratchSize : Z;
  scratchHead : Z;
  scratch : list value;
  isFloat : list bool
}.

Definition withHead (e : Expression) (h : Z) : Expression :=
  mkExpression (delimiter e) (openBindings e) (secondsPerInterval e) (tokens e)
    (performTimeSubstitutions e) (scratchSize e) h (scratch e) (isFloat e).
Definition withScratch (e : Expression) (s : list value) : Expression :=
  mkExpression (delimiter e) (openBindings e) (secondsPerInterval e) (tokens e)
    (performTimeSubstitutions e) (scratchSize e) (scratchHead e) s (isFloat e).
Definition withIsFloat (e : Expression) (fl : list bool) : Expression :=
  mkExpression (delimiter e) (openBindings e) (secondsPerInterval e) (tokens e)
    (performTimeSubstitutions e) (scratchSize e) (scratchHead e) (scratch e) fl.
Definition withOpenBindings (e : Expression) (ob : gmap string Z) : Expression :=
  mkExpression (delimiter e) ob (secondsPerInterval e) (tokens e)
    (performTimeSubstitutions e) (scratchSize e) (scratchHead e) (scratch e)
    (isFloat e).
Definition withTokens (e : Expression) (t : list value) : Expression :=
  mkExpression (delimiter e) (openBindings e) (secondsPerInterval e) t
    (performTimeSubstitutions e) (scratchSize e) (scratchHead e) (scratch e)
    (isFloat e).
Definition withPerformTimeSubstitutions (e : Expression) (b : bool) : Expression :=
  mkExpression (delimiter e) (openBindings e) (secondsPerInterval e) (tokens e)
    b (scratchSize e) (scratchHead e) (scratch e) (isFloat e).

(** ** Outcomes *)

(** [Ok a]: the call returned normally; [Err err e]: it returned the error
    [err], the receiver being [e] at that point; [Panic p]: it panicked. *)
Inductive result (A : Type) : Type :=
| Ok (a : A)
| Err (err : error) (e : Expression)
| Panic (p : panic).
Arguments Ok {A} a.
Arguments Err {A} err e.
Arguments Panic {A} p.

Definition bind {A B : Type} (m : result A) (k : A -> result B) : result B :=
  match m with
  | Ok a => k a
  | Err err e => Err err e
  | Panic p => Panic p
  end.

Notation "'do' x <- m ; k" := (bind m (fun x => k))
  (at level 10, x name, m at level 100, k at level 200).

Definition orPanic {A : Type} (p : panic) (o : option A) : result A :=
  match o with Some a => Ok a | None => Panic p end.

(** l[i] and l[i] = x on a Go slice of length [length l] *)
Definition zindex {A : Type} (l : list A) (i : Z) : option A :=
  if i <? 0 then None else l !! Z.to_nat i.
Definition zstore {A : Type} (l : list A) (i : Z) (x : A) : option (list A) :=
  if (0 <=? i) && (i <? Z.of_nat (length l))
  then Some (<[Z.to_nat i := x]> l) else None.
Definition len {A : Type} (l : list A) : Z := Z.of_nat (length l).

Definition scratchAt (e : Expression) (i : Z) : result value :=
  orPanic IndexOutOfRange (zindex (scratch e) i).
Definition isFloatAt (e : Expression) (i : Z) : result bool :=
  orPanic IndexOutOfRange (zindex (isFloat e) i).
(* e.scratch[i].(float64) *)
Definition floatAt (e : Expression) (i : Z) : result float :=
  do v <- scratchAt e i; orPanic TypeAssertion (asFloat v).
(* e.scratch[i].(string) *)
Definition stringAt (e : Expression) (i : Z) : result string :=
  do v <- scratchAt e i; orPanic TypeAssertion (asString v).
Definition setScratch (e : Expression) (i : Z) (v : value) : result Expression :=
  do s <- orPanic IndexOutOfRange (zstore (scratch e) i v); Ok (withScratch e s).
Definition setIsFloat (e : Expression) (i : Z) (b : bool) : result Expression :=
  do fl <- orPanic IndexOutOfRange (zstore (isFloat e) i b); Ok (withIsFloat e fl).

(** e.scratch[e.scratchHead] = v; e.isFloat[e.scratchHead] = b; e.scratchHead++ *)
Definition push (e : Expression) (v : value) (b : bool) : result Expression :=
  do e1 <- setScratch e (scratchHead e) v;
  do e2 <- setIsFloat e1 (scratchHead e1) b;
  Ok (withHead e2 (scratchHead e2 + 1)).

(** A [for] loop over [i, hi) whose body may [break]. Every loop of the
    engine indexes a slice by its loop variable, so [fuel] one above that
    slice's length is never used up. *)
Fixpoint forLoop {S : Type} (fuel : nat) (i hi : Z) (s : S)
    (body : Z -> S -> result (S * bool)) : result (S * bool) :=
  if hi <=? i then Ok (s, false)
  else
    match fuel with
    | O => Panic IndexOutOfRange
    | Datatypes.S fuel' =>
        do r <- body i s;
        if snd r then Ok r else forLoop fuel' (i + 1) hi (fst r) body
    end.

Definition fuelOf (e : Expression) : nat :=
  Datatypes.S (length (scratch e) + length (isFloat e)).

(** ** Binding coercion *)

Definition typeName (v : goval) : string :=
  match v with
  | GoNil => "<nil>"
  | GoFloat64 _ => "float64"
  | GoFloat32 _ => "float32"
  | GoInt _ => "int"
  | GoInt64 _ => "int64"
  | GoInt32 _ => "int32"
  | GoSliceFloat64 _ => "[]float64"
  | GoSliceInt _ => "[]int"
  | GoSliceInterface _ => "[]interface {}"
  | GoSliceFloat32 _ => "[]float32"
  | GoSliceInt32 _ => "[]int32"
  | GoSliceInt64 _ => "[]int64"
  | GoOtherSlice t => t
  | GoOther t => t
  end.

(** [inl t]: ErrBadBindingType{t} *)
Definition coerceValueToFloat64 (v : goval) : string + float :=
  match v with
  | GoFloat64 f => inr f
  | GoFloat32 f => inr f
  | GoInt n => inr (F64.of_int n)
  | GoInt64 n => inr (F64.of_int n)
  | GoInt32 n => inr (F64.of_int n)
  | _ => inl (typeName v)
  end.

Fixpoint coerceInterfaces (l : list goval) : string + list float :=
  match l with
  | [] => inr []
  | v :: l' =>
      match coerceValueToFloat64 v with
      | inl _ => inl (typeName v)
      | inr cf =>
          match coerceInterfaces l' with
          | inl t => inl t
          | inr fs => inr (cf :: fs)
          end
      end
  end.

Definition coerceValuesToFloat64 (v : goval) : string + list float :=
  match v with
  | GoSliceFloat64 l => inr l
  | GoSliceInt l => inr (map F64.of_int l)
  | GoSliceInterface l => coerceInterfaces l
  | GoSliceFloat32 l => inr l
  | GoSliceInt32 l => inr (map F64.of_int l)
  | GoSliceInt64 l => inr (map F64.of_int l)
  | _ => inl (typeName v)
  end.

Definition isSliceKind (v : goval) : bool :=
  match v with
  | GoSliceFloat64 _ | GoSliceInt _ | GoSliceInterface _ | GoSliceFloat32 _
  | GoSliceInt32 _ | GoSliceInt64 _ | GoOtherSlice _ => true
  | _ => false
  end.

Inductive coerced : Type :=
| Coerced (b : gmap string binding)
| CoerceErr (err : error)
| CoercePanic (p : panic).

Definition coerceEntry (key : string) (v : goval) (acc : coerced) : coerced :=
  match acc with
  | Coerced b =>
      match v with
      | GoNil => CoercePanic NilDereference  (* reflect.TypeOf(nil).Kind() *)
      | _ =>
          if isSliceKind v then
            match coerceValuesToFloat64 v with
            | inl t => CoerceErr (ErrBadBindingType key t)
            | inr l => Coerced (<[key := BSeries l]> b)
            end
          else
            match coerceValueToFloat64 v with
            | inl t => CoerceErr (ErrBadBindingType key t)
            | inr f => Coerced (<[key := BFloat f]> b)
            end
      end
  | _ => acc
  end.

(** Go ranges over the map in an unspecified order; here the order is that of
    [map_to_list], which only decides which offending key an error names. *)
Definition coerceMapValuesToFloat64 (bindings : gmap string goval) : coerced :=
  foldr (fun kv acc => coerceEntry (fst kv) (snd kv) acc) (Coerced ∅)
    (reverse (map_to_list bindings)).

(** ** Time *)

Record timeCtx : Type := mkTimeCtx {
  isTimeSet : bool;
  nowSeconds : float;
  jTimeSeconds : float;
  zTimeSeconds : float;
  jTime : Z  (* the instant of jTime, in seconds since the epoch *)
}.

Definition noTime : timeCtx := mkTimeCtx false F64.zero F64.zero F64.zero 0.

Definition isFirstOfDay (env : Env) (jSeconds secondsPerInterval : float) : float :=
  let js := toInt env jSeconds in
  let tLeft := wrap64 (Z.quot js 86400 * 86400) in
  let tRight := iadd tLeft (toInt env secondsPerInterval) in
  if (js <? tLeft) || (tRight <? js) then F64.zero else F64.one.

Definition incOpen (e : Expression) (k : string) : Expression :=
  withOpenBindings e (<[k := default 0 (openBindings e !! k) + 1]> (openBindings e)).
Definition decOpen (e : Expression) (k : string) : Expression :=
  withOpenBindings e (<[k := default 0 (openBindings e !! k) - 1]> (openBindings e)).

(** ** The cases of [simplify]'s operator switch *)

(** What a case leaves behind: [result] and [additionalArgumentCount] for the
    common epilogue, [cannotSimplify], or a stack the case rearranged itself
    ([stackUpdated]). *)
Inductive action : Type :=
| Result (v : value) (additionalArgumentCount : Z)
| CannotSimplify
| StackUpdated (e : Expression).

Definition fmtPositive : string := "%s operator requires positive finite integer: %v".
Definition fmtItems : string := "%s operand requires %d items, but only %d on stack".
Definition fmtNotEnough : string := "not enough parameters: operator %s requires %d operands".

Section Cases.

Variable env : Env.
Variable bindings : gmap string binding.
(* [e] is the receiver, [i] is indexOfFirstArg *)

Definition resultF (f : float) : result action := Ok (Result (VFloat f) 0).

(** The shape shared by [+ - * / % POW]: [both a b] when both operands are
    floats, [onlyA] when only the first is, [onlyB] when only the second
    is. An operand is asserted to be a float64 where a case reads it:
    [- ] and [%] do not read the first operand when only that one is
    flagged. *)
Definition arith (e : Expression) (i : Z)
    (both : float -> float -> result action)
    (onlyA : result action)
    (onlyB : result action) : result action :=
  do fa <- isFloatAt e i;
  if fa then
    do fb <- isFloatAt e (i + 1);
    if fb then
      do a <- floatAt e i;
      do b <- floatAt e (i + 1);
      both a b
    else onlyA
  else
    do fb <- isFloatAt e (i + 1);
    if fb then onlyB
    else Ok CannotSimplify.

(* result = e.scratch[j] *)
Definition resultAt (e : Expression) (j : Z) : result action :=
  do v <- scratchAt e j; Ok (Result v 0).

(* if x := e.scratch[j].(float64); ... *)
Definition withFloat (e : Expression) (j : Z) (k : float -> result action)
    : result action :=
  do x <- floatAt e j; k x.

Definition case_add (e : Expression) (i : Z) : result action :=
  arith e i
    (fun a b => resultF (PrimFloat.add a b))
    (withFloat e i
       (fun a => if F64.eq a F64.zero then resultAt e (i + 1) else Ok CannotSimplify))
    (withFloat e (i + 1)
       (fun b => if F64.eq b F64.zero then resultAt e i else Ok CannotSimplify)).

Definition case_sub (e : Expression) (i : Z) : result action :=
  arith e i
    (fun a b => resultF (PrimFloat.sub a b))
    (Ok CannotSimplify)
    (withFloat e (i + 1)
       (fun b => if F64.eq b F64.zero then resultAt e i else Ok CannotSimplify)).

Definition case_mul (e : Expression) (i : Z) : result action :=
  arith e i
    (fun a b => resultF (PrimFloat.mul a b))
    (withFloat e i
       (fun a =>
          if F64.eq a F64.zero then Ok (Result (VInt 0) 0)
          else if F64.eq a F64.one then resultAt e (i + 1)
          else Ok CannotSimplify))
    (withFloat e (i + 1)
       (fun b =>
          if F64.eq b F64.zero then Ok (Result (VInt 0) 0)
          else if F64.eq b F64.one then resultAt e i
          else Ok CannotSimplify)).

Definition case_div (e : Expression) (i : Z) : result action :=
  arith e i
    (fun a b => resultF (PrimFloat.div a b))
    (withFloat e i
       (fun a => if F64.eq a F64.zero then resultF F64.zero else Ok CannotSimplify))
    (withFloat e (i + 1)
       (fun b =>
          if F64.eq b F64.zero then resultF F64.NaN
          else if F64.eq b F64.one then resultAt e i
          else Ok CannotSimplify)).

Definition case_mod (e : Expression) (i : Z) : result action :=
  arith e i
    (fun a b => resultF (Mod env a b))
    (Ok CannotSimplify)
    (withFloat e (i + 1)
       (fun b =>
          if F64.eq b F64.zero then resultF F64.NaN
          else if F64.eq b F64.one then resultF F64.zero
          else Ok CannotSimplify)).

Definition case_POW (e : Expression) (i : Z) : result action :=
  arith e i
    (fun a b => resultF (Pow env a b))
    (withFloat e i
       (fun a =>
          if F64.eq a F64.zero then resultF F64.zero
          else if F64.eq a F64.one then resultF F64.one
          else Ok CannotSimplify))
    (withFloat e (i + 1)
       (fun b =>
          if F64.eq b F64.zero then resultF F64.one
          else if F64.eq b F64.one then resultAt e i
          else Ok CannotSimplify)).

(* result = f(e.scratch[i].(float64)) *)
Definition unary (f : float -> float) (e : Expression) (i : Z) : result action :=
  do a <- floatAt e i; resultF (f a).

Definition case_ADDNAN (e : Expression) (i : Z) : result action :=
  do a <- floatAt e i;
  do b <- floatAt e (i + 1);
  let firstNaN := F64.IsNaN a in
  let secondNaN := F64.IsNaN b in
  if negb firstNaN && negb secondNaN then resultF (PrimFloat.add a b)
  else if negb firstNaN then resultAt e i
  else resultAt e (i + 1).

Definition case_ATAN2 (e : Expression) (i : Z) : result action :=
  do b <- floatAt e (i + 1);
  do a <- floatAt e i;
  resultF (Atan2 env b a).

(** The test every count operator starts with. *)
Definition notPositiveFinite (c : float) : bool :=
  F64.IsNaN c || F64.IsInf c 1 || F64.IsInf c (-1) || F64.le c F64.zero.

Definition checkCount (token : string) (e : Expression) (i : Z) : result float :=
  do c <- floatAt e i;
  if notPositiveFinite c then
    do v <- scratchAt e i;
    Err (ErrSyntax fmtPositive [AString token; AValue v]) e
  else Ok c.

Definition checkItems (token : string) (e : Expression) (n avail : Z) : result unit :=
  if avail <? n then Err (ErrSyntax fmtItems [AString token; AInt n; AInt avail]) e
  else Ok tt.

(** additionalArgumentCount: the count at [i], validated, converted, and
    compared with the items below the operator's arguments. *)
Definition countOf (token : string) (e : Expression) (i : Z) : result Z :=
  do c <- checkCount token e i;
  let n := toInt env c in
  do _ <- checkItems token e n (scratchHead e - 1);
  Ok n.

(** A case that starts with [countOf] and goes on with the window of [n]
    items below the count. *)
Definition counted (token : string)
    (window : Z -> Expression -> Z -> result action)
    (e : Expression) (i : Z) : result action :=
  do n <- countOf token e i; window n e i.

(* make([]T, 0, n), make([]T, n) *)
Definition make (n : Z) : result unit :=
  if n <? 0 then Panic MakeSliceCap else Ok tt.

(** The window loop of MAD, MEDIAN, PERCENT and SORT: the floats of
    [lo, hi), and whether the loop broke on a non-float. *)
Definition collectFloats (e : Expression) (lo hi : Z) : result (list float * bool) :=
  forLoop (fuelOf e) lo hi []
    (fun argIdx items =>
       do fl <- isFloatAt e argIdx;
       if negb fl then Ok (items, true)
       else do x <- floatAt e argIdx; Ok (app items [x], false)).

(** The window loop of COPY, INDEX, REV and ROLL: whether it broke on an
    operator. *)
Definition findOperator (e : Expression) (lo hi : Z) : result bool :=
  do r <- forLoop (fuelOf e) lo hi tt
    (fun argIdx _ =>
       do fl <- isFloatAt e argIdx;
       if negb fl then
         do s <- stringAt e argIdx;
         Ok (tt, isOperator s)
       else Ok (tt, false));
  Ok (snd r).

Definition avgWindow (n : Z) (e : Expression) (i : Z) : result action :=
  do r <- forLoop (fuelOf e) (isub i n) i (F64.zero, 0)
    (fun argIdx s =>
       do fl <- isFloatAt e argIdx;
       if negb fl then Ok (s, true)
       else
         do x <- floatAt e argIdx;
         if negb (F64.IsNaN x) then Ok ((PrimFloat.add (fst s) x, snd s + 1), false)
         else Ok (s, false));
  if snd r then Ok CannotSimplify
  else
    let '(total, used) := fst r in
    Ok (Result (VFloat (PrimFloat.div total (F64.of_int used))) n).

(* scratch and isFloat reallocated to length n, the old contents copied *)
Definition grow {A : Type} (n : Z) (l : list A) (zero : A) : list A :=
  take (Z.to_nat n) (app l (replicate (Z.to_nat n) zero)).

Definition copyWindow (n : Z) (e : Expression) (i : Z) : result action :=
  do op <- findOperator e (isub i n) i;
  if op then Ok CannotSimplify
  else
    let e1 := withHead e (scratchHead e - 1) in
    let e2 :=
      if len (scratch e1) <? scratchHead e1 - 1 + n then
        withIsFloat
          (withScratch e1 (grow (scratchHead e1 + n) (scratch e1) VNil))
          (grow (scratchHead e1 + n) (isFloat e1) false)
      else e1 in
    do r <- forLoop (fuelOf e2) (isub i n) i e2
      (fun argIdx e3 =>
         do v <- scratchAt e3 argIdx;
         do e4 <- setScratch e3 (scratchHead e3) v;
         do fl <- isFloatAt e4 argIdx;
         do e5 <- setIsFloat e4 (scratchHead e4) fl;
         Ok (withHead e5 (scratchHead e5 + 1), false));
    Ok (StackUpdated (fst r)).

Definition case_DEPTH (e : Expression) : result action :=
  do e1 <- push e (VInt (scratchHead e)) true;
  Ok (StackUpdated e1).

Definition case_DUP (e : Expression) : result action :=
  do v <- scratchAt e (scratchHead e - 1);
  do e1 <- setScratch e (scratchHead e) v;
  do fl <- isFloatAt e1 (scratchHead e1 - 1);
  do e2 <- setIsFloat e1 (scratchHead e1) fl;
  Ok (StackUpdated (withHead e2 (scratchHead e2 + 1))).

(** The shape shared by the relational and extremum operators: [both] when
    the two operands are flagged as floats, [same] for two equal strings,
    [mixed] when exactly one operand is flagged. Each branch asserts the
    type of an operand where it reads it. *)
Definition relational (e : Expression) (i : Z)
    (both : result action)
    (same : result action)
    (mixed : result action) : result action :=
  do fa <- isFloatAt e i;
  do fb <- (if fa then isFloatAt e (i + 1) else Ok false);
  if fa && fb then both
  else
    do fa' <- isFloatAt e i;
    do fb' <- (if negb fa' then isFloatAt e (i + 1) else Ok true);
    if negb fa' && negb fb' then
      do s1 <- stringAt e i;
      do s2 <- stringAt e (i + 1);
      if String.eqb s1 s2 then same else Ok CannotSimplify
    else mixed.

Definition bool01 (b : bool) : result action :=
  resultF (if b then F64.one else F64.zero).

(** EQ and NE on two floats. *)
Definition compareBoth (cmp : float -> float -> bool) (e : Expression) (i : Z)
    : result action :=
  do a <- floatAt e i;
  do b <- floatAt e (i + 1);
  bool01 (cmp a b).

(** GE, GT, LE, LT on two floats: NaN when either is NaN; the second
    operand is read when the first is not NaN. *)
Definition compareNaN (cmp : float -> float -> bool) (e : Expression) (i : Z)
    : result action :=
  do a <- floatAt e i;
  if F64.IsNaN a then resultF F64.NaN
  else
    do b <- floatAt e (i + 1);
    if F64.IsNaN b then resultF F64.NaN
    else
      do a' <- floatAt e i;
      do b' <- floatAt e (i + 1);
      bool01 (cmp a' b').

Definition case_EQ (e : Expression) (i : Z) : result action :=
  relational e i (compareBoth F64.eq e i) (resultF F64.one) (Ok CannotSimplify).
Definition case_NE (e : Expression) (i : Z) : result action :=
  relational e i (compareBoth F64.ne e i) (resultF F64.zero) (Ok CannotSimplify).
Definition case_GE (e : Expression) (i : Z) : result action :=
  relational e i (compareNaN F64.ge e i) (resultF F64.one) (Ok CannotSimplify).
Definition case_GT (e : Expression) (i : Z) : result action :=
  relational e i (compareNaN F64.gt e i) (resultF F64.zero) (Ok CannotSimplify).
Definition case_LE (e : Expression) (i : Z) : result action :=
  relational e i (compareNaN F64.le e i) (resultF F64.one) (Ok CannotSimplify).
Definition case_LT (e : Expression) (i : Z) : result action :=
  relational e i (compareNaN F64.lt e i) (resultF F64.zero) (Ok CannotSimplify).

Definition case_EXC (e : Expression) (i : Z) : result action :=
  do v1 <- scratchAt e (i + 1);
  do v0 <- scratchAt e i;
  do e1 <- setScratch e i v1;
  do e2 <- setScratch e1 (i + 1) v0;
  do f1 <- isFloatAt e2 (i + 1);
  do f0 <- isFloatAt e2 i;
  do e3 <- setIsFloat e2 i f1;
  do e4 <- setIsFloat e3 (i + 1) f0;
  Ok (StackUpdated e4).

Definition case_IF (e : Expression) (i : Z) : result action :=
  do fa <- isFloatAt e i;
  if fa then
    do a <- floatAt e i;
    if F64.lt a F64.zero then resultAt e (i + 1)
    else
      do a' <- floatAt e i;
      if F64.gt a' F64.zero then resultAt e (i + 1) else resultAt e (i + 2)
  else Ok CannotSimplify.

Definition indexWindow (n : Z) (e : Expression) (i : Z) : result action :=
  do op <- findOperator e (isub i n) i;
  if op then Ok CannotSimplify
  else
    do v <- scratchAt e (wrap64 (isub (scratchHead e) n - 1));
    do e1 <- setScratch e (scratchHead e - 1) v;
    do fl <- isFloatAt e1 (wrap64 (isub (scratchHead e1) n - 1));
    do e2 <- setIsFloat e1 (scratchHead e1 - 1) fl;
    Ok (StackUpdated e2).

Definition case_ISINF (e : Expression) (i : Z) : result action :=
  do a <- floatAt e i;
  bool01 (F64.IsInf a 1 || F64.IsInf a (-1)).

Definition case_LIMIT (e : Expression) (i : Z) : result action :=
  do a <- floatAt e i;
  if F64.IsNaN a then resultF F64.NaN
  else
    do lo <- floatAt e (i + 1);
    if F64.IsNaN lo then resultF F64.NaN
    else
      do hi <- floatAt e (i + 2);
      if F64.IsNaN hi then resultF F64.NaN
      else if F64.IsInf a (-1) || F64.IsInf lo (-1) || F64.IsInf hi (-1)
      then resultF F64.NaN
      else if negb (F64.lt a lo || F64.gt a hi) then resultAt e i
      else resultF F64.NaN.

(** median(items); the slice is sorted in place, so the sorted items are
    returned as well. *)
Definition median (items : list float) : result (float * list float) :=
  let sorted := F64.Float64s items in
  let middle := Z.quot (len sorted) 2 in
  if Z.rem (len sorted) 2 =? 0 then
    do a <- orPanic IndexOutOfRange (zindex sorted (middle - 1));
    do b <- orPanic IndexOutOfRange (zindex sorted middle);
    Ok (PrimFloat.div (PrimFloat.add a b) 2%float, sorted)
  else
    do m <- orPanic IndexOutOfRange (zindex sorted middle);
    Ok (m, sorted).

Definition mad (items : list float) : result float :=
  do r <- median items;
  let '(med, sorted) := r in
  do r' <- median (map (fun x => F64.Abs (PrimFloat.sub x med)) sorted);
  Ok (fst r').

(** MAD and MEDIAN differ in the function applied to the window. *)
Definition sortedWindow (f : list float -> result float)
    (n : Z) (e : Expression) (i : Z) : result action :=
  if n =? 1 then
    do v <- scratchAt e (i - 1); Ok (Result v n)
  else
    do _ <- make n;
    do r <- collectFloats e (isub i n) i;
    if snd r then Ok CannotSimplify
    else do x <- f (fst r); Ok (Result (VFloat x) n).

Definition madWindow := sortedWindow mad.
Definition medianWindow := sortedWindow (fun items => do r <- median items; Ok (fst r)).

(** MAX, MIN, MAXNAN, MINNAN: [ext] is math.Max or math.Min (called with the
    second operand first); with a NaN operand at index [nan], the result is
    that operand for MAX and MIN ([propagate]) and the [other] one for MAXNAN
    and MINNAN. *)
Definition extremum (ext : float -> float -> float) (propagate : bool)
    (e : Expression) (i : Z) : result action :=
  let pick (nan other : Z) := resultAt e (if propagate then nan else other) in
  relational e i
    (do a <- floatAt e i;
     if F64.IsNaN a then pick i (i + 1)
     else
       do b <- floatAt e (i + 1);
       if F64.IsNaN b then pick (i + 1) i
       else
         do b' <- floatAt e (i + 1);
         do a' <- floatAt e i;
         resultF (ext b' a'))
    (resultAt e i)
    (do fa <- isFloatAt e i;
     do aNaN <- (if fa then do a <- floatAt e i; Ok (F64.IsNaN a) else Ok false);
     if aNaN then pick i (i + 1)
     else
       do fb <- isFloatAt e (i + 1);
       do bNaN <- (if fb then do b <- floatAt e (i + 1); Ok (F64.IsNaN b) else Ok false);
       if bNaN then pick (i + 1) i else Ok CannotSimplify).

Definition case_MAX := extremum F64.Max true.
Definition case_MAXNAN := extremum F64.Max false.
Definition case_MIN := extremum F64.Min true.
Definition case_MINNAN := extremum F64.Min false.

Definition percentWindow (percent : float) (n : Z) (e : Expression) (i : Z) : result action :=
  do _ <- make n;
  do r <- collectFloats e (isub i n) i;
  if snd r then Ok CannotSimplify
  else
    let items := F64.Float64s (fst r) in
    let rank :=
      toInt env
        (F64.Ceil (PrimFloat.mul (PrimFloat.div percent 100%float)
                                 (F64.of_int (len items)))) in
    do x <- orPanic IndexOutOfRange (zindex items (wrap64 (rank - 1)));
    Ok (Result (VFloat x) n).

Definition case_PERCENT (token : string) (e : Expression) (i : Z) : result action :=
  do percent <- checkCount token e i;
  do c <- floatAt e (i + 1);
  if F64.IsNaN c || F64.IsInf c 1 || F64.IsInf c (-1) then
    do v <- scratchAt e (i + 1);
    Err (ErrSyntax fmtPositive [AString token; AValue v]) e
  else
    let n := toInt env c in
    do _ <- checkItems token e n (scratchHead e - 2);
    percentWindow percent n e i.

Definition case_POP (e : Expression) : result action :=
  Ok (StackUpdated (withHead e (scratchHead e - 1))).

(* s[lo:] *)
Definition sliceFrom {A : Type} (l : list A) (lo : Z) : result (list A) :=
  if (0 <=? lo) && (lo <=? len l) then Ok (drop (Z.to_nat lo) l)
  else Panic SliceBounds.

(* copy(e.scratch[lo:], src) *)
Definition copyInto (l : list value) (lo : Z) (src : list value) : result (list value) :=
  do dst <- sliceFrom l lo;
  let k := Nat.min (length dst) (length src) in
  Ok (app (take (Z.to_nat lo) l) (app (take k src) (drop k dst))).

Definition revWindow (n : Z) (e : Expression) (i : Z) : result action :=
  do op <- findOperator e (isub i n) i;
  if op then Ok CannotSimplify
  else
    do _ <- make n;
    let e1 := withHead e (scratchHead e - 1) in
    do src <- sliceFrom (scratch e1) (isub (scratchHead e1) n);
    let items := take (Z.to_nat n) (app src (replicate (Z.to_nat n) VNil)) in
    do r <- forLoop (fuelOf e1) (isub i n) i (e1, n - 1)
      (fun argIdx s =>
         let '(e2, itemIdx) := s in
         do item <- orPanic IndexOutOfRange (zindex items itemIdx);
         do e3 <- setScratch e2 argIdx item;
         do e4 <- setIsFloat e3 argIdx (isFloat64 item);
         Ok ((e4, itemIdx - 1), false));
    Ok (StackUpdated (fst (fst r))).

Definition rollWindow (n m : Z) (e : Expression) (i : Z) : result action :=
  do op <- findOperator e (isub i n) i;
  if op then Ok CannotSimplify
  else
    (* three copies of the window *)
    do once <- forLoop (fuelOf e) 0 n []
      (fun k items =>
         do v <- scratchAt e (isub (iadd k i) n);
         Ok (app items [v], false));
    let items := app (fst once) (app (fst once) (fst once)) in
    let first := isub (Z.quot (len items) 3) m in
    let last := iadd first n in
    (* items[first:last] may reach into the capacity append left *)
    if (0 <=? first) && (first <=? last)
       && (last <=? Z.max (len items) (appendCap env (len items)))
    then
      let src :=
        take (Z.to_nat (last - first))
          (drop (Z.to_nat first) (app items (replicate (Z.to_nat last) VNil))) in
      do s <- copyInto (scratch e) (isub i n) src;
      Ok (StackUpdated (withHead (withScratch e s) (scratchHead e - 2)))
    else Panic SliceBounds.

Definition case_ROLL (token : string) (e : Expression) (i : Z) : result action :=
  do n <- countOf token e i;
  do c <- floatAt e (i + 1);
  if F64.IsNaN c || F64.IsInf c 1 || F64.IsInf c (-1) then
    do v <- scratchAt e (i + 1);
    Err (ErrSyntax fmtPositive [AString token; AValue v]) e
  else
    let m := toInt env c in
    do _ <- checkItems token e m (scratchHead e - 1);
    rollWindow n m e i.

(** SMAX and SMIN: [better item best] is [item > max] or [item < min]. *)
Definition extremumOfWindow (better : float -> float -> bool)
    (n : Z) (e : Expression) (i : Z) : result action :=
  if n =? 1 then
    do v <- scratchAt e (i - 1); Ok (Result v n)
  else
    do top <- scratchAt e (i - 1);
    match asFloat top with
    | None => Ok CannotSimplify
    | Some best =>
        do r <- forLoop (fuelOf e) (isub i n) (i - 1) best
          (fun argIdx best =>
             do fl <- isFloatAt e argIdx;
             if negb fl then Ok (best, true)
             else
               do item <- floatAt e argIdx;
               Ok (if better item best then item else best, false));
        if snd r then Ok CannotSimplify else Ok (Result (VFloat (fst r)) n)
    end.

Definition smaxWindow := extremumOfWindow F64.gt.
Definition sminWindow := extremumOfWindow F64.lt.

Definition sortWindow (n : Z) (e : Expression) (i : Z) : result action :=
  do _ <- make n;
  do r <- collectFloats e (isub i n) i;
  if snd r then Ok CannotSimplify
  else
    let items := F64.Float64s (fst r) in
    do r' <- forLoop (fuelOf e) (isub i n) i e
      (fun argIdx e1 =>
         do x <- orPanic IndexOutOfRange (zindex items (isub (iadd argIdx i) n));
         do e2 <- setScratch e1 argIdx (VFloat x);
         do e3 <- setIsFloat e2 argIdx true;
         Ok (e3, false));
    Ok (StackUpdated (withHead (fst r') (scratchHead (fst r') - 1))).

Definition stdevWindow (n : Z) (e : Expression) (i : Z) : result action :=
  do _ <- make n;
  do r <- forLoop (fuelOf e) (isub i n) i (F64.zero, 0, [])
    (fun argIdx s =>
       let '(total, used, items) := s in
       do fl <- isFloatAt e argIdx;
       if negb fl then Ok (s, true)
       else
         do x <- floatAt e argIdx;
         if negb (F64.IsNaN x)
         then Ok ((PrimFloat.add total x, used + 1, app items [x]), false)
         else Ok (s, false));
  if snd r then Ok CannotSimplify
  else
    let '(total, used, items) := fst r in
    let mean := PrimFloat.div total (F64.of_int used) in
    let total' :=
      fold_left
        (fun acc x =>
           let diff := PrimFloat.sub x mean in
           PrimFloat.add acc (PrimFloat.mul diff diff))
        items F64.zero in
    Ok (Result (VFloat (F64.Sqrt (PrimFloat.div total' (F64.of_int used)))) n).

(** TREND and TRENDNAN: [skipNaN] is true for TRENDNAN. *)
Definition trend (skipNaN : bool) (token : string) (popCount : Z)
    (e : Expression) (i : Z) : result action :=
  do v <- floatAt e (i + 1);
  if F64.IsNaN v || F64.le v F64.zero || F64.IsInf v 1 then
    Err (ErrSyntax fmtPositive [AString token; AFloat v]) e
  else
    let n := toInt env (F64.Ceil (PrimFloat.div v (secondsPerInterval e))) in
    do lab <- scratchAt e i;
    match asString lab with
    | None =>
        Err (ErrSyntax "%s operator requires label but found %T: %v"
               [AString token; AValue lab; AValue lab]) e
    | Some label =>
        match bindings !! label with
        | None => Ok CannotSimplify
        | Some (BSeries s) =>
            if len s <? n then
              Err (ErrSyntax "%s operand specifies %d values, but only %d available"
                     [AString token; AInt n; AInt (len s)]) e
            else
              let e1 := decOpen e label in
              do r <- forLoop (Datatypes.S (length s)) (isub (len s) n) (len s) (F64.zero, 0)
                (fun argIdx acc =>
                   do x <- orPanic IndexOutOfRange (zindex s argIdx);
                   if skipNaN && F64.IsNaN x then Ok (acc, false)
                   else Ok ((PrimFloat.add (fst acc) x, snd acc + 1), false));
              let '(total, used) := fst r in
              let e2 := withHead e1 (scratchHead e1 - popCount) in
              do e3 <- push e2 (VFloat (PrimFloat.div total (F64.of_int used))) true;
              Ok (StackUpdated e3)
        | Some (BFloat f) =>
            Err (ErrSyntax "%s operand specifies %q label, which is not a series of numbers: %T"
                   [AString token; AString label; ASeries []]) e
        end
    end.

Definition case_UN (e : Expression) (i : Z) : result action :=
  do a <- floatAt e i; bool01 (F64.IsNaN a).

(** The operator switch. *)
Definition operatorCase (token : string) (opArity : arityTuple)
    (e : Expression) (i : Z) : result action :=
  if String.eqb token "+" then case_add e i
  else if String.eqb token "-" then case_sub e i
  else if String.eqb token "*" then case_mul e i
  else if String.eqb token "/" then case_div e i
  else if String.eqb token "%" then case_mod e i
  else if String.eqb token "ABS" then unary F64.Abs e i
  else if String.eqb token "ADDNAN" then case_ADDNAN e i
  else if String.eqb token "ATAN" then unary (Atan env) e i
  else if String.eqb token "ATAN2" then case_ATAN2 e i
  else if String.eqb token "AVG" then counted token avgWindow e i
  else if String.eqb token "CEIL" then unary F64.Ceil e i
  else if String.eqb token "COPY" then counted token copyWindow e i
  else if String.eqb token "COS" then unary (Cos env) e i
  else if String.eqb token "DEG2RAD" then
    unary (fun a => PrimFloat.div (PrimFloat.mul a F64.Pi) 180%float) e i
  else if String.eqb token "DEPTH" then case_DEPTH e
  else if String.eqb token "DUP" then case_DUP e
  else if String.eqb token "EQ" then case_EQ e i
  else if String.eqb token "EXC" then case_EXC e i
  else if String.eqb token "EXP" then unary (Exp env) e i
  else if String.eqb token "FLOOR" then unary F64.Floor e i
  else if String.eqb token "GE" then case_GE e i
  else if String.eqb token "GT" then case_GT e i
  else if String.eqb token "IF" then case_IF e i
  else if String.eqb token "INDEX" then counted token indexWindow e i
  else if String.eqb token "ISINF" then case_ISINF e i
  else if String.eqb token "LE" then case_LE e i
  else if String.eqb token "LIMIT" then case_LIMIT e i
  else if String.eqb token "LOG" then unary (Log env) e i
  else if String.eqb token "LT" then case_LT e i
  else if String.eqb token "MAD" then counted token madWindow e i
  else if String.eqb token "MAX" then case_MAX e i
  else if String.eqb token "MAXNAN" then case_MAXNAN e i
  else if String.eqb token "MEDIAN" then counted token medianWindow e i
  else if String.eqb token "MIN" then case_MIN e i
  else if String.eqb token "MINNAN" then case_MINNAN e i
  else if String.eqb token "NE" then case_NE e i
  else if String.eqb token "PERCENT" then case_PERCENT token e i
  else if String.eqb token "POP" then case_POP e
  else if String.eqb token "POW" then case_POW e i
  else if String.eqb token "RAD2DEG" then
    unary (fun a => PrimFloat.div (PrimFloat.mul a 180%float) F64.Pi) e i
  else if String.eqb token "REV" then counted token revWindow e i
  else if String.eqb token "ROLL" then case_ROLL token e i
  else if String.eqb token "SIN" then unary (Sin env) e i
  else if String.eqb token "SMAX" then counted token smaxWindow e i
  else if String.eqb token "SMIN" then counted token sminWindow e i
  else if String.eqb token "SORT" then counted token sortWindow e i
  else if String.eqb token "SQRT" then unary F64.Sqrt e i
  else if String.eqb token "STDEV" then counted token stdevWindow e i
  else if String.eqb token "TREND" then trend false token (popCount opArity) e i
  else if String.eqb token "TRENDNAN" then trend true token (popCount opArity) e i
  else if String.eqb token "UN" then case_UN e i
  else Ok (Result VNil 0).  (* not reached: every key of the catalog has a case *)

End Cases.

(** ** simplify *)

Section Simplify.

Variable env : Env.
Variable bindings : gmap string binding.
Variable tc : timeCtx.

(** The first pre-check loop: is some item of the float window not a float64? *)
Definition floatCheck (e : Expression) (lo hi : Z) : result bool :=
  do r <- forLoop (fuelOf e) lo hi tt
    (fun argIdx _ =>
       do v <- scratchAt e argIdx;
       Ok (tt, negb (isFloat64 v)));
  Ok (snd r).

(** The second pre-check loop: is some item of the non-operator window an
    operator? *)
Definition nonOperatorCheck (e : Expression) (lo hi : Z) : result bool :=
  do r <- forLoop (fuelOf e) lo hi tt
    (fun argIdx _ =>
       do fl <- isFloatAt e argIdx;
       if negb fl then
         do v <- scratchAt e argIdx;
         do s <- orPanic TypeAssertion (asString v);
         Ok (tt, isOperator s)
       else Ok (tt, false));
  Ok (snd r).

(** What follows the switch. *)
Definition epilogue (token : string) (opArity : arityTuple)
    (e : Expression) (act : action) : result Expression :=
  match act with
  | CannotSimplify => push e (VString token) false
  | Result v additionalArgumentCount =>
      let e1 :=
        withHead e (isub (scratchHead e) (iadd (popCount opArity) additionalArgumentCount)) in
      do e2 <- setScratch e1 (scratchHead e1) v;
      do e3 <- setIsFloat e2 (scratchHead e2) (isFloat64 v);
      Ok (withHead e3 (scratchHead e3 + 1))
  | StackUpdated e' => Ok e'
  end.

(** A token that names an operator. *)
Definition operator (token : string) (opArity : arityTuple)
    (e : Expression) : result Expression :=
  if scratchHead e <? popCount opArity then
    Err (ErrSyntax fmtNotEnough [AString token; AInt (popCount opArity)]) e
  else
    let indexOfFirstArg := scratchHead e - popCount opArity in
    do notFloat <-
      floatCheck e (scratchHead e - floatOffset opArity)
        (scratchHead e - floatOffset opArity + floatCount opArity);
    do isOp <-
      nonOperatorCheck e (scratchHead e - nonOperatorOffset opArity)
        (scratchHead e - nonOperatorOffset opArity + nonOperatorCount opArity);
    do act <-
      (if notFloat || isOp then Ok CannotSimplify
       else operatorCase env bindings token opArity e indexOfFirstArg);
    epilogue token opArity e act.

Definition pushConst (e : Expression) (f : float) : result Expression :=
  push e (VFloat f) true.

(** LTIME, NEWDAY, NEWWEEK, NEWMONTH, NEWYEAR, TIME: the value when TIME is
    bound, else the token itself, counted against TIME. *)
Definition pushTime (e : Expression) (token : string) (f : float) : result Expression :=
  if isTimeSet tc then push e (VFloat f) true
  else push (incOpen e "TIME") (VString token) false.

(** One iteration of the loop over [e.tokens]. *)
Definition simplifyToken (e : Expression) (tokIdx : Z) (tok : value) : result Expression :=
  match tok with
  | VFloat token => push e (VFloat token) true
  | VString token =>
      if String.eqb token "DAY" then pushConst e 86400%float
      else if String.eqb token "HOUR" then pushConst e 3600%float
      else if String.eqb token "INF" then pushConst e (F64.Inf 1)
      else if String.eqb token "LTIME" then pushTime e token (jTimeSeconds tc)
      else if String.eqb token "MINUTE" then pushConst e 60%float
      else if String.eqb token "NEGINF" then pushConst e (F64.Inf (-1))
      else if String.eqb token "NEWDAY" then
        pushTime e token (isFirstOfDay env (jTimeSeconds tc) (secondsPerInterval e))
      else if String.eqb token "NEWMONTH" then
        pushTime e token
          (if LocalDay env (jTime tc) =? 1
           then isFirstOfDay env (jTimeSeconds tc) (secondsPerInterval e)
           else F64.zero)
      else if String.eqb token "NEWWEEK" then
        pushTime e token
          (if LocalWeekday env (jTime tc) =? 0
           then isFirstOfDay env (jTimeSeconds tc) (secondsPerInterval e)
           else F64.zero)
      else if String.eqb token "NEWYEAR" then
        pushTime e token
          (if (LocalMonth env (jTime tc) =? 1) && (LocalDay env (jTime tc) =? 1)
           then isFirstOfDay env (jTimeSeconds tc) (secondsPerInterval e)
           else F64.zero)
      else if String.eqb token "NOW" then
        if performTimeSubstitutions e then push e (VFloat (nowSeconds tc)) true
        else push (incOpen e token) (VString token) false
      else if String.eqb token "STEPWIDTH" then pushConst e (secondsPerInterval e)
      else if String.eqb token "TIME" then pushTime e token (zTimeSeconds tc)
      else if String.eqb token "UNKN" then pushConst e F64.NaN
      else if String.eqb token "WEEK" then pushConst e 604800%float
      else if String.eqb token "" then Err (ErrSyntax "empty token" []) e
      else
        match arity token with
        | Some opArity => operator token opArity e
        | None =>
            match ParseFloat env token with
            | Some value => push e (VFloat value) true
            | None =>
                match bindings !! token with
                | Some (BFloat v) => push e (VFloat v) true
                | Some (BSeries _) => push (incOpen e token) (VString token) false
                | None => push (incOpen e token) (VString token) false
                end
            end
        end
  | _ =>
      Err (ErrSyntax "unexpected token type at position %d: %v"
             [AInt (tokIdx + 1); AValue tok]) e
  end.

Fixpoint simplifyLoop (toks : list value) (tokIdx : Z) (e : Expression) : result Expression :=
  match toks with
  | [] => Ok e
  | tok :: rest =>
      do e' <- simplifyToken e tokIdx tok;
      simplifyLoop rest (tokIdx + 1) e'
  end.

End Simplify.

(** The time context [simplify] computes before its loop. *)
Definition timeOf (env : Env) (bindings : gmap string binding) (e : Expression) : result timeCtx :=
  if performTimeSubstitutions e then
    let now := F64.of_int (NowUnix env) in
    match bindings !! "TIME" with
    | Some (BFloat z) =>
        let unix := toInt env z in
        let jo := ZoneOffset env unix in
        Ok (mkTimeCtx true now (F64.of_int (iadd unix jo)) z unix)
    | Some (BSeries s) =>
        Err (ErrSyntax "TIME ought to be bound to number rather than %T"
               [ABinding (BSeries s)]) e
    | None => Ok (mkTimeCtx false now F64.zero F64.zero 0)
    end
  else Ok noTime.

Definition simplify (env : Env) (bindings : gmap string goval) (e : Expression) : result Expression :=
  match coerceMapValuesToFloat64 bindings with
  | CoerceErr err => Err err e
  | CoercePanic p => Panic p
  | Coerced b =>
      let e1 := withOpenBindings (withHead e 0) ∅ in
      do tc <- timeOf env b e1;
      simplifyLoop env b tc (tokens e1) 0 e1
  end.

(** ** Evaluate, Partial, New, String *)

(** The names Evaluate reports: those whose count is positive. Go collects
    them in the map's iteration order, which is unspecified. *)
Definition positiveOpenBindings (e : Expression) : list string :=
  map fst (List.filter (fun kv => 0 <? snd kv) (map_to_list (openBindings e))).

(** [Ok (x, e')]: Evaluate returned [x], leaving the receiver as [e']. *)
Definition Evaluate (env : Env) (bindings : gmap string goval) (e : Expression)
    : result (float * Expression) :=
  do e1 <- simplify env bindings e;
  let open := positiveOpenBindings e1 in
  if 0 <? len open then Err (ErrOpenBindings open) e1
  else if negb (scratchHead e1 =? 1) then
    Err (ErrSyntax "extra parameters: %v" [AValues (scratch e1)]) e1
  else
    do v <- scratchAt e1 0;
    match asFloat v with
    | Some r => Ok (r, e1)
    | None => Err (ExpectedFloat v) e1
    end.

(** [Ok (exp, e')]: Partial returned the new Expression [exp], leaving the
    receiver as [e']. *)
Definition Partial (env : Env) (bindings : gmap string goval) (e : Expression)
    : result (Expression * Expression) :=
  do _ <- make (scratchSize e);
  let exp :=
    mkExpression (delimiter e) ∅ (secondsPerInterval e) (tokens e) false
      (scratchSize e) 0
      (replicate (Z.to_nat (scratchSize e)) VNil)
      (replicate (Z.to_nat (scratchSize e)) false) in
  match simplify env bindings exp with
  | Err err _ => Err err e
  | Panic p => Panic p
  | Ok exp1 =>
      let exp2 := withPerformTimeSubstitutions exp1 (performTimeSubstitutions e) in
      (* exp.tokens = exp.tokens[:exp.scratchHead] *)
      if (0 <=? scratchHead exp2) && (scratchHead exp2 <=? len (tokens exp2)) then
        let shrunk := take (Z.to_nat (scratchHead exp2)) (tokens exp2) in
        (* copy(exp.tokens, exp.scratch) *)
        let k := Nat.min (length shrunk) (length (scratch exp2)) in
        Ok (withTokens exp2 (app (take k (scratch exp2)) (drop k shrunk)), e)
      else Panic SliceBounds
  end.

Inductive ExpressionConfigurator : Type :=
| Delimiter (someDelimiter : ascii)
| SecondsPerInterval (seconds : float).

Definition configure (c : ExpressionConfigurator) (e : Expression) : result Expression :=
  match c with
  | Delimiter d =>
      if isOperator (String d "") then
        Err (ErrSyntax "cannot use %c operator for delimiter" [AString (String d "")]) e
      else
        Ok (mkExpression d (openBindings e) (secondsPerInterval e) (tokens e)
              (performTimeSubstitutions e) (scratchSize e) (scratchHead e)
              (scratch e) (isFloat e))
  | SecondsPerInterval seconds =>
      if F64.le seconds F64.zero then
        Err (ErrSyntax "cannot use %d seconds as interval" [AFloat seconds]) e
      else
        Ok (mkExpression (delimiter e) (openBindings e) seconds (tokens e)
              (performTimeSubstitutions e) (scratchSize e) (scratchHead e)
              (scratch e) (isFloat e))
  end.

(* strings.Split(s, string(d)) *)
Fixpoint Split (d : ascii) (s : string) : list string :=
  match s with
  | EmptyString => [""]
  | String c s' =>
      if Ascii.eqb c d then "" :: Split d s'
      else
        match Split d s' with
        | hd :: tl => String c hd :: tl
        | [] => [String c ""]
        end
  end.

Definition isTimeName (token : string) : bool :=
  String.eqb token "NOW" || String.eqb token "TIME" || String.eqb token "LTIME"
  || String.eqb token "NEWDAY" || String.eqb token "NEWWEEK"
  || String.eqb token "NEWMONTH" || String.eqb token "NEWYEAR".

Definition DefaultDelimiter : ascii := ","%char.
Definition DefaultSecondsPerInterval : float := 300%float.

Definition New (env : Env) (someExpression : string)
    (setters : list ExpressionConfigurator) : result Expression :=
  let e0 :=
    mkExpression DefaultDelimiter ∅ DefaultSecondsPerInterval [] false 0 0 [] [] in
  if String.eqb someExpression "" then Err (ErrSyntaxMessage "empty expression") e0
  else
    do e <- fold_left (fun r c => do e <- r; configure c e) setters (Ok e0);
    let toks := Split (delimiter e) someExpression in
    let size :=
      len toks + len (List.filter (fun t => String.eqb t "DUP") toks) in
    let e1 :=
      mkExpression (delimiter e) (openBindings e) (secondsPerInterval e)
        (map VString toks) (existsb isTimeName toks) size 0
        (replicate (Z.to_nat size) VNil) (replicate (Z.to_nat size) false) in
    do r <- Partial env ∅ e1;
    Ok (fst r).

Definition renderToken (env : Env) (v : value) : string :=
  match v with
  | VFloat f =>
      if F64.IsNaN f then "UNKN"
      else if F64.IsInf f 1 then "INF"
      else if F64.IsInf f (-1) then "NEGINF"
      else SprintFloat env f
  | VString s => s
  | VInt n => pretty n
  | VNil => "<nil>"
  end.

(* strings.Join *)
Fixpoint Join (strs : list string) (sep : string) : string :=
  match strs with
  | [] => ""
  | [s] => s
  | s :: rest => String.append s (String.append sep (Join rest sep))
  end.

Definition String_ (env : Env) (e : Expression) : string :=
  Join (map (renderToken env) (tokens e)) (String (delimiter e) "").

(** ** Error messages *)

Definition valueType (v : value) : string :=
  match v with
  | VNil => "<nil>"
  | VFloat _ => "float64"
  | VString _ => "string"
  | VInt _ => "int"
  end.

(* %v of a float64 *)
Definition verbFloat (env : Env) (f : float) : string :=
  if F64.IsNaN f then "NaN"
  else if F64.IsInf f 1 then "+Inf"
  else if F64.IsInf f (-1) then "-Inf"
  else SprintFloat env f.

Definition verbValue (env : Env) (v : value) : string :=
  match v with
  | VNil => "<nil>"
  | VFloat f => verbFloat env f
  | VString s => s
  | VInt n => pretty n
  end.

Definition dquote : string := String (ascii_of_nat 34) EmptyString.

Definition bracket (items : list string) : string :=
  String.append "[" (String.append (Join items " ") "]").

Definition formatArg (env : Env) (verb : ascii) (a : fmtArg) : string :=
  match a with
  | AString s =>
      if Ascii.eqb verb "q"%char then String.append dquote (String.append s dquote)
      else s
  | AInt n => pretty n
  | AFloat f =>
      if Ascii.eqb verb "d"%char
      then String.append "%!d(float64=" (String.append (verbFloat env f) ")")
      else verbFloat env f
  | AValue v => if Ascii.eqb verb "T"%char then valueType v else verbValue env v
  | AValues l => bracket (map (verbValue env) l)
  | ABinding (BFloat f) =>
      if Ascii.eqb verb "T"%char then "float64" else verbFloat env f
  | ABinding (BSeries l) =>
      if Ascii.eqb verb "T"%char then "[]float64" else bracket (map (verbFloat env) l)
  | ASeries l =>
      if Ascii.eqb verb "T"%char then "[]float64" else bracket (map (verbFloat env) l)
  end.

(** fmt.Sprintf for the verbs the engine uses, each with an operand. *)
Fixpoint Sprintf (env : Env) (format : string) (args : list fmtArg) : string :=
  match format with
  | EmptyString => ""
  | String c rest =>
      if Ascii.eqb c "%"%char then
        match rest, args with
        | String verb rest', a :: args' =>
            String.append (formatArg env verb a) (Sprintf env rest' args')
        | _, _ => String c (Sprintf env rest args)
        end
      else String c (Sprintf env rest args)
  end.

(** The Error method of the four error types. *)
Definition Error (env : Env) (err : error) : string :=
  match err with
  | ErrSyntax format args =>
      let message := Sprintf env format args in
      String.append "syntax error "
        (if String.eqb message "" then "" else String.append ": " message)
  | ErrSyntaxMessage message => String.append "syntax error " message
  | ErrOpenBindings names => String.append "open bindings: " (Join names ",")
  | ExpectedFloat v => String.append "expected float: " (valueType v)
  | ErrBadBindingType key type =>
      String.append "bad binding type for "
        (String.append dquote (String.append key
           (String.append dquote (String.append ": "
              (String.append dquote (String.append type dquote))))))
  end.

(** ** A concrete host

    [Sample.env] is one environment, used to run the engine on examples: a
    64-bit x86 host in the UTC zone at a fixed instant. Its parser reads the
    plain decimal literals of at most 15 digits (and inf, infinity, nan) and
    its printer writes the
    floats whose exact decimal expansion has at most 15 digits, as
    strconv.ParseFloat and fmt.Sprint do on those; [Mod] is the exact
    remainder. The transcendental functions and the general case of math.Pow
    are not modelled: every statement about them is made for an arbitrary
    [Env], and no example below evaluates them. *)

Module Sample.

Definition digit (c : ascii) : option Z :=
  let n := Z.of_nat (nat_of_ascii c) in
  if (48 <=? n) && (n <=? 57) then Some (n - 48) else None.

(** The digits of [s] before and after its decimal point; [seenDot] tells
    whether the point was passed. The result is (mantissa, number of digits,
    number of fraction digits). *)
Fixpoint scanDigits (s : string) (seenDot : bool) (m nd k : Z) : option (Z * Z * Z) :=
  match s with
  | EmptyString => Some (m, nd, k)
  | String c s' =>
      if Ascii.eqb c "."%char then
        if seenDot then None else scanDigits s' true m nd k
      else
        match digit c with
        | Some d => scanDigits s' seenDot (10 * m + d) (nd + 1) (if seenDot then k + 1 else k)
        | None => None
        end
  end.

Definition lower (c : ascii) : ascii :=
  let n := nat_of_ascii c in
  if (65 <=? n)%nat && (n <=? 90)%nat then ascii_of_nat (n + 32) else c.
Fixpoint lowercase (s : string) : string :=
  match s with
  | EmptyString => EmptyString
  | String c s' => String (lower c) (lowercase s')
  end.

Definition ParseFloat (s : string) : option float :=
  let '(neg, body) :=
    match s with
    | String c s' =>
        if Ascii.eqb c "-"%char then (true, s')
        else if Ascii.eqb c "+"%char then (false, s')
        else (false, s)
    | EmptyString => (false, s)
    end in
  if String.eqb (lowercase body) "inf" || String.eqb (lowercase body) "infinity"
  then Some (if neg then PrimFloat.neg_infinity else PrimFloat.infinity)
  else if String.eqb (lowercase s) "nan" then Some F64.NaN
  else
  match scanDigits body false 0 0 0 with
  | Some (m, nd, k) =>
      if (1 <=? nd) && (nd <=? 15) then
        let x := PrimFloat.div (F64.of_int m) (F64.of_int (10 ^ k)) in
        Some (if neg then PrimFloat.opp x else x)
      else None
  | None => None
  end.

(** [a * 10^(-k)] with the trailing zeros of [a] removed. *)
Fixpoint stripZeros (fuel : nat) (a k : Z) : Z * Z :=
  match fuel with
  | O => (a, k)
  | Datatypes.S fuel' =>
      if (a mod 10 =? 0) && negb (a =? 0) then stripZeros fuel' (a / 10) (k - 1)
      else (a, k)
  end.

Definition zeros (n : Z) : string :=
  fold_right String.append EmptyString (replicate (Z.to_nat n) "0").

Definition substring (lo n : Z) (s : string) : string :=
  String.substring (Z.to_nat lo) (Z.to_nat n) s.

(** The %e and %f layouts of strconv's shortest 'g' format, for the digits
    [d] with the decimal point after the first [dp] of them. *)
Definition layout (d : string) (dp : Z) : string :=
  let nd := Z.of_nat (String.length d) in
  let exp := dp - 1 in
  if (exp <? -4) || (6 <=? exp) then
    let mant :=
      if 1 <? nd then String.append (substring 0 1 d) (String.append "." (substring 1 (nd - 1) d))
      else d in
    let ex := pretty (Z.abs exp) in
    String.append mant
      (String.append (if exp <? 0 then "e-" else "e+")
         (if Z.abs exp <? 10 then String.append "0" ex else ex))
  else if dp <=? 0 then String.append "0." (String.append (zeros (- dp)) d)
  else if nd <=? dp then String.append d (zeros (dp - nd))
  else String.append (substring 0 dp d) (String.append "." (substring dp (nd - dp) d)).

Definition SprintFloat (f : float) : string :=
  match Prim2SF f with
  | S754_zero s => if s then "-0" else "0"
  | S754_finite s m e =>
      let '(a, k) :=
        if 0 <=? e then stripZeros 400 (Z.pos m * 2 ^ e) 0
        else stripZeros 1100 (Z.pos m * 5 ^ (- e)) (- e) in
      let d := pretty a in
      let body :=
        if Z.of_nat (String.length d) <=? 15
        then layout d (Z.of_nat (String.length d) - k)
        else "?" in
      if s then String.append "-" body else body
  | _ => "?"
  end.

(** math.Mod, computed exactly on the integers behind the two floats. *)
Definition Mod (x y : float) : float :=
  if F64.eq y F64.zero || F64.IsInf x 0 || F64.IsNaN x || F64.IsNaN y then F64.NaN
  else
    match Prim2SF x, Prim2SF y with
    | S754_finite sx mx ex, S754_finite _ my ey =>
        let e := Z.min ex ey in
        let r := (Z.pos mx * 2 ^ (ex - e)) mod (Z.pos my * 2 ^ (ey - e)) in
        SF2Prim (binary_normalize prec emax (if sx then - r else r) e sx)
    | _, _ => x
    end.

(** The civil date of a day number (days since 1970-01-01), proleptic
    Gregorian: (month, day of month). *)
Definition civil (days : Z) : Z * Z :=
  let z := days + 719468 in
  let era := z / 146097 in
  let doe := z - era * 146097 in
  let yoe := (doe - doe / 1460 + doe / 36524 - doe / 146096) / 365 in
  let doy := doe - (365 * yoe + yoe / 4 - yoe / 100) in
  let mp := (5 * doy + 2) / 153 in
  let d := doy - (153 * mp + 2) / 5 + 1 in
  let m := if mp <? 10 then mp + 3 else mp - 9 in
  (m, d).

Definition minInt64 (f : float) : Z := - 2 ^ 63.

Lemma minInt64_int64 (f : float) : - 2 ^ 63 <= minInt64 f < 2 ^ 63.
Proof. unfold minInt64. lia. Qed.

Definition unmodelled1 (x : float) : float := F64.NaN.
Definition unmodelled2 (x y : float) : float := F64.NaN.

Definition env : Env :=
  Build_Env
    ParseFloat SprintFloat Mod
    unmodelled2 (* Atan2 *) unmodelled2 (* PowGeneral *)
    unmodelled1 unmodelled1 unmodelled1 unmodelled1 unmodelled1
    minInt64 minInt64_int64
    (fun n => if n <=? 0 then 0 else 2 ^ Z.log2_up n)  (* appendCap *)
    1700000000                                         (* NowUnix *)
    (fun _ => 0)                                       (* ZoneOffset *)
    (fun sec => snd (civil (sec / 86400)))             (* LocalDay *)
    (fun sec => (sec / 86400 + 4) mod 7)               (* LocalWeekday *)
    (fun sec => fst (civil (sec / 86400))).            (* LocalMonth *)

End Sample.

(** * The vocabulary of the properties *)

(** The fields [simplify] never assigns. *)
Definition config (e : Expression) : ascii * float * list value * bool * Z :=
  (delimiter e, secondsPerInterval e, tokens e, performTimeSubstitutions e, scratchSize e).

(** [framed P e r]: a result [r] computed from the receiver [e] satisfies [P]
    if it is a value, and carries a receiver with the configuration of [e] if
    it is an error. *)
Definition framed {A : Type} (P : A -> Prop) (e : Expression) (r : result A) : Prop :=
  match r with
  | Ok a => P a
  | Err _ e' => config e' = config e
  | Panic _ => True
  end.

Definition sameConfig (e e' : Expression) : Prop := config e' = config e.

Definition actionFramed (e : Expression) (act : action) : Prop :=
  match act with
  | StackUpdated e' => config e' = config e
  | _ => True
  end.

(** [noErr m]: the computation [m] returns no error (it may panic). *)
Definition noErr {A : Type} (m : result A) : Prop :=
  match m with Err _ _ => False | _ => True end.

(** Cell [j] of the working stack holds [v], flagged [fl]. *)
Definition holds (e : Expression) (j : Z) (v : value) (fl : bool) : Prop :=
  zindex (scratch e) j = Some v /\ zindex (isFloat e) j = Some fl.

(** The slices of [e] are Go slices: their lengths fit an int. *)
Definition sized (e : Expression) : Prop :=
  len (scratch e) < 2 ^ 63 /\ len (isFloat e) < 2 ^ 63.

(** [e] with its top [k] items replaced by [v]. *)
Definition replaceTop (k : Z) (e : Expression) (v : value) : Expression :=
  let h := scratchHead e - k in
  withHead
    (withIsFloat
       (withScratch e (<[Z.to_nat h := v]> (scratch e)))
       (<[Z.to_nat h := isFloat64 v]> (isFloat e)))
    (h + 1).

(** [e] with [v] pushed, flagged [fl]. *)
Definition pushed (e : Expression) (v : value) (fl : bool) : Expression :=
  withHead
    (withIsFloat
       (withScratch e (<[Z.to_nat (scratchHead e) := v]> (scratch e)))
       (<[Z.to_nat (scratchHead e) := fl]> (isFloat e)))
    (scratchHead e + 1).

(** The value of a comparison that yields NaN when an operand is NaN. *)
Definition compared (cmp : float -> float -> bool) (a b : float) : float :=
  if F64.IsNaN a || F64.IsNaN b then F64.NaN
  else if cmp a b then F64.one else F64.zero.

(** What POW folds to when only its base is a float. *)
Definition powOfBase (a : float) : option float :=
  if F64.eq a F64.zero then Some F64.zero
  else if F64.eq a F64.one then Some F64.one
  else None.

(** What POW folds to when only its exponent [b] is a float, the base being
    the cell [va]. *)
Definition powOfExponent (va : value) (b : float) : option value :=
  if F64.eq b F64.zero then Some (VFloat F64.one)
  else if F64.eq b F64.one then Some va
  else None.

(** The operators whose single argument is a count, each with the code that
    follows the validation of the count. *)
Definition countedWindows (env : Env)
    : list (string * (Z -> Expression -> Z -> result action)) :=
  [ ("AVG", avgWindow); ("COPY", copyWindow); ("INDEX", indexWindow);
    ("MAD", madWindow); ("MEDIAN", medianWindow); ("REV", revWindow);
    ("SMAX", smaxWindow); ("SMIN", sminWindow); ("SORT", sortWindow);
    ("STDEV", stdevWindow) ].

Definition countArity : arityTuple := mkArity 1 1 1 0 0.

Definition twoArity : arityTuple := mkArity 2 2 2 0 0.

(** Every cell of [lo, hi) is flagged as its type says. *)
Definition typedWindow (e : Expression) (lo hi : Z) : Prop :=
  forall j, lo <= j < hi -> exists v, holds e j v (isFloat64 v).

(** Some cell of [lo, hi) is a symbol. *)
Definition hasSymbol (e : Expression) (lo hi : Z) : Prop :=
  exists k s, lo <= k < hi /\ zindex (scratch e) k = Some (VString s).

(** There is room for one more item. *)
Definition room (e : Expression) : Prop :=
  scratchHead e < len (scratch e) /\ scratchHead e < len (isFloat e).

(** The aggregates whose only argument is the count. *)
Definition aggregateWindows
    : list (string * (Z -> Expression -> Z -> result action)) :=
  [ ("AVG", avgWindow); ("STDEV", stdevWindow);
    ("MAD", madWindow); ("MEDIAN", medianWindow);
    ("SMAX", smaxWindow); ("SMIN", sminWindow) ].

(** The four of them that have a shortcut for a window of one item. *)
Definition pinhole (token : string) : bool :=
  String.eqb token "MAD" || String.eqb token "MEDIAN"
  || String.eqb token "SMAX" || String.eqb token "SMIN".

(** The names the token switch tests before it looks a token up. *)
Definition reserved : list string :=
  [ "DAY"; "HOUR"; "INF"; "LTIME"; "MINUTE"; "NEGINF"; "NEWDAY"; "NEWMONTH";
    "NEWWEEK"; "NEWYEAR"; "NOW"; "STEPWIDTH"; "TIME"; "UNKN"; "WEEK"; "" ].

(** A symbol that is no reserved name, no operator and no number, and that
    the bindings do not bind to a number. *)
Definition freeSymbol (env : Env) (bindings : gmap string binding) (s : string) : bool :=
  forallb (fun r => negb (String.eqb s r)) reserved
  && negb (isOperator s)
  && match ParseFloat env s with Some _ => false | None => true end
  && match bindings !! s with Some (BFloat _) => false | _ => true end.

(** A token Partial pushes back as it is: a number, a time-dependent name,
    or a free symbol. *)
Definition inert (env : Env) (bindings : gmap string binding) (tok : value) : bool :=
  match tok with
  | VFloat _ => true
  | VString s => isTimeName s || freeSymbol env bindings s
  | _ => false
  end.

(** The working stack of [e] holds exactly the items [p], in slices of
    length [size]. *)
Definition loaded (size : nat) (e : Expression) (p : list value) : Prop :=
  scratchHead e = len p
  /\ take (length p) (scratch e) = p
  /\ length (scratch e) = size
  /\ length (isFloat e) = size
  /\ performTimeSubstitutions e = false.

(** A receiver whose working stack holds [cells], with [spare] free slots. *)
Definition onStack (cells : list value) (spare : nat) : Expression :=
  mkExpression DefaultDelimiter ∅ DefaultSecondsPerInterval [] false
    (len cells + Z.of_nat spare) (len cells)
    (cells ++ replicate spare VNil)
    (map isFloat64 cells ++ replicate spare false).

(** The tokens of the Expression New builds from a string. *)
Definition compiled (someExpression : string) : option (list value) :=
  match New Sample.env someExpression [] with
  | Ok e => Some (tokens e)
  | _ => None
  end.

(** The Expression a further Partial builds. *)
Definition andThen (bindings : gmap string goval) (r : result Expression)
    : result Expression :=
  match r with
  | Ok e =>
      match Partial Sample.env bindings e with
      | Ok (exp, _) => Ok exp
      | Err err e' => Err err e'
      | Panic p => Panic p
      end
  | _ => r
  end.

Definition rendered (r : result Expression) : option string :=
  match r with
  | Ok e => Some (String_ Sample.env e)
  | _ => None
  end.

(** The program 5,2,+ before and after Evaluate. *)
Definition five_two_plus : Expression :=
  mkExpression DefaultDelimiter ∅ DefaultSecondsPerInterval
    [VString "5"; VString "2"; VString "+"] false 3 0
    [VNil; VNil; VNil] [false; false; false].

Definition seven : Expression :=
  mkExpression DefaultDelimiter ∅ DefaultSecondsPerInterval
    [VString "5"; VString "2"; VString "+"] false 3 1
    [VFloat 7%float; VFloat 2%float; VNil] [true; true; false].

(** What Evaluate returns for a freshly compiled Expression. *)
Definition evaluated (someExpression : string) (bindings : gmap string goval)
    : option (float + error) :=
  match New Sample.env someExpression [] with
  | Ok e =>
      match Evaluate Sample.env bindings e with
      | Ok (x, _) => Some (inl x)
      | Err err _ => Some (inr err)
      | Panic _ => None
      end
  | _ => None
  end.

(** The program 5,NOW,a as New leaves it. *)
Definition inertProgram : Expression :=
  mkExpression DefaultDelimiter ∅ DefaultSecondsPerInterval
    [VFloat 5%float; VString "NOW"; VString "a"] true 3 0
    [VNil; VNil; VNil] [false; false; false].

(** Bindings of the examples. *)
Definition c_is_zero : gmap string goval := {["c" := GoFloat64 0%float]}.

Definition x_is_NaN : gmap string goval := {["x" := GoFloat64 F64.NaN]}.

Definition x_is_5 : gmap string goval := {["x" := GoInt 5]}.

(** * Properties *)

(** ** Loops *)

Lemma forLoop_done {S : Type} (fuel : nat) (i hi : Z) (s : S) body :
  hi <= i -> forLoop fuel i hi s body = Ok (s, false).
Proof.
  intros H. destruct fuel; simpl; destruct (Z.leb_spec hi i); try lia; reflexivity.
Qed.

Lemma forLoop_step {S : Type} (fuel : nat) (i hi : Z) (s : S) body :
  i < hi ->
  forLoop (Datatypes.S fuel) i hi s body =
  bind (body i s) (fun r => if snd r then Ok r else forLoop fuel (i + 1) hi (fst r) body).
Proof.
  intros H. simpl. destruct (Z.leb_spec hi i); try lia. reflexivity.
Qed.

(** ** The catalog *)

Lemma arity_In (token : string) (t : arityTuple) :
  arity token = Some t -> In (token, t) arityTable.
Proof.
  unfold arity. induction arityTable as [|[k a] l IH]; simpl; [discriminate|].
  destruct (String.eqb_spec k token) as [->|Hne].
  - intros [= ->]. now left.
  - intros H. right. now apply IH.
Qed.

(** C9. For every operator of the catalog: when the stack holds fewer items
    than the operator pops, the token fails at once with the Syntax error
    [not enough parameters: operator <name> requires <n> operands], where <n>
    is the operator's pop count; the receiver is left as it was. *)
Theorem arity_not_enough_parameters
    (env : Env) (bindings : gmap string binding) (tc : timeCtx)
    (e : Expression) (tokIdx : Z) (token : string) (opArity : arityTuple) :
  arity token = Some opArity ->
  scratchHead e < popCount opArity ->
  simplifyToken env bindings tc e tokIdx (VString token)
  = Err (ErrSyntax fmtNotEnough [AString token; AInt (popCount opArity)]) e
  /\ Error env (ErrSyntax fmtNotEnough [AString token; AInt (popCount opArity)])
     = String.append "syntax error : not enough parameters: operator "
         (String.append token
            (String.append " requires "
               (String.append (pretty (popCount opArity)) " operands"))).
Proof.
  intros Har Hlt. split.
  - pose proof (arity_In _ _ Har) as Hin.
    apply Z.ltb_lt in Hlt.
    unfold arityTable in Hin. simpl in Hin.
    repeat (destruct Hin as [Hin|Hin];
            [injection Hin as <- <-; unfold simplifyToken; simpl in *;
             unfold operator; simpl; rewrite Hlt; reflexivity|]).
    destruct Hin.
  - reflexivity.
Qed.
Lemma positiveOpenBindings_spec (e : Expression) (k : string) :
  In k (positiveOpenBindings e) <-> exists v, openBindings e !! k = Some v /\ 0 < v.
Proof.
  unfold positiveOpenBindings. rewrite in_map_iff. split.
  - intros [[k' v] [Hk Hin]]. simpl in Hk. subst k'.
    apply filter_In in Hin as [Hin Hpos]. simpl in Hpos.
    exists v. split; [|lia].
    apply elem_of_map_to_list. now apply list_elem_of_In.
  - intros [v [Hv Hpos]]. exists (k, v). split; [reflexivity|].
    apply filter_In. split.
    + apply list_elem_of_In. now apply elem_of_map_to_list.
    + simpl. lia.
Qed.

(** C2. Once simplify has succeeded, Evaluate answers in this order: the
    OpenBindings error listing exactly the names whose count is positive, if
    there is one; else the Syntax error [extra parameters] when the stack does
    not hold exactly one item; else ExpectedFloat when that item is a symbol;
    else the item, a float64. *)
Theorem Evaluate_error_precedence
    (env : Env) (bindings : gmap string goval) (e e1 : Expression) :
  simplify env bindings e = Ok e1 ->
  (forall k, In k (positiveOpenBindings e1)
             <-> exists v, openBindings e1 !! k = Some v /\ 0 < v)
  /\ (positiveOpenBindings e1 <> [] ->
      Evaluate env bindings e = Err (ErrOpenBindings (positiveOpenBindings e1)) e1)
  /\ (positiveOpenBindings e1 = [] -> scratchHead e1 <> 1 ->
      Evaluate env bindings e
      = Err (ErrSyntax "extra parameters: %v" [AValues (scratch e1)]) e1)
  /\ (positiveOpenBindings e1 = [] -> scratchHead e1 = 1 ->
      forall s, zindex (scratch e1) 0 = Some (VString s) ->
      Evaluate env bindings e = Err (ExpectedFloat (VString s)) e1)
  /\ (positiveOpenBindings e1 = [] -> scratchHead e1 = 1 ->
      forall x, zindex (scratch e1) 0 = Some (VFloat x) ->
      Evaluate env bindings e = Ok (x, e1)).
Proof.
  intros Hs. split; [apply positiveOpenBindings_spec|].
  unfold Evaluate. rewrite Hs. simpl.
  repeat split.
  - intros Hne. destruct (positiveOpenBindings e1) as [|k l]; [congruence|].
    reflexivity.
  - intros -> Hh. simpl. destruct (Z.eqb_spec (scratchHead e1) 1); [congruence|].
    reflexivity.
  - intros -> Hh s Hz. simpl. rewrite Hh. simpl. unfold scratchAt. rewrite Hz. reflexivity.
  - intros -> Hh x Hz. simpl. rewrite Hh. simpl. unfold scratchAt. rewrite Hz. reflexivity.
Qed.
(** ** What a call leaves of its receiver *)

Section Framed.

Context {A B : Type}.
Variable e : Expression.

Lemma framed_bind (P : A -> Prop) (Q : B -> Prop) (m : result A) (k : A -> result B) :
  framed P e m -> (forall a, P a -> framed Q e (k a)) -> framed Q e (bind m k).
Proof. destruct m; simpl; auto. Qed.

Lemma framed_orPanic (Q : B -> Prop) (p : panic) (o : option A) (k : A -> result B) :
  (forall a, framed Q e (k a)) -> framed Q e (bind (orPanic p o) k).
Proof. destruct o; simpl; auto. Qed.

End Framed.

Lemma framed_forLoop {S : Type} (I : S -> Prop) (e : Expression)
    (fuel : nat) (i hi : Z) (s : S) body :
  I s ->
  (forall j s, I s -> framed (fun r => I (fst r)) e (body j s)) ->
  framed (fun r => I (fst r)) e (forLoop fuel i hi s body).
Proof.
  intros Hs Hbody. revert i s Hs.
  induction fuel as [|fuel IH]; intros i s Hs; simpl.
  - destruct (hi <=? i); simpl; auto.
  - destruct (hi <=? i); simpl; auto.
    specialize (Hbody i s Hs).
    destruct (body i s) as [[s' b]| |]; simpl in *; auto.
    destruct b; simpl; auto.
Qed.

Lemma noErr_bind {A B : Type} (m : result A) (k : A -> result B) :
  noErr m -> (forall a, noErr (k a)) -> noErr (bind m k).
Proof. destruct m; simpl; auto. Qed.

Lemma noErr_orPanic {A : Type} (p : panic) (o : option A) : noErr (orPanic p o).
Proof. destruct o; exact I. Qed.

Lemma noErr_Ok {A : Type} (a : A) : noErr (Ok a).
Proof. exact I. Qed.

Lemma noErr_Panic {A : Type} (p : panic) : noErr (@Panic A p).
Proof. exact I. Qed.

Ltac noErr_tac :=
  repeat first
    [ apply noErr_Ok
    | apply noErr_Panic
    | apply noErr_orPanic
    | apply noErr_bind; [|intros]
    | match goal with
      | |- noErr (if ?c then _ else _) => destruct c
      | |- noErr (match ?x with _ => _ end) => destruct x
      end ].

Lemma noErr_scratchAt e i : noErr (scratchAt e i).
Proof. unfold scratchAt. noErr_tac. Qed.
Lemma noErr_isFloatAt e i : noErr (isFloatAt e i).
Proof. unfold isFloatAt. noErr_tac. Qed.
Lemma noErr_floatAt e i : noErr (floatAt e i).
Proof. unfold floatAt, scratchAt. noErr_tac. Qed.
Lemma noErr_stringAt e i : noErr (stringAt e i).
Proof. unfold stringAt, scratchAt. noErr_tac. Qed.
Lemma noErr_make n : noErr (make n).
Proof. unfold make. noErr_tac. Qed.
Lemma noErr_sliceFrom {T : Type} (l : list T) lo : noErr (sliceFrom l lo).
Proof. unfold sliceFrom. noErr_tac. Qed.
Lemma noErr_copyInto l lo src : noErr (copyInto l lo src).
Proof. unfold copyInto, sliceFrom. noErr_tac. Qed.
Lemma noErr_median items : noErr (median items).
Proof. unfold median. noErr_tac. Qed.
Lemma noErr_mad items : noErr (mad items).
Proof. unfold mad. noErr_tac; apply noErr_median. Qed.

Lemma noErr_forLoop {S : Type} (fuel : nat) (i hi : Z) (s : S) body :
  (forall j s, noErr (body j s)) -> noErr (forLoop fuel i hi s body).
Proof.
  intros Hbody. revert i s.
  induction fuel as [|fuel IH]; intros i s; simpl.
  - destruct (hi <=? i); exact I.
  - destruct (hi <=? i); [exact I|].
    apply noErr_bind; [apply Hbody|]. intros [s' b]. simpl.
    destruct b; [exact I|apply IH].
Qed.

Create HintDb noerr.
#[local] Hint Resolve noErr_scratchAt noErr_isFloatAt noErr_floatAt noErr_stringAt
  noErr_make noErr_sliceFrom noErr_copyInto noErr_median noErr_mad noErr_Ok
  noErr_Panic noErr_orPanic : noerr.

Lemma noErr_collectFloats e lo hi : noErr (collectFloats e lo hi).
Proof.
  unfold collectFloats. apply noErr_forLoop. intros.
  noErr_tac; auto with noerr.
Qed.

Lemma noErr_findOperator e lo hi : noErr (findOperator e lo hi).
Proof.
  unfold findOperator. apply noErr_bind; [|intros; exact I].
  apply noErr_forLoop. intros. noErr_tac; auto with noerr.
Qed.

Lemma noErr_floatCheck e lo hi : noErr (floatCheck e lo hi).
Proof.
  unfold floatCheck. apply noErr_bind; [|intros; exact I].
  apply noErr_forLoop. intros. noErr_tac; auto with noerr.
Qed.

Lemma noErr_nonOperatorCheck e lo hi : noErr (nonOperatorCheck e lo hi).
Proof.
  unfold nonOperatorCheck. apply noErr_bind; [|intros; exact I].
  apply noErr_forLoop. intros. noErr_tac; auto with noerr.
Qed.

#[local] Hint Resolve noErr_collectFloats noErr_findOperator noErr_floatCheck
  noErr_nonOperatorCheck : noerr.

Lemma framed_noErr {A B : Type} (Q : B -> Prop) (e : Expression)
    (m : result A) (k : A -> result B) :
  noErr m -> (forall a, framed Q e (k a)) -> framed Q e (bind m k).
Proof. destruct m; simpl; auto; contradiction. Qed.

Lemma framed_setScratch (e e' : Expression) i v :
  config e' = config e -> framed (sameConfig e) e (setScratch e' i v).
Proof.
  intros H. unfold setScratch. destruct (zstore (scratch e') i v); simpl; auto.
Qed.

Lemma framed_setIsFloat (e e' : Expression) i b :
  config e' = config e -> framed (sameConfig e) e (setIsFloat e' i b).
Proof.
  intros H. unfold setIsFloat. destruct (zstore (isFloat e') i b); simpl; auto.
Qed.

Lemma framed_push (e e' : Expression) v b :
  config e' = config e -> framed (sameConfig e) e (push e' v b).
Proof.
  intros H. unfold push.
  eapply framed_bind; [apply framed_setScratch; exact H|]. intros e1 H1.
  eapply framed_bind; [apply framed_setIsFloat; exact H1|]. intros e2 H2.
  exact H2.
Qed.

(** One step of a proof that a computation is framed. *)
Ltac framed_step :=
  first
    [ eapply framed_bind; [solve [apply framed_setScratch; assumption]|intros]
    | eapply framed_bind; [solve [apply framed_setIsFloat; assumption]|intros]
    | eapply framed_bind; [solve [apply framed_push; assumption]|intros]
    | apply framed_noErr; [solve [auto with noerr | noErr_tac; auto with noerr]|intros]
    | match goal with
      | |- framed _ _ (bind (if ?c then _ else _) _) => destruct c
      | |- framed _ _ (if ?c then _ else _) => destruct c
      | |- framed _ _ (match ?x with _ => _ end) => destruct x
      | |- framed _ _ (Ok _) => simpl; try reflexivity; try assumption; try exact I
      | |- framed _ _ (Err _ _) => simpl; try reflexivity; try assumption
      | |- framed _ _ (Panic _) => exact I
      end ].

Section CasesFramed.

Variable env : Env.
Variable bindings : gmap string binding.

Lemma framed_arith e i both onlyA onlyB :
  (forall a b, framed (actionFramed e) e (both a b)) ->
  framed (actionFramed e) e onlyA ->
  framed (actionFramed e) e onlyB ->
  framed (actionFramed e) e (arith e i both onlyA onlyB).
Proof. intros. unfold arith. repeat framed_step; auto. Qed.

Lemma framed_resultAt e j : framed (actionFramed e) e (resultAt e j).
Proof. unfold resultAt. repeat framed_step; auto. Qed.

Lemma framed_resultF e f : framed (actionFramed e) e (resultF f).
Proof. exact I. Qed.

Lemma framed_bool01 e b : framed (actionFramed e) e (bool01 b).
Proof. exact I. Qed.

#[local] Hint Resolve framed_resultAt framed_resultF framed_bool01 : core.

Ltac framed_arith :=
  apply framed_arith; intros; unfold withFloat; repeat framed_step; auto.

Lemma framed_case_add e i : framed (actionFramed e) e (case_add e i).
Proof. unfold case_add. framed_arith. Qed.
Lemma framed_case_sub e i : framed (actionFramed e) e (case_sub e i).
Proof. unfold case_sub. framed_arith. Qed.
Lemma framed_case_mul e i : framed (actionFramed e) e (case_mul e i).
Proof. unfold case_mul. framed_arith. Qed.
Lemma framed_case_div e i : framed (actionFramed e) e (case_div e i).
Proof. unfold case_div. framed_arith. Qed.
Lemma framed_case_mod e i : framed (actionFramed e) e (case_mod env e i).
Proof. unfold case_mod. framed_arith. Qed.
Lemma framed_case_POW e i : framed (actionFramed e) e (case_POW env e i).
Proof. unfold case_POW. framed_arith. Qed.

Lemma framed_unary f e i : framed (actionFramed e) e (unary f e i).
Proof. unfold unary. repeat framed_step; auto. Qed.

Lemma framed_case_ADDNAN e i : framed (actionFramed e) e (case_ADDNAN e i).
Proof. unfold case_ADDNAN. repeat framed_step; auto. Qed.

Lemma framed_case_ATAN2 e i : framed (actionFramed e) e (case_ATAN2 env e i).
Proof. unfold case_ATAN2. repeat framed_step; auto. Qed.

Lemma framed_checkCount token e i : framed (fun _ => True) e (checkCount token e i).
Proof. unfold checkCount. repeat framed_step; auto. Qed.

Lemma framed_checkItems token e n avail :
  framed (fun _ => True) e (checkItems token e n avail).
Proof. unfold checkItems. repeat framed_step; auto. Qed.

Lemma framed_countOf token e i : framed (fun _ => True) e (countOf env token e i).
Proof.
  unfold countOf.
  eapply framed_bind; [apply framed_checkCount|]. intros c _.
  eapply framed_bind; [apply framed_checkItems|]. intros _ _. exact I.
Qed.

Lemma framed_counted token window e i :
  (forall n, framed (actionFramed e) e (window n e i)) ->
  framed (actionFramed e) e (counted env token window e i).
Proof.
  intros H. unfold counted.
  eapply framed_bind; [apply framed_countOf|]. intros n _. apply H.
Qed.

(** A loop that returns no error and whose state is kept out of the result. *)
Lemma framed_loop_noErr {S B : Type} (Q : B -> Prop) e fuel i hi (s : S) body
    (k : S * bool -> result B) :
  (forall j s, noErr (body j s)) ->
  (forall r, framed Q e (k r)) ->
  framed Q e (bind (forLoop fuel i hi s body) k).
Proof. intros Hb Hk. apply framed_noErr; [apply noErr_forLoop, Hb|apply Hk]. Qed.

(** A loop over receivers. *)
Lemma framed_loop_state {S B : Type} (I : S -> Prop) (Q : B -> Prop) e fuel i hi (s : S) body
    (k : S * bool -> result B) :
  I s ->
  (forall j s, I s -> framed (fun r => I (fst r)) e (body j s)) ->
  (forall r, I (fst r) -> framed Q e (k r)) ->
  framed Q e (bind (forLoop fuel i hi s body) k).
Proof.
  intros Hs Hb Hk. eapply framed_bind; [apply (framed_forLoop I); eauto|].
  intros r Hr. apply Hk, Hr.
Qed.

Ltac loop_noErr :=
  apply framed_loop_noErr; [intros; noErr_tac; auto with noerr|intros].

Lemma framed_avgWindow n e i : framed (actionFramed e) e (avgWindow n e i).
Proof. unfold avgWindow. loop_noErr. repeat framed_step; auto. Qed.

Lemma framed_copyWindow n e i : framed (actionFramed e) e (copyWindow n e i).
Proof.
  unfold copyWindow. framed_step. framed_step; [exact I|].
  match goal with |- context [forLoop _ _ _ ?s _] => set (e2 := s) end.
  apply (framed_loop_state (sameConfig e)).
  - unfold e2. destruct (_ <? _); reflexivity.
  - intros j s Hs. unfold sameConfig in Hs. repeat framed_step; try assumption.
  - intros r Hr. exact Hr.
Qed.

Lemma framed_case_DEPTH e : framed (actionFramed e) e (case_DEPTH e).
Proof.
  unfold case_DEPTH.
  eapply framed_bind; [apply framed_push; reflexivity|]. intros e1 H1. exact H1.
Qed.

Lemma framed_case_DUP e : framed (actionFramed e) e (case_DUP e).
Proof.
  unfold case_DUP. framed_step.
  eapply framed_bind; [apply framed_setScratch; reflexivity|]. intros e1 H1.
  framed_step.
  eapply framed_bind; [apply framed_setIsFloat; exact H1|]. intros e2 H2.
  exact H2.
Qed.

Lemma framed_relational e i both same mixed :
  framed (actionFramed e) e both ->
  framed (actionFramed e) e same ->
  framed (actionFramed e) e mixed ->
  framed (actionFramed e) e (relational e i both same mixed).
Proof. intros. unfold relational. repeat framed_step; auto. Qed.

Lemma framed_compareNaN e cmp i : framed (actionFramed e) e (compareNaN cmp e i).
Proof. unfold compareNaN. repeat framed_step; auto. Qed.

Lemma framed_compareBoth e cmp i : framed (actionFramed e) e (compareBoth cmp e i).
Proof. unfold compareBoth. repeat framed_step; auto. Qed.

#[local] Hint Resolve framed_compareNaN framed_compareBoth : core.

Ltac framed_relational :=
  apply framed_relational; intros; repeat framed_step; auto.

Lemma framed_case_EQ e i : framed (actionFramed e) e (case_EQ e i).
Proof. unfold case_EQ. framed_relational. Qed.
Lemma framed_case_NE e i : framed (actionFramed e) e (case_NE e i).
Proof. unfold case_NE. framed_relational. Qed.
Lemma framed_case_GE e i : framed (actionFramed e) e (case_GE e i).
Proof. unfold case_GE. framed_relational. Qed.
Lemma framed_case_GT e i : framed (actionFramed e) e (case_GT e i).
Proof. unfold case_GT. framed_relational. Qed.
Lemma framed_case_LE e i : framed (actionFramed e) e (case_LE e i).
Proof. unfold case_LE. framed_relational. Qed.
Lemma framed_case_LT e i : framed (actionFramed e) e (case_LT e i).
Proof. unfold case_LT. framed_relational. Qed.

Lemma framed_extremum ext propagate e i :
  framed (actionFramed e) e (extremum ext propagate e i).
Proof. unfold extremum. cbv zeta. framed_relational. Qed.

Lemma framed_case_EXC e i : framed (actionFramed e) e (case_EXC e i).
Proof.
  unfold case_EXC. do 2 framed_step.
  eapply framed_bind; [apply framed_setScratch; reflexivity|]. intros e1 H1.
  eapply framed_bind; [apply framed_setScratch; exact H1|]. intros e2 H2.
  do 2 framed_step.
  eapply framed_bind; [apply framed_setIsFloat; exact H2|]. intros e3 H3.
  eapply framed_bind; [apply framed_setIsFloat; exact H3|]. intros e4 H4.
  exact H4.
Qed.

Lemma framed_case_IF e i : framed (actionFramed e) e (case_IF e i).
Proof. unfold case_IF. repeat framed_step; auto. Qed.

Lemma framed_indexWindow n e i : framed (actionFramed e) e (indexWindow n e i).
Proof.
  unfold indexWindow. framed_step. framed_step; [exact I|]. framed_step.
  eapply framed_bind; [apply framed_setScratch; reflexivity|]. intros e1 H1.
  framed_step.
  eapply framed_bind; [apply framed_setIsFloat; exact H1|]. intros e2 H2.
  exact H2.
Qed.

Lemma framed_case_ISINF e i : framed (actionFramed e) e (case_ISINF e i).
Proof. unfold case_ISINF. repeat framed_step; auto. Qed.

Lemma framed_case_LIMIT e i : framed (actionFramed e) e (case_LIMIT e i).
Proof. unfold case_LIMIT. repeat framed_step; auto. Qed.

Lemma framed_sortedWindow f n e i :
  (forall items, noErr (f items)) ->
  framed (actionFramed e) e (sortedWindow f n e i).
Proof.
  intros Hf. unfold sortedWindow. repeat framed_step; auto.
Qed.

Lemma framed_percentWindow percent n e i :
  framed (actionFramed e) e (percentWindow env percent n e i).
Proof. unfold percentWindow. repeat framed_step; auto. Qed.

Lemma framed_case_PERCENT token e i :
  framed (actionFramed e) e (case_PERCENT env token e i).
Proof.
  unfold case_PERCENT.
  eapply framed_bind; [apply framed_checkCount|]. intros percent _.
  framed_step. framed_step.
  - repeat framed_step; auto.
  - eapply framed_bind; [apply framed_checkItems|]. intros _ _.
    apply framed_percentWindow.
Qed.

Lemma framed_case_POP e : framed (actionFramed e) e (case_POP e).
Proof. reflexivity. Qed.

Lemma framed_revWindow n e i : framed (actionFramed e) e (revWindow n e i).
Proof.
  unfold revWindow. framed_step. framed_step; [exact I|]. do 2 framed_step.
  apply (framed_loop_state (fun s => sameConfig e (fst s))).
  - reflexivity.
  - intros j [e2 itemIdx] Hs. simpl in Hs. unfold sameConfig in Hs.
    repeat framed_step; try assumption.
  - intros r Hr. exact Hr.
Qed.

Lemma framed_rollWindow n m e i : framed (actionFramed e) e (rollWindow env n m e i).
Proof.
  unfold rollWindow. framed_step. framed_step; [exact I|].
  loop_noErr. repeat framed_step; auto.
Qed.

Lemma framed_case_ROLL token e i : framed (actionFramed e) e (case_ROLL env token e i).
Proof.
  unfold case_ROLL.
  eapply framed_bind; [apply framed_countOf|]. intros n _.
  framed_step. framed_step.
  - repeat framed_step; auto.
  - eapply framed_bind; [apply framed_checkItems|]. intros _ _.
    apply framed_rollWindow.
Qed.

Lemma framed_extremumOfWindow better n e i :
  framed (actionFramed e) e (extremumOfWindow better n e i).
Proof.
  unfold extremumOfWindow. framed_step; [repeat framed_step|].
  framed_step. framed_step; [|exact I].
  loop_noErr. repeat framed_step; auto.
Qed.

Lemma framed_sortWindow n e i : framed (actionFramed e) e (sortWindow n e i).
Proof.
  unfold sortWindow. do 2 framed_step. framed_step; [exact I|].
  apply (framed_loop_state (sameConfig e)).
  - reflexivity.
  - intros j s Hs. unfold sameConfig in Hs. repeat framed_step; try assumption.
  - intros r Hr. exact Hr.
Qed.

Lemma framed_stdevWindow n e i : framed (actionFramed e) e (stdevWindow n e i).
Proof.
  unfold stdevWindow. framed_step.
  apply framed_loop_noErr.
  - intros j [[total used] items]. noErr_tac; auto with noerr.
  - intros [[[total used] items] b]. repeat framed_step; auto.
Qed.

Lemma framed_trend skipNaN token pc e i :
  framed (actionFramed e) e (trend env bindings skipNaN token pc e i).
Proof.
  unfold trend. framed_step. framed_step; [reflexivity|].
  framed_step. framed_step; [|reflexivity].
  framed_step; [|exact I]. framed_step; [reflexivity|].
  framed_step; [reflexivity|].
  apply framed_loop_noErr; [intros; noErr_tac; auto with noerr|].
  intros [[total used] b].
  eapply framed_bind; [apply framed_push; reflexivity|]. intros e3 H3. exact H3.
Qed.

Lemma framed_case_UN e i : framed (actionFramed e) e (case_UN e i).
Proof. unfold case_UN. repeat framed_step; auto. Qed.

Lemma framed_operatorCase token opArity e i :
  framed (actionFramed e) e (operatorCase env bindings token opArity e i).
Proof.
  unfold operatorCase.
  repeat
    (match goal with
     | |- framed _ _ (if ?c then _ else _) => destruct c
     end;
     [first
        [ apply framed_case_add | apply framed_case_sub | apply framed_case_mul
        | apply framed_case_div | apply framed_case_mod | apply framed_case_POW
        | apply framed_unary | apply framed_case_ADDNAN | apply framed_case_ATAN2
        | apply framed_case_DEPTH | apply framed_case_DUP | apply framed_case_EQ
        | apply framed_case_NE | apply framed_case_GE | apply framed_case_GT
        | apply framed_case_LE | apply framed_case_LT | apply framed_extremum
        | apply framed_case_EXC | apply framed_case_IF | apply framed_case_ISINF
        | apply framed_case_LIMIT | apply framed_case_PERCENT | apply framed_case_POP
        | apply framed_case_ROLL | apply framed_trend | apply framed_case_UN
        | apply framed_counted; intros;
          first
            [ apply framed_avgWindow | apply framed_copyWindow
            | apply framed_indexWindow | apply framed_revWindow
            | apply framed_extremumOfWindow | apply framed_sortWindow
            | apply framed_stdevWindow
            | apply framed_sortedWindow; intros; noErr_tac; auto with noerr ] ]
     |]).
  exact I.
Qed.

Lemma framed_epilogue token opArity e act :
  actionFramed e act ->
  framed (sameConfig e) e (epilogue token opArity e act).
Proof.
  intros Hact. unfold epilogue. destruct act as [v n| |e'].
  - eapply framed_bind; [apply framed_setScratch; reflexivity|]. intros e2 H2.
    eapply framed_bind; [apply framed_setIsFloat; exact H2|]. intros e3 H3.
    exact H3.
  - apply framed_push. reflexivity.
  - exact Hact.
Qed.

Lemma framed_operator token opArity e :
  framed (sameConfig e) e (operator env bindings token opArity e).
Proof.
  unfold operator. framed_step; [reflexivity|].
  do 2 framed_step.
  eapply framed_bind.
  - instantiate (1 := actionFramed e).
    destruct (_ || _); [exact I|apply framed_operatorCase].
  - intros act Hact. apply framed_epilogue, Hact.
Qed.

Lemma framed_simplifyToken tc e tokIdx tok :
  framed (sameConfig e) e (simplifyToken env bindings tc e tokIdx tok).
Proof.
  unfold simplifyToken, pushConst, pushTime.
  destruct tok as [|f|token|n]; try reflexivity.
  - apply framed_push. reflexivity.
  - repeat
      (match goal with
       | |- framed _ _ (if ?c then _ else _) => destruct c
       | |- framed _ _ (match ?x with _ => _ end) => destruct x
       end;
       try (apply framed_push; reflexivity);
       try reflexivity;
       try apply framed_operator).
Qed.

Lemma framed_simplifyLoop tc toks : forall tokIdx e,
  framed (sameConfig e) e (simplifyLoop env bindings tc toks tokIdx e).
Proof.
  induction toks as [|tok rest IH]; intros tokIdx e; simpl; [reflexivity|].
  eapply framed_bind; [apply framed_simplifyToken|]. intros e' He'.
  specialize (IH (tokIdx + 1) e'). unfold sameConfig in *.
  destruct (simplifyLoop env bindings tc rest (tokIdx + 1) e'); simpl in *; congruence.
Qed.

End CasesFramed.

Lemma framed_simplify env bindings e :
  framed (sameConfig e) e (simplify env bindings e).
Proof.
  unfold simplify. destruct (coerceMapValuesToFloat64 bindings) as [b|err|p];
    [|reflexivity|exact I].
  set (e1 := withOpenBindings (withHead e 0) ∅).
  assert (H1 : config e1 = config e) by reflexivity.
  eapply framed_bind.
  - instantiate (1 := fun _ => True). unfold timeOf.
    repeat framed_step; auto.
  - intros tc _. pose proof (framed_simplifyLoop env b tc (tokens e1) 0 e1) as H.
    unfold sameConfig in *.
    destruct (simplifyLoop env b tc (tokens e1) 0 e1); simpl in *; congruence.
Qed.

(** ** Running one operator on a symbolic stack *)

Lemma wrap64_id (n : Z) : - 2 ^ 63 <= n < 2 ^ 63 -> wrap64 n = n.
Proof. intros H. unfold wrap64. rewrite Z.mod_small; lia. Qed.

Lemma zindex_bounds {A : Type} (l : list A) (i : Z) (x : A) :
  zindex l i = Some x -> 0 <= i < len l.
Proof.
  unfold zindex, len. destruct (Z.ltb_spec i 0); [discriminate|].
  intros H'. apply lookup_lt_Some in H'. lia.
Qed.

Lemma zstore_Some {A : Type} (l : list A) (i : Z) (x : A) :
  0 <= i < len l -> zstore l i x = Some (<[Z.to_nat i := x]> l).
Proof.
  unfold zstore, len. intros H.
  destruct (Z.leb_spec 0 i); [|lia]. destruct (Z.ltb_spec i (Z.of_nat (length l))); [|lia].
  reflexivity.
Qed.

Lemma holds_scratchAt e j v fl : holds e j v fl -> scratchAt e j = Ok v.
Proof. intros [H _]. unfold scratchAt. now rewrite H. Qed.

Lemma holds_isFloatAt e j v fl : holds e j v fl -> isFloatAt e j = Ok fl.
Proof. intros [_ H]. unfold isFloatAt. now rewrite H. Qed.

Lemma holds_floatAt e j f fl : holds e j (VFloat f) fl -> floatAt e j = Ok f.
Proof. intros H. unfold floatAt. now rewrite (holds_scratchAt _ _ _ _ H). Qed.

Lemma holds_stringAt e j s fl : holds e j (VString s) fl -> stringAt e j = Ok s.
Proof. intros H. unfold stringAt. now rewrite (holds_scratchAt _ _ _ _ H). Qed.

Lemma holds_bounds e j v fl :
  holds e j v fl -> 0 <= j < len (scratch e) /\ 0 <= j < len (isFloat e).
Proof. intros [H1 H2]. split; eapply zindex_bounds; eauto. Qed.

Lemma fuelOf_S e : exists f, fuelOf e = Datatypes.S f.
Proof. unfold fuelOf. eauto. Qed.

(** A cell within both slices leaves the loops fuel for two rounds. *)
Lemma fuelOf_SS e j v fl :
  holds e j v fl -> exists f, fuelOf e = Datatypes.S (Datatypes.S f).
Proof.
  intros H. apply holds_bounds in H as [H1 H2]. unfold fuelOf, len in *.
  destruct (length (scratch e)) as [|n]; [simpl in H1; lia|].
  simpl. eauto.
Qed.

Lemma floatCheck_empty e lo hi : hi <= lo -> floatCheck e lo hi = Ok false.
Proof. intros H. unfold floatCheck. now rewrite forLoop_done. Qed.

Lemma nonOperatorCheck_empty e lo hi : hi <= lo -> nonOperatorCheck e lo hi = Ok false.
Proof. intros H. unfold nonOperatorCheck. now rewrite forLoop_done. Qed.

Lemma floatCheck_one e j v fl :
  holds e j v fl -> floatCheck e j (j + 1) = Ok (negb (isFloat64 v)).
Proof.
  intros H. unfold floatCheck. destruct (fuelOf_S e) as [f ->].
  rewrite forLoop_step by lia. rewrite (holds_scratchAt _ _ _ _ H). cbn [bind fst snd negb isFloat64].
  destruct (negb (isFloat64 v)); [reflexivity|].
  now rewrite forLoop_done by lia.
Qed.

Lemma floatCheck_two e j a b fa fb :
  holds e j (VFloat a) fa -> holds e (j + 1) (VFloat b) fb ->
  floatCheck e j (j + 2) = Ok false.
Proof.
  intros Ha Hb. unfold floatCheck. destruct (fuelOf_SS _ _ _ _ Ha) as [f ->].
  rewrite forLoop_step by lia. rewrite (holds_scratchAt _ _ _ _ Ha). cbn [bind fst snd negb isFloat64].
  rewrite forLoop_step by lia. rewrite (holds_scratchAt _ _ _ _ Hb). cbn [bind fst snd negb isFloat64].
  now rewrite forLoop_done by lia.
Qed.

Lemma nonOperatorCheck_two_floats e j va vb :
  holds e j va true -> holds e (j + 1) vb true ->
  nonOperatorCheck e j (j + 2) = Ok false.
Proof.
  intros Ha Hb. unfold nonOperatorCheck. destruct (fuelOf_SS _ _ _ _ Ha) as [f ->].
  rewrite forLoop_step by lia. rewrite (holds_isFloatAt _ _ _ _ Ha). cbn [bind fst snd negb isFloat64].
  rewrite forLoop_step by lia. rewrite (holds_isFloatAt _ _ _ _ Hb). cbn [bind fst snd negb isFloat64].
  now rewrite forLoop_done by lia.
Qed.

Lemma push_pushed e v fl :
  0 <= scratchHead e < len (scratch e) -> scratchHead e < len (isFloat e) ->
  push e v fl = Ok (pushed e v fl).
Proof.
  intros H1 H2. unfold push, setScratch, setIsFloat.
  rewrite zstore_Some by lia. simpl.
  rewrite zstore_Some by (simpl; lia). reflexivity.
Qed.

(** The epilogue on a result that replaces the operator's [k] operands. *)
Lemma epilogue_Result token opArity e v n k :
  sized e ->
  k = popCount opArity + n -> - 2 ^ 63 <= popCount opArity + n < 2 ^ 63 ->
  0 <= scratchHead e - k < len (scratch e) -> scratchHead e - k < len (isFloat e) ->
  - 2 ^ 63 <= scratchHead e < 2 ^ 63 ->
  epilogue token opArity e (Result v n) = Ok (replaceTop k e v).
Proof.
  intros [Hs1 Hs2] -> Hk H1 H2 Hh. unfold epilogue, iadd, isub.
  rewrite (wrap64_id (popCount opArity + n)) by lia.
  rewrite wrap64_id by lia.
  unfold setScratch, setIsFloat. simpl.
  rewrite zstore_Some by lia. simpl.
  rewrite zstore_Some by (simpl; lia). reflexivity.
Qed.

Section Relational.

Variable env : Env.
Variable bindings : gmap string binding.
Variable tc : timeCtx.

(** A two-operand operator of the relational family on two floats. *)
Lemma relational_floats e a b both same mixed :
  holds e (scratchHead e - 2) (VFloat a) true ->
  holds e (scratchHead e - 1) (VFloat b) true ->
  relational e (scratchHead e - 2) both same mixed = both.
Proof.
  intros Ha Hb. unfold relational.
  replace (scratchHead e - 2 + 1) with (scratchHead e - 1) by lia.
  rewrite (holds_isFloatAt _ _ _ _ Ha). cbn [bind andb negb].
  rewrite (holds_isFloatAt _ _ _ _ Hb). reflexivity.
Qed.

Lemma compareBoth_floats cmp e a b fa fb :
  holds e (scratchHead e - 2) (VFloat a) fa ->
  holds e (scratchHead e - 1) (VFloat b) fb ->
  compareBoth cmp e (scratchHead e - 2) = bool01 (cmp a b).
Proof.
  intros Ha Hb. unfold compareBoth.
  replace (scratchHead e - 2 + 1) with (scratchHead e - 1) by lia.
  rewrite (holds_floatAt _ _ _ _ Ha). cbn [bind].
  rewrite (holds_floatAt _ _ _ _ Hb). reflexivity.
Qed.

Lemma compareNaN_floats cmp e a b fa fb :
  holds e (scratchHead e - 2) (VFloat a) fa ->
  holds e (scratchHead e - 1) (VFloat b) fb ->
  compareNaN cmp e (scratchHead e - 2) = resultF (compared cmp a b).
Proof.
  intros Ha Hb. unfold compareNaN, compared, bool01.
  replace (scratchHead e - 2 + 1) with (scratchHead e - 1) by lia.
  rewrite (holds_floatAt _ _ _ _ Ha). cbn [bind].
  destruct (F64.IsNaN a); [reflexivity|].
  rewrite (holds_floatAt _ _ _ _ Hb). cbn [bind].
  destruct (F64.IsNaN b); reflexivity.
Qed.

Lemma operator_relational token e a b r :
  sized e ->
  holds e (scratchHead e - 2) (VFloat a) true ->
  holds e (scratchHead e - 1) (VFloat b) true ->
  operatorCase env bindings token (mkArity 2 0 0 2 2) e (scratchHead e - 2) = resultF r ->
  operator env bindings token (mkArity 2 0 0 2 2) e = Ok (replaceTop 2 e (VFloat r)).
Proof.
  intros Hsz Ha Hb Hcase. unfold operator.
  cbn [popCount floatOffset floatCount nonOperatorOffset nonOperatorCount].
  pose proof (holds_bounds _ _ _ _ Ha) as [Ha1 Ha2].
  pose proof (holds_bounds _ _ _ _ Hb) as [Hb1 Hb2].
  pose proof Hsz as [Hs1 Hs2].
  destruct (Z.ltb_spec (scratchHead e) 2); [lia|].
  rewrite floatCheck_empty by lia. cbn [bind].
  rewrite (nonOperatorCheck_two_floats e (scratchHead e - 2) (VFloat a) (VFloat b)); auto.
  2:{ replace (scratchHead e - 2 + 1) with (scratchHead e - 1) by lia. exact Hb. }
  cbn [bind orb]. rewrite Hcase. unfold resultF. cbn [bind].
  apply epilogue_Result; cbn [popCount]; auto; lia.
Qed.

End Relational.

(** A NaN equals nothing, itself included. *)
Lemma eq_NaN_l (a b : float) : F64.IsNaN a = true -> F64.eq a b = false.
Proof.
  unfold F64.IsNaN, F64.eq, PrimFloat.is_nan. rewrite !FloatAxioms.eqb_spec.
  destruct (Prim2SF a) as [s|s| |s m e]; simpl.
  - discriminate.
  - destruct s; discriminate.
  - reflexivity.
  - unfold SFeqb, SFcompare. destruct s.
    + rewrite Z.compare_refl. rewrite Pos.compare_cont_refl. discriminate.
    + rewrite Z.compare_refl. rewrite Pos.compare_cont_refl. discriminate.
Qed.

Lemma eq_NaN_r (a b : float) : F64.IsNaN b = true -> F64.eq a b = false.
Proof.
  unfold F64.IsNaN, F64.eq, PrimFloat.is_nan. rewrite !FloatAxioms.eqb_spec.
  destruct (Prim2SF b) as [s|s| |s m e]; simpl.
  - discriminate.
  - destruct s; discriminate.
  - intros _. unfold SFeqb, SFcompare. destruct (Prim2SF a) as [?|?| |? ? ?]; reflexivity.
  - unfold SFeqb, SFcompare. destruct s.
    + rewrite Z.compare_refl. rewrite Pos.compare_cont_refl. discriminate.
    + rewrite Z.compare_refl. rewrite Pos.compare_cont_refl. discriminate.
Qed.

(** C1. Two float64 operands a and b under GE, GT, LE or LT are replaced by
    NaN when a or b is NaN, and by 1 or 0 as the comparison says otherwise;
    under EQ and NE they are replaced by 1 or 0 as float equality says, which
    for a NaN operand is 0 for EQ and 1 for NE. *)
Theorem relational_NaN
    (env : Env) (bindings : gmap string binding) (tc : timeCtx)
    (e : Expression) (tokIdx : Z) (a b : float) :
  sized e ->
  holds e (scratchHead e - 2) (VFloat a) true ->
  holds e (scratchHead e - 1) (VFloat b) true ->
  simplifyToken env bindings tc e tokIdx (VString "GE")
  = Ok (replaceTop 2 e (VFloat (compared F64.ge a b)))
  /\ simplifyToken env bindings tc e tokIdx (VString "GT")
     = Ok (replaceTop 2 e (VFloat (compared F64.gt a b)))
  /\ simplifyToken env bindings tc e tokIdx (VString "LE")
     = Ok (replaceTop 2 e (VFloat (compared F64.le a b)))
  /\ simplifyToken env bindings tc e tokIdx (VString "LT")
     = Ok (replaceTop 2 e (VFloat (compared F64.lt a b)))
  /\ simplifyToken env bindings tc e tokIdx (VString "EQ")
     = Ok (replaceTop 2 e (VFloat (if F64.eq a b then F64.one else F64.zero)))
  /\ simplifyToken env bindings tc e tokIdx (VString "NE")
     = Ok (replaceTop 2 e (VFloat (if F64.ne a b then F64.one else F64.zero)))
  /\ (F64.IsNaN a || F64.IsNaN b = true -> F64.eq a b = false /\ F64.ne a b = true).
Proof.
  intros Hsz Ha Hb.
  assert (Hnan : F64.IsNaN a || F64.IsNaN b = true
                 -> F64.eq a b = false /\ F64.ne a b = true).
  { intros H. assert (Heq : F64.eq a b = false).
    { apply orb_true_iff in H as [H|H]; [now apply eq_NaN_l|now apply eq_NaN_r]. }
    split; [exact Heq|]. unfold F64.ne. unfold F64.eq in Heq. now rewrite Heq. }
  refine (conj _ (conj _ (conj _ (conj _ (conj _ (conj _ Hnan))))));
    match goal with
    | |- simplifyToken ?en ?bs ?t ?ex ?i (VString ?tok) = _ =>
        change (simplifyToken en bs t ex i (VString tok))
          with (operator en bs tok (mkArity 2 0 0 2 2) ex)
    end;
    apply (operator_relational env bindings _ e a b); auto.
  all: first
    [ change (case_GE e (scratchHead e - 2) = resultF (compared F64.ge a b))
    | change (case_GT e (scratchHead e - 2) = resultF (compared F64.gt a b))
    | change (case_LE e (scratchHead e - 2) = resultF (compared F64.le a b))
    | change (case_LT e (scratchHead e - 2) = resultF (compared F64.lt a b))
    | change (case_EQ e (scratchHead e - 2)
              = resultF (if F64.eq a b then F64.one else F64.zero))
    | change (case_NE e (scratchHead e - 2)
              = resultF (if F64.ne a b then F64.one else F64.zero)) ].
  all: unfold case_GE, case_GT, case_LE, case_LT, case_EQ, case_NE;
    rewrite (relational_floats e a b) by assumption;
    first [ rewrite (compareNaN_floats _ e a b true true) by assumption
          | rewrite (compareBoth_floats _ e a b true true) by assumption ];
    unfold bool01; reflexivity.
Qed.

Section Arith.

Variable env : Env.
Variable bindings : gmap string binding.
Variable tc : timeCtx.

Lemma arith_both e a b both onlyA onlyB :
  holds e (scratchHead e - 2) (VFloat a) true ->
  holds e (scratchHead e - 1) (VFloat b) true ->
  arith e (scratchHead e - 2) both onlyA onlyB = both a b.
Proof.
  intros Ha Hb. unfold arith.
  replace (scratchHead e - 2 + 1) with (scratchHead e - 1) by lia.
  rewrite (holds_isFloatAt _ _ _ _ Ha). cbn [bind].
  rewrite (holds_isFloatAt _ _ _ _ Hb). cbn [bind].
  rewrite (holds_floatAt _ _ _ _ Ha). cbn [bind].
  rewrite (holds_floatAt _ _ _ _ Hb). reflexivity.
Qed.

Lemma arith_firstOnly e a vb both onlyA onlyB :
  holds e (scratchHead e - 2) (VFloat a) true ->
  holds e (scratchHead e - 1) vb false ->
  arith e (scratchHead e - 2) both onlyA onlyB = onlyA.
Proof.
  intros Ha Hb. unfold arith.
  replace (scratchHead e - 2 + 1) with (scratchHead e - 1) by lia.
  rewrite (holds_isFloatAt _ _ _ _ Ha). cbn [bind].
  rewrite (holds_isFloatAt _ _ _ _ Hb). reflexivity.
Qed.

Lemma arith_onlyA e a vb both onlyA onlyB :
  holds e (scratchHead e - 2) (VFloat a) true ->
  holds e (scratchHead e - 1) vb false ->
  arith e (scratchHead e - 2) both (withFloat e (scratchHead e - 2) onlyA) onlyB
  = onlyA a.
Proof.
  intros Ha Hb. rewrite (arith_firstOnly e a vb) by assumption.
  unfold withFloat. now rewrite (holds_floatAt _ _ _ _ Ha).
Qed.

Lemma arith_onlyB e va b both onlyA onlyB :
  holds e (scratchHead e - 2) va false ->
  holds e (scratchHead e - 1) (VFloat b) true ->
  arith e (scratchHead e - 2) both onlyA (withFloat e (scratchHead e - 2 + 1) onlyB)
  = onlyB b.
Proof.
  intros Ha Hb. unfold arith, withFloat.
  replace (scratchHead e - 2 + 1) with (scratchHead e - 1) by lia.
  rewrite (holds_isFloatAt _ _ _ _ Ha). cbn [bind].
  rewrite (holds_isFloatAt _ _ _ _ Hb). cbn [bind].
  now rewrite (holds_floatAt _ _ _ _ Hb).
Qed.

(** An operator of the arithmetic family ([+ - * / % POW]) whose case
    yields a result. *)
Lemma operator_arith token e va vb fa fb v :
  sized e ->
  holds e (scratchHead e - 2) va fa ->
  holds e (scratchHead e - 1) vb fb ->
  operatorCase env bindings token (mkArity 2 2 0 0 0) e (scratchHead e - 2)
  = Ok (Result v 0) ->
  operator env bindings token (mkArity 2 2 0 0 0) e = Ok (replaceTop 2 e v).
Proof.
  intros Hsz Ha Hb Hcase. unfold operator.
  cbn [popCount floatOffset floatCount nonOperatorOffset nonOperatorCount].
  pose proof (holds_bounds _ _ _ _ Ha) as [Ha1 Ha2].
  pose proof (holds_bounds _ _ _ _ Hb) as [Hb1 Hb2].
  pose proof Hsz as [Hs1 Hs2].
  destruct (Z.ltb_spec (scratchHead e) 2); [lia|].
  rewrite floatCheck_empty by lia. cbn [bind].
  rewrite nonOperatorCheck_empty by lia.
  cbn [bind orb]. rewrite Hcase. cbn [bind].
  apply epilogue_Result; cbn [popCount]; auto; lia.
Qed.

End Arith.

(** C3, amended. POW on two float64 operands folds to math.Pow of them,
    for which a,0,POW and 1,b,POW are 1 and a,1,POW is a (so 0,0,POW is 1).
    With a float64 base and a symbol as exponent it folds to the base when the
    base is 0 or 1; with a symbol as base and a float64 exponent it folds to 1
    when the exponent is 0 and to the base when the exponent is 1. *)
Theorem POW_identities
    (env : Env) (bindings : gmap string binding) (tc : timeCtx)
    (e : Expression) (tokIdx : Z) :
  sized e ->
  (forall a b,
      holds e (scratchHead e - 2) (VFloat a) true ->
      holds e (scratchHead e - 1) (VFloat b) true ->
      simplifyToken env bindings tc e tokIdx (VString "POW")
      = Ok (replaceTop 2 e (VFloat (Pow env a b))))
  /\ (forall a vb r,
      holds e (scratchHead e - 2) (VFloat a) true ->
      holds e (scratchHead e - 1) vb false ->
      powOfBase a = Some r ->
      simplifyToken env bindings tc e tokIdx (VString "POW")
      = Ok (replaceTop 2 e (VFloat r)))
  /\ (forall va b v,
      holds e (scratchHead e - 2) va false ->
      holds e (scratchHead e - 1) (VFloat b) true ->
      powOfExponent va b = Some v ->
      simplifyToken env bindings tc e tokIdx (VString "POW")
      = Ok (replaceTop 2 e v))
  /\ (forall a, Pow env a F64.zero = F64.one)
  /\ (forall b, Pow env F64.one b = F64.one)
  /\ (forall a, Pow env a F64.one = if F64.eq a F64.one then F64.one else a).
Proof.
  intros Hsz.
  assert (Hop : simplifyToken env bindings tc e tokIdx (VString "POW")
                = operator env bindings "POW" (mkArity 2 2 0 0 0) e) by reflexivity.
  rewrite Hop.
  assert (Hcase : operatorCase env bindings "POW" (mkArity 2 2 0 0 0) e (scratchHead e - 2)
                  = case_POW env e (scratchHead e - 2)) by reflexivity.
  refine (conj _ (conj _ (conj _ (conj _ (conj _ _))))).
  - intros a b Ha Hb. eapply operator_arith; eauto.
    rewrite Hcase. unfold case_POW. rewrite (arith_both e a b) by assumption.
    reflexivity.
  - intros a vb r Ha Hb Hr. eapply operator_arith; eauto.
    rewrite Hcase. unfold case_POW. rewrite (arith_onlyA e a vb) by assumption.
    unfold powOfBase in Hr.
    destruct (F64.eq a F64.zero); [injection Hr as <-; reflexivity|].
    destruct (F64.eq a F64.one); [injection Hr as <-; reflexivity|discriminate].
  - intros va b v Ha Hb Hv. eapply operator_arith; eauto.
    rewrite Hcase. unfold case_POW. rewrite (arith_onlyB e va b) by assumption.
    unfold powOfExponent in Hv.
    destruct (F64.eq b F64.zero); [injection Hv as <-; reflexivity|].
    destruct (F64.eq b F64.one); [|discriminate]. injection Hv as <-.
    unfold resultAt. rewrite (holds_scratchAt _ _ _ _ Ha). reflexivity.
  - intros a. reflexivity.
  - intros b. unfold Pow. rewrite orb_true_r. reflexivity.
  - intros a. unfold Pow.
    change (F64.eq F64.one F64.zero) with false. cbn [orb].
    destruct (F64.eq a F64.one); reflexivity.
Qed.

(** C7, amended. DEPTH never defers and never fails while the stack has
    room, whatever the items on the stack are: it pushes one item, flagged
    as a number, that renders as the number of items that were on the stack
    before the push, in decimal; the items below and the open bindings are
    untouched. *)
Theorem DEPTH_pushes_depth
    (env : Env) (bindings : gmap string binding) (tc : timeCtx)
    (e : Expression) (tokIdx : Z) :
  0 <= scratchHead e < len (scratch e) ->
  scratchHead e < len (isFloat e) ->
  exists e' v,
    simplifyToken env bindings tc e tokIdx (VString "DEPTH") = Ok e'
    /\ scratchHead e' = scratchHead e + 1
    /\ holds e' (scratchHead e) v true
    /\ renderToken env v = pretty (scratchHead e)
    /\ (forall j, j <> scratchHead e ->
          zindex (scratch e') j = zindex (scratch e) j
          /\ zindex (isFloat e') j = zindex (isFloat e) j)
    /\ openBindings e' = openBindings e.
Proof.
  intros H1 H2.
  exists (pushed e (VInt (scratchHead e)) true), (VInt (scratchHead e)).
  assert (Hop : simplifyToken env bindings tc e tokIdx (VString "DEPTH")
                = operator env bindings "DEPTH" (mkArity 0 0 0 0 0) e) by reflexivity.
  rewrite Hop. unfold operator.
  cbn [popCount floatOffset floatCount nonOperatorOffset nonOperatorCount].
  destruct (Z.ltb_spec (scratchHead e) 0); [lia|].
  rewrite floatCheck_empty by lia. cbn [bind].
  rewrite nonOperatorCheck_empty by lia. cbn [bind orb].
  change (operatorCase env bindings "DEPTH" (mkArity 0 0 0 0 0) e (scratchHead e - 0))
    with (case_DEPTH e).
  unfold case_DEPTH. rewrite push_pushed by assumption. cbn [bind epilogue].
  repeat split.
  - unfold zindex. cbn [pushed scratch withHead withIsFloat withScratch].
    destruct (Z.ltb_spec (scratchHead e) 0); [lia|].
    apply list_lookup_insert_eq. unfold len in *. lia.
  - unfold zindex. cbn [pushed isFloat withHead withIsFloat withScratch].
    destruct (Z.ltb_spec (scratchHead e) 0); [lia|].
    apply list_lookup_insert_eq. unfold len in *. lia.
  - unfold zindex. cbn [pushed scratch withHead withIsFloat withScratch].
    destruct (Z.ltb_spec j 0); [reflexivity|].
    apply list_lookup_insert_ne. lia.
  - unfold zindex. cbn [pushed isFloat withHead withIsFloat withScratch].
    destruct (Z.ltb_spec j 0); [reflexivity|].
    apply list_lookup_insert_ne. lia.
Qed.

(** ** Count operators *)

Section Counted.

Variable env : Env.
Variable bindings : gmap string binding.
Variable tc : timeCtx.


Lemma checkCount_accepts token e i c fl :
  holds e i (VFloat c) fl -> notPositiveFinite c = false ->
  checkCount token e i = Ok c.
Proof.
  intros H Hc. unfold checkCount. rewrite (holds_floatAt _ _ _ _ H). cbn [bind].
  now rewrite Hc.
Qed.

Lemma toInt_trunc c n :
  F64.trunc c = Some n -> - 2 ^ 63 <= n < 2 ^ 63 -> toInt env c = n.
Proof.
  intros Ht Hn. unfold toInt. rewrite Ht.
  destruct (Z.leb_spec (- 2 ^ 63) n); [|lia].
  destruct (Z.ltb_spec n (2 ^ 63)); [|lia]. reflexivity.
Qed.


Lemma counted_accepts token window e i c fl :
  holds e i (VFloat c) fl -> notPositiveFinite c = false ->
  counted env token window e i
  = bind (checkItems token e (toInt env c) (scratchHead e - 1))
      (fun _ => window (toInt env c) e i).
Proof.
  intros H Hc. unfold counted, countOf.
  rewrite (checkCount_accepts _ _ _ _ _ H Hc). cbn [bind].
  destruct (checkItems token e (toInt env c) (scratchHead e - 1)); reflexivity.
Qed.

(** The two pre-checks pass when the count on top is a float64. *)
Lemma operator_counted token e c fl :
  holds e (scratchHead e - 1) (VFloat c) fl ->
  operator env bindings token countArity e
  = bind (operatorCase env bindings token countArity e (scratchHead e - 1))
      (epilogue token countArity e).
Proof.
  intros H. unfold operator, countArity.
  cbn [popCount floatOffset floatCount nonOperatorOffset nonOperatorCount].
  pose proof (holds_bounds _ _ _ _ H) as [H1 H2].
  destruct (Z.ltb_spec (scratchHead e) 1); [lia|].
  rewrite (floatCheck_one _ _ _ _ H). cbn [bind isFloat64 negb].
  rewrite nonOperatorCheck_empty by lia. cbn [bind orb].
  reflexivity.
Qed.

Lemma countedWindows_token token window e tokIdx :
  In (token, window) (countedWindows env) ->
  simplifyToken env bindings tc e tokIdx (VString token)
  = operator env bindings token countArity e
  /\ operatorCase env bindings token countArity e (scratchHead e - 1)
     = counted env token window e (scratchHead e - 1).
Proof.
  intros Hin. unfold countedWindows in Hin. simpl in Hin.
  repeat (destruct Hin as [Hin|Hin]; [injection Hin as <- <-; split; reflexivity|]).
  destruct Hin.
Qed.

End Counted.




(** The integer part of a float above zero is not negative. *)
Lemma trunc_nonneg (c : float) (n : Z) :
  F64.le c F64.zero = false -> F64.trunc c = Some n -> 0 <= n.
Proof.
  unfold F64.le, F64.trunc. rewrite FloatAxioms.leb_spec.
  change (Prim2SF F64.zero) with (S754_zero false).
  destruct (Prim2SF c) as [s|s| |s m e]; intros H1 H2; try discriminate.
  destruct s; [discriminate|]. injection H2 as <-.
  destruct (Z.leb_spec 0 e).
  - apply Z.mul_nonneg_nonneg; [lia|apply Z.pow_nonneg; lia].
  - apply Z.div_pos; [lia|]. apply Z.pow_pos_nonneg; lia.
Qed.

Lemma notPositiveFinite_le (c : float) :
  notPositiveFinite c = false -> F64.le c F64.zero = false.
Proof.
  unfold notPositiveFinite. intros H.
  apply orb_false_iff in H as [_ H]. exact H.
Qed.

(** The two pre-checks of ROLL and PERCENT pass on two float64 arguments. *)
Lemma operator_two_counts env bindings token e a b fa fb :
  holds e (scratchHead e - 2) (VFloat a) fa ->
  holds e (scratchHead e - 1) (VFloat b) fb ->
  operator env bindings token twoArity e
  = bind (operatorCase env bindings token twoArity e (scratchHead e - 2))
      (epilogue token twoArity e).
Proof.
  intros Ha Hb. unfold operator, twoArity.
  cbn [popCount floatOffset floatCount nonOperatorOffset nonOperatorCount].
  pose proof (holds_bounds _ _ _ _ Ha) as [H1 H2].
  destruct (Z.ltb_spec (scratchHead e) 2); [lia|].
  rewrite (floatCheck_two e (scratchHead e - 2) a b fa fb); auto.
  2:{ replace (scratchHead e - 2 + 1) with (scratchHead e - 1) by lia. exact Hb. }
  cbn [bind]. rewrite nonOperatorCheck_empty by lia. cbn [bind orb].
  reflexivity.
Qed.

(** C10. A count that is positive and finite passes the count check whether
    or not it is integral, and the operator goes on with the count truncated
    toward zero: it checks that many items are available and runs its window
    of that size.  This holds for the ten operators whose only argument is
    the count, for ROLL and for PERCENT. *)
Theorem fractional_count_truncated
    (env : Env) (bindings : gmap string binding) (tc : timeCtx)
    (e : Expression) (tokIdx : Z) (c : float) (n : Z) :
  notPositiveFinite c = false ->
  F64.trunc c = Some n ->
  n < 2 ^ 63 ->
  (* the operators whose only argument is the count *)
  (forall token window fl,
      In (token, window) (countedWindows env) ->
      holds e (scratchHead e - 1) (VFloat c) fl ->
      simplifyToken env bindings tc e tokIdx (VString token)
      = bind (bind (checkItems token e n (scratchHead e - 1))
                (fun _ => window n e (scratchHead e - 1)))
          (epilogue token countArity e))
  (* ROLL: the count is the first of its two arguments *)
  /\ (forall m fl fl',
      holds e (scratchHead e - 2) (VFloat c) fl ->
      holds e (scratchHead e - 1) (VFloat m) fl' ->
      F64.IsNaN m || F64.IsInf m 1 || F64.IsInf m (-1) = false ->
      simplifyToken env bindings tc e tokIdx (VString "ROLL")
      = bind (bind (checkItems "ROLL" e n (scratchHead e - 1))
                (fun _ =>
                   bind (checkItems "ROLL" e (toInt env m) (scratchHead e - 1))
                     (fun _ => rollWindow env n (toInt env m) e (scratchHead e - 2))))
          (epilogue "ROLL" twoArity e))
  (* PERCENT: the count is the second of its two arguments *)
  /\ (forall percent fl fl',
      holds e (scratchHead e - 2) (VFloat percent) fl' ->
      notPositiveFinite percent = false ->
      holds e (scratchHead e - 1) (VFloat c) fl ->
      simplifyToken env bindings tc e tokIdx (VString "PERCENT")
      = bind (bind (checkItems "PERCENT" e n (scratchHead e - 2))
                (fun _ => percentWindow env percent n e (scratchHead e - 2)))
          (epilogue "PERCENT" twoArity e)).
Proof.
  intros Hok Ht Hn.
  assert (Hint : toInt env c = n).
  { apply toInt_trunc; [exact Ht|].
    pose proof (trunc_nonneg c n (notPositiveFinite_le c Hok) Ht). lia. }
  refine (conj _ (conj _ _)).
  - intros token window fl Hin H.
    destruct (countedWindows_token env bindings tc token window e tokIdx Hin) as [Htok Hcase].
    rewrite Htok, (operator_counted env bindings token e c fl H), Hcase.
    rewrite (counted_accepts env token window e _ c fl H Hok), Hint. reflexivity.
  - intros m fl fl' Hc Hm Hmok.
    change (simplifyToken env bindings tc e tokIdx (VString "ROLL"))
      with (operator env bindings "ROLL" twoArity e).
    rewrite (operator_two_counts env bindings "ROLL" e c m fl fl' Hc Hm).
    change (operatorCase env bindings "ROLL" twoArity e (scratchHead e - 2))
      with (case_ROLL env "ROLL" e (scratchHead e - 2)).
    unfold case_ROLL, countOf.
    rewrite (checkCount_accepts _ _ _ _ _ Hc Hok). cbn [bind]. rewrite Hint.
    destruct (checkItems "ROLL" e n (scratchHead e - 1)) as [[]| |]; cbn [bind]; try reflexivity.
    replace (scratchHead e - 2 + 1) with (scratchHead e - 1) by lia.
    rewrite (holds_floatAt _ _ _ _ Hm). cbn [bind]. rewrite Hmok. reflexivity.
  - intros percent fl fl' Hp Hpok Hc.
    change (simplifyToken env bindings tc e tokIdx (VString "PERCENT"))
      with (operator env bindings "PERCENT" twoArity e).
    rewrite (operator_two_counts env bindings "PERCENT" e percent c fl' fl Hp Hc).
    change (operatorCase env bindings "PERCENT" twoArity e (scratchHead e - 2))
      with (case_PERCENT env "PERCENT" e (scratchHead e - 2)).
    unfold case_PERCENT.
    rewrite (checkCount_accepts _ _ _ _ _ Hp Hpok). cbn [bind].
    replace (scratchHead e - 2 + 1) with (scratchHead e - 1) by lia.
    rewrite (holds_floatAt _ _ _ _ Hc). cbn [bind].
    assert (Hfin : F64.IsNaN c || F64.IsInf c 1 || F64.IsInf c (-1) = false).
    { unfold notPositiveFinite in Hok. apply orb_false_iff in Hok as [Hok _]. exact Hok. }
    rewrite Hfin, Hint. reflexivity.
Qed.

(** ** Windows that hold a symbol *)

Lemma holds_fun e j v v' fl fl' :
  holds e j v fl -> holds e j v' fl' -> v = v' /\ fl = fl'.
Proof. intros [H1 H2] [H3 H4]. split; congruence. Qed.

(** A window loop that stops at the first cell not flagged a float does stop
    when the window is typed and holds a cell that is not a float. *)
Lemma forLoop_breaks {S : Type} (e : Expression) (body : Z -> S -> result (S * bool)) :
  (forall j s v, holds e j v false -> exists s', body j s = Ok (s', true)) ->
  (forall j s x, holds e j (VFloat x) true -> exists s', body j s = Ok (s', false)) ->
  forall (d : nat) (lo : Z) (s : S) (fuel : nat),
    typedWindow e lo (lo + Z.of_nat d) ->
    (exists k v, lo <= k < lo + Z.of_nat d /\ holds e k v false) ->
    (d <= fuel)%nat ->
    exists s', forLoop fuel lo (lo + Z.of_nat d) s body = Ok (s', true).
Proof.
  intros Hstop Hgo. induction d as [|d IH]; intros lo s fuel Hty [k [v [Hk Hv]]] Hfuel.
  - lia.
  - destruct fuel as [|fuel]; [lia|].
    rewrite forLoop_step by lia.
    destruct (Hty lo ltac:(lia)) as [v0 Hv0].
    destruct v0 as [|x|s0|n0]; cbn [isFloat64] in Hv0.
    2:{ destruct (Hgo lo s x Hv0) as [s' ->]. cbn [bind snd fst].
        replace (lo + Z.of_nat (Datatypes.S d)) with (lo + 1 + Z.of_nat d) by lia.
        apply IH; [|exists k, v; split; [|exact Hv]|lia].
        - intros j Hj. apply Hty. lia.
        - assert (k <> lo); [|lia]. intros ->.
          destruct (holds_fun _ _ _ _ _ _ Hv Hv0). discriminate. }
    all: destruct (Hstop lo s _ Hv0) as [s' ->]; cbn [bind snd]; eauto.
Qed.

Lemma typedWindow_length e lo hi :
  0 <= lo -> typedWindow e lo hi -> hi - lo <= len (scratch e).
Proof.
  intros Hlo Hty. destruct (Z.le_gt_cases hi lo) as [H|H].
  - unfold len. lia.
  - destruct (Hty (hi - 1) ltac:(lia)) as [v Hv].
    apply holds_bounds in Hv as [Hv _]. lia.
Qed.

(** The loop lemma at the fuel the engine's loops have. *)
Lemma window_breaks {S : Type} (e : Expression) (body : Z -> S -> result (S * bool))
    (lo hi : Z) (s : S) :
  (forall j s v, holds e j v false -> exists s', body j s = Ok (s', true)) ->
  (forall j s x, holds e j (VFloat x) true -> exists s', body j s = Ok (s', false)) ->
  0 <= lo ->
  typedWindow e lo hi ->
  hasSymbol e lo hi ->
  exists s', forLoop (fuelOf e) lo hi s body = Ok (s', true).
Proof.
  intros Hstop Hgo Hlo Hty [k [sym [Hk Hsym]]].
  replace hi with (lo + Z.of_nat (Z.to_nat (hi - lo))) by lia.
  apply (forLoop_breaks e body Hstop Hgo).
  - replace (lo + Z.of_nat (Z.to_nat (hi - lo))) with hi by lia. exact Hty.
  - destruct (Hty k Hk) as [v Hv]. exists k, v. split; [lia|].
    destruct Hv as [Hv1 Hv2]. rewrite Hsym in Hv1. injection Hv1 as <-.
    split; assumption.
  - pose proof (typedWindow_length e lo hi Hlo Hty). unfold fuelOf, len in *. lia.
Qed.

Ltac loop_body_stops :=
  intros j s v Hv; rewrite (holds_isFloatAt _ _ _ _ Hv); cbn [bind negb]; eauto.
Ltac loop_body_goes :=
  intros j s x Hx; rewrite (holds_isFloatAt _ _ _ _ Hx); cbn [bind negb];
  rewrite (holds_floatAt _ _ _ _ Hx); cbn [bind].

Section Defers.

Variable env : Env.
Variable bindings : gmap string binding.
Variable e : Expression.
Variables lo hi : Z.
Hypothesis Hlo : 0 <= lo.
Hypothesis Hty : typedWindow e lo hi.
Hypothesis Hsym : hasSymbol e lo hi.

Lemma collectFloats_breaks : exists items, collectFloats e lo hi = Ok (items, true).
Proof.
  unfold collectFloats. apply window_breaks; auto.
  - loop_body_stops.
  - loop_body_goes. eauto.
Qed.

End Defers.

Lemma avgWindow_defers e n i :
  0 <= isub i n -> typedWindow e (isub i n) i -> hasSymbol e (isub i n) i ->
  avgWindow n e i = Ok CannotSimplify.
Proof.
  intros Hlo Hty Hsym. unfold avgWindow.
  match goal with
  | |- context [forLoop ?f ?l ?h ?s ?b] =>
      destruct (window_breaks e b l h s) as [s' ->]; auto
  end.
  - loop_body_stops.
  - loop_body_goes. destruct (negb (F64.IsNaN x)); eauto.
Qed.

Lemma stdevWindow_defers e n i :
  0 <= n -> 0 <= isub i n -> typedWindow e (isub i n) i -> hasSymbol e (isub i n) i ->
  stdevWindow n e i = Ok CannotSimplify.
Proof.
  intros Hn Hlo Hty Hsym. unfold stdevWindow, make.
  destruct (Z.ltb_spec n 0); [lia|]. cbn [bind].
  match goal with
  | |- context [forLoop ?f ?l ?h ?s ?b] =>
      destruct (window_breaks e b l h s) as [s' ->]; auto
  end.
  - intros j [[total used] items] v Hv.
    rewrite (holds_isFloatAt _ _ _ _ Hv); cbn [bind negb]; eauto.
  - intros j [[total used] items] x Hx.
    rewrite (holds_isFloatAt _ _ _ _ Hx); cbn [bind negb].
    rewrite (holds_floatAt _ _ _ _ Hx); cbn [bind].
    destruct (negb (F64.IsNaN x)); eauto.
Qed.

Lemma sortedWindow_defers f e n i :
  0 <= n -> n <> 1 ->
  0 <= isub i n -> typedWindow e (isub i n) i -> hasSymbol e (isub i n) i ->
  sortedWindow f n e i = Ok CannotSimplify.
Proof.
  intros Hn Hn1 Hlo Hty Hsym. unfold sortedWindow, make.
  destruct (Z.eqb_spec n 1); [lia|].
  destruct (Z.ltb_spec n 0); [lia|]. cbn [bind].
  destruct (collectFloats_breaks e _ _ Hlo Hty Hsym) as [items ->]. reflexivity.
Qed.

Lemma percentWindow_defers env percent e n i :
  0 <= n ->
  0 <= isub i n -> typedWindow e (isub i n) i -> hasSymbol e (isub i n) i ->
  percentWindow env percent n e i = Ok CannotSimplify.
Proof.
  intros Hn Hlo Hty Hsym. unfold percentWindow, make.
  destruct (Z.ltb_spec n 0); [lia|]. cbn [bind].
  destruct (collectFloats_breaks e _ _ Hlo Hty Hsym) as [items ->]. reflexivity.
Qed.

Lemma extremumOfWindow_defers better e n i :
  n <> 1 -> isub i n < i ->
  0 <= isub i n -> typedWindow e (isub i n) i -> hasSymbol e (isub i n) i ->
  extremumOfWindow better n e i = Ok CannotSimplify.
Proof.
  intros Hn1 Hlt Hlo Hty Hsym. unfold extremumOfWindow.
  destruct (Z.eqb_spec n 1); [lia|].
  destruct (Hty (i - 1) ltac:(lia)) as [top Htop].
  rewrite (holds_scratchAt _ _ _ _ Htop). cbn [bind].
  destruct top as [|best|sym0|int0]; cbn [asFloat]; try reflexivity.
  match goal with
  | |- context [forLoop ?f ?l ?h ?s ?b] =>
      destruct (window_breaks e b l h s) as [s' ->]; auto
  end.
  - loop_body_stops.
  - loop_body_goes. eauto.
  - intros j Hj. apply Hty. lia.
  - destruct Hsym as [k [sym [Hk Hs]]]. exists k, sym. split; [|exact Hs].
    assert (k <> i - 1); [|lia]. intros ->.
    destruct Htop as [Htop _]. congruence.
Qed.

Lemma aggregateWindows_counted env token window :
  In (token, window) aggregateWindows -> In (token, window) (countedWindows env).
Proof.
  unfold aggregateWindows, countedWindows. simpl.
  intros H. repeat (destruct H as [H|H]; [injection H as <- <-; tauto|]).
  destruct H.
Qed.

(** C5, amended. With a valid count n and a window of n items of which one
    is a symbol, AVG, STDEV, MAD, MEDIAN, SMAX, SMIN and PERCENT defer: the
    operator is pushed above its count and the window, which stay as they
    are.  The exception is a window of one item under MAD, MEDIAN, SMAX and
    SMIN, which is replaced by that item whatever it is. *)
Theorem aggregate_defers_on_symbol
    (env : Env) (bindings : gmap string binding) (tc : timeCtx)
    (e : Expression) (tokIdx : Z) (c : float) (fl : bool) (n : Z) :
  sized e ->
  room e ->
  holds e (scratchHead e - 1) (VFloat c) fl ->
  F64.trunc c = Some n ->
  (* AVG, STDEV, MAD, MEDIAN, SMAX, SMIN over a window with a symbol *)
  (forall token window,
      In (token, window) aggregateWindows ->
      notPositiveFinite c = false ->
      n <= scratchHead e - 1 ->
      typedWindow e (scratchHead e - 1 - n) (scratchHead e - 1) ->
      hasSymbol e (scratchHead e - 1 - n) (scratchHead e - 1) ->
      pinhole token = false \/ n <> 1 ->
      simplifyToken env bindings tc e tokIdx (VString token)
      = Ok (pushed e (VString token) false))
  (* MAD, MEDIAN, SMAX, SMIN over a window of one item *)
  /\ (forall token window v fl',
      In (token, window) aggregateWindows ->
      pinhole token = true ->
      notPositiveFinite c = false ->
      n = 1 ->
      holds e (scratchHead e - 2) v fl' ->
      simplifyToken env bindings tc e tokIdx (VString token)
      = Ok (replaceTop 2 e v))
  (* PERCENT over a window with a symbol *)
  /\ (forall percent fl',
      holds e (scratchHead e - 2) (VFloat percent) fl' ->
      notPositiveFinite percent = false ->
      F64.IsNaN c || F64.IsInf c 1 || F64.IsInf c (-1) = false ->
      n <= scratchHead e - 2 ->
      typedWindow e (scratchHead e - 2 - n) (scratchHead e - 2) ->
      hasSymbol e (scratchHead e - 2 - n) (scratchHead e - 2) ->
      simplifyToken env bindings tc e tokIdx (VString "PERCENT")
      = Ok (pushed e (VString "PERCENT") false)).
Proof.
  intros Hsz Hroom Hc Ht.
  pose proof (holds_bounds _ _ _ _ Hc) as [Hc1 Hc2].
  pose proof Hsz as [Hs1 Hs2]. pose proof Hroom as [Hr1 Hr2].
  refine (conj _ (conj _ _)).
  - intros token window Hin Hok Hn Hty Hsym Hpin.
    assert (Hn1 : 1 <= n).
    { destruct Hsym as [k [s [Hk _]]]. lia. }
    assert (Hint : toInt env c = n) by (apply toInt_trunc; [exact Ht|lia]).
    assert (Hsub : isub (scratchHead e - 1) n = scratchHead e - 1 - n).
    { unfold isub. apply wrap64_id. lia. }
    pose proof (aggregateWindows_counted env _ _ Hin) as Hin'.
    destruct (countedWindows_token env bindings tc token window e tokIdx Hin') as [Htok Hcase].
    rewrite Htok, (operator_counted env bindings token e c fl Hc), Hcase.
    rewrite (counted_accepts env token window e _ c fl Hc Hok), Hint.
    unfold checkItems. destruct (Z.ltb_spec (scratchHead e - 1) n); [lia|]. cbn [bind].
    assert (Hw : window n e (scratchHead e - 1) = Ok CannotSimplify).
    { unfold aggregateWindows in Hin. simpl in Hin.
      repeat (destruct Hin as [Hin|Hin];
              [injection Hin as <- <-;
               first
                 [ apply avgWindow_defers
                 | apply stdevWindow_defers
                 | apply sortedWindow_defers
                 | apply extremumOfWindow_defers ];
               rewrite ?Hsub; auto; try lia;
               try (destruct Hpin as [Hpin|Hpin]; [discriminate|exact Hpin])|]).
      destruct Hin. }
    rewrite Hw. cbn [bind epilogue]. apply push_pushed; lia.
  - intros token window v fl' Hin Hpin Hok -> Hv.
    pose proof (holds_bounds _ _ _ _ Hv) as [Hv1 Hv2].
    assert (Hint : toInt env c = 1) by (apply toInt_trunc; [exact Ht|lia]).
    pose proof (aggregateWindows_counted env _ _ Hin) as Hin'.
    destruct (countedWindows_token env bindings tc token window e tokIdx Hin') as [Htok Hcase].
    rewrite Htok, (operator_counted env bindings token e c fl Hc), Hcase.
    rewrite (counted_accepts env token window e _ c fl Hc Hok), Hint.
    unfold checkItems. destruct (Z.ltb_spec (scratchHead e - 1) 1); [lia|]. cbn [bind].
    assert (Hw : window 1 e (scratchHead e - 1) = Ok (Result v 1)).
    { unfold aggregateWindows in Hin. simpl in Hin.
      repeat (destruct Hin as [Hin|Hin];
              [injection Hin as <- <-; try discriminate Hpin;
               unfold madWindow, medianWindow, smaxWindow, sminWindow,
                 sortedWindow, extremumOfWindow;
               cbn [Z.eqb Pos.eqb];
               replace (scratchHead e - 1 - 1) with (scratchHead e - 2) by lia;
               rewrite (holds_scratchAt _ _ _ _ Hv); reflexivity|]).
      destruct Hin. }
    rewrite Hw. cbn [bind].
    apply epilogue_Result; cbn [popCount countArity]; auto; lia.
  - intros percent fl' Hp Hpok Hfin Hn Hty Hsym.
    assert (Hn1 : 1 <= n).
    { destruct Hsym as [k [s [Hk _]]]. lia. }
    assert (Hint : toInt env c = n) by (apply toInt_trunc; [exact Ht|lia]).
    assert (Hsub : isub (scratchHead e - 2) n = scratchHead e - 2 - n).
    { unfold isub. apply wrap64_id. lia. }
    change (simplifyToken env bindings tc e tokIdx (VString "PERCENT"))
      with (operator env bindings "PERCENT" twoArity e).
    rewrite (operator_two_counts env bindings "PERCENT" e percent c fl' fl Hp Hc).
    change (operatorCase env bindings "PERCENT" twoArity e (scratchHead e - 2))
      with (case_PERCENT env "PERCENT" e (scratchHead e - 2)).
    unfold case_PERCENT.
    rewrite (checkCount_accepts _ _ _ _ _ Hp Hpok). cbn [bind].
    replace (scratchHead e - 2 + 1) with (scratchHead e - 1) by lia.
    rewrite (holds_floatAt _ _ _ _ Hc). cbn [bind].
    rewrite Hfin, Hint.
    unfold checkItems. destruct (Z.ltb_spec (scratchHead e - 2) n); [lia|]. cbn [bind].
    rewrite percentWindow_defers; rewrite ?Hsub; auto; try lia.
    cbn [bind epilogue]. apply push_pushed; lia.
Qed.

(** ** Programs that Partial leaves as they are *)

Lemma simplifyToken_inert env bindings e tokIdx tok :
  inert env bindings tok = true ->
  performTimeSubstitutions e = false ->
  exists ob,
    simplifyToken env bindings noTime e tokIdx tok
    = push (withOpenBindings e ob) tok (isFloat64 tok).
Proof.
  intros Hin Hpt. destruct tok as [|f|s|n]; try discriminate.
  - exists (openBindings e). destruct e; reflexivity.
  - cbn [inert] in Hin. apply orb_true_iff in Hin as [Htime|Hfree].
    + unfold isTimeName in Htime.
      repeat (apply orb_true_iff in Htime as [Htime|Htime]);
        apply String.eqb_eq in Htime; subst s;
        unfold simplifyToken; cbn [String.eqb Ascii.eqb Bool.eqb];
        unfold pushTime; cbn [isTimeSet noTime]; rewrite ?Hpt;
        eexists; unfold incOpen; reflexivity.
    + unfold freeSymbol in Hfree.
      do 3 (apply andb_true_iff in Hfree as [Hfree ?]).
      unfold reserved in Hfree. cbn [forallb] in Hfree.
      repeat (apply andb_true_iff in Hfree as [? Hfree]).
      repeat match goal with
             | H : negb _ = true |- _ => apply negb_true_iff in H
             end.
      unfold simplifyToken.
      repeat match goal with
             | H : String.eqb s _ = false |- _ => rewrite H; clear H
             end.
      unfold isOperator in *.
      destruct (arity s); [discriminate|].
      destruct (ParseFloat env s); [discriminate|].
      destruct (bindings !! s) as [[x|l]|]; [discriminate| |];
        eexists; unfold incOpen; reflexivity.
Qed.

Lemma loaded_push size e ob p tok :
  loaded size e p -> (length p < size)%nat ->
  exists e',
    push (withOpenBindings e ob) tok (isFloat64 tok) = Ok e'
    /\ loaded size e' (p ++ [tok])
    /\ config e' = config e.
Proof.
  intros (Hh & Hp & Hs & Hf & Hpt) Hlt.
  exists (pushed (withOpenBindings e ob) tok (isFloat64 tok)). split; [|split].
  - apply push_pushed; cbn [withOpenBindings scratchHead scratch isFloat];
      unfold len in *; lia.
  - unfold loaded, pushed.
    cbn [withHead withIsFloat withScratch withOpenBindings scratchHead scratch
         isFloat performTimeSubstitutions].
    rewrite Hh. unfold len. rewrite Nat2Z.id.
    rewrite !length_insert, length_app. cbn [length].
    repeat split; auto; try lia.
    replace (length p + 1)%nat with (Datatypes.S (length p)) by lia.
    rewrite (take_S_r _ _ tok).
    + rewrite take_insert_ge by lia. now rewrite Hp.
    + apply list_lookup_insert_eq. lia.
  - reflexivity.
Qed.

Lemma simplifyLoop_inert env bindings size toks : forall tokIdx e p,
  forallb (inert env bindings) toks = true ->
  loaded size e p ->
  (length p + length toks <= size)%nat ->
  exists e',
    simplifyLoop env bindings noTime toks tokIdx e = Ok e'
    /\ loaded size e' (p ++ toks)
    /\ config e' = config e.
Proof.
  induction toks as [|tok rest IH]; intros tokIdx e p Hall Hl Hlen.
  - exists e. rewrite app_nil_r. auto.
  - cbn [forallb] in Hall. apply andb_true_iff in Hall as [Htok Hrest].
    cbn [length] in Hlen. cbn [simplifyLoop].
    destruct Hl as (Hh & Hp & Hs & Hf & Hpt).
    destruct (simplifyToken_inert env bindings e tokIdx tok Htok Hpt) as [ob ->].
    destruct (loaded_push size e ob p tok) as (e1 & -> & Hl1 & Hc1);
      [repeat split; auto|lia|].
    cbn [bind].
    destruct (IH (tokIdx + 1) e1 (p ++ [tok])%list Hrest Hl1) as (e' & He' & Hl' & Hc').
    { rewrite length_app. cbn [length]. lia. }
    exists e'. rewrite <- app_assoc in Hl'. cbn [app] in Hl'.
    repeat split; auto; try apply Hl'. congruence.
Qed.

(** X30. A program made of numbers, time-dependent names and
    symbols that the bindings leave free is a fixed point of Partial: the
    call succeeds, leaves the receiver as it was and returns an Expression
    with the same tokens and the same rendering. *)
Theorem Partial_fixes_inert_programs
    (env : Env) (bindings : gmap string goval) (b : gmap string binding)
    (e : Expression) :
  coerceMapValuesToFloat64 bindings = Coerced b ->
  forallb (inert env b) (tokens e) = true ->
  len (tokens e) <= scratchSize e ->
  exists exp,
    Partial env bindings e = Ok (exp, e)
    /\ tokens exp = tokens e
    /\ String_ env exp = String_ env e.
Proof.
  intros Hb Hall Hsize. unfold Partial, make.
  destruct (Z.ltb_spec (scratchSize e) 0); [unfold len in *; lia|]. cbn [bind].
  unfold simplify. rewrite Hb.
  cbn [withOpenBindings withHead performTimeSubstitutions timeOf bind tokens].
  match goal with
  | |- context [simplifyLoop env b noTime (tokens e) 0 ?e0] =>
      destruct (simplifyLoop_inert env b (Z.to_nat (scratchSize e)) (tokens e) 0 e0 [])
        as (e1 & -> & (Hh & Hp & Hs & Hf & Hpt) & Hc)
  end; auto.
  { unfold loaded.
    cbn [scratchHead scratch isFloat performTimeSubstitutions withOpenBindings
         withHead length take].
    rewrite !length_replicate. auto. }
  { cbn [length]. unfold len in *. lia. }
  cbn [app] in *.
  injection Hc as Hd Hspi Htoks _ _.
  cbn [withPerformTimeSubstitutions scratchHead tokens scratch].
  rewrite Hh, Htoks.
  destruct (Z.leb_spec 0 (len (tokens e))); [|unfold len in *; lia].
  destruct (Z.leb_spec (len (tokens e)) (len (tokens e))); [|lia].
  cbn [andb]. eexists. split; [reflexivity|].
  assert (Htok : tokens
            (withTokens (withPerformTimeSubstitutions e1 (performTimeSubstitutions e))
               (take
                  (Nat.min (length (take (Z.to_nat (len (tokens e))) (tokens e)))
                     (length (scratch e1))) (scratch e1) ++
                drop
                  (Nat.min (length (take (Z.to_nat (len (tokens e))) (tokens e)))
                     (length (scratch e1)))
                  (take (Z.to_nat (len (tokens e))) (tokens e)))) = tokens e).
  { cbn [withTokens tokens]. unfold len. rewrite Nat2Z.id.
    rewrite firstn_all. rewrite Hs.
    replace (Nat.min (length (tokens e)) (Z.to_nat (scratchSize e)))
      with (length (tokens e)) by (unfold len in *; lia).
    rewrite Hp. rewrite drop_all. apply app_nil_r. }
  split; [exact Htok|].
  unfold String_. rewrite Htok. cbn [withTokens delimiter withPerformTimeSubstitutions].
  now rewrite Hd.
Qed.

(** C8, amended. Partial hands back its receiver unchanged.  Evaluate
    keeps the compiled tokens, the delimiter, the seconds per interval, the
    time-substitution flag and the size of the work area of its receiver;
    the work area itself is where it computes. *)
Theorem receiver_after_call
    (env : Env) (bindings : gmap string goval) (e : Expression) :
  match Partial env bindings e with
  | Ok (_, e') | Err _ e' => e' = e
  | Panic _ => True
  end
  /\ match Evaluate env bindings e with
     | Ok (_, e') | Err _ e' =>
         tokens e' = tokens e
         /\ delimiter e' = delimiter e
         /\ secondsPerInterval e' = secondsPerInterval e
         /\ performTimeSubstitutions e' = performTimeSubstitutions e
         /\ scratchSize e' = scratchSize e
     | Panic _ => True
     end.
Proof.
  split.
  - unfold Partial. destruct (make (scratchSize e)) as [[]| |] eqn:Hm; cbn [bind].
    + destruct (simplify env bindings _) as [exp1| |]; auto.
      destruct (_ && _); auto.
    + unfold make in Hm. destruct (_ <? _); discriminate.
    + exact I.
  - assert (H : framed (fun r => config (snd r) = config e) e (Evaluate env bindings e)).
    { unfold Evaluate.
      eapply framed_bind; [apply framed_simplify|]. intros e1 H1. unfold sameConfig in H1.
      destruct (0 <? _); [exact H1|].
      destruct (negb _); [exact H1|].
      apply framed_noErr; [apply noErr_scratchAt|]. intros v.
      destruct (asFloat v); exact H1. }
    unfold framed, config in H.
    destruct (Evaluate env bindings e) as [[x e']|err e'|p]; auto;
      cbn [snd] in H; injection H as -> -> -> -> ->; auto.
Qed.

(** ** Examples on the sample host *)

(** C1, witness: UNKN,13,GE folds to NaN. *)
Lemma relational_NaN_witness :
  simplifyToken Sample.env ∅ noTime (onStack [VFloat F64.NaN; VFloat 13%float] 1) 2
    (VString "GE")
  = Ok (replaceTop 2 (onStack [VFloat F64.NaN; VFloat 13%float] 1) (VFloat F64.NaN)).
Proof.
  refine (proj1 (relational_NaN Sample.env ∅ noTime _ 2 F64.NaN 13%float _ _ _));
    split; reflexivity.
Defined.

Example NaN_comparisons_compiled :
  compiled "UNKN,13,GE" = Some [VFloat F64.NaN]
  /\ compiled "UNKN,13,GT" = Some [VFloat F64.NaN]
  /\ compiled "13,UNKN,LE" = Some [VFloat F64.NaN]
  /\ compiled "13,UNKN,LT" = Some [VFloat F64.NaN]
  /\ compiled "UNKN,13,EQ" = Some [VFloat F64.zero]
  /\ compiled "UNKN,UNKN,EQ" = Some [VFloat F64.zero]
  /\ compiled "UNKN,13,NE" = Some [VFloat F64.one]
  /\ rendered (New Sample.env "UNKN,13,GE" []) = Some "UNKN".
Proof. repeat split; vm_compute; reflexivity. Qed.

(** C2, witness: 5,2,+ evaluates to 7. *)
Lemma Evaluate_error_precedence_witness :
  Evaluate Sample.env ∅ five_two_plus = Ok (7%float, seven).
Proof.
  refine (proj2 (proj2 (proj2 (proj2
            (Evaluate_error_precedence Sample.env ∅ five_two_plus seven _)))) _ _ _ _);
    vm_compute; reflexivity.
Defined.

Example Evaluate_errors :
  evaluated "x,1,+" ∅ = Some (inr (ErrOpenBindings ["x"]))
  /\ evaluated "1,2" ∅
     = Some (inr (ErrSyntax "extra parameters: %v"
                    [AValues [VFloat 1%float; VFloat 2%float]]))
  /\ evaluated "5,2,+" ∅ = Some (inl 7%float).
Proof. split; [|split]; vm_compute; reflexivity. Qed.

(** C9, witness: + on a stack of one item. *)
Lemma arity_not_enough_parameters_witness :
  simplifyToken Sample.env ∅ noTime (onStack [VFloat 1%float] 1) 1 (VString "+")
  = Err (ErrSyntax fmtNotEnough [AString "+"; AInt 2]) (onStack [VFloat 1%float] 1)
  /\ Error Sample.env (ErrSyntax fmtNotEnough [AString "+"; AInt 2])
     = "syntax error : not enough parameters: operator + requires 2 operands".
Proof.
  refine (arity_not_enough_parameters Sample.env ∅ noTime (onStack [VFloat 1%float] 1) 1
            "+" (mkArity 2 2 0 0 0) _ _); reflexivity.
Defined.

(** C3, witness: 0,b,POW with b a symbol. *)
Lemma POW_identities_witness :
  simplifyToken Sample.env ∅ noTime (onStack [VFloat 0%float; VString "b"] 1) 2
    (VString "POW")
  = Ok (replaceTop 2 (onStack [VFloat 0%float; VString "b"] 1) (VFloat 0%float)).
Proof.
  refine (proj1 (proj2 (POW_identities Sample.env ∅ noTime _ 2 _))
            0%float (VString "b") 0%float _ _ _);
    try split; reflexivity.
Defined.

(** C3, counterexample: 0,0,POW folds to 1. *)
Lemma POW_zero_zero_is_one :
  compiled "0,0,POW" = Some [VFloat 1%float]
  /\ rendered (New Sample.env "0,0,POW" []) = Some "1"
  /\ compiled "0,b,POW" = Some [VFloat 0%float].
Proof. split; [|split]; vm_compute; reflexivity. Qed.

(** C7, witness: DEPTH over two items. *)
Lemma DEPTH_pushes_depth_witness :
  exists e' v,
    simplifyToken Sample.env ∅ noTime (onStack [VString "a"; VString "b"] 1) 2
      (VString "DEPTH") = Ok e'
    /\ scratchHead e' = 3
    /\ holds e' 2 v true
    /\ renderToken Sample.env v = "2".
Proof.
  destruct (DEPTH_pushes_depth Sample.env ∅ noTime
              (onStack [VString "a"; VString "b"] 1) 2)
    as (e' & v & H1 & H2 & H3 & H4 & _).
  - vm_compute. split; [discriminate|reflexivity].
  - reflexivity.
  - exists e', v. auto.
Defined.

(** C7, counterexample: the depth is counted before the push; the item is
    stored as an int, so that Evaluate of DEPTH alone reports an unexpected
    token type and DEPTH,1,+ panics. *)
Lemma DEPTH_counts_before_push :
  compiled "a,b,DEPTH" = Some [VString "a"; VString "b"; VInt 2]
  /\ compiled "DEPTH" = Some [VInt 0]
  /\ evaluated "DEPTH" ∅
     = Some (inr (ErrSyntax "unexpected token type at position %d: %v"
                    [AInt 1; AValue (VInt 0)]))
  /\ New Sample.env "DEPTH,1,+" [] = Panic TypeAssertion.
Proof. split; [|split; [|split]]; vm_compute; reflexivity. Qed.

(** C4: PERCENT accepts a count of zero, and ROLL a count one above the items
    below its two arguments; both then index outside the stack. *)
Lemma count_checks_of_PERCENT_and_ROLL :
  New Sample.env "1,2,3,50,0,PERCENT" [] = Panic IndexOutOfRange
  /\ New Sample.env "1,2,3,1,ROLL" [] = Panic IndexOutOfRange.
Proof. split; vm_compute; reflexivity. Qed.


(** C10, witness: 1,2,3,2.5,AVG averages the top two items. *)
Lemma fractional_count_truncated_witness :
  exists e',
    simplifyToken Sample.env ∅ noTime
      (onStack [VFloat 1%float; VFloat 2%float; VFloat 3%float; VFloat 2.5%float] 1) 4
      (VString "AVG") = Ok e'
    /\ scratchHead e' = 2
    /\ holds e' 1 (VFloat 2.5%float) true.
Proof.
  eexists. split.
  - refine (proj1 (fractional_count_truncated Sample.env ∅ noTime _ 4 2.5%float 2 _ _ _)
              "AVG" avgWindow true _ _).
    + reflexivity.
    + reflexivity.
    + reflexivity.
    + left. reflexivity.
    + split; reflexivity.
  - vm_compute. repeat split; reflexivity.
Defined.

Example fractional_counts_compiled :
  rendered (New Sample.env "1,2,3,2.5,AVG" []) = Some "1,2.5"
  /\ rendered (New Sample.env "a,b,c,2.5,REV" []) = Some "a,c,b".
Proof. split; vm_compute; reflexivity. Qed.

(** C5, witness: a,2,2,AVG defers. *)
Lemma aggregate_defers_on_symbol_witness :
  simplifyToken Sample.env ∅ noTime
    (onStack [VString "a"; VFloat 2%float; VFloat 2%float] 1) 3 (VString "AVG")
  = Ok (pushed (onStack [VString "a"; VFloat 2%float; VFloat 2%float] 1)
          (VString "AVG") false).
Proof.
  refine (proj1 (aggregate_defers_on_symbol Sample.env ∅ noTime _ 3 2%float true 2 _ _ _ _)
            "AVG" avgWindow _ _ _ _ _ _).
  - split; reflexivity.
  - split; reflexivity.
  - split; reflexivity.
  - reflexivity.
  - left. reflexivity.
  - reflexivity.
  - vm_compute. discriminate.
  - intros j Hj. assert (Hc : j = 0 \/ j = 1) by (cbv [onStack scratchHead len length] in Hj; lia).
    destruct Hc as [-> | ->]; eexists; split; reflexivity.
  - exists 0, "a". split; [cbv [onStack scratchHead len length]; lia|reflexivity].
  - left. reflexivity.
Defined.

(** C5, counterexample: MEDIAN of one item hands the item back, a symbol too. *)
Lemma MEDIAN_of_one_symbol :
  compiled "a,1,MEDIAN" = Some [VString "a"]
  /\ compiled "a,1,MAD" = Some [VString "a"]
  /\ compiled "a,1,SMAX" = Some [VString "a"]
  /\ compiled "a,1,SMIN" = Some [VString "a"]
  /\ compiled "a,1,AVG" = Some [VString "a"; VFloat 1%float; VString "AVG"].
Proof. repeat (split; [vm_compute; reflexivity|]). vm_compute; reflexivity. Qed.

(** X30, witness: a number, a time name and a free symbol. *)
Lemma Partial_fixes_inert_programs_witness :
  exists exp,
    Partial Sample.env ∅ inertProgram = Ok (exp, inertProgram)
    /\ tokens exp = tokens inertProgram
    /\ String_ Sample.env exp = String_ Sample.env inertProgram.
Proof.
  refine (Partial_fixes_inert_programs Sample.env ∅ ∅ inertProgram _ _ _).
  - reflexivity.
  - reflexivity.
  - vm_compute. discriminate.
Defined.

(** C6, counterexample: x,c,+,x,GE folds to 1 once c is 0, whatever x is bound
    to later; with both bound at once it folds to NaN.  And x,0,* folds to an
    int, which a second Partial rejects. *)
Lemma Partial_in_two_steps_differs :
  rendered (New Sample.env "x,c,+,x,GE" []) = Some "x,c,+,x,GE"
  /\ rendered (andThen x_is_NaN (andThen c_is_zero (New Sample.env "x,c,+,x,GE" [])))
     = Some "1"
  /\ rendered (andThen (c_is_zero ∪ x_is_NaN) (New Sample.env "x,c,+,x,GE" []))
     = Some "UNKN"
  /\ rendered (New Sample.env "x,0,*" []) = Some "0"
  /\ rendered (andThen ∅ (New Sample.env "x,0,*" [])) = None.
Proof. repeat (split; [vm_compute; reflexivity|]). vm_compute; reflexivity. Qed.

(** C8, counterexample: Evaluate leaves its result and flags in the receiver. *)
Lemma Evaluate_overwrites_working_state :
  exists e e',
    New Sample.env "x" [] = Ok e
    /\ Evaluate Sample.env x_is_5 e = Ok (5%float, e')
    /\ scratch e = [VString "x"] /\ scratch e' = [VFloat 5%float]
    /\ isFloat e = [false] /\ isFloat e' = [true]
    /\ scratchHead e = 1 /\ tokens e' = tokens e.
Proof.
  eexists. eexists. split; [vm_compute; reflexivity|].
  split; [vm_compute; reflexivity|].
  repeat split.
Qed.

(** * Further properties of the engine *)

(** ** Vocabulary *)

(** The arithmetic operators with what they compute on two float64. *)
Definition arithmeticOps (env : Env) : list (string * (float -> float -> float)) :=
  [ ("+", PrimFloat.add); ("-", PrimFloat.sub); ("*", PrimFloat.mul);
    ("/", PrimFloat.div); ("%", Mod env) ].

Definition arithArity : arityTuple := mkArity 2 2 0 0 0.

(** The token [token], met with the stack of [e], replaces the top [k] items
    by [v]. *)
Definition folds (env : Env) (bindings : gmap string binding) (tc : timeCtx)
    (e : Expression) (token : string) (k : Z) (v : value) : Prop :=
  forall tokIdx,
    simplifyToken env bindings tc e tokIdx (VString token) = Ok (replaceTop k e v).

(** The token [token], met with the stack of [e], is pushed above it. *)
Definition defers (env : Env) (bindings : gmap string binding) (tc : timeCtx)
    (e : Expression) (token : string) : Prop :=
  forall tokIdx,
    simplifyToken env bindings tc e tokIdx (VString token)
    = Ok (pushed e (VString token) false).

(** A float64 or a string: what a program leaves in a cell, the two int
    constants apart. *)
Definition plain (v : value) : bool :=
  match v with VFloat _ | VString _ => true | _ => false end.

(** Every cell of [lo, hi) is plain and flagged as its type says. *)
Definition wellFormed (e : Expression) (lo hi : Z) : Prop :=
  forall j, lo <= j < hi -> exists v, holds e j v (isFloat64 v) /\ plain v = true.

(** Some cell of [lo, hi) is the name of an operator. *)
Definition hasOperator (e : Expression) (lo hi : Z) : Prop :=
  exists k s, lo <= k < hi /\ zindex (scratch e) k = Some (VString s)
              /\ isOperator s = true.

Definition windowsWithin (t : arityTuple) : bool :=
  (0 <=? floatCount t) && (floatCount t <=? floatOffset t)
  && (floatOffset t <=? popCount t)
  && (0 <=? nonOperatorCount t) && (nonOperatorCount t <=? nonOperatorOffset t)
  && (nonOperatorOffset t <=? popCount t) && (popCount t <=? 3).

(** The functions of one float64. *)
Definition unaryOps (env : Env) : list (string * (float -> float)) :=
  [ ("ABS", F64.Abs); ("ATAN", Atan env); ("CEIL", F64.Ceil); ("COS", Cos env);
    ("DEG2RAD", fun a => PrimFloat.div (PrimFloat.mul a F64.Pi) 180%float);
    ("EXP", Exp env); ("FLOOR", F64.Floor);
    ("ISINF", fun a => if F64.IsInf a 1 || F64.IsInf a (-1) then F64.one else F64.zero);
    ("LOG", Log env);
    ("RAD2DEG", fun a => PrimFloat.div (PrimFloat.mul a 180%float) F64.Pi);
    ("SIN", Sin env); ("SQRT", F64.Sqrt);
    ("UN", fun a => if F64.IsNaN a then F64.one else F64.zero) ].

(** A value an operator may take as it is: a number, or a symbol that is
    not the name of a pending operator. *)
Definition operand (v : value) : bool :=
  match v with
  | VFloat _ => true
  | VString s => negb (isOperator s)
  | _ => false
  end.

Definition ifArity : arityTuple := mkArity 3 3 1 2 2.

Definition limitArity : arityTuple := mkArity 3 3 3 0 0.

(** What a,lo,hi,LIMIT is on three numbers. *)
Definition limited (a lo hi : float) : float :=
  if F64.IsNaN a || F64.IsNaN lo || F64.IsNaN hi then F64.NaN
  else if F64.IsInf a (-1) || F64.IsInf lo (-1) || F64.IsInf hi (-1) then F64.NaN
  else if F64.lt a lo || F64.gt a hi then F64.NaN
  else a.

(** The four operators, with the library function each calls and whether
    it hands a NaN operand on. *)
Definition extremumOps : list (string * ((float -> float -> float) * bool)) :=
  [ ("MAX", (F64.Max, true)); ("MAXNAN", (F64.Max, false));
    ("MIN", (F64.Min, true)); ("MINNAN", (F64.Min, false)) ].

Definition relArity : arityTuple := mkArity 2 0 0 2 2.

Definition dupArity : arityTuple := mkArity 1 0 0 1 1.

Definition popArity : arityTuple := mkArity 1 0 0 0 0.

(** [e] with its two top items exchanged. *)
Definition exchanged (e : Expression) : Expression :=
  let i := Z.to_nat (scratchHead e - 2) in
  match scratch e !! i, scratch e !! Datatypes.S i,
        isFloat e !! i, isFloat e !! Datatypes.S i with
  | Some v0, Some v1, Some f0, Some f1 =>
      withIsFloat
        (withScratch e (<[Datatypes.S i := v0]> (<[i := v1]> (scratch e))))
        (<[Datatypes.S i := f0]> (<[i := f1]> (isFloat e)))
  | _, _, _, _ => e
  end.

(** The part of [e] a program can see: the items below the head, their
    flags, and the open bindings. *)
Definition sameStack (e e' : Expression) : Prop :=
  scratchHead e' = scratchHead e
  /\ (forall j, 0 <= j < scratchHead e ->
        zindex (scratch e') j = zindex (scratch e) j
        /\ zindex (isFloat e') j = zindex (isFloat e) j)
  /\ openBindings e' = openBindings e.

(** The names that stand for a number, with the number; [spi] is the
    number of seconds per interval. *)
Definition constantsAt (spi : float) : list (string * float) :=
  [ ("DAY", 86400%float); ("HOUR", 3600%float); ("MINUTE", 60%float);
    ("WEEK", 604800%float); ("INF", F64.Inf 1); ("NEGINF", F64.Inf (-1));
    ("UNKN", F64.NaN); ("STEPWIDTH", spi) ].

Definition constantTokens (e : Expression) : list (string * float) :=
  constantsAt (secondsPerInterval e).

(** The names whose value depends on the TIME binding. *)
Definition timeTokens : list string :=
  [ "TIME"; "LTIME"; "NEWDAY"; "NEWWEEK"; "NEWMONTH"; "NEWYEAR" ].

(** A name the token switch does not know: not reserved, no operator. *)
Definition plainName (s : string) : bool :=
  forallb (fun r => negb (String.eqb s r)) reserved && negb (isOperator s).

(** What one binding is coerced to: a float64 for a number, a []float64
    for a slice of numbers; [None] for nil and for every other type. *)
Definition coerceOne (v : goval) : option binding :=
  match v with
  | GoNil => None
  | _ =>
      if isSliceKind v then
        match coerceValuesToFloat64 v with
        | inr l => Some (BSeries l)
        | inl _ => None
        end
      else
        match coerceValueToFloat64 v with
        | inr f => Some (BFloat f)
        | inl _ => None
        end
  end.

Definition coerceList (l : list (string * goval)) : coerced :=
  foldr (fun kv acc => coerceEntry (fst kv) (snd kv) acc) (Coerced ∅) l.

(** The cells from [lo] on hold the numbers [xs], flagged as numbers. *)
Definition windowOf (e : Expression) (lo : Z) (xs : list float) : Prop :=
  forall (k : nat) (x : float),
    xs !! k = Some x -> holds e (lo + Z.of_nat k) (VFloat x) true.

(** The items of a window that are not NaN, their sum, and their mean. *)
Definition numbers (xs : list float) : list float :=
  List.filter (fun x => negb (F64.IsNaN x)) xs.

Definition total (xs : list float) : float := fold_left PrimFloat.add xs F64.zero.

Definition average (xs : list float) : float :=
  PrimFloat.div (total (numbers xs)) (F64.of_int (len (numbers xs))).

(** The standard deviation STDEV computes: that of the items that are not
    NaN, about their mean. *)
Definition deviation (xs : list float) : float :=
  let mean := average xs in
  F64.Sqrt
    (PrimFloat.div
       (fold_left
          (fun acc x =>
             let diff := PrimFloat.sub x mean in
             PrimFloat.add acc (PrimFloat.mul diff diff))
          (numbers xs) F64.zero)
       (F64.of_int (len (numbers xs)))).

(** The median of a list of numbers that is not empty: the middle item of
    the sorted list, or the mean of its two middle items. *)
Definition middle (xs : list float) : float :=
  let sorted := F64.Float64s xs in
  let k := Z.quot (len sorted) 2 in
  if Z.rem (len sorted) 2 =? 0 then
    PrimFloat.div
      (PrimFloat.add (default F64.zero (zindex sorted (k - 1)))
                     (default F64.zero (zindex sorted k)))
      2%float
  else default F64.zero (zindex sorted k).

(** What SMAX and SMIN compute: starting from the last item, the items
    before it are met in order, and one that is better replaces the best. *)
Definition extremumOf (better : float -> float -> bool) (xs : list float) : float :=
  fold_left (fun best x => if better x best then x else best)
    (removelast xs) (List.last xs F64.zero).

(** What a token that is no operator leaves on the stack when no binding
    and no time is given: [None] for the empty token and for the names of
    operators. *)
Definition leaves (env : Env) (spi : float) (s : string) : option value :=
  if String.eqb s "" then None
  else if isTimeName s then Some (VString s)
  else
    match assoc s (constantsAt spi) with
    | Some c => Some (VFloat c)
    | None =>
        if isOperator s then None
        else
          match ParseFloat env s with
          | Some x => Some (VFloat x)
          | None => Some (VString s)
          end
    end.




(** The six comparisons. *)
Definition comparisons : list string := [ "EQ"; "NE"; "GE"; "GT"; "LE"; "LT" ].

(** The characters that name an operator. *)
Definition operatorCharacters : list ascii :=
  ["%"%char; "*"%char; "+"%char; "-"%char; "/"%char].

(** The program TIME, as New leaves it. *)
Definition timeProgram : Expression :=
  mkExpression DefaultDelimiter ∅ DefaultSecondsPerInterval
    [VString "TIME"] true 1 0 [VNil] [false].

(** ** The arithmetic operators *)

Lemma epilogue_defers token opArity e :
  0 <= scratchHead e -> room e ->
  epilogue token opArity e CannotSimplify = Ok (pushed e (VString token) false).
Proof.
  intros H0 [H1 H2]. cbn [epilogue]. apply push_pushed; lia.
Qed.

(** The pre-checks of the arithmetic family look at no operand. *)
Lemma operator_arith_case env bindings token e va vb fa fb :
  holds e (scratchHead e - 2) va fa ->
  holds e (scratchHead e - 1) vb fb ->
  operator env bindings token arithArity e
  = bind (operatorCase env bindings token arithArity e (scratchHead e - 2))
      (epilogue token arithArity e).
Proof.
  intros Ha Hb. unfold operator, arithArity.
  cbn [popCount floatOffset floatCount nonOperatorOffset nonOperatorCount].
  pose proof (holds_bounds _ _ _ _ Ha) as [Ha1 Ha2].
  destruct (Z.ltb_spec (scratchHead e) 2); [lia|].
  rewrite floatCheck_empty by lia. cbn [bind].
  rewrite nonOperatorCheck_empty by lia. reflexivity.
Qed.

Lemma eq_one_not_zero (a : float) : F64.eq a F64.one = true -> F64.eq a F64.zero = false.
Proof.
  unfold F64.eq. rewrite !FloatAxioms.eqb_spec.
  change (Prim2SF F64.one) with (S754_finite false 4503599627370496 (-52)).
  change (Prim2SF F64.zero) with (S754_zero false).
  destruct (Prim2SF a) as [s|s| |s m e]; simpl; try discriminate;
    intros _; destruct s; reflexivity.
Qed.

Ltac arith_token tok :=
  match goal with
  | |- context [simplifyToken ?en ?bs ?t ?ex ?i (VString tok)] =>
      change (simplifyToken en bs t ex i (VString tok))
        with (operator en bs tok arithArity ex)
  end.

(** X2. The operators + - * / % met with two float64 operands replace them
    by their IEEE sum, difference, product, quotient and math.Mod
    remainder. *)
Theorem arithmetic_on_numbers
    (env : Env) (bindings : gmap string binding) (tc : timeCtx)
    (e : Expression) (tokIdx : Z) (token : string)
    (op : float -> float -> float) (a b : float) :
  In (token, op) (arithmeticOps env) ->
  sized e ->
  holds e (scratchHead e - 2) (VFloat a) true ->
  holds e (scratchHead e - 1) (VFloat b) true ->
  simplifyToken env bindings tc e tokIdx (VString token)
  = Ok (replaceTop 2 e (VFloat (op a b))).
Proof.
  intros Hin Hsz Ha Hb. unfold arithmeticOps in Hin. simpl in Hin.
  repeat (destruct Hin as [Hin|Hin];
    [injection Hin as <- <-;
     match goal with
     | |- simplifyToken _ _ _ _ _ (VString ?tok) = _ => arith_token tok
     end;
     apply (operator_arith env bindings _ e (VFloat a) (VFloat b) true true); auto;
     first
       [ change (case_add e (scratchHead e - 2) = Ok (Result (VFloat (PrimFloat.add a b)) 0));
         unfold case_add
       | change (case_sub e (scratchHead e - 2) = Ok (Result (VFloat (PrimFloat.sub a b)) 0));
         unfold case_sub
       | change (case_mul e (scratchHead e - 2) = Ok (Result (VFloat (PrimFloat.mul a b)) 0));
         unfold case_mul
       | change (case_div e (scratchHead e - 2) = Ok (Result (VFloat (PrimFloat.div a b)) 0));
         unfold case_div
       | change (case_mod env e (scratchHead e - 2) = Ok (Result (VFloat (Mod env a b)) 0));
         unfold case_mod ];
     rewrite (arith_both e a b) by assumption; reflexivity|]).
  destruct Hin.
Qed.

Ltac pick_case :=
  lazy [operatorCase String.eqb Ascii.eqb Bool.eqb andb].

Ltac arith_fold Ha Hb :=
  unfold folds, defers; intros ?tokIdx;
  match goal with
  | |- simplifyToken _ _ _ _ _ (VString ?tok) = _ => arith_token tok
  end;
  rewrite (operator_arith_case _ _ _ _ _ _ _ _ Ha Hb);
  pick_case;
  unfold case_add, case_sub, case_mul, case_div, case_mod;
  first [ rewrite (arith_onlyA _ _ _ _ _ _ Ha Hb)
        | rewrite (arith_onlyB _ _ _ _ _ _ Ha Hb)
        | rewrite (arith_firstOnly _ _ _ _ _ _ Ha Hb) ].

Ltac arith_done Hsz Hroom Ha Hb :=
  unfold resultAt, resultF;
  repeat match goal with
         | |- context [scratchHead ?x - 2 + 1] =>
             replace (scratchHead x - 2 + 1) with (scratchHead x - 1) by lia
         end;
  rewrite ?(holds_scratchAt _ _ _ _ Ha), ?(holds_scratchAt _ _ _ _ Hb);
  cbn [bind];
  pose proof (holds_bounds _ _ _ _ Ha) as [? ?];
  pose proof (holds_bounds _ _ _ _ Hb) as [? ?];
  pose proof Hsz as [? ?];
  first [ apply epilogue_Result; cbn [popCount arithArity]; auto; lia
        | apply epilogue_defers; [lia|exact Hroom] ].

Section Arithmetic.

Variable env : Env.
Variable bindings : gmap string binding.
Variable tc : timeCtx.
Variable e : Expression.

(** X3. With a float64 first operand a and a symbol second operand b:
    0,b,+ folds to b, 0,b,* to the int 0, 0,b,/ to 0 and 1,b,* to b; in
    every other case, and always for - and %, the operator is pushed
    unresolved above its operands. *)
Theorem arithmetic_number_first (a : float) (vb : value) :
  sized e -> room e ->
  holds e (scratchHead e - 2) (VFloat a) true ->
  holds e (scratchHead e - 1) vb false ->
  (F64.eq a F64.zero = true ->
     folds env bindings tc e "+" 2 vb /\ folds env bindings tc e "*" 2 (VInt 0) /\ folds env bindings tc e "/" 2 (VFloat F64.zero))
  /\ (F64.eq a F64.one = true -> folds env bindings tc e "*" 2 vb)
  /\ (F64.eq a F64.zero = false -> defers env bindings tc e "+" /\ defers env bindings tc e "/")
  /\ (F64.eq a F64.zero = false -> F64.eq a F64.one = false -> defers env bindings tc e "*")
  /\ defers env bindings tc e "-" /\ defers env bindings tc e "%".
Proof.
  intros Hsz Hroom Ha Hb.
  refine (conj _ (conj _ (conj _ (conj _ (conj _ _))))).
  - intros Hz. refine (conj _ (conj _ _)); arith_fold Ha Hb; rewrite Hz;
      arith_done Hsz Hroom Ha Hb.
  - intros H1. pose proof (eq_one_not_zero a H1) as Hz.
    arith_fold Ha Hb. rewrite Hz, H1. arith_done Hsz Hroom Ha Hb.
  - intros Hz. split; arith_fold Ha Hb; rewrite Hz; arith_done Hsz Hroom Ha Hb.
  - intros Hz H1. arith_fold Ha Hb. rewrite Hz, H1. arith_done Hsz Hroom Ha Hb.
  - arith_fold Ha Hb. arith_done Hsz Hroom Ha Hb.
  - arith_fold Ha Hb. arith_done Hsz Hroom Ha Hb.
Qed.

(** X4. With a symbol first operand a and a float64 second operand b:
    a,0,+ and a,0,- fold to a, a,0,* to the int 0, a,0,/ and a,0,% to NaN,
    a,1,* and a,1,/ to a, a,1,% to 0; in every other case the operator is
    pushed unresolved above its operands. *)
Theorem arithmetic_number_second (va : value) (b : float) :
  sized e -> room e ->
  holds e (scratchHead e - 2) va false ->
  holds e (scratchHead e - 1) (VFloat b) true ->
  (F64.eq b F64.zero = true ->
     folds env bindings tc e "+" 2 va /\ folds env bindings tc e "-" 2 va /\ folds env bindings tc e "*" 2 (VInt 0)
     /\ folds env bindings tc e "/" 2 (VFloat F64.NaN) /\ folds env bindings tc e "%" 2 (VFloat F64.NaN))
  /\ (F64.eq b F64.one = true ->
     folds env bindings tc e "*" 2 va /\ folds env bindings tc e "/" 2 va /\ folds env bindings tc e "%" 2 (VFloat F64.zero))
  /\ (F64.eq b F64.zero = false -> defers env bindings tc e "+" /\ defers env bindings tc e "-")
  /\ (F64.eq b F64.zero = false -> F64.eq b F64.one = false ->
     defers env bindings tc e "*" /\ defers env bindings tc e "/" /\ defers env bindings tc e "%").
Proof.
  intros Hsz Hroom Ha Hb.
  refine (conj _ (conj _ (conj _ _))).
  - intros Hz. refine (conj _ (conj _ (conj _ (conj _ _)))); arith_fold Ha Hb; rewrite Hz;
      arith_done Hsz Hroom Ha Hb.
  - intros H1. pose proof (eq_one_not_zero b H1) as Hz.
    refine (conj _ (conj _ _)); arith_fold Ha Hb; rewrite Hz, H1;
      arith_done Hsz Hroom Ha Hb.
  - intros Hz. split; arith_fold Ha Hb; rewrite Hz; arith_done Hsz Hroom Ha Hb.
  - intros Hz H1. refine (conj _ (conj _ _)); arith_fold Ha Hb; rewrite Hz, H1;
      arith_done Hsz Hroom Ha Hb.
Qed.

End Arithmetic.

(** ** Loops, in general *)

Lemma forLoop_rule {S : Type} (P : Z -> S -> Prop) (Q : S -> Prop)
    (body : Z -> S -> result (S * bool)) :
  forall (d fuel : nat) (lo : Z) (s : S),
    (d <= fuel)%nat -> P lo s ->
    (forall j s, lo <= j < lo + Z.of_nat d -> P j s ->
       exists s' b, body j s = Ok (s', b) /\ (if b then Q s' else P (j + 1) s')) ->
    exists s' b, forLoop fuel lo (lo + Z.of_nat d) s body = Ok (s', b)
                 /\ (if b then Q s' else P (lo + Z.of_nat d) s').
Proof.
  induction d as [|d IH]; intros fuel lo s Hf HP Hbody.
  - exists s, false. rewrite forLoop_done by lia. split; auto.
    replace (lo + Z.of_nat 0) with lo by lia. auto.
  - destruct fuel as [|fuel]; [lia|]. rewrite forLoop_step by lia.
    destruct (Hbody lo s) as (s' & b & Hb & Hpost); [lia|auto|].
    rewrite Hb. cbn [bind snd fst]. destruct b.
    + exists s', true. auto.
    + destruct (IH fuel (lo + 1) s') as (s'' & b' & Hrun & Hpost'); [lia|auto| |].
      * intros j s0 Hj. apply Hbody. lia.
      * exists s'', b'.
        replace (lo + Z.of_nat (Datatypes.S d)) with (lo + 1 + Z.of_nat d) by lia. auto.
Qed.

Lemma wellFormed_fuel e lo hi :
  0 <= lo -> wellFormed e lo hi -> (Z.to_nat (hi - lo) <= fuelOf e)%nat.
Proof.
  intros Hlo Hwf. unfold fuelOf. destruct (Z.le_gt_cases hi lo) as [H|H]; [lia|].
  destruct (Hwf (hi - 1) ltac:(lia)) as (v & Hv & _).
  apply holds_bounds in Hv as [Hv _]. unfold len in Hv. lia.
Qed.

(** The loop rule at the fuel the engine's loops have. *)
Lemma window_rule {S : Type} (P : Z -> S -> Prop) (Q : S -> Prop)
    (e : Expression) (body : Z -> S -> result (S * bool)) (lo hi : Z) (s : S) :
  0 <= lo -> lo <= hi -> wellFormed e lo hi -> P lo s ->
  (forall j s, lo <= j < hi -> P j s ->
     exists s' b, body j s = Ok (s', b) /\ (if b then Q s' else P (j + 1) s')) ->
  exists s' b, forLoop (fuelOf e) lo hi s body = Ok (s', b)
               /\ (if b then Q s' else P hi s').
Proof.
  intros Hlo Hle Hwf HP Hbody.
  pose proof (wellFormed_fuel e lo hi Hlo Hwf) as Hfuel.
  replace hi with (lo + Z.of_nat (Z.to_nat (hi - lo))) by lia.
  apply forLoop_rule; auto.
  intros j s0 Hj. apply Hbody. lia.
Qed.

(** ** The two pre-checks *)

Lemma floatCheck_spec e lo hi :
  0 <= lo -> lo <= hi -> wellFormed e lo hi ->
  exists b, floatCheck e lo hi = Ok b
            /\ (b = true <-> hasSymbol e lo hi).
Proof.
  intros Hlo Hle Hwf. unfold floatCheck.
  destruct (window_rule
              (fun j (_ : unit) => forall k, lo <= k < j -> exists x fl, holds e k (VFloat x) fl)
              (fun _ => hasSymbol e lo hi)
              e (fun argIdx _ => do v <- scratchAt e argIdx; Ok (tt, negb (isFloat64 v)))
              lo hi tt)
    as (s' & b & Hrun & Hpost); auto.
  - intros k Hk. lia.
  - intros j [] Hj HP. destruct (Hwf j Hj) as (v & Hv & Hplain).
    rewrite (holds_scratchAt _ _ _ _ Hv). cbn [bind].
    exists tt, (negb (isFloat64 v)). split; [reflexivity|].
    destruct v as [|x|s|n]; try discriminate; cbn [isFloat64 negb].
    + intros k Hk. destruct (Z.eq_dec k j) as [->|Hne]; [eauto|].
      apply HP. lia.
    + exists j, s. split; [lia|]. apply Hv.
  - rewrite Hrun. cbn [bind snd]. exists b. split; [reflexivity|].
    destruct b.
    + tauto.
    + split; [discriminate|]. intros (k & s & Hk & Hs).
      destruct (Hpost k Hk) as (x & fl & Hx & _). congruence.
Qed.

Lemma nonOperatorCheck_spec e lo hi :
  0 <= lo -> lo <= hi -> wellFormed e lo hi ->
  exists b, nonOperatorCheck e lo hi = Ok b
            /\ (b = true <-> hasOperator e lo hi).
Proof.
  intros Hlo Hle Hwf. unfold nonOperatorCheck.
  destruct (window_rule
              (fun j (_ : unit) =>
                 forall k s, lo <= k < j -> zindex (scratch e) k = Some (VString s) ->
                             isOperator s = false)
              (fun _ => hasOperator e lo hi)
              e (fun argIdx _ =>
                   do fl <- isFloatAt e argIdx;
                   if negb fl then
                     do v <- scratchAt e argIdx;
                     do s <- orPanic TypeAssertion (asString v);
                     Ok (tt, isOperator s)
                   else Ok (tt, false))
              lo hi tt)
    as (s' & b & Hrun & Hpost); auto.
  - intros k s Hk. lia.
  - intros j [] Hj HP. destruct (Hwf j Hj) as (v & Hv & Hplain).
    rewrite (holds_isFloatAt _ _ _ _ Hv).
    destruct v as [|x|s|n]; try discriminate; cbn [isFloat64 negb bind].
    + exists tt, false. split; [reflexivity|].
      intros k s Hk Hs. destruct (Z.eq_dec k j) as [->|Hne].
      * destruct Hv as [Hv _]. congruence.
      * apply (HP k); auto. lia.
    + rewrite (holds_scratchAt _ _ _ _ Hv). cbn [bind asString orPanic].
      exists tt, (isOperator s). split; [reflexivity|].
      destruct (isOperator s) eqn:Hop.
      * exists j, s. split; [lia|]. split; [apply Hv|exact Hop].
      * intros k s0 Hk Hs. destruct (Z.eq_dec k j) as [->|Hne].
        -- destruct Hv as [Hv _]. congruence.
        -- apply (HP k); auto. lia.
  - rewrite Hrun. cbn [bind snd]. exists b. split; [reflexivity|].
    destruct b.
    + tauto.
    + split; [discriminate|]. intros (k & s & Hk & Hs & Hop).
      rewrite (Hpost k s Hk Hs) in Hop. discriminate.
Qed.

(** ** The catalog's windows *)

Lemma arity_windows token t :
  arity token = Some t ->
  0 <= floatCount t <= floatOffset t /\ floatOffset t <= popCount t
  /\ 0 <= nonOperatorCount t <= nonOperatorOffset t
  /\ nonOperatorOffset t <= popCount t /\ popCount t <= 3.
Proof.
  intros H. apply arity_In in H.
  assert (Hall : forallb (fun kt => windowsWithin (snd kt)) arityTable = true)
    by (vm_compute; reflexivity).
  rewrite forallb_forall in Hall. specialize (Hall _ H). cbn [snd] in Hall.
  unfold windowsWithin in Hall.
  repeat (apply andb_true_iff in Hall as [Hall ?]).
  lia.
Qed.

(** A name of the catalog reaches the operator code. *)
Lemma simplifyToken_operator env bindings tc e tokIdx token t :
  arity token = Some t ->
  simplifyToken env bindings tc e tokIdx (VString token) = operator env bindings token t e.
Proof.
  intros H. unfold simplifyToken.
  repeat match goal with
         | |- context [String.eqb token ?r] =>
             destruct (String.eqb_spec token r) as [->|_];
             [vm_compute in H; discriminate|]
         end.
  rewrite H. reflexivity.
Qed.

Lemma wellFormed_sub e lo hi lo' hi' :
  wellFormed e lo hi -> lo <= lo' -> hi' <= hi -> wellFormed e lo' hi'.
Proof. intros H H1 H2 j Hj. apply H. lia. Qed.

(** What the operator code does once the two pre-checks are evaluated. *)
Lemma operator_prechecks env bindings token t e :
  arity token = Some t ->
  popCount t <= scratchHead e ->
  wellFormed e (scratchHead e - popCount t) (scratchHead e) ->
  exists b1 b2,
    (b1 = true <->
       hasSymbol e (scratchHead e - floatOffset t)
         (scratchHead e - floatOffset t + floatCount t))
    /\ (b2 = true <->
       hasOperator e (scratchHead e - nonOperatorOffset t)
         (scratchHead e - nonOperatorOffset t + nonOperatorCount t))
    /\ operator env bindings token t e
       = bind (if b1 || b2 then Ok CannotSimplify
               else operatorCase env bindings token t e (scratchHead e - popCount t))
           (epilogue token t e).
Proof.
  intros Har Hpop Hwf. pose proof (arity_windows _ _ Har) as (Hf1 & Hf2 & Hn1 & Hn2 & Hp).
  destruct (floatCheck_spec e (scratchHead e - floatOffset t)
              (scratchHead e - floatOffset t + floatCount t)) as (b1 & Hb1 & Hs1);
    [lia|lia|eapply wellFormed_sub; eauto; lia|].
  destruct (nonOperatorCheck_spec e (scratchHead e - nonOperatorOffset t)
              (scratchHead e - nonOperatorOffset t + nonOperatorCount t))
    as (b2 & Hb2 & Hs2);
    [lia|lia|eapply wellFormed_sub; eauto; lia|].
  exists b1, b2. split; [exact Hs1|]. split; [exact Hs2|].
  unfold operator. destruct (Z.ltb_spec (scratchHead e) (popCount t)); [lia|].
  rewrite Hb1. cbn [bind]. rewrite Hb2. reflexivity.
Qed.

(** X5. For every operator of the catalog whose operands are on the stack:
    if an operand in its float window is a symbol, or an operand in its
    non-operator window is the name of an operator, the operator is not
    evaluated and returns no error; its token is pushed above the
    operands, which stay as they are. *)
Theorem unresolved_operand_defers
    (env : Env) (bindings : gmap string binding) (tc : timeCtx)
    (e : Expression) (token : string) (t : arityTuple) :
  arity token = Some t ->
  popCount t <= scratchHead e ->
  room e ->
  wellFormed e (scratchHead e - popCount t) (scratchHead e) ->
  hasSymbol e (scratchHead e - floatOffset t)
    (scratchHead e - floatOffset t + floatCount t)
  \/ hasOperator e (scratchHead e - nonOperatorOffset t)
       (scratchHead e - nonOperatorOffset t + nonOperatorCount t) ->
  defers env bindings tc e token.
Proof.
  intros Har Hpop Hroom Hwf Hun tokIdx.
  rewrite (simplifyToken_operator env bindings tc e tokIdx token t Har).
  destruct (operator_prechecks env bindings token t e Har Hpop Hwf)
    as (b1 & b2 & Hs1 & Hs2 & ->).
  assert (Hb : b1 || b2 = true).
  { apply orb_true_iff. destruct Hun as [H|H]; [left; now apply Hs1|right; now apply Hs2]. }
  rewrite Hb. cbn [bind].
  pose proof (arity_windows _ _ Har) as (Hf1 & Hf2 & Hn1 & Hn2 & Hp).
  apply epilogue_defers; [lia|exact Hroom].
Qed.

(** With operands it can use, the operator reaches its case. *)
Lemma operator_proceeds env bindings token t e :
  arity token = Some t ->
  popCount t <= scratchHead e ->
  wellFormed e (scratchHead e - popCount t) (scratchHead e) ->
  ~ hasSymbol e (scratchHead e - floatOffset t)
      (scratchHead e - floatOffset t + floatCount t) ->
  ~ hasOperator e (scratchHead e - nonOperatorOffset t)
      (scratchHead e - nonOperatorOffset t + nonOperatorCount t) ->
  operator env bindings token t e
  = bind (operatorCase env bindings token t e (scratchHead e - popCount t))
      (epilogue token t e).
Proof.
  intros Har Hpop Hwf Hns Hno.
  destruct (operator_prechecks env bindings token t e Har Hpop Hwf)
    as (b1 & b2 & Hs1 & Hs2 & ->).
  destruct b1; [exfalso; apply Hns, Hs1; reflexivity|].
  destruct b2; [exfalso; apply Hno, Hs2; reflexivity|].
  reflexivity.
Qed.

(** ** Functions of one number *)

(** X6. ABS, ATAN, CEIL, COS, DEG2RAD, EXP, FLOOR, ISINF, LOG, RAD2DEG,
    SIN, SQRT and UN met with a float64 on top of the stack replace it by
    the function's value (ISINF and UN by 1 or 0). *)
Theorem unary_functions
    (env : Env) (bindings : gmap string binding) (tc : timeCtx)
    (e : Expression) (token : string) (f : float -> float) (a : float) (fl : bool) :
  In (token, f) (unaryOps env) ->
  sized e ->
  holds e (scratchHead e - 1) (VFloat a) fl ->
  folds env bindings tc e token 1 (VFloat (f a)).
Proof.
  intros Hin Hsz Ha tokIdx.
  pose proof (holds_bounds _ _ _ _ Ha) as [H1 H2]. pose proof Hsz as [H3 H4].
  unfold unaryOps in Hin. simpl in Hin.
  repeat (destruct Hin as [Hin|Hin];
    [injection Hin as <- <-;
     rewrite (simplifyToken_operator env bindings tc e tokIdx _ countArity) by reflexivity;
     rewrite (operator_counted env bindings _ e a fl Ha);
     pick_case; unfold unary, case_ISINF, case_UN, bool01, resultF;
     rewrite (holds_floatAt _ _ _ _ Ha); cbn [bind];
     apply epilogue_Result; cbn [popCount countArity]; auto; lia|]).
  destruct Hin.
Qed.

(** ** Building the hypotheses of the pre-checks *)

Lemma wellFormed_nil e lo : wellFormed e lo lo.
Proof. intros j Hj. lia. Qed.

Lemma wellFormed_cons e lo hi v :
  holds e lo v (isFloat64 v) -> plain v = true ->
  wellFormed e (lo + 1) hi -> wellFormed e lo hi.
Proof.
  intros Hv Hp Hwf j Hj. destruct (Z.eq_dec j lo) as [->|Hne]; [eauto|].
  apply Hwf. lia.
Qed.

Lemma no_symbol_nil e lo hi : hi <= lo -> ~ hasSymbol e lo hi.
Proof. intros H (k & s & Hk & _). lia. Qed.

Lemma no_operator_nil e lo hi : hi <= lo -> ~ hasOperator e lo hi.
Proof. intros H (k & s & Hk & _). lia. Qed.

Lemma no_symbol_cons e lo hi x fl :
  holds e lo (VFloat x) fl -> ~ hasSymbol e (lo + 1) hi -> ~ hasSymbol e lo hi.
Proof.
  intros [Hx _] Hn (k & s & Hk & Hs). destruct (Z.eq_dec k lo) as [->|Hne]; [congruence|].
  apply Hn. exists k, s. split; [lia|exact Hs].
Qed.

Lemma no_operator_float e lo hi x fl :
  holds e lo (VFloat x) fl -> ~ hasOperator e (lo + 1) hi -> ~ hasOperator e lo hi.
Proof.
  intros [Hx _] Hn (k & s & Hk & Hs & Hop). destruct (Z.eq_dec k lo) as [->|Hne]; [congruence|].
  apply Hn. exists k, s. split; [lia|auto].
Qed.

Lemma no_operator_symbol e lo hi s fl :
  holds e lo (VString s) fl -> isOperator s = false ->
  ~ hasOperator e (lo + 1) hi -> ~ hasOperator e lo hi.
Proof.
  intros [Hx _] Hs Hn (k & s' & Hk & Hs' & Hop).
  destruct (Z.eq_dec k lo) as [->|Hne]; [congruence|].
  apply Hn. exists k, s'. split; [lia|auto].
Qed.

Lemma operand_plain v : operand v = true -> plain v = true.
Proof. destruct v; simpl; auto. Qed.

Lemma no_operator_operand e lo hi v fl :
  holds e lo v fl -> operand v = true ->
  ~ hasOperator e (lo + 1) hi -> ~ hasOperator e lo hi.
Proof.
  intros Hv Hop. destruct v as [|x|s|n]; try discriminate.
  - eapply no_operator_float; eauto.
  - eapply no_operator_symbol; eauto. simpl in Hop. now destruct (isOperator s).
Qed.

Ltac stack_index :=
  repeat match goal with
         | |- context [scratchHead ?x - ?k + 1] =>
             let r := eval cbv in (k - 1) in
             replace (scratchHead x - k + 1) with (scratchHead x - r) by lia
         | |- context [scratchHead ?x - ?k + 2] =>
             let r := eval cbv in (k - 2) in
             replace (scratchHead x - k + 2) with (scratchHead x - r) by lia
         | H : context [scratchHead ?x - ?k + 1] |- _ =>
             let r := eval cbv in (k - 1) in
             replace (scratchHead x - k + 1) with (scratchHead x - r) in H by lia
         end.

(** ** IF *)

(** X7. a,b,c,IF with a float64 a folds to b when a is below or above zero
    and to c when a is zero or NaN; b and c are taken as they are, numbers
    or symbols. *)
Theorem IF_selects
    (env : Env) (bindings : gmap string binding) (tc : timeCtx)
    (e : Expression) (a : float) (vb vc : value) :
  sized e ->
  holds e (scratchHead e - 3) (VFloat a) true ->
  holds e (scratchHead e - 2) vb (isFloat64 vb) -> operand vb = true ->
  holds e (scratchHead e - 1) vc (isFloat64 vc) -> operand vc = true ->
  folds env bindings tc e "IF" 3
    (if F64.lt a F64.zero || F64.gt a F64.zero then vb else vc).
Proof.
  intros Hsz Ha Hb Hob Hc Hoc tokIdx.
  pose proof (holds_bounds _ _ _ _ Ha) as [H1 H2]. pose proof Hsz as [H3 H4].
  pose proof (holds_bounds _ _ _ _ Hc) as [H5 H6].
  rewrite (simplifyToken_operator env bindings tc e tokIdx _ ifArity) by reflexivity.
  assert (Hc' : holds e (scratchHead e - 2 + 1) vc (isFloat64 vc))
    by (replace (scratchHead e - 2 + 1) with (scratchHead e - 1) by lia; exact Hc).
  assert (Hb' : holds e (scratchHead e - 3 + 1) vb (isFloat64 vb))
    by (replace (scratchHead e - 3 + 1) with (scratchHead e - 2) by lia; exact Hb).
  rewrite operator_proceeds; [|reflexivity|cbn [popCount ifArity]; lia|..];
    cbn [popCount floatOffset floatCount nonOperatorOffset nonOperatorCount ifArity].
  - pick_case. unfold case_IF. rewrite (holds_isFloatAt _ _ _ _ Ha). cbn [bind].
    rewrite (holds_floatAt _ _ _ _ Ha). cbn [bind]. unfold resultAt. stack_index.
    destruct (F64.lt a F64.zero); cbn [orb].
    + rewrite (holds_scratchAt _ _ _ _ Hb). cbn [bind].
      apply epilogue_Result; cbn [popCount ifArity]; auto; lia.
    + destruct (F64.gt a F64.zero).
      * rewrite (holds_scratchAt _ _ _ _ Hb). cbn [bind].
        apply epilogue_Result; cbn [popCount ifArity]; auto; lia.
      * rewrite (holds_scratchAt _ _ _ _ Hc). cbn [bind].
        apply epilogue_Result; cbn [popCount ifArity]; auto; lia.
  - apply (wellFormed_cons _ _ _ (VFloat a)); [exact Ha|reflexivity|].
    apply (wellFormed_cons _ _ _ vb); [exact Hb'|now apply operand_plain|].
    replace (scratchHead e - 3 + 1 + 1) with (scratchHead e - 2 + 1) by lia.
    apply (wellFormed_cons _ _ _ vc); [exact Hc'|now apply operand_plain|].
    replace (scratchHead e - 2 + 1 + 1) with (scratchHead e) by lia.
    apply wellFormed_nil.
  - eapply no_symbol_cons; [exact Ha|]. apply no_symbol_nil. lia.
  - eapply no_operator_operand; [exact Hb|exact Hob|].
    eapply no_operator_operand; [exact Hc'|exact Hoc|].
    apply no_operator_nil. lia.
Qed.

(** ** LIMIT *)

(** X8. a,lo,hi,LIMIT on three float64 folds to NaN when one of them is
    NaN or -Inf or when a is outside [lo, hi], and to a otherwise; +Inf is
    not rejected. *)
Theorem LIMIT_on_numbers
    (env : Env) (bindings : gmap string binding) (tc : timeCtx)
    (e : Expression) (a lo hi : float) :
  sized e ->
  holds e (scratchHead e - 3) (VFloat a) true ->
  holds e (scratchHead e - 2) (VFloat lo) true ->
  holds e (scratchHead e - 1) (VFloat hi) true ->
  folds env bindings tc e "LIMIT" 3 (VFloat (limited a lo hi)).
Proof.
  intros Hsz Ha Hb Hc tokIdx.
  pose proof (holds_bounds _ _ _ _ Ha) as [H1 H2]. pose proof Hsz as [H3 H4].
  pose proof (holds_bounds _ _ _ _ Hc) as [H5 H6].
  rewrite (simplifyToken_operator env bindings tc e tokIdx _ limitArity) by reflexivity.
  assert (Hc' : holds e (scratchHead e - 3 + 1 + 1) (VFloat hi) true)
    by (replace (scratchHead e - 3 + 1 + 1) with (scratchHead e - 1) by lia; exact Hc).
  assert (Hb' : holds e (scratchHead e - 3 + 1) (VFloat lo) true)
    by (replace (scratchHead e - 3 + 1) with (scratchHead e - 2) by lia; exact Hb).
  rewrite operator_proceeds; [|reflexivity|cbn [popCount limitArity]; lia|..];
    cbn [popCount floatOffset floatCount nonOperatorOffset nonOperatorCount limitArity].
  - pick_case. unfold case_LIMIT, limited, resultF, resultAt.
    rewrite (holds_floatAt _ _ _ _ Ha). cbn [bind].
    destruct (F64.IsNaN a); cbn [orb];
      [apply epilogue_Result; cbn [popCount limitArity]; auto; lia|].
    stack_index.
    rewrite (holds_floatAt _ _ _ _ Hb). cbn [bind].
    destruct (F64.IsNaN lo); cbn [orb];
      [apply epilogue_Result; cbn [popCount limitArity]; auto; lia|].
    rewrite (holds_floatAt _ _ _ _ Hc). cbn [bind].
    destruct (F64.IsNaN hi); cbn [orb];
      [apply epilogue_Result; cbn [popCount limitArity]; auto; lia|].
    destruct (F64.IsInf a (-1) || F64.IsInf lo (-1) || F64.IsInf hi (-1));
      [apply epilogue_Result; cbn [popCount limitArity]; auto; lia|].
    destruct (F64.lt a lo || F64.gt a hi); cbn [negb];
      rewrite ?(holds_scratchAt _ _ _ _ Ha); cbn [bind];
      apply epilogue_Result; cbn [popCount limitArity]; auto; lia.
  - apply (wellFormed_cons _ _ _ (VFloat a)); [exact Ha|reflexivity|].
    apply (wellFormed_cons _ _ _ (VFloat lo)); [exact Hb'|reflexivity|].
    apply (wellFormed_cons _ _ _ (VFloat hi)); [exact Hc'|reflexivity|].
    replace (scratchHead e - 3 + 1 + 1 + 1) with (scratchHead e) by lia.
    apply wellFormed_nil.
  - eapply no_symbol_cons; [exact Ha|].
    eapply no_symbol_cons; [exact Hb'|].
    eapply no_symbol_cons; [exact Hc'|]. apply no_symbol_nil. lia.
  - apply no_operator_nil. lia.
Qed.

(** ** ADDNAN *)

(** X9. a,b,ADDNAN on two float64 folds to b when a is NaN, to a when only
    b is NaN, and to a+b otherwise. *)
Theorem ADDNAN_on_numbers
    (env : Env) (bindings : gmap string binding) (tc : timeCtx)
    (e : Expression) (a b : float) (fa fb : bool) :
  sized e ->
  holds e (scratchHead e - 2) (VFloat a) fa ->
  holds e (scratchHead e - 1) (VFloat b) fb ->
  folds env bindings tc e "ADDNAN" 2
    (VFloat (if F64.IsNaN a then b else if F64.IsNaN b then a else PrimFloat.add a b)).
Proof.
  intros Hsz Ha Hb tokIdx.
  pose proof (holds_bounds _ _ _ _ Ha) as [H1 H2]. pose proof Hsz as [H3 H4].
  pose proof (holds_bounds _ _ _ _ Hb) as [H5 H6].
  rewrite (simplifyToken_operator env bindings tc e tokIdx _ twoArity) by reflexivity.
  rewrite (operator_two_counts env bindings _ e a b fa fb Ha Hb).
  pick_case. unfold case_ADDNAN, resultF, resultAt. stack_index.
  rewrite (holds_floatAt _ _ _ _ Ha). cbn [bind].
  rewrite (holds_floatAt _ _ _ _ Hb). cbn [bind].
  destruct (F64.IsNaN a); cbn [negb andb].
  - rewrite (holds_scratchAt _ _ _ _ Hb). cbn [bind].
    apply epilogue_Result; cbn [popCount twoArity]; auto; lia.
  - destruct (F64.IsNaN b); cbn [negb andb].
    + rewrite (holds_scratchAt _ _ _ _ Ha). cbn [bind].
      apply epilogue_Result; cbn [popCount twoArity]; auto; lia.
    + apply epilogue_Result; cbn [popCount twoArity]; auto; lia.
Qed.

(** ** MAX, MIN, MAXNAN, MINNAN *)

(** X10. On two float64 operands MAX and MIN fold to a NaN operand when
    there is one, MAXNAN and MINNAN to the other operand; without a NaN
    they fold to math.Max, respectively math.Min. *)
Theorem extremum_on_numbers
    (env : Env) (bindings : gmap string binding) (tc : timeCtx)
    (e : Expression) (token : string) (ext : float -> float -> float)
    (propagate : bool) (a b : float) :
  In (token, (ext, propagate)) extremumOps ->
  sized e ->
  holds e (scratchHead e - 2) (VFloat a) true ->
  holds e (scratchHead e - 1) (VFloat b) true ->
  folds env bindings tc e token 2
    (VFloat (if F64.IsNaN a then (if propagate then a else b)
             else if F64.IsNaN b then (if propagate then b else a)
             else ext b a)).
Proof.
  intros Hin Hsz Ha Hb tokIdx. unfold extremumOps in Hin. simpl in Hin.
  repeat (destruct Hin as [Hin|Hin];
    [injection Hin as <- <- <-;
     rewrite (simplifyToken_operator env bindings tc e tokIdx _ relArity) by reflexivity;
     apply (operator_relational env bindings _ e a b); auto;
     pick_case; unfold case_MAX, case_MAXNAN, case_MIN, case_MINNAN, extremum;
     rewrite (relational_floats e a b) by assumption;
     unfold resultAt, resultF; stack_index;
     rewrite (holds_floatAt _ _ _ _ Ha); cbn [bind];
     destruct (F64.IsNaN a);
       [rewrite ?(holds_scratchAt _ _ _ _ Ha), ?(holds_scratchAt _ _ _ _ Hb); reflexivity|];
     rewrite (holds_floatAt _ _ _ _ Hb); cbn [bind];
     destruct (F64.IsNaN b);
       [rewrite ?(holds_scratchAt _ _ _ _ Ha), ?(holds_scratchAt _ _ _ _ Hb); reflexivity|];
     reflexivity|]).
  destruct Hin.
Qed.

(** ** Two symbols under the relational and extremum operators *)

Lemma relational_symbols e s1 s2 both same mixed :
  holds e (scratchHead e - 2) (VString s1) false ->
  holds e (scratchHead e - 1) (VString s2) false ->
  relational e (scratchHead e - 2) both same mixed
  = if String.eqb s1 s2 then same else Ok CannotSimplify.
Proof.
  intros Ha Hb. unfold relational. stack_index.
  rewrite (holds_isFloatAt _ _ _ _ Ha). cbn [bind andb negb].
  rewrite (holds_isFloatAt _ _ _ _ Hb). cbn [bind andb negb].
  rewrite (holds_stringAt _ _ _ _ Ha). cbn [bind].
  rewrite (holds_stringAt _ _ _ _ Hb). reflexivity.
Qed.

Lemma operator_two_symbols env bindings token e s1 s2 :
  arity token = Some relArity ->
  holds e (scratchHead e - 2) (VString s1) false ->
  holds e (scratchHead e - 1) (VString s2) false ->
  isOperator s1 = false -> isOperator s2 = false ->
  operator env bindings token relArity e
  = bind (operatorCase env bindings token relArity e (scratchHead e - 2))
      (epilogue token relArity e).
Proof.
  intros Har Ha Hb H1 H2.
  pose proof (holds_bounds _ _ _ _ Ha) as [? ?].
  assert (Hb' : holds e (scratchHead e - 2 + 1) (VString s2) false)
    by (replace (scratchHead e - 2 + 1) with (scratchHead e - 1) by lia; exact Hb).
  rewrite (operator_proceeds env bindings token relArity e Har);
    cbn [popCount floatOffset floatCount nonOperatorOffset nonOperatorCount relArity];
    try reflexivity.
  - lia.
  - apply (wellFormed_cons _ _ _ (VString s1)); [exact Ha|reflexivity|].
    apply (wellFormed_cons _ _ _ (VString s2)); [exact Hb'|reflexivity|].
    replace (scratchHead e - 2 + 1 + 1) with (scratchHead e) by lia.
    apply wellFormed_nil.
  - apply no_symbol_nil. lia.
  - eapply no_operator_symbol; [exact Ha|exact H1|].
    eapply no_operator_symbol; [exact Hb'|exact H2|].
    apply no_operator_nil. lia.
Qed.

Ltac two_symbols Hsz Hroom Ha Hb H1 H2 :=
  unfold folds, defers; intros ?tokIdx;
  rewrite (simplifyToken_operator _ _ _ _ _ _ relArity) by reflexivity;
  match goal with
  | |- context [operator ?en ?bs ?tok relArity ?ex] =>
      rewrite (operator_two_symbols en bs tok ex _ _ eq_refl Ha Hb H1 H2)
  end;
  pick_case;
  unfold case_EQ, case_NE, case_GE, case_GT, case_LE, case_LT,
         case_MAX, case_MAXNAN, case_MIN, case_MINNAN, extremum;
  rewrite (relational_symbols _ _ _ _ _ _ Ha Hb);
  pose proof (holds_bounds _ _ _ _ Ha) as [? ?];
  pose proof (holds_bounds _ _ _ _ Hb) as [? ?];
  pose proof Hsz as [? ?].

(** X11. Two symbol operands that are the same name fold without a value:
    EQ, GE and LE to 1, NE, GT and LT to 0, MAX, MAXNAN, MIN and MINNAN to
    the symbol; two different names leave each of these ten operators
    unresolved. *)
Theorem two_symbols_compared
    (env : Env) (bindings : gmap string binding) (tc : timeCtx)
    (e : Expression) (s1 s2 : string) :
  sized e -> room e ->
  holds e (scratchHead e - 2) (VString s1) false ->
  holds e (scratchHead e - 1) (VString s2) false ->
  isOperator s1 = false -> isOperator s2 = false ->
  (s1 = s2 ->
     (forall token, In token ["EQ"; "GE"; "LE"] ->
        folds env bindings tc e token 2 (VFloat F64.one))
     /\ (forall token, In token ["NE"; "GT"; "LT"] ->
        folds env bindings tc e token 2 (VFloat F64.zero))
     /\ (forall token, In token ["MAX"; "MAXNAN"; "MIN"; "MINNAN"] ->
        folds env bindings tc e token 2 (VString s1)))
  /\ (s1 <> s2 ->
     forall token,
       In token ["EQ"; "GE"; "LE"; "NE"; "GT"; "LT"; "MAX"; "MAXNAN"; "MIN"; "MINNAN"] ->
       defers env bindings tc e token).
Proof.
  intros Hsz Hroom Ha Hb H1 H2. split.
  - intros <-. refine (conj _ (conj _ _)); intros token Hin; simpl in Hin;
      repeat (destruct Hin as [<-|Hin];
        [two_symbols Hsz Hroom Ha Hb H1 H2; rewrite String.eqb_refl;
         unfold resultF, resultAt; rewrite ?(holds_scratchAt _ _ _ _ Ha); cbn [bind];
         apply epilogue_Result; cbn [popCount relArity]; auto; lia|]);
      destruct Hin.
  - intros Hne token Hin. simpl in Hin.
    apply String.eqb_neq in Hne.
    repeat (destruct Hin as [<-|Hin];
      [two_symbols Hsz Hroom Ha Hb H1 H2; rewrite Hne; cbn [bind];
       apply epilogue_defers; [lia|exact Hroom]|]).
    destruct Hin.
Qed.

(** ** DUP, POP, EXC *)

Lemma DUP_step
    (env : Env) (bindings : gmap string binding) (tc : timeCtx)
    (e : Expression) (tokIdx : Z) (v : value) :
  room e ->
  holds e (scratchHead e - 1) v (isFloat64 v) ->
  operand v = true ->
  simplifyToken env bindings tc e tokIdx (VString "DUP")
  = Ok (pushed e v (isFloat64 v)).
Proof.
  intros [Hr1 Hr2] Hv Hop.
  pose proof (holds_bounds _ _ _ _ Hv) as [H1 H2].
  rewrite (simplifyToken_operator env bindings tc e tokIdx _ dupArity) by reflexivity.
  rewrite operator_proceeds; [|reflexivity|cbn [popCount dupArity]; lia|..];
    cbn [popCount floatOffset floatCount nonOperatorOffset nonOperatorCount dupArity].
  - pick_case. unfold case_DUP, setScratch, setIsFloat.
    rewrite (holds_scratchAt _ _ _ _ Hv). cbn [bind].
    rewrite zstore_Some by lia. cbn [bind orPanic].
    unfold isFloatAt. cbn [isFloat scratchHead withScratch].
    destruct Hv as [_ Hfl]. rewrite Hfl. cbn [bind orPanic].
    rewrite zstore_Some by lia. cbn [bind orPanic epilogue]. reflexivity.
  - apply (wellFormed_cons _ _ _ v); [exact Hv|now apply operand_plain|].
    replace (scratchHead e - 1 + 1) with (scratchHead e) by lia. apply wellFormed_nil.
  - apply no_symbol_nil. lia.
  - eapply no_operator_operand; [exact Hv|exact Hop|]. apply no_operator_nil. lia.
Qed.

Lemma POP_drops env bindings tc e tokIdx :
  1 <= scratchHead e ->
  simplifyToken env bindings tc e tokIdx (VString "POP")
  = Ok (withHead e (scratchHead e - 1)).
Proof.
  intros H.
  rewrite (simplifyToken_operator env bindings tc e tokIdx _ popArity) by reflexivity.
  unfold operator.
  cbn [popCount floatOffset floatCount nonOperatorOffset nonOperatorCount popArity].
  destruct (Z.ltb_spec (scratchHead e) 1); [lia|].
  rewrite floatCheck_empty by lia. cbn [bind].
  rewrite nonOperatorCheck_empty by lia. cbn [bind orb]. reflexivity.
Qed.

(** X12. DUP pushes a copy of the top item with its flag, and a POP after
    it leaves the stack below the head, the flags and the open bindings as
    they were before the DUP. *)
Theorem DUP_then_POP
    (env : Env) (bindings : gmap string binding) (tc : timeCtx)
    (e : Expression) (tokIdx : Z) (v : value) :
  room e ->
  holds e (scratchHead e - 1) v (isFloat64 v) ->
  operand v = true ->
  simplifyToken env bindings tc e tokIdx (VString "DUP")
  = Ok (pushed e v (isFloat64 v))
  /\ exists e2,
       simplifyToken env bindings tc (pushed e v (isFloat64 v)) (tokIdx + 1)
         (VString "POP") = Ok e2
       /\ sameStack e e2.
Proof.
  intros Hroom Hv Hop.
  pose proof (holds_bounds _ _ _ _ Hv) as [H1 H2].
  split; [now apply DUP_step|].
  exists (withHead (pushed e v (isFloat64 v)) (scratchHead e)).
  split.
  - rewrite POP_drops by (cbn [pushed scratchHead withHead]; lia).
    cbn [pushed scratchHead withHead]. f_equal. f_equal. lia.
  - unfold sameStack. cbn [pushed scratchHead scratch isFloat openBindings withHead
                            withIsFloat withScratch].
    split; [reflexivity|]. split; [|reflexivity].
    intros j Hj. unfold zindex. destruct (Z.ltb_spec j 0); [lia|].
    split; apply list_lookup_insert_ne; lia.
Qed.

Lemma EXC_step env bindings tc e tokIdx va vb :
  holds e (scratchHead e - 2) va (isFloat64 va) -> operand va = true ->
  holds e (scratchHead e - 1) vb (isFloat64 vb) -> operand vb = true ->
  simplifyToken env bindings tc e tokIdx (VString "EXC") = Ok (exchanged e)
  /\ exchanged e
     = withIsFloat
         (withScratch e
            (<[Datatypes.S (Z.to_nat (scratchHead e - 2)) := va]>
               (<[Z.to_nat (scratchHead e - 2) := vb]> (scratch e))))
         (<[Datatypes.S (Z.to_nat (scratchHead e - 2)) := isFloat64 va]>
            (<[Z.to_nat (scratchHead e - 2) := isFloat64 vb]> (isFloat e))).
Proof.
  intros Ha Hoa Hb Hob.
  pose proof (holds_bounds _ _ _ _ Ha) as [H1 H2].
  pose proof (holds_bounds _ _ _ _ Hb) as [H3 H4].
  assert (Hb' : holds e (scratchHead e - 2 + 1) vb (isFloat64 vb))
    by (replace (scratchHead e - 2 + 1) with (scratchHead e - 1) by lia; exact Hb).
  assert (Hnat : Z.to_nat (scratchHead e - 2 + 1)
                 = Datatypes.S (Z.to_nat (scratchHead e - 2))) by lia.
  assert (Hex : exchanged e
     = withIsFloat
         (withScratch e
            (<[Datatypes.S (Z.to_nat (scratchHead e - 2)) := va]>
               (<[Z.to_nat (scratchHead e - 2) := vb]> (scratch e))))
         (<[Datatypes.S (Z.to_nat (scratchHead e - 2)) := isFloat64 va]>
            (<[Z.to_nat (scratchHead e - 2) := isFloat64 vb]> (isFloat e)))).
  { unfold exchanged. destruct Ha as [Ha1 Ha2]. destruct Hb' as [Hb1 Hb2].
    unfold zindex in Ha1, Ha2, Hb1, Hb2.
    destruct (Z.ltb_spec (scratchHead e - 2) 0); [lia|].
    destruct (Z.ltb_spec (scratchHead e - 2 + 1) 0); [lia|].
    rewrite Hnat in Hb1, Hb2. cbv zeta. rewrite Ha1, Ha2, Hb1, Hb2. reflexivity. }
  split; [|exact Hex]. rewrite Hex.
  rewrite (simplifyToken_operator env bindings tc e tokIdx _ relArity) by reflexivity.
  rewrite operator_proceeds; [|reflexivity|cbn [popCount relArity]; lia|..];
    cbn [popCount floatOffset floatCount nonOperatorOffset nonOperatorCount relArity].
  - pick_case. unfold case_EXC, setScratch, setIsFloat.
    rewrite (holds_scratchAt _ _ _ _ Hb'). cbn [bind].
    rewrite (holds_scratchAt _ _ _ _ Ha). cbn [bind].
    rewrite zstore_Some by lia. cbn [bind orPanic].
    rewrite zstore_Some
      by (cbn [scratch withScratch]; unfold len in *; rewrite length_insert; lia).
    cbn [bind orPanic]. unfold isFloatAt.
    cbn [isFloat scratch scratchHead withScratch].
    destruct Hb' as [_ Hfb]. rewrite Hfb. cbn [bind orPanic].
    destruct Ha as [_ Hfa]. rewrite Hfa. cbn [bind orPanic].
    rewrite zstore_Some by lia. cbn [bind orPanic].
    rewrite zstore_Some
      by (cbn [isFloat withIsFloat]; unfold len in *; rewrite length_insert; lia).
    cbn [bind orPanic epilogue]. rewrite Hnat. reflexivity.
  - apply (wellFormed_cons _ _ _ va); [exact Ha|now apply operand_plain|].
    apply (wellFormed_cons _ _ _ vb); [exact Hb'|now apply operand_plain|].
    replace (scratchHead e - 2 + 1 + 1) with (scratchHead e) by lia.
    apply wellFormed_nil.
  - apply no_symbol_nil. lia.
  - eapply no_operator_operand; [exact Ha|exact Hoa|].
    eapply no_operator_operand; [exact Hb'|exact Hob|].
    apply no_operator_nil. lia.
Qed.

(** X13. EXC exchanges the two top items and their flags, and a second EXC
    gives back exactly the receiver the first one started from. *)
Theorem EXC_twice
    (env : Env) (bindings : gmap string binding) (tc : timeCtx)
    (e : Expression) (tokIdx : Z) (va vb : value) :
  holds e (scratchHead e - 2) va (isFloat64 va) -> operand va = true ->
  holds e (scratchHead e - 1) vb (isFloat64 vb) -> operand vb = true ->
  simplifyToken env bindings tc e tokIdx (VString "EXC") = Ok (exchanged e)
  /\ holds (exchanged e) (scratchHead e - 2) vb (isFloat64 vb)
  /\ holds (exchanged e) (scratchHead e - 1) va (isFloat64 va)
  /\ scratchHead (exchanged e) = scratchHead e
  /\ simplifyToken env bindings tc (exchanged e) (tokIdx + 1) (VString "EXC") = Ok e.
Proof.
  intros Ha Hoa Hb Hob.
  destruct (EXC_step env bindings tc e tokIdx va vb Ha Hoa Hb Hob) as [Hrun Hex].
  pose proof (holds_bounds _ _ _ _ Ha) as [H1 H2].
  pose proof (holds_bounds _ _ _ _ Hb) as [H3 H4].
  assert (Hnat : Z.to_nat (scratchHead e - 1)
                 = Datatypes.S (Z.to_nat (scratchHead e - 2))) by lia.
  assert (Hhead : scratchHead (exchanged e) = scratchHead e) by (rewrite Hex; reflexivity).
  assert (Hb1 : holds (exchanged e) (scratchHead e - 2) vb (isFloat64 vb)).
  { rewrite Hex. unfold holds, zindex. cbn [scratch isFloat withIsFloat withScratch].
    destruct (Z.ltb_spec (scratchHead e - 2) 0); [lia|].
    split; (rewrite list_lookup_insert_ne by lia);
      apply list_lookup_insert_eq; unfold len in *; lia. }
  assert (Ha1 : holds (exchanged e) (scratchHead e - 1) va (isFloat64 va)).
  { rewrite Hex. unfold holds, zindex. cbn [scratch isFloat withIsFloat withScratch].
    destruct (Z.ltb_spec (scratchHead e - 1) 0); [lia|]. rewrite Hnat.
    split; apply list_lookup_insert_eq; rewrite length_insert; unfold len in *; lia. }
  refine (conj Hrun (conj Hb1 (conj Ha1 (conj Hhead _)))).
  destruct (EXC_step env bindings tc (exchanged e) (tokIdx + 1) vb va) as [Hrun2 Hex2];
    rewrite ?Hhead; auto.
  rewrite Hrun2, Hex2, Hhead. f_equal.
  rewrite Hex. cbn [scratch isFloat withIsFloat withScratch].
  destruct Ha as [Ha Hfa]. destruct Hb as [Hb Hfb]. unfold zindex in Ha, Hfa, Hb, Hfb.
  destruct (Z.ltb_spec (scratchHead e - 2) 0); [lia|].
  destruct (Z.ltb_spec (scratchHead e - 1) 0); [lia|].
  rewrite Hnat in Hb, Hfb.
  set (i := Z.to_nat (scratchHead e - 2)) in *.
  assert (Hs : <[Datatypes.S i := vb]> (<[i := va]>
                 (<[Datatypes.S i := va]> (<[i := vb]> (scratch e)))) = scratch e).
  { rewrite (list_insert_insert_ne _ i (Datatypes.S i)) by lia.
    rewrite !list_insert_insert_eq.
    rewrite (list_insert_id _ i) by exact Ha.
    now apply list_insert_id. }
  assert (Hf : <[Datatypes.S i := isFloat64 vb]> (<[i := isFloat64 va]>
                 (<[Datatypes.S i := isFloat64 va]> (<[i := isFloat64 vb]> (isFloat e))))
               = isFloat e).
  { rewrite (list_insert_insert_ne _ i (Datatypes.S i)) by lia.
    rewrite !list_insert_insert_eq.
    rewrite (list_insert_id _ i) by exact Hfa.
    now apply list_insert_id. }
  rewrite Hs, Hf. destruct e. reflexivity.
Qed.

(** ** Names *)

(** X14. The names DAY, HOUR, MINUTE, WEEK, INF, NEGINF, UNKN and
    STEPWIDTH are pushed as their number (STEPWIDTH as the seconds per
    interval) whatever the bindings hold, so a binding of one of these
    names is never used. *)
Theorem constants_ignore_bindings
    (env : Env) (bindings : gmap string binding) (tc : timeCtx)
    (e : Expression) (tokIdx : Z) (token : string) (c : float) :
  In (token, c) (constantTokens e) ->
  0 <= scratchHead e -> room e ->
  simplifyToken env bindings tc e tokIdx (VString token)
  = Ok (pushed e (VFloat c) true).
Proof.
  intros Hin H0 [H1 H2]. unfold constantTokens, constantsAt in Hin. simpl in Hin.
  repeat (destruct Hin as [Hin|Hin];
    [injection Hin as <- <-;
     lazy [simplifyToken pushConst String.eqb Ascii.eqb Bool.eqb andb];
     apply push_pushed; lia|]).
  destruct Hin.
Qed.

Lemma negb_eqb_false (s r : string) : negb (String.eqb s r) = true -> String.eqb s r = false.
Proof. now destruct (String.eqb s r). Qed.

(** A plain name reaches the end of the token switch. *)
Lemma simplifyToken_plainName env bindings tc e tokIdx s :
  plainName s = true ->
  simplifyToken env bindings tc e tokIdx (VString s)
  = match ParseFloat env s with
    | Some value => push e (VFloat value) true
    | None =>
        match bindings !! s with
        | Some (BFloat v) => push e (VFloat v) true
        | _ => push (incOpen e s) (VString s) false
        end
    end.
Proof.
  intros H. unfold plainName in H. apply andb_true_iff in H as [Hres Hop].
  unfold reserved in Hres. cbn [forallb] in Hres.
  repeat (apply andb_true_iff in Hres as [?%negb_eqb_false Hres]).
  unfold simplifyToken.
  repeat match goal with
         | Hr : String.eqb s ?r = false |- context [String.eqb s ?r] => rewrite Hr
         end.
  unfold isOperator in Hop. destruct (arity s); [discriminate|].
  destruct (ParseFloat env s); [reflexivity|].
  destruct (bindings !! s) as [[v|l]|]; reflexivity.
Qed.

Lemma room_incOpen e k : room e -> room (incOpen e k).
Proof. exact (fun H => H). Qed.

(** X15. A token that is neither a reserved name nor an operator is
    resolved in this order: if it parses as a number the number is pushed,
    whatever the bindings hold; else if it is bound to a float64 that
    value is pushed; else (unbound, or bound to a series) the name itself
    is pushed and its count among the open bindings goes up by one. *)
Theorem name_resolution
    (env : Env) (bindings : gmap string binding) (tc : timeCtx)
    (e : Expression) (tokIdx : Z) (s : string) :
  plainName s = true ->
  0 <= scratchHead e -> room e ->
  (forall x, ParseFloat env s = Some x ->
     simplifyToken env bindings tc e tokIdx (VString s) = Ok (pushed e (VFloat x) true))
  /\ (forall v, ParseFloat env s = None -> bindings !! s = Some (BFloat v) ->
     simplifyToken env bindings tc e tokIdx (VString s) = Ok (pushed e (VFloat v) true))
  /\ (ParseFloat env s = None ->
      bindings !! s = None \/ (exists l, bindings !! s = Some (BSeries l)) ->
      simplifyToken env bindings tc e tokIdx (VString s)
      = Ok (pushed (incOpen e s) (VString s) false)
      /\ openBindings (incOpen e s) !! s = Some (default 0 (openBindings e !! s) + 1)).
Proof.
  intros Hs H0 Hroom. pose proof Hroom as [H1 H2].
  rewrite (simplifyToken_plainName env bindings tc e tokIdx s Hs).
  refine (conj _ (conj _ _)).
  - intros x ->. apply push_pushed; lia.
  - intros v -> ->. apply push_pushed; lia.
  - intros -> Hb. split.
    + destruct Hb as [->|[l ->]]; apply push_pushed; cbn [incOpen scratchHead scratch
        isFloat withOpenBindings]; lia.
    + unfold incOpen. cbn [openBindings withOpenBindings]. apply lookup_insert_eq.
Qed.

(** ** Time *)

(** X16. While TIME is not set, each of TIME, LTIME, NEWDAY, NEWWEEK,
    NEWMONTH and NEWYEAR is pushed back as a symbol and counted under the
    open binding TIME (not under its own name); NOW is pushed back and
    counted under NOW when the Expression performs no time substitutions,
    and is replaced by the clock reading when it does. *)
Theorem time_names_without_TIME
    (env : Env) (bindings : gmap string binding) (tc : timeCtx)
    (e : Expression) (tokIdx : Z) :
  isTimeSet tc = false ->
  0 <= scratchHead e -> room e ->
  (forall token, In token timeTokens ->
     simplifyToken env bindings tc e tokIdx (VString token)
     = Ok (pushed (incOpen e "TIME") (VString token) false))
  /\ (performTimeSubstitutions e = false ->
      simplifyToken env bindings tc e tokIdx (VString "NOW")
      = Ok (pushed (incOpen e "NOW") (VString "NOW") false))
  /\ (performTimeSubstitutions e = true ->
      simplifyToken env bindings tc e tokIdx (VString "NOW")
      = Ok (pushed e (VFloat (nowSeconds tc)) true)).
Proof.
  intros Hts H0 [H1 H2]. refine (conj _ (conj _ _)).
  - intros token Hin. unfold timeTokens in Hin. simpl in Hin.
    repeat (destruct Hin as [<-|Hin];
      [lazy [simplifyToken pushTime String.eqb Ascii.eqb Bool.eqb andb];
       rewrite Hts; apply push_pushed;
       cbn [incOpen scratchHead scratch isFloat withOpenBindings]; lia|]).
    destruct Hin.
  - intros Hp. lazy [simplifyToken String.eqb Ascii.eqb Bool.eqb andb].
    rewrite Hp. apply push_pushed;
      cbn [incOpen scratchHead scratch isFloat withOpenBindings]; lia.
  - intros Hp. lazy [simplifyToken String.eqb Ascii.eqb Bool.eqb andb].
    rewrite Hp. apply push_pushed; lia.
Qed.

(** X17. Evaluate of an Expression that performs time substitutions fails,
    before any token is processed, with the Syntax error TIME ought to be
    bound to number rather than []float64 when the bindings bind TIME to a
    series; the receiver is left with an empty stack and no open bindings. *)
Theorem TIME_bound_to_a_series
    (env : Env) (bindings : gmap string goval) (b : gmap string binding)
    (e : Expression) (l : list float) :
  coerceMapValuesToFloat64 bindings = Coerced b ->
  b !! "TIME" = Some (BSeries l) ->
  performTimeSubstitutions e = true ->
  Evaluate env bindings e
  = Err (ErrSyntax "TIME ought to be bound to number rather than %T"
           [ABinding (BSeries l)])
      (withOpenBindings (withHead e 0) ∅)
  /\ Error env (ErrSyntax "TIME ought to be bound to number rather than %T"
                  [ABinding (BSeries l)])
     = "syntax error : TIME ought to be bound to number rather than []float64".
Proof.
  intros Hb Ht Hp. split; [|reflexivity].
  unfold Evaluate, simplify. rewrite Hb. unfold timeOf.
  cbn [performTimeSubstitutions withOpenBindings withHead]. rewrite Hp, Ht. reflexivity.
Qed.

(** ** Binding coercion *)

Lemma coerceEntry_Coerced key v b :
  coerceEntry key v (Coerced b)
  = match coerceOne v with
    | Some x => Coerced (<[key := x]> b)
    | None =>
        match v with
        | GoNil => CoercePanic NilDereference
        | _ =>
            CoerceErr (ErrBadBindingType key
              (match (if isSliceKind v then
                        match coerceValuesToFloat64 v with inl t => Some t | _ => None end
                      else
                        match coerceValueToFloat64 v with inl t => Some t | _ => None end)
               with Some t => t | None => "" end))
        end
    end.
Proof.
  unfold coerceEntry, coerceOne.
  destruct v; try reflexivity; cbn [isSliceKind];
    try (destruct (coerceValuesToFloat64 _); reflexivity);
    try (destruct (coerceValueToFloat64 _); reflexivity).
Qed.

Lemma coerceList_spec (l : list (string * goval)) :
  match coerceList l with
  | Coerced b =>
      (forall k, b !! k = (list_to_map l : gmap string goval) !! k ≫= coerceOne)
      /\ (forall k v, (k, v) ∈ l -> is_Some (coerceOne v))
  | CoerceErr err =>
      exists k v t, (k, v) ∈ l /\ err = ErrBadBindingType k t /\ coerceOne v = None
                    /\ v <> GoNil
  | CoercePanic p => exists k, (k, GoNil) ∈ l /\ p = NilDereference
  end.
Proof.
  induction l as [|[key v] l IH].
  - cbn. split.
    + intros k. rewrite !lookup_empty. reflexivity.
    + intros k v H. inversion H.
  - change (coerceList ((key, v) :: l)) with (coerceEntry key v (coerceList l)).
    destruct (coerceList l) as [b|err|p].
    + destruct IH as [IH1 IH2]. rewrite coerceEntry_Coerced.
      destruct (coerceOne v) as [x|] eqn:Hx.
      * split.
        -- intros k. cbn [list_to_map foldr fst snd uncurry].
           destruct (decide (k = key)) as [->|Hne].
           ++ rewrite !lookup_insert_eq. cbn. now rewrite Hx.
           ++ rewrite !lookup_insert_ne by congruence. apply IH1.
        -- intros k v0 Hin. apply elem_of_cons in Hin as [[= -> ->]|Hin]; [eauto|].
           eapply IH2; eauto.
      * destruct v; try (eexists key, _, _; split; [left|]; split; [reflexivity|];
                         split; [exact Hx|discriminate]).
        exists key. split; [left|reflexivity].
    + destruct IH as (k & v0 & t & Hin & -> & Hn & Hnil). cbn [coerceEntry].
      exists k, v0, t. split; [now right|]. auto.
    + destruct IH as (k & Hin & ->). cbn [coerceEntry].
      exists k. split; [now right|reflexivity].
Qed.

Lemma coerceMap_list (bindings : gmap string goval) :
  coerceMapValuesToFloat64 bindings = coerceList (reverse (map_to_list bindings))
  /\ list_to_map (reverse (map_to_list bindings)) = bindings
  /\ (forall k v, (k, v) ∈ reverse (map_to_list bindings) <-> bindings !! k = Some v).
Proof.
  split; [reflexivity|]. split.
  - symmetry. apply list_to_map_flip. symmetry. apply reverse_Permutation.
  - intros k v. rewrite elem_of_reverse. apply elem_of_map_to_list.
Qed.

(** X18. coerceMapValuesToFloat64 succeeds exactly when every value of the
    map is a number (float64, float32, int, int32, int64) or a slice of
    numbers; the map it returns then has the same keys, each number
    converted to float64 and each slice to a []float64. *)
Theorem coerceMapValuesToFloat64_succeeds (bindings : gmap string goval) :
  (forall b, coerceMapValuesToFloat64 bindings = Coerced b ->
     forall k, b !! k = bindings !! k ≫= coerceOne)
  /\ ((exists b, coerceMapValuesToFloat64 bindings = Coerced b)
      <-> forall k v, bindings !! k = Some v -> is_Some (coerceOne v)).
Proof.
  destruct (coerceMap_list bindings) as (Hrun & Hmap & Hin).
  pose proof (coerceList_spec (reverse (map_to_list bindings))) as Hspec.
  rewrite <- Hrun in Hspec. split.
  - intros b Hb k. rewrite Hb in Hspec. destruct Hspec as [H1 _].
    rewrite H1, Hmap. reflexivity.
  - split.
    + intros [b Hb] k v Hk. rewrite Hb in Hspec. destruct Hspec as [_ H2].
      apply (H2 k). now apply Hin.
    + intros Hall. destruct (coerceMapValuesToFloat64 bindings) as [b|err|p]; [eauto|..].
      * destruct Hspec as (k & v & t & Hk & _ & Hn & _).
        apply Hin in Hk. destruct (Hall k v Hk) as [x Hx]. congruence.
      * destruct Hspec as (k & Hk & _). apply Hin in Hk.
        destruct (Hall k GoNil Hk) as [x Hx]. discriminate.
Qed.

(** X19. When coerceMapValuesToFloat64 returns an error, it is an
    ErrBadBindingType that names a key of the map whose value is not nil
    and is neither a number nor a slice of numbers; when it panics, some
    value of the map is nil. *)
Theorem coerceMapValuesToFloat64_fails (bindings : gmap string goval) :
  (forall err, coerceMapValuesToFloat64 bindings = CoerceErr err ->
     exists k v t, bindings !! k = Some v /\ coerceOne v = None /\ v <> GoNil
                   /\ err = ErrBadBindingType k t)
  /\ (forall p, coerceMapValuesToFloat64 bindings = CoercePanic p ->
     exists k, bindings !! k = Some GoNil).
Proof.
  destruct (coerceMap_list bindings) as (Hrun & Hmap & Hin).
  pose proof (coerceList_spec (reverse (map_to_list bindings))) as Hspec.
  rewrite <- Hrun in Hspec. split.
  - intros err He. rewrite He in Hspec. destruct Hspec as (k & v & t & Hk & -> & Hn & Hnil).
    exists k, v, t. split; [now apply Hin|auto].
  - intros p Hp. rewrite Hp in Hspec. destruct Hspec as (k & Hk & _).
    exists k. now apply Hin.
Qed.

(** ** Aggregates over a window of numbers *)

Lemma windowOf_fuel e lo xs :
  0 <= lo -> windowOf e lo xs -> (length xs <= fuelOf e)%nat.
Proof.
  intros Hlo Hw. unfold fuelOf. destruct xs as [|x xs'] eqn:Hxs; [simpl; lia|].
  rewrite <- Hxs in *.
  assert (Hlast : exists y, xs !! (length xs - 1)%nat = Some y).
  { apply lookup_lt_is_Some. rewrite Hxs. simpl. lia. }
  destruct Hlast as [y Hy]. apply Hw in Hy. apply holds_bounds in Hy as [Hy _].
  unfold len in Hy. lia.
Qed.

(** A loop that reads every cell of a window of numbers. *)
Lemma window_fold {S : Type} (e : Expression) (body : Z -> S -> result (S * bool))
    (step : S -> float -> S) (lo : Z) (xs : list float) (s0 : S) :
  0 <= lo -> windowOf e lo xs ->
  (forall j s x, holds e j (VFloat x) true -> body j s = Ok (step s x, false)) ->
  forLoop (fuelOf e) lo (lo + len xs) s0 body = Ok (fold_left step xs s0, false).
Proof.
  intros Hlo Hw Hbody.
  destruct (forLoop_rule
              (fun j s => s = fold_left step (take (Z.to_nat (j - lo)) xs) s0)
              (fun _ => False) body (length xs) (fuelOf e) lo s0)
    as (s' & b & Hrun & Hpost).
  - now apply windowOf_fuel with lo.
  - replace (lo - lo) with 0 by lia. reflexivity.
  - intros j s Hj ->.
    assert (Hx : exists x, xs !! Z.to_nat (j - lo) = Some x)
      by (apply lookup_lt_is_Some; lia).
    destruct Hx as [x Hx]. pose proof (Hw _ _ Hx) as Hh.
    replace (lo + Z.of_nat (Z.to_nat (j - lo))) with j in Hh by lia.
    exists (step (fold_left step (take (Z.to_nat (j - lo)) xs) s0) x), false.
    split; [now apply Hbody|].
    replace (Z.to_nat (j + 1 - lo)) with (Datatypes.S (Z.to_nat (j - lo))) by lia.
    rewrite (take_S_r _ _ _ Hx), fold_left_app. reflexivity.
  - unfold len. rewrite Hrun. destruct b; [destruct Hpost|]. rewrite Hpost.
    replace (Z.to_nat (lo + Z.of_nat (length xs) - lo)) with (length xs) by lia.
    now rewrite firstn_all.
Qed.

Lemma fold_left_snoc {A : Type} (xs acc : list A) :
  fold_left (fun items x => app items [x]) xs acc = app acc xs.
Proof.
  revert acc. induction xs as [|x xs IH]; intros acc; simpl.
  - now rewrite app_nil_r.
  - rewrite IH. now rewrite <- app_assoc.
Qed.

Lemma collectFloats_window e lo xs :
  0 <= lo -> windowOf e lo xs ->
  collectFloats e lo (lo + len xs) = Ok (xs, false).
Proof.
  intros Hlo Hw. unfold collectFloats.
  rewrite (window_fold e _ (fun items x => app items [x]) lo xs []); auto.
  - now rewrite fold_left_snoc.
  - intros j s x Hx. rewrite (holds_isFloatAt _ _ _ _ Hx). cbn [negb].
    rewrite (holds_floatAt _ _ _ _ Hx). reflexivity.
Qed.

(** A count operator whose count is valid and within the stack reaches the
    code of its window. *)
Lemma counted_window env bindings tc e tokIdx token window c fl n :
  In (token, window) (countedWindows env) ->
  holds e (scratchHead e - 1) (VFloat c) fl ->
  notPositiveFinite c = false ->
  F64.trunc c = Some n -> n <= scratchHead e - 1 -> sized e ->
  simplifyToken env bindings tc e tokIdx (VString token)
  = bind (window n e (scratchHead e - 1)) (epilogue token countArity e).
Proof.
  intros Hin Hc Hok Ht Hn [Hs1 Hs2].
  pose proof (holds_bounds _ _ _ _ Hc) as [H1 H2].
  pose proof (trunc_nonneg c n (notPositiveFinite_le c Hok) Ht) as H0.
  destruct (countedWindows_token env bindings tc token window e tokIdx Hin) as [-> Hcase].
  rewrite (operator_counted env bindings token e c fl Hc), Hcase.
  rewrite (counted_accepts env token window e _ c fl Hc Hok).
  rewrite (toInt_trunc env c n Ht) by lia.
  unfold checkItems. destruct (Z.ltb_spec (scratchHead e - 1) n); [lia|]. reflexivity.
Qed.

Lemma sumCount_numbers (xs : list float) (t : float) (u : Z) :
  fold_left
    (fun s x => if negb (F64.IsNaN x) then (PrimFloat.add (fst s) x, snd s + 1) else s)
    xs (t, u)
  = (fold_left PrimFloat.add (numbers xs) t, u + len (numbers xs)).
Proof.
  revert t u. induction xs as [|x xs IH]; intros t u; simpl.
  - unfold len. simpl. f_equal. lia.
  - destruct (negb (F64.IsNaN x)); simpl.
    + rewrite IH. f_equal. unfold len. simpl. lia.
    + apply IH.
Qed.

Lemma windowOf_bounds e lo xs :
  0 <= lo -> windowOf e lo xs -> xs <> [] ->
  lo + len xs <= len (scratch e) /\ lo + len xs <= len (isFloat e)
  /\ exists x fl, holds e lo (VFloat x) fl.
Proof.
  intros Hlo Hw Hne. destruct xs as [|x xs'] eqn:Hxs; [congruence|]. rewrite <- Hxs in *.
  assert (Hlast : exists y, xs !! (length xs - 1)%nat = Some y).
  { apply lookup_lt_is_Some. rewrite Hxs. simpl. lia. }
  destruct Hlast as [y Hy]. apply Hw in Hy. apply holds_bounds in Hy as [Hy1 Hy2].
  assert (Hlen : (0 < length xs)%nat) by (rewrite Hxs; simpl; lia).
  unfold len in *. split; [lia|]. split; [lia|].
  exists x, true. specialize (Hw 0%nat x). rewrite Hxs in Hw.
  replace (lo + Z.of_nat 0) with lo in Hw by lia. now apply Hw.
Qed.

(** X20. n,AVG over a window of n float64 items folds, count included, to
    the sum of the items that are not NaN divided by their number (NaN
    when there is none). *)
Theorem AVG_on_numbers
    (env : Env) (bindings : gmap string binding) (tc : timeCtx)
    (e : Expression) (c : float) (fl : bool) (xs : list float) :
  sized e ->
  holds e (scratchHead e - 1) (VFloat c) fl ->
  notPositiveFinite c = false ->
  F64.trunc c = Some (len xs) ->
  len xs <= scratchHead e - 1 ->
  windowOf e (scratchHead e - 1 - len xs) xs ->
  folds env bindings tc e "AVG" (len xs + 1) (VFloat (average xs)).
Proof.
  intros Hsz Hc Hok Ht Hn Hw tokIdx.
  pose proof (holds_bounds _ _ _ _ Hc) as [H1 H2]. pose proof Hsz as [Hs1 Hs2].
  rewrite (counted_window env bindings tc e tokIdx "AVG" avgWindow c fl (len xs));
    auto; [|left; reflexivity].
  unfold avgWindow, isub. rewrite wrap64_id by (unfold len in *; lia).
  replace (scratchHead e - 1) with (scratchHead e - 1 - len xs + len xs) at 2 by lia.
  rewrite (window_fold e _
             (fun s x => if negb (F64.IsNaN x)
                         then (PrimFloat.add (fst s) x, snd s + 1) else s)
             (scratchHead e - 1 - len xs) xs (F64.zero, 0)); auto; [|lia|].
  - cbn [bind snd fst]. rewrite sumCount_numbers. cbn [bind].
    replace (0 + len (numbers xs)) with (len (numbers xs)) by lia.
    apply epilogue_Result; cbn [popCount countArity]; auto; unfold len in *; lia.
  - intros j s x Hx. rewrite (holds_isFloatAt _ _ _ _ Hx). cbn [negb].
    rewrite (holds_floatAt _ _ _ _ Hx). cbn [bind].
    destruct (negb (F64.IsNaN x)); reflexivity.
Qed.

Lemma sumCountItems_numbers (xs : list float) (t : float) (u : Z) (items : list float) :
  fold_left
    (fun (s : float * Z * list float) x =>
       let '(total, used, items) := s in
       if negb (F64.IsNaN x)
       then (PrimFloat.add total x, used + 1, app items [x]) else s)
    xs (t, u, items)
  = (fold_left PrimFloat.add (numbers xs) t, u + len (numbers xs),
     app items (numbers xs)).
Proof.
  revert t u items. induction xs as [|x xs IH]; intros t u items; simpl.
  - unfold len. simpl. rewrite app_nil_r. f_equal. f_equal. lia.
  - destruct (negb (F64.IsNaN x)); simpl.
    + rewrite IH. rewrite <- app_assoc. f_equal. f_equal. unfold len. simpl. lia.
    + apply IH.
Qed.

(** X21. n,STDEV over a window of n float64 items folds to the square root
    of the mean squared distance of the items that are not NaN from their
    mean. *)
Theorem STDEV_on_numbers
    (env : Env) (bindings : gmap string binding) (tc : timeCtx)
    (e : Expression) (c : float) (fl : bool) (xs : list float) :
  sized e ->
  holds e (scratchHead e - 1) (VFloat c) fl ->
  notPositiveFinite c = false ->
  F64.trunc c = Some (len xs) ->
  len xs <= scratchHead e - 1 ->
  windowOf e (scratchHead e - 1 - len xs) xs ->
  folds env bindings tc e "STDEV" (len xs + 1) (VFloat (deviation xs)).
Proof.
  intros Hsz Hc Hok Ht Hn Hw tokIdx.
  pose proof (holds_bounds _ _ _ _ Hc) as [H1 H2]. pose proof Hsz as [Hs1 Hs2].
  rewrite (counted_window env bindings tc e tokIdx "STDEV" stdevWindow c fl (len xs));
    auto; [|do 9 right; left; reflexivity].
  unfold stdevWindow, isub, make. rewrite wrap64_id by (unfold len in *; lia).
  destruct (Z.ltb_spec (len xs) 0); [unfold len in *; lia|]. cbn [bind].
  replace (scratchHead e - 1) with (scratchHead e - 1 - len xs + len xs) at 2 by lia.
  rewrite (window_fold e _
             (fun (s : float * Z * list float) x =>
                let '(total, used, items) := s in
                if negb (F64.IsNaN x)
                then (PrimFloat.add total x, used + 1, app items [x]) else s)
             (scratchHead e - 1 - len xs) xs (F64.zero, 0, [])); auto; [|lia|].
  - cbn [bind snd fst]. rewrite sumCountItems_numbers. cbn [bind app].
    replace (0 + len (numbers xs)) with (len (numbers xs)) by lia.
    apply epilogue_Result; cbn [popCount countArity]; auto; unfold len in *; lia.
  - intros j [[t u] items] x Hx. rewrite (holds_isFloatAt _ _ _ _ Hx). cbn [negb].
    rewrite (holds_floatAt _ _ _ _ Hx). cbn [bind].
    destruct (negb (F64.IsNaN x)); reflexivity.
Qed.

Lemma length_insert_sorted x l : length (F64.insert x l) = Datatypes.S (length l).
Proof.
  induction l as [|y l IH]; simpl; [reflexivity|].
  destruct (F64.less y x); simpl; [now rewrite IH|reflexivity].
Qed.

Lemma length_Float64s l : length (F64.Float64s l) = length l.
Proof.
  unfold F64.Float64s. induction l as [|x l IH]; simpl; [reflexivity|].
  now rewrite length_insert_sorted, IH.
Qed.

Lemma zindex_Some {A : Type} (l : list A) (i : Z) :
  0 <= i < len l -> exists x, zindex l i = Some x.
Proof.
  intros H. unfold zindex, len in *. destruct (Z.ltb_spec i 0); [lia|].
  apply lookup_lt_is_Some. lia.
Qed.

Lemma median_middle (xs : list float) :
  xs <> [] -> median xs = Ok (middle xs, F64.Float64s xs).
Proof.
  intros Hne. unfold median, middle.
  assert (Hlen : 1 <= len (F64.Float64s xs)).
  { unfold len. rewrite length_Float64s. destruct xs; [congruence|simpl; lia]. }
  set (sorted := F64.Float64s xs) in *.
  assert (Hq : 0 <= Z.quot (len sorted) 2 < len sorted).
  { split; [apply Z.quot_pos; lia|apply Z.quot_lt; lia]. }
  destruct (Z.eqb_spec (Z.rem (len sorted) 2) 0) as [Heven|Hodd].
  - assert (H2 : 2 <= len sorted).
    { destruct (Z.eq_dec (len sorted) 1) as [H1|H1]; [rewrite H1 in Heven; discriminate|lia]. }
    assert (Hq2 : 1 <= Z.quot (len sorted) 2).
    { apply Z.quot_le_lower_bound; lia. }
    destruct (zindex_Some sorted (Z.quot (len sorted) 2 - 1)) as [a Ha]; [lia|].
    destruct (zindex_Some sorted (Z.quot (len sorted) 2)) as [b Hb]; [lia|].
    rewrite Ha, Hb. reflexivity.
  - destruct (zindex_Some sorted (Z.quot (len sorted) 2)) as [b Hb]; [lia|].
    rewrite Hb. reflexivity.
Qed.

Lemma windowOf_single e lo x : windowOf e lo [x] -> exists fl, holds e lo (VFloat x) fl.
Proof.
  intros Hw. exists true. specialize (Hw 0%nat x eq_refl).
  now replace (lo + Z.of_nat 0) with lo in Hw by lia.
Qed.

(** X22. n,MEDIAN over a window of n float64 items, n at least 1, folds to
    the middle item of the sorted window, or to the mean of its two middle
    items when n is even; it never panics there. *)
Theorem MEDIAN_on_numbers
    (env : Env) (bindings : gmap string binding) (tc : timeCtx)
    (e : Expression) (c : float) (fl : bool) (xs : list float) :
  sized e ->
  holds e (scratchHead e - 1) (VFloat c) fl ->
  notPositiveFinite c = false ->
  F64.trunc c = Some (len xs) ->
  xs <> [] ->
  len xs <= scratchHead e - 1 ->
  windowOf e (scratchHead e - 1 - len xs) xs ->
  folds env bindings tc e "MEDIAN" (len xs + 1) (VFloat (middle xs)).
Proof.
  intros Hsz Hc Hok Ht Hne Hn Hw tokIdx.
  pose proof (holds_bounds _ _ _ _ Hc) as [H1 H2]. pose proof Hsz as [Hs1 Hs2].
  assert (Hpos : 1 <= len xs) by (destruct xs; [congruence|unfold len; simpl; lia]).
  rewrite (counted_window env bindings tc e tokIdx "MEDIAN" medianWindow c fl (len xs));
    auto; [|do 4 right; left; reflexivity].
  unfold medianWindow, sortedWindow.
  destruct (Z.eqb_spec (len xs) 1) as [Hone|Hmany].
  - destruct xs as [|x [|y xs]]; try (unfold len in Hone; simpl in Hone; lia).
    destruct (windowOf_single _ _ _ Hw) as [flx Hx].
    change (len [x]) with 1 in *.
    replace (scratchHead e - 1 - 1) with (scratchHead e - 1 - 1) in Hx by lia.
    rewrite (holds_scratchAt _ _ _ _ Hx). cbn [bind].
    change (middle [x]) with x.
    apply epilogue_Result; cbn [popCount countArity]; auto; lia.
  - unfold make, isub. rewrite wrap64_id by (unfold len in *; lia).
    destruct (Z.ltb_spec (len xs) 0); [lia|]. cbn [bind].
    replace (scratchHead e - 1) with (scratchHead e - 1 - len xs + len xs) at 2 by lia.
    rewrite collectFloats_window by (auto; lia). cbn [bind snd fst].
    rewrite (median_middle xs Hne). cbn [bind fst].
    apply epilogue_Result; cbn [popCount countArity]; auto; unfold len in *; lia.
Qed.

(** X23. n,MAD over a window of n float64 items, n at least 2, folds to
    the median of the absolute distances of the items from their median;
    1,MAD over one item folds to that item itself, not to 0. *)
Theorem MAD_on_numbers
    (env : Env) (bindings : gmap string binding) (tc : timeCtx)
    (e : Expression) (c : float) (fl : bool) (xs : list float) :
  sized e ->
  holds e (scratchHead e - 1) (VFloat c) fl ->
  notPositiveFinite c = false ->
  F64.trunc c = Some (len xs) ->
  xs <> [] ->
  len xs <= scratchHead e - 1 ->
  windowOf e (scratchHead e - 1 - len xs) xs ->
  folds env bindings tc e "MAD" (len xs + 1)
    (VFloat
       (if len xs =? 1 then middle xs
        else middle (map (fun x => F64.Abs (PrimFloat.sub x (middle xs)))
                       (F64.Float64s xs)))).
Proof.
  intros Hsz Hc Hok Ht Hne Hn Hw tokIdx.
  pose proof (holds_bounds _ _ _ _ Hc) as [H1 H2]. pose proof Hsz as [Hs1 Hs2].
  assert (Hpos : 1 <= len xs) by (destruct xs; [congruence|unfold len; simpl; lia]).
  rewrite (counted_window env bindings tc e tokIdx "MAD" madWindow c fl (len xs));
    auto; [|do 3 right; left; reflexivity].
  unfold madWindow, sortedWindow.
  destruct (Z.eqb_spec (len xs) 1) as [Hone|Hmany].
  - destruct xs as [|x [|y xs]]; try (unfold len in Hone; simpl in Hone; lia).
    destruct (windowOf_single _ _ _ Hw) as [flx Hx].
    change (len [x]) with 1 in *.
    rewrite (holds_scratchAt _ _ _ _ Hx). cbn [bind].
    change (middle [x]) with x.
    apply epilogue_Result; cbn [popCount countArity]; auto; lia.
  - unfold make, isub. rewrite wrap64_id by (unfold len in *; lia).
    destruct (Z.ltb_spec (len xs) 0); [lia|]. cbn [bind].
    replace (scratchHead e - 1) with (scratchHead e - 1 - len xs + len xs) at 2 by lia.
    rewrite collectFloats_window by (auto; lia). cbn [bind snd fst].
    unfold mad. rewrite (median_middle xs Hne). cbn [bind].
    rewrite median_middle.
    + cbn [bind fst].
      apply epilogue_Result; cbn [popCount countArity]; auto; unfold len in *; lia.
    + intros Hnil. apply (f_equal (@length float)) in Hnil.
      rewrite length_map, length_Float64s in Hnil. simpl in Hnil.
      unfold len in Hpos. lia.
Qed.

Lemma windowOf_removelast e lo xs : windowOf e lo xs -> windowOf e lo (removelast xs).
Proof.
  intros Hw k x Hk. apply Hw.
  destruct (exists_last (l := xs)) as (xs' & y & ->).
  - intros ->. simpl in Hk. rewrite lookup_nil in Hk. discriminate.
  - rewrite removelast_last in Hk. apply lookup_app_l_Some. exact Hk.
Qed.

Lemma windowOf_last e lo xs :
  xs <> [] -> windowOf e lo xs ->
  holds e (lo + len xs - 1) (VFloat (List.last xs F64.zero)) true
  /\ len (removelast xs) = len xs - 1.
Proof.
  intros Hne Hw. destruct (exists_last Hne) as (xs' & y & ->).
  rewrite last_last, removelast_last. unfold len. rewrite length_app. simpl. split; [|lia].
  replace (lo + Z.of_nat (length xs' + 1) - 1) with (lo + Z.of_nat (length xs')) by lia.
  apply Hw. rewrite lookup_app_r by lia. now rewrite Nat.sub_diag.
Qed.

(** X24. n,SMAX and n,SMIN over a window of n float64 items start from the
    last item and replace it by each earlier item that is greater,
    respectively smaller; a NaN among the earlier items is therefore
    skipped, and a NaN last item is kept. *)
Theorem SMAX_SMIN_on_numbers
    (env : Env) (bindings : gmap string binding) (tc : timeCtx)
    (e : Expression) (c : float) (fl : bool) (xs : list float) :
  sized e ->
  holds e (scratchHead e - 1) (VFloat c) fl ->
  notPositiveFinite c = false ->
  F64.trunc c = Some (len xs) ->
  xs <> [] ->
  len xs <= scratchHead e - 1 ->
  windowOf e (scratchHead e - 1 - len xs) xs ->
  folds env bindings tc e "SMAX" (len xs + 1) (VFloat (extremumOf F64.gt xs))
  /\ folds env bindings tc e "SMIN" (len xs + 1) (VFloat (extremumOf F64.lt xs)).
Proof.
  intros Hsz Hc Hok Ht Hne Hn Hw.
  pose proof (holds_bounds _ _ _ _ Hc) as [H1 H2]. pose proof Hsz as [Hs1 Hs2].
  assert (Hpos : 1 <= len xs) by (destruct xs; [congruence|unfold len; simpl; lia]).
  destruct (windowOf_last _ _ _ Hne Hw) as [Hlast Hlen].
  replace (scratchHead e - 1 - len xs + len xs - 1) with (scratchHead e - 1 - 1) in Hlast
    by lia.
  assert (Hgen : forall better token,
            In (token, extremumOfWindow better) (countedWindows env) ->
            folds env bindings tc e token (len xs + 1) (VFloat (extremumOf better xs))).
  { intros better token Hin tokIdx.
    rewrite (counted_window env bindings tc e tokIdx token (extremumOfWindow better)
               c fl (len xs)); auto.
    unfold extremumOfWindow.
    rewrite (holds_scratchAt _ _ _ _ Hlast).
    destruct (Z.eqb_spec (len xs) 1) as [Hone|Hmany].
    - cbn [bind]. destruct xs as [|x [|y xs]]; try (unfold len in Hone; simpl in Hone; lia).
      change (extremumOf better [x]) with x. change (List.last [x] F64.zero) with x.
      apply epilogue_Result; cbn [popCount countArity]; auto; unfold len in *; simpl; lia.
    - cbn [bind asFloat]. unfold isub. rewrite wrap64_id by (unfold len in *; lia).
      replace (scratchHead e - 1 - 1)
        with (scratchHead e - 1 - len xs + len (removelast xs)) by lia.
      rewrite (window_fold e _ (fun best x => if better x best then x else best)
                 (scratchHead e - 1 - len xs) (removelast xs) (List.last xs F64.zero));
        auto; [|lia|now apply windowOf_removelast|].
      + cbn [bind snd fst].
        apply epilogue_Result; cbn [popCount countArity]; auto; unfold len in *; lia.
      + intros j s x Hx. rewrite (holds_isFloatAt _ _ _ _ Hx). cbn [negb].
        rewrite (holds_floatAt _ _ _ _ Hx). reflexivity. }
  split.
  - apply (Hgen F64.gt "SMAX"). do 6 right. left. reflexivity.
  - apply (Hgen F64.lt "SMIN"). do 7 right. left. reflexivity.
Qed.

(** ** Programs without operators *)

Lemma Split_cons (d : ascii) (s : string) : exists hd tl, Split d s = hd :: tl.
Proof.
  destruct s as [|c s]; cbn [Split]; [eauto|].
  destruct (Ascii.eqb c d); [eauto|]. destruct (Split d s); eauto.
Qed.

Lemma Join_Split (d : ascii) (s : string) : Join (Split d s) (String d "") = s.
Proof.
  induction s as [|c s IH]; [reflexivity|].
  cbn [Split]. destruct (Split_cons d s) as (hd & tl & Hsp). rewrite Hsp in *.
  destruct (Ascii.eqb_spec c d) as [->|Hne].
  - change (Join ("" :: hd :: tl) (String d ""))
      with (String d (Join (hd :: tl) (String d ""))).
    now rewrite IH.
  - destruct tl as [|hd' tl'].
    + change (Join [hd] (String d "")) with hd in IH. subst hd. reflexivity.
    + change (Join (String c hd :: hd' :: tl') (String d ""))
        with (String c (Join (hd :: hd' :: tl') (String d ""))).
      now rewrite IH.
Qed.

Lemma simplifyToken_leaves env e tokIdx s v :
  leaves env (secondsPerInterval e) s = Some v ->
  performTimeSubstitutions e = false ->
  exists ob,
    simplifyToken env ∅ noTime e tokIdx (VString s)
    = push (withOpenBindings e ob) v (isFloat64 v).
Proof.
  intros H Hpt. unfold simplifyToken.
  repeat match goal with
         | |- context [String.eqb s ?r] =>
             destruct (String.eqb_spec s r) as [->|?];
             [first
                [ discriminate H
                | cbv [leaves String.eqb Ascii.eqb Bool.eqb isTimeName orb assoc
                       constantsAt] in H;
                  injection H as <-;
                  unfold pushTime, pushConst; cbn [isTimeSet noTime]; rewrite ?Hpt;
                  first [ exists (openBindings e); destruct e; reflexivity
                        | eexists; unfold incOpen; reflexivity ] ]|]
         end.
  unfold leaves in H.
  destruct (String.eqb_spec s "") as [?|_]; [congruence|].
  assert (Htime : isTimeName s = false).
  { unfold isTimeName.
    repeat match goal with
           | |- context [String.eqb s ?r] =>
               destruct (String.eqb_spec s r) as [?|_]; [congruence|]
           end. reflexivity. }
  rewrite Htime in H.
  assert (Hconst : assoc s (constantsAt (secondsPerInterval e)) = None).
  { unfold constantsAt, assoc.
    repeat match goal with
           | |- context [String.eqb ?r s] =>
               destruct (String.eqb_spec r s) as [?|_]; [congruence|]
           end. reflexivity. }
  rewrite Hconst in H. unfold isOperator in H.
  destruct (arity s); [discriminate|].
  rewrite lookup_empty.
  destruct (ParseFloat env s); injection H as <-.
  - exists (openBindings e). destruct e; reflexivity.
  - eexists. unfold incOpen. reflexivity.
Qed.

Lemma simplifyLoop_leaves env size toks : forall tokIdx e p vs,
  Forall2 (fun t v => leaves env (secondsPerInterval e) t = Some v) toks vs ->
  loaded size e p ->
  (length p + length toks <= size)%nat ->
  exists e',
    simplifyLoop env ∅ noTime (map VString toks) tokIdx e = Ok e'
    /\ loaded size e' (p ++ vs)
    /\ config e' = config e.
Proof.
  induction toks as [|tok rest IH]; intros tokIdx e p vs Hall Hl Hlen.
  - inversion Hall; subst. exists e. rewrite app_nil_r. auto.
  - inversion Hall as [|? v ? vs' Htok Hrest]; subst.
    cbn [length] in Hlen. cbn [map simplifyLoop].
    destruct Hl as (Hh & Hp & Hs & Hf & Hpt).
    destruct (simplifyToken_leaves env e tokIdx tok v Htok Hpt) as [ob ->].
    destruct (loaded_push size e ob p v) as (e1 & -> & Hl1 & Hc1);
      [repeat split; auto|lia|].
    cbn [bind].
    assert (Hspi : secondsPerInterval e1 = secondsPerInterval e)
      by (unfold config in Hc1; congruence).
    destruct (IH (tokIdx + 1) e1 (p ++ [v])%list vs') as (e' & He' & Hl' & Hc').
    { now rewrite Hspi. }
    { exact Hl1. }
    { rewrite length_app. cbn [length]. lia. }
    exists e'. rewrite <- app_assoc in Hl'. cbn [app] in Hl'.
    repeat split; auto; try apply Hl'. congruence.
Qed.

(** X25. For a non-empty program whose comma-separated tokens are all
    names, numbers or constants (no operator, no empty token), New without
    configurators succeeds and compiles one item per token: the number for
    a numeric token or a constant, the token itself for any other name,
    the time names included. String joins the rendered items with commas,
    and returns the text New was given whenever every item renders as the
    token it came from. *)
Theorem New_without_operators
    (env : Env) (someExpression : string) (vs : list value) :
  someExpression <> "" ->
  Forall2 (fun t v => leaves env DefaultSecondsPerInterval t = Some v)
    (Split DefaultDelimiter someExpression) vs ->
  exists e,
    New env someExpression [] = Ok e
    /\ tokens e = vs
    /\ String_ env e = Join (map (renderToken env) vs) ","
    /\ (map (renderToken env) vs = Split DefaultDelimiter someExpression ->
        String_ env e = someExpression).
Proof.
  intros Hne Hall. unfold New.
  destruct (String.eqb_spec someExpression "") as [?|_]; [congruence|].
  cbn [fold_left bind delimiter openBindings secondsPerInterval].
  set (toks := Split DefaultDelimiter someExpression) in *.
  set (size := len toks + len (List.filter (fun t => String.eqb t "DUP") toks)).
  assert (Hsize : len toks <= size /\ 0 <= size) by (unfold size, len; lia).
  pose proof (Forall2_length _ _ _ Hall) as Hlen.
  unfold Partial, make. cbn [scratchSize].
  destruct (Z.ltb_spec size 0); [lia|]. cbn [bind].
  unfold simplify.
  change (coerceMapValuesToFloat64 ∅) with (Coerced ∅).
  cbn [withOpenBindings withHead performTimeSubstitutions timeOf bind tokens delimiter
       secondsPerInterval scratchSize scratch isFloat].
  match goal with
  | |- context [simplifyLoop env ∅ noTime (map VString toks) 0 ?e0] =>
      destruct (simplifyLoop_leaves env (Z.to_nat size) toks 0 e0 [] vs)
        as (e1 & -> & (Hh & Hp & Hs & Hf & Hpt) & Hc)
  end.
  { exact Hall. }
  { unfold loaded.
    cbn [scratchHead scratch isFloat performTimeSubstitutions withOpenBindings
         withHead length take].
    rewrite !length_replicate. auto. }
  { cbn [length]. unfold len in *. lia. }
  cbn [app] in *.
  injection Hc as Hd Hspi Htoks _ _.
  cbn [withPerformTimeSubstitutions scratchHead tokens scratch].
  rewrite Hh, Htoks.
  assert (Hlt : len (map VString toks) = len vs)
    by (unfold len; rewrite length_map; lia).
  destruct (Z.leb_spec 0 (len vs)); [|unfold len in *; lia].
  destruct (Z.leb_spec (len vs) (len (map VString toks))); [|lia].
  cbn [andb bind fst]. eexists. split; [reflexivity|].
  assert (Htok : tokens
            (withTokens
               (withPerformTimeSubstitutions e1 (existsb isTimeName toks))
               (take
                  (Nat.min (length (take (Z.to_nat (len vs)) (map VString toks)))
                     (length (scratch e1))) (scratch e1) ++
                drop
                  (Nat.min (length (take (Z.to_nat (len vs)) (map VString toks)))
                     (length (scratch e1)))
                  (take (Z.to_nat (len vs)) (map VString toks)))) = vs).
  { cbn [withTokens tokens]. unfold len in *. rewrite Nat2Z.id.
    assert (Hm : length (map VString toks) = length vs) by (rewrite length_map; lia).
    rewrite (@firstn_all2 _ (length vs) (map VString toks)) by lia.
    rewrite Hs, Hm.
    replace (Nat.min (length vs) (Z.to_nat size)) with (length vs) by lia.
    rewrite Hp. rewrite skipn_all2 by lia. apply app_nil_r. }
  split; [exact Htok|].
  assert (Hstr : String_ env
            (withTokens
               (withPerformTimeSubstitutions e1 (existsb isTimeName toks))
               (take
                  (Nat.min (length (take (Z.to_nat (len vs)) (map VString toks)))
                     (length (scratch e1))) (scratch e1) ++
                drop
                  (Nat.min (length (take (Z.to_nat (len vs)) (map VString toks)))
                     (length (scratch e1)))
                  (take (Z.to_nat (len vs)) (map VString toks))))
          = Join (map (renderToken env) vs) ",").
  { unfold String_. rewrite Htok.
    cbn [withTokens delimiter withPerformTimeSubstitutions]. now rewrite Hd. }
  split; [exact Hstr|].
  intros Hr. rewrite Hstr, Hr. apply (Join_Split DefaultDelimiter).
Qed.

(** ** TREND and TRENDNAN *)




(** ** A number and a symbol under the relational and extremum operators *)

Lemma relational_mixed e va vb both same mixed :
  holds e (scratchHead e - 2) va (isFloat64 va) ->
  holds e (scratchHead e - 1) vb (isFloat64 vb) ->
  isFloat64 va = negb (isFloat64 vb) ->
  relational e (scratchHead e - 2) both same mixed = mixed.
Proof.
  intros Ha Hb Hx. unfold relational. stack_index.
  rewrite (holds_isFloatAt _ _ _ _ Ha).
  destruct (isFloat64 va), (isFloat64 vb); try discriminate; cbn [bind andb negb];
    rewrite ?(holds_isFloatAt _ _ _ _ Hb); reflexivity.
Qed.

Lemma operator_two_operands env bindings token e va vb :
  arity token = Some relArity ->
  holds e (scratchHead e - 2) va (isFloat64 va) -> operand va = true ->
  holds e (scratchHead e - 1) vb (isFloat64 vb) -> operand vb = true ->
  operator env bindings token relArity e
  = bind (operatorCase env bindings token relArity e (scratchHead e - 2))
      (epilogue token relArity e).
Proof.
  intros Har Ha Hoa Hb Hob.
  pose proof (holds_bounds _ _ _ _ Ha) as [? ?].
  assert (Hb' : holds e (scratchHead e - 2 + 1) vb (isFloat64 vb))
    by (replace (scratchHead e - 2 + 1) with (scratchHead e - 1) by lia; exact Hb).
  rewrite (operator_proceeds env bindings token relArity e Har);
    cbn [popCount floatOffset floatCount nonOperatorOffset nonOperatorCount relArity];
    try reflexivity.
  - lia.
  - apply (wellFormed_cons _ _ _ va); [exact Ha|now apply operand_plain|].
    apply (wellFormed_cons _ _ _ vb); [exact Hb'|now apply operand_plain|].
    replace (scratchHead e - 2 + 1 + 1) with (scratchHead e) by lia.
    apply wellFormed_nil.
  - apply no_symbol_nil. lia.
  - eapply no_operator_operand; [exact Ha|exact Hoa|].
    eapply no_operator_operand; [exact Hb'|exact Hob|].
    apply no_operator_nil. lia.
Qed.

Ltac mixed_operands Ha Hoa Hb Hob :=
  unfold folds, defers; intros ?tokIdx;
  rewrite (simplifyToken_operator _ _ _ _ _ _ relArity) by reflexivity;
  match goal with
  | |- context [operator ?en ?bs ?tok relArity ?ex] =>
      rewrite (operator_two_operands en bs tok ex _ _ eq_refl Ha Hoa Hb Hob)
  end;
  pick_case;
  unfold case_EQ, case_NE, case_GE, case_GT, case_LE, case_LT,
         case_MAX, case_MAXNAN, case_MIN, case_MINNAN, extremum;
  rewrite (relational_mixed _ _ _ _ _ _ Ha Hb) by reflexivity.

(** X27. With one float64 operand a and one symbol operand s, in either
    order: EQ, NE, GE, GT, LE and LT are pushed back unresolved; when a is
    NaN, MAX and MIN fold to a and MAXNAN and MINNAN fold to the symbol s;
    when a is not NaN these four are pushed back unresolved. *)
Theorem number_and_symbol_compared
    (env : Env) (bindings : gmap string binding) (tc : timeCtx)
    (e : Expression) (a : float) (s : string) (first : bool) :
  sized e -> room e ->
  isOperator s = false ->
  holds e (scratchHead e - 2) (if first then VFloat a else VString s) first ->
  holds e (scratchHead e - 1) (if first then VString s else VFloat a) (negb first) ->
  (forall token, In token comparisons -> defers env bindings tc e token)
  /\ (F64.IsNaN a = true ->
      (forall token, In token ["MAX"; "MIN"] ->
         folds env bindings tc e token 2 (VFloat a))
      /\ (forall token, In token ["MAXNAN"; "MINNAN"] ->
         folds env bindings tc e token 2 (VString s)))
  /\ (F64.IsNaN a = false ->
      forall token, In token ["MAX"; "MIN"; "MAXNAN"; "MINNAN"] ->
        defers env bindings tc e token).
Proof.
  intros Hsz Hroom Hop Hx Hy.
  pose proof (holds_bounds _ _ _ _ Hx) as [? ?].
  pose proof (holds_bounds _ _ _ _ Hy) as [? ?]. pose proof Hsz as [? ?].
  assert (Hos : operand (VString s) = true) by (cbn; now rewrite Hop).
  destruct first; cbn [negb] in Hy.
  - (* the number first *)
    assert (Ha : holds e (scratchHead e - 2) (VFloat a) (isFloat64 (VFloat a))) by exact Hx.
    assert (Hb : holds e (scratchHead e - 1) (VString s) (isFloat64 (VString s))) by exact Hy.
    refine (conj _ (conj _ _)).
    + intros token Hin. unfold comparisons in Hin. simpl in Hin.
      repeat (destruct Hin as [<-|Hin];
        [mixed_operands Ha (eq_refl true) Hb Hos; cbn [bind];
         apply epilogue_defers; [lia|exact Hroom]|]).
      destruct Hin.
    + intros Hnan. split; intros token Hin; simpl in Hin;
        repeat (destruct Hin as [<-|Hin];
          [mixed_operands Ha (eq_refl true) Hb Hos;
           rewrite (holds_isFloatAt _ _ _ _ Hx); cbn [bind];
           rewrite (holds_floatAt _ _ _ _ Hx); cbn [bind]; rewrite Hnan;
           unfold resultAt; stack_index;
           rewrite ?(holds_scratchAt _ _ _ _ Hx), ?(holds_scratchAt _ _ _ _ Hy);
           cbn [bind];
           apply epilogue_Result; cbn [popCount relArity]; auto; lia|]);
        destruct Hin.
    + intros Hnan token Hin. simpl in Hin.
      repeat (destruct Hin as [<-|Hin];
        [mixed_operands Ha (eq_refl true) Hb Hos;
         rewrite (holds_isFloatAt _ _ _ _ Hx); cbn [bind];
         rewrite (holds_floatAt _ _ _ _ Hx); cbn [bind]; rewrite Hnan;
         stack_index; rewrite (holds_isFloatAt _ _ _ _ Hy); cbn [bind];
         apply epilogue_defers; [lia|exact Hroom]|]).
      destruct Hin.
  - (* the symbol first *)
    assert (Ha : holds e (scratchHead e - 2) (VString s) (isFloat64 (VString s))) by exact Hx.
    assert (Hb : holds e (scratchHead e - 1) (VFloat a) (isFloat64 (VFloat a))) by exact Hy.
    refine (conj _ (conj _ _)).
    + intros token Hin. unfold comparisons in Hin. simpl in Hin.
      repeat (destruct Hin as [<-|Hin];
        [mixed_operands Ha Hos Hb (eq_refl true); cbn [bind];
         apply epilogue_defers; [lia|exact Hroom]|]).
      destruct Hin.
    + intros Hnan. split; intros token Hin; simpl in Hin;
        repeat (destruct Hin as [<-|Hin];
          [mixed_operands Ha Hos Hb (eq_refl true);
           rewrite (holds_isFloatAt _ _ _ _ Hx); cbn [bind]; stack_index;
           rewrite (holds_isFloatAt _ _ _ _ Hy); cbn [bind];
           rewrite (holds_floatAt _ _ _ _ Hy); cbn [bind]; rewrite Hnan;
           unfold resultAt;
           rewrite ?(holds_scratchAt _ _ _ _ Hx), ?(holds_scratchAt _ _ _ _ Hy);
           cbn [bind];
           apply epilogue_Result; cbn [popCount relArity]; auto; lia|]);
        destruct Hin.
    + intros Hnan token Hin. simpl in Hin.
      repeat (destruct Hin as [<-|Hin];
        [mixed_operands Ha Hos Hb (eq_refl true);
         rewrite (holds_isFloatAt _ _ _ _ Hx); cbn [bind]; stack_index;
         rewrite (holds_isFloatAt _ _ _ _ Hy); cbn [bind];
         rewrite (holds_floatAt _ _ _ _ Hy); cbn [bind]; rewrite Hnan;
         apply epilogue_defers; [lia|exact Hroom]|]).
      destruct Hin.
Qed.

(** ** INDEX *)

Lemma findOperator_spec e lo hi :
  0 <= lo -> lo <= hi -> wellFormed e lo hi ->
  exists b, findOperator e lo hi = Ok b /\ (b = true <-> hasOperator e lo hi).
Proof.
  intros Hlo Hle Hwf. unfold findOperator.
  destruct (window_rule
              (fun j (_ : unit) =>
                 forall k s, lo <= k < j -> zindex (scratch e) k = Some (VString s) ->
                             isOperator s = false)
              (fun _ => hasOperator e lo hi)
              e (fun argIdx _ =>
                   do fl <- isFloatAt e argIdx;
                   if negb fl then
                     do s <- stringAt e argIdx;
                     Ok (tt, isOperator s)
                   else Ok (tt, false))
              lo hi tt)
    as (s' & b & Hrun & Hpost); auto.
  - intros k s Hk. lia.
  - intros j [] Hj HP. destruct (Hwf j Hj) as (v & Hv & Hplain).
    rewrite (holds_isFloatAt _ _ _ _ Hv).
    destruct v as [|x|s|n]; try discriminate; cbn [isFloat64 negb bind].
    + exists tt, false. split; [reflexivity|].
      intros k s Hk Hs. destruct (Z.eq_dec k j) as [->|Hne].
      * destruct Hv as [Hv _]. congruence.
      * apply (HP k); auto. lia.
    + rewrite (holds_stringAt _ _ _ _ Hv). cbn [bind].
      exists tt, (isOperator s). split; [reflexivity|].
      destruct (isOperator s) eqn:Hop.
      * exists j, s. split; [lia|]. split; [apply Hv|exact Hop].
      * intros k s0 Hk Hs. destruct (Z.eq_dec k j) as [->|Hne].
        -- destruct Hv as [Hv _]. congruence.
        -- apply (HP k); auto. lia.
  - rewrite Hrun. cbn [bind snd]. exists b. split; [reflexivity|].
    destruct b.
    + tauto.
    + split; [discriminate|]. intros (k & s & Hk & Hs & Hop).
      rewrite (Hpost k s Hk Hs) in Hop. discriminate.
Qed.

(** X28. n,INDEX with a valid count n, over n items none of which is the
    name of an operator, overwrites the count with a copy of the n-th item
    below it (value and float flag); the stack keeps its height and the n
    items stay, so a,b,c,2,INDEX becomes a,b,c,b. *)
Theorem INDEX_copies
    (env : Env) (bindings : gmap string binding) (tc : timeCtx)
    (e : Expression) (tokIdx : Z) (c : float) (fl : bool) (n : Z) (v : value) :
  sized e ->
  holds e (scratchHead e - 1) (VFloat c) fl ->
  notPositiveFinite c = false ->
  F64.trunc c = Some n -> 1 <= n <= scratchHead e - 1 ->
  wellFormed e (scratchHead e - 1 - n) (scratchHead e - 1) ->
  ~ hasOperator e (scratchHead e - 1 - n) (scratchHead e - 1) ->
  zindex (scratch e) (scratchHead e - 1 - n) = Some v ->
  simplifyToken env bindings tc e tokIdx (VString "INDEX")
  = Ok (withIsFloat
          (withScratch e (<[Z.to_nat (scratchHead e - 1) := v]> (scratch e)))
          (<[Z.to_nat (scratchHead e - 1) := isFloat64 v]> (isFloat e))).
Proof.
  intros Hsz Hc Hok Ht Hn Hwf Hno Hv.
  pose proof (holds_bounds _ _ _ _ Hc) as [H1 H2]. pose proof Hsz as [Hs1 Hs2].
  rewrite (counted_window env bindings tc e tokIdx "INDEX" indexWindow c fl n);
    auto; [|do 2 right; left; reflexivity|lia].
  unfold indexWindow, isub. rewrite (wrap64_id (scratchHead e - 1 - n)) by lia.
  destruct (findOperator_spec e (scratchHead e - 1 - n) (scratchHead e - 1))
    as (b & -> & Hb); [lia|lia|exact Hwf|].
  destruct b; [exfalso; apply Hno, Hb; reflexivity|]. cbn [bind].
  rewrite (wrap64_id (scratchHead e - n)) by lia.
  rewrite (wrap64_id (scratchHead e - n - 1)) by lia.
  replace (scratchHead e - n - 1) with (scratchHead e - 1 - n) by lia.
  destruct (Hwf (scratchHead e - 1 - n)) as (v' & Hv' & _); [lia|].
  assert (v' = v) as -> by (destruct Hv' as [Hv' _]; congruence).
  rewrite (holds_scratchAt _ _ _ _ Hv'). cbn [bind].
  unfold setScratch, setIsFloat. rewrite zstore_Some by lia. cbn [bind orPanic].
  unfold isFloatAt. cbn [isFloat scratchHead withScratch].
  rewrite (wrap64_id (scratchHead e - n)) by lia.
  rewrite (wrap64_id (scratchHead e - n - 1)) by lia.
  replace (scratchHead e - n - 1) with (scratchHead e - 1 - n) by lia.
  destruct Hv' as [_ Hfl]. rewrite Hfl. cbn [bind orPanic].
  rewrite zstore_Some by lia. cbn [bind orPanic epilogue]. reflexivity.
Qed.

(** ** What New refuses *)

Lemma configure_after_error err e0 setters :
  fold_left (fun r c => do e <- r; configure c e) setters (Err err e0) = Err err e0.
Proof. induction setters as [|c l IH]; [reflexivity|]. cbn [fold_left bind]. exact IH. Qed.

Lemma simplifyLoop_app env b tc l1 : forall l2 i e,
  simplifyLoop env b tc (l1 ++ l2) i e
  = do e' <- simplifyLoop env b tc l1 i e; simplifyLoop env b tc l2 (i + len l1) e'.
Proof.
  induction l1 as [|t l IH]; intros l2 i e.
  - cbn [app simplifyLoop bind]. unfold len. cbn [length]. now rewrite Z.add_0_r.
  - cbn [app simplifyLoop].
    destruct (simplifyToken env b tc e i t) as [e'|err e'|p]; cbn [bind]; try reflexivity.
    rewrite IH. unfold len. cbn [length].
    now replace (i + 1 + Z.of_nat (length l)) with (i + Z.of_nat (S (length l))) by lia.
Qed.

(** X29. New refuses, for any non-empty program, a first configurator
    Delimiter(d) when d names an operator, which among one-byte characters
    are exactly % * + - /, and a first configurator SecondsPerInterval(s)
    when s is zero or below; and with the default delimiter it fails with
    the Syntax error empty token on a program that has an empty token (a
    leading, trailing or doubled comma) after names, numbers and constants
    only. *)
Theorem New_refuses
    (env : Env) (someExpression : string) (setters : list ExpressionConfigurator) :
  someExpression <> "" ->
  (forall d, In d operatorCharacters ->
     exists e,
       New env someExpression (Delimiter d :: setters)
       = Err (ErrSyntax "cannot use %c operator for delimiter" [AString (String d "")]) e)
  /\ (forall d, isOperator (String d "") = true <-> In d operatorCharacters)
  /\ (forall seconds, F64.le seconds F64.zero = true ->
     exists e,
       New env someExpression (SecondsPerInterval seconds :: setters)
       = Err (ErrSyntax "cannot use %d seconds as interval" [AFloat seconds]) e)
  /\ (forall before after vs,
        Split DefaultDelimiter someExpression = (before ++ "" :: after)%list ->
        Forall2 (fun t v => leaves env DefaultSecondsPerInterval t = Some v) before vs ->
        exists e, New env someExpression [] = Err (ErrSyntax "empty token" []) e).
Proof.
  intros Hne. unfold New.
  destruct (String.eqb_spec someExpression "") as [?|_]; [congruence|].
  assert (Hchars : forall d, isOperator (String d "") = true <-> In d operatorCharacters).
  { intros d. unfold operatorCharacters. split.
    - destruct d as [[] [] [] [] [] [] [] []]; vm_compute; intros H;
        try discriminate H; tauto.
    - intros H. simpl in H.
      repeat (destruct H as [<-|H]; [reflexivity|]). destruct H. }
  refine (conj _ (conj Hchars (conj _ _))).
  - intros d Hd. apply Hchars in Hd. cbn [fold_left bind configure]. rewrite Hd.
    rewrite configure_after_error. eexists. reflexivity.
  - intros seconds Hs. cbn [fold_left bind configure]. rewrite Hs.
    rewrite configure_after_error. eexists. reflexivity.
  - intros before after vs Hsplit Hall.
    cbn [fold_left bind delimiter openBindings secondsPerInterval].
    rewrite Hsplit.
    set (toks := (before ++ "" :: after)%list).
    set (size := len toks + len (List.filter (fun t => String.eqb t "DUP") toks)).
    assert (Hsize : len toks <= size /\ 0 <= size) by (unfold size, len; lia).
    assert (Hlt : (length before < length toks)%nat).
    { unfold toks. rewrite length_app. cbn [length]. lia. }
    unfold Partial, make. cbn [scratchSize].
    destruct (Z.ltb_spec size 0); [lia|]. cbn [bind].
    unfold simplify.
    change (coerceMapValuesToFloat64 ∅) with (Coerced ∅).
    cbn [withOpenBindings withHead performTimeSubstitutions timeOf bind tokens delimiter
         secondsPerInterval scratchSize scratch isFloat].
    match goal with
    | |- context [simplifyLoop env ∅ noTime (map VString toks) 0 ?e0] =>
        set (start := e0);
        destruct (simplifyLoop_leaves env (Z.to_nat size) before 0 start [] vs)
          as (e1 & Hrun & _ & _)
    end.
    { exact Hall. }
    { unfold loaded, start.
      cbn [scratchHead scratch isFloat performTimeSubstitutions withOpenBindings
           withHead length take].
      rewrite !length_replicate. auto. }
    { cbn [length]. unfold len in *. lia. }
    assert (Hstop : simplifyLoop env ∅ noTime (map VString toks) 0 start
                    = Err (ErrSyntax "empty token" []) e1).
    { unfold toks. rewrite map_app, simplifyLoop_app, Hrun.
      cbn [bind map simplifyLoop]. reflexivity. }
    rewrite Hstop.
    cbn [bind]. eexists. reflexivity.
Qed.

(** ** Examples of the further properties, on the sample host *)

Ltac cell := split; reflexivity.

(** 5,2,- is 3. *)
Lemma arithmetic_on_numbers_witness :
  simplifyToken Sample.env ∅ noTime (onStack [VFloat 5%float; VFloat 2%float] 1) 2
    (VString "-")
  = Ok (replaceTop 2 (onStack [VFloat 5%float; VFloat 2%float] 1) (VFloat 3%float)).
Proof.
  refine (arithmetic_on_numbers Sample.env ∅ noTime _ 2 "-" PrimFloat.sub
            5%float 2%float _ _ _ _); [right; left; reflexivity|cell..].
Defined.

(** 0,x,* is the int 0. *)
Lemma arithmetic_number_first_witness :
  simplifyToken Sample.env ∅ noTime (onStack [VFloat 0%float; VString "x"] 1) 2
    (VString "*")
  = Ok (replaceTop 2 (onStack [VFloat 0%float; VString "x"] 1) (VInt 0)).
Proof.
  refine (proj1 (proj2 (proj1
            (arithmetic_number_first Sample.env ∅ noTime _ 0%float (VString "x") _ _ _ _)
            eq_refl)) 2); cell.
Defined.

(** x,1,/ is x. *)
Lemma arithmetic_number_second_witness :
  simplifyToken Sample.env ∅ noTime (onStack [VString "x"; VFloat 1%float] 1) 2
    (VString "/")
  = Ok (replaceTop 2 (onStack [VString "x"; VFloat 1%float] 1) (VString "x")).
Proof.
  refine (proj1 (proj2 (proj1 (proj2
            (arithmetic_number_second Sample.env ∅ noTime _ (VString "x") 1%float _ _ _ _))
            eq_refl)) 2); cell.
Defined.

(** x,SQRT waits for x. *)
Lemma unresolved_operand_defers_witness :
  simplifyToken Sample.env ∅ noTime (onStack [VString "x"] 1) 1 (VString "SQRT")
  = Ok (pushed (onStack [VString "x"] 1) (VString "SQRT") false).
Proof.
  refine (unresolved_operand_defers Sample.env ∅ noTime _ "SQRT" (mkArity 1 1 1 0 0)
            _ _ _ _ _ 1).
  - reflexivity.
  - cbv [onStack scratchHead len length popCount]. lia.
  - cell.
  - intros j Hj. cbv [onStack scratchHead len length popCount] in Hj.
    assert (j = 0) as -> by lia. exists (VString "x"). split; [cell|reflexivity].
  - left. exists 0, "x". split; [|reflexivity].
    cbv [onStack scratchHead len length floatOffset floatCount]. lia.
Defined.

(** -3,ABS is 3. *)
Lemma unary_functions_witness :
  simplifyToken Sample.env ∅ noTime (onStack [VFloat (-3)%float] 0) 1 (VString "ABS")
  = Ok (replaceTop 1 (onStack [VFloat (-3)%float] 0) (VFloat 3%float)).
Proof.
  refine (unary_functions Sample.env ∅ noTime _ "ABS" F64.Abs (-3)%float true _ _ _ 1);
    [left; reflexivity|cell..].
Defined.

(** 0,x,y,IF is y. *)
Lemma IF_selects_witness :
  simplifyToken Sample.env ∅ noTime
    (onStack [VFloat 0%float; VString "x"; VString "y"] 0) 3 (VString "IF")
  = Ok (replaceTop 3 (onStack [VFloat 0%float; VString "x"; VString "y"] 0)
          (VString "y")).
Proof.
  refine (IF_selects Sample.env ∅ noTime _ 0%float (VString "x") (VString "y")
            _ _ _ _ _ _ 3); first [cell | reflexivity].
Defined.

(** 5,1,10,LIMIT is 5. *)
Lemma LIMIT_on_numbers_witness :
  simplifyToken Sample.env ∅ noTime
    (onStack [VFloat 5%float; VFloat 1%float; VFloat 10%float] 0) 3 (VString "LIMIT")
  = Ok (replaceTop 3 (onStack [VFloat 5%float; VFloat 1%float; VFloat 10%float] 0)
          (VFloat 5%float)).
Proof.
  refine (LIMIT_on_numbers Sample.env ∅ noTime _ 5%float 1%float 10%float _ _ _ _ 3);
    cell.
Defined.

(** UNKN,2,ADDNAN is 2. *)
Lemma ADDNAN_on_numbers_witness :
  simplifyToken Sample.env ∅ noTime (onStack [VFloat F64.NaN; VFloat 2%float] 0) 2
    (VString "ADDNAN")
  = Ok (replaceTop 2 (onStack [VFloat F64.NaN; VFloat 2%float] 0) (VFloat 2%float)).
Proof.
  refine (ADDNAN_on_numbers Sample.env ∅ noTime _ F64.NaN 2%float true true _ _ _ 2);
    cell.
Defined.

(** UNKN,2,MAXNAN is 2. *)
Lemma extremum_on_numbers_witness :
  simplifyToken Sample.env ∅ noTime (onStack [VFloat F64.NaN; VFloat 2%float] 0) 2
    (VString "MAXNAN")
  = Ok (replaceTop 2 (onStack [VFloat F64.NaN; VFloat 2%float] 0) (VFloat 2%float)).
Proof.
  refine (extremum_on_numbers Sample.env ∅ noTime _ "MAXNAN" F64.Max false
            F64.NaN 2%float _ _ _ _ 2); [right; left; reflexivity|cell..].
Defined.

(** x,x,GE is 1. *)
Lemma two_symbols_compared_witness :
  simplifyToken Sample.env ∅ noTime (onStack [VString "x"; VString "x"] 1) 2
    (VString "GE")
  = Ok (replaceTop 2 (onStack [VString "x"; VString "x"] 1) (VFloat 1%float)).
Proof.
  refine (proj1 (proj1
            (two_symbols_compared Sample.env ∅ noTime _ "x" "x" _ _ _ _ _ _) eq_refl)
            "GE" _ 2); first [cell | reflexivity | right; left; reflexivity].
Defined.

(** 7,DUP,POP is 7. *)
Lemma DUP_then_POP_witness :
  simplifyToken Sample.env ∅ noTime (onStack [VFloat 7%float] 1) 1 (VString "DUP")
  = Ok (pushed (onStack [VFloat 7%float] 1) (VFloat 7%float) true).
Proof.
  refine (proj1 (DUP_then_POP Sample.env ∅ noTime _ 1 (VFloat 7%float) _ _ _));
    first [cell | reflexivity].
Defined.

(** 1,x,EXC,EXC is 1,x. *)
Lemma EXC_twice_witness :
  simplifyToken Sample.env ∅ noTime
    (exchanged (onStack [VFloat 1%float; VString "x"] 0)) 3 (VString "EXC")
  = Ok (onStack [VFloat 1%float; VString "x"] 0).
Proof.
  refine (proj2 (proj2 (proj2 (proj2
            (EXC_twice Sample.env ∅ noTime _ 2 (VFloat 1%float) (VString "x") _ _ _ _)))));
    first [cell | reflexivity].
Defined.

Ltac window_cells :=
  let k := fresh "k" in let x := fresh "x" in let Hk := fresh "Hk" in
  intros k x Hk;
  repeat (destruct k as [|k]; [injection Hk as <-; split; reflexivity|]);
  destruct k; discriminate Hk.

(** DAY is 86400 even when the bindings bind DAY. *)
Lemma constants_ignore_bindings_witness :
  simplifyToken Sample.env {["DAY" := BFloat 1%float]} noTime (onStack [] 1) 0
    (VString "DAY")
  = Ok (pushed (onStack [] 1) (VFloat 86400%float) true).
Proof.
  refine (constants_ignore_bindings Sample.env _ noTime _ 0 "DAY" 86400%float _ _ _);
    [left; reflexivity|reflexivity|cell].
Defined.

(** An unbound x stays and is counted. *)
Lemma name_resolution_witness :
  simplifyToken Sample.env ∅ noTime (onStack [] 1) 0 (VString "x")
  = Ok (pushed (incOpen (onStack [] 1) "x") (VString "x") false).
Proof.
  refine (proj1 (proj2 (proj2
            (name_resolution Sample.env ∅ noTime (onStack [] 1) 0 "x" _ _ _)) _ _));
    first [reflexivity | cell | left; reflexivity].
Defined.

(** LTIME without TIME stays and is counted under TIME. *)
Lemma time_names_without_TIME_witness :
  simplifyToken Sample.env ∅ noTime (onStack [] 1) 0 (VString "LTIME")
  = Ok (pushed (incOpen (onStack [] 1) "TIME") (VString "LTIME") false).
Proof.
  refine (proj1 (time_names_without_TIME Sample.env ∅ noTime (onStack [] 1) 0 _ _ _)
            "LTIME" _);
    first [reflexivity | cell | right; left; reflexivity].
Defined.

Lemma TIME_bound_to_a_series_witness :
  Evaluate Sample.env {["TIME" := GoSliceFloat64 [1%float]]} timeProgram
  = Err (ErrSyntax "TIME ought to be bound to number rather than %T"
           [ABinding (BSeries [1%float])])
      (withOpenBindings (withHead timeProgram 0) ∅).
Proof.
  refine (proj1 (TIME_bound_to_a_series Sample.env _ {["TIME" := BSeries [1%float]]}
                   timeProgram [1%float] _ _ _)); reflexivity.
Defined.

Example coercion_of_a_map :
  coerceMapValuesToFloat64 {["n" := GoInt 5]}
  = Coerced {["n" := BFloat 5%float]}
  /\ coerceMapValuesToFloat64 {["s" := GoSliceInt [1; 2]]}
     = Coerced {["s" := BSeries [1%float; 2%float]]}
  /\ coerceMapValuesToFloat64 {["t" := GoOther "string"]}
     = CoerceErr (ErrBadBindingType "t" "string")
  /\ coerceMapValuesToFloat64 {["u" := GoNil]} = CoercePanic NilDereference.
Proof. repeat split; vm_compute; reflexivity. Qed.

(** 1,2,3,2,AVG is 1,2.5. *)
Lemma AVG_on_numbers_witness :
  simplifyToken Sample.env ∅ noTime
    (onStack [VFloat 1%float; VFloat 2%float; VFloat 3%float; VFloat 2%float] 0) 4
    (VString "AVG")
  = Ok (replaceTop 3
          (onStack [VFloat 1%float; VFloat 2%float; VFloat 3%float; VFloat 2%float] 0)
          (VFloat 2.5%float)).
Proof.
  refine (AVG_on_numbers Sample.env ∅ noTime _ 2%float true [2%float; 3%float]
            _ _ _ _ _ _ 4);
    first [cell | reflexivity | window_cells | cbv [onStack scratchHead len length]; lia].
Defined.

(** 2,4,2,STDEV is 1. *)
Lemma STDEV_on_numbers_witness :
  simplifyToken Sample.env ∅ noTime
    (onStack [VFloat 2%float; VFloat 4%float; VFloat 2%float] 0) 3 (VString "STDEV")
  = Ok (replaceTop 3 (onStack [VFloat 2%float; VFloat 4%float; VFloat 2%float] 0)
          (VFloat 1%float)).
Proof.
  refine (STDEV_on_numbers Sample.env ∅ noTime _ 2%float true [2%float; 4%float]
            _ _ _ _ _ _ 3);
    first [cell | reflexivity | window_cells | cbv [onStack scratchHead len length]; lia].
Defined.

(** 3,1,2,3,MEDIAN is 2. *)
Lemma MEDIAN_on_numbers_witness :
  simplifyToken Sample.env ∅ noTime
    (onStack [VFloat 3%float; VFloat 1%float; VFloat 2%float; VFloat 3%float] 0) 4
    (VString "MEDIAN")
  = Ok (replaceTop 4
          (onStack [VFloat 3%float; VFloat 1%float; VFloat 2%float; VFloat 3%float] 0)
          (VFloat 2%float)).
Proof.
  refine (MEDIAN_on_numbers Sample.env ∅ noTime _ 3%float true
            [3%float; 1%float; 2%float] _ _ _ _ _ _ _ 4);
    first [cell | reflexivity | discriminate | window_cells
          | cbv [onStack scratchHead len length]; lia].
Defined.

(** 1,2,4,3,MAD is 1; 7,1,MAD is 7. *)
Lemma MAD_on_numbers_witness :
  simplifyToken Sample.env ∅ noTime
    (onStack [VFloat 1%float; VFloat 2%float; VFloat 4%float; VFloat 3%float] 0) 4
    (VString "MAD")
  = Ok (replaceTop 4
          (onStack [VFloat 1%float; VFloat 2%float; VFloat 4%float; VFloat 3%float] 0)
          (VFloat 1%float)).
Proof.
  refine (MAD_on_numbers Sample.env ∅ noTime _ 3%float true
            [1%float; 2%float; 4%float] _ _ _ _ _ _ _ 4);
    first [cell | reflexivity | discriminate | window_cells
          | cbv [onStack scratchHead len length]; lia].
Defined.

(** 5,9,7,3,SMAX is 9. *)
Lemma SMAX_SMIN_on_numbers_witness :
  simplifyToken Sample.env ∅ noTime
    (onStack [VFloat 5%float; VFloat 9%float; VFloat 7%float; VFloat 3%float] 0) 4
    (VString "SMAX")
  = Ok (replaceTop 4
          (onStack [VFloat 5%float; VFloat 9%float; VFloat 7%float; VFloat 3%float] 0)
          (VFloat 9%float)).
Proof.
  refine (proj1 (SMAX_SMIN_on_numbers Sample.env ∅ noTime _ 3%float true
                   [5%float; 9%float; 7%float] _ _ _ _ _ _ _) 4);
    first [cell | reflexivity | discriminate | window_cells
          | cbv [onStack scratchHead len length]; lia].
Defined.

(** a,NOW,5 compiles and renders as it was written. *)
Lemma New_without_operators_witness :
  exists e, New Sample.env "a,NOW,5" [] = Ok e /\ String_ Sample.env e = "a,NOW,5".
Proof.
  destruct (New_without_operators Sample.env "a,NOW,5"
              [VString "a"; VString "NOW"; VFloat 5%float])
    as (e & Hnew & _ & _ & Hround).
  - discriminate.
  - repeat constructor.
  - exists e. split; [exact Hnew|]. apply Hround. reflexivity.
Defined.


(** UNKN,x,MAXNAN is x. *)
Lemma number_and_symbol_compared_witness :
  simplifyToken Sample.env ∅ noTime (onStack [VFloat F64.NaN; VString "x"] 1) 2
    (VString "MAXNAN")
  = Ok (replaceTop 2 (onStack [VFloat F64.NaN; VString "x"] 1) (VString "x")).
Proof.
  refine (proj2 (proj1 (proj2
            (number_and_symbol_compared Sample.env ∅ noTime
               (onStack [VFloat F64.NaN; VString "x"] 1) F64.NaN "x" true _ _ _ _ _))
            eq_refl) "MAXNAN" _ 2);
    first [cell | reflexivity | left; reflexivity].
Defined.

(** a,b,c,2,INDEX is a,b,c,b. *)
Lemma INDEX_copies_witness :
  simplifyToken Sample.env ∅ noTime
    (onStack [VString "a"; VString "b"; VString "c"; VFloat 2%float] 0) 4
    (VString "INDEX")
  = Ok (onStack [VString "a"; VString "b"; VString "c"; VString "b"] 0).
Proof.
  refine (INDEX_copies Sample.env ∅ noTime
            (onStack [VString "a"; VString "b"; VString "c"; VFloat 2%float] 0) 4
            2%float true 2 (VString "b") _ _ _ _ _ _ _ _).
  - cell.
  - cell.
  - reflexivity.
  - reflexivity.
  - cbv [onStack scratchHead len length]. lia.
  - intros j Hj. cbv [onStack scratchHead len length] in Hj.
    assert (Hc : j = 1 \/ j = 2) by lia.
    destruct Hc as [-> | ->]; eexists; split; [cell|reflexivity|cell|reflexivity].
  - intros (k & s & Hk & Hs & Hop). cbv [onStack scratchHead len length] in Hk.
    assert (Hc : k = 1 \/ k = 2) by lia.
    destruct Hc as [-> | ->]; injection Hs as <-; discriminate Hop.
  - reflexivity.
Defined.

(** a,,b is refused. *)
Lemma New_refuses_witness :
  exists e, New Sample.env "a,,b" [] = Err (ErrSyntax "empty token" []) e.
Proof.
  refine (proj2 (proj2 (proj2 (New_refuses Sample.env "a,,b" [] _)))
            ["a"] ["b"] [VString "a"] _ _).
  - discriminate.
  - reflexivity.
  - repeat constructor.
Defined.

(** * Partial in steps and at once *)

(** ** Vocabulary *)

(** The operators of fixed arity that compute one item from their operands. *)
Definition numericOps : list string :=
  [ "+"; "-"; "*"; "/"; "%"; "POW"; "ADDNAN"; "ATAN2";
    "ABS"; "ATAN"; "CEIL"; "COS"; "DEG2RAD"; "EXP"; "FLOOR"; "ISINF"; "LOG";
    "RAD2DEG"; "SIN"; "SQRT"; "UN";
    "EQ"; "NE"; "GE"; "GT"; "LE"; "LT"; "MAX"; "MAXNAN"; "MIN"; "MINNAN";
    "IF"; "LIMIT" ].

(** A token of a program made of numbers, names and [numericOps]. *)
Definition plainToken (tok : value) : bool :=
  match tok with
  | VFloat _ => true
  | VString s => negb (isOperator s) || existsb (String.eqb s) numericOps
  | _ => false
  end.

(** The top [k] items of the stack are float64 values flagged as such. *)
Definition numbersOnTop (e : Expression) (k : Z) : bool :=
  forallb
    (fun c =>
       match zindex (scratch e) (scratchHead e - k + Z.of_nat c),
             zindex (isFloat e) (scratchHead e - k + Z.of_nat c) with
       | Some (VFloat _), Some true => true
       | _, _ => false
       end)
    (seq 0 (Z.to_nat k)).

(** The Expression Partial builds from its receiver before it simplifies. *)
Definition fresh (e : Expression) : Expression :=
  mkExpression (delimiter e) ∅ (secondsPerInterval e) (tokens e) false
    (scratchSize e) 0
    (replicate (Z.to_nat (scratchSize e)) VNil)
    (replicate (Z.to_nat (scratchSize e)) false).

(** Over the run of [simplify] on [toks]: every operator either is pushed
    back (the stack grows) or has float64 values for all its operands. *)
Fixpoint numericFolds (env : Env) (c : gmap string binding)
    (toks : list value) (tokIdx : Z) (e : Expression) : bool :=
  match toks with
  | [] => true
  | tok :: rest =>
      match simplifyToken env c noTime e tokIdx tok with
      | Ok e' =>
          match tok with
          | VString s =>
              match arity s with
              | Some t =>
                  (scratchHead e <? scratchHead e') || numbersOnTop e (popCount t)
              | None => true
              end
          | _ => true
          end
          && numericFolds env c rest (tokIdx + 1) e'
      | _ => true
      end
  end.

(** Partial of [e] with [bindings] folds no operator over a symbol. *)
Definition foldsOnlyNumbers (env : Env) (bindings : gmap string goval)
    (e : Expression) : bool :=
  match coerceMapValuesToFloat64 bindings with
  | Coerced c => numericFolds env c (tokens e) 0 (fresh e)
  | _ => true
  end.

(** Two calls of Partial both fail, or return Expressions with the same
    tokens and the same rendering. *)
Definition sameResidual (env : Env) (r r' : result (Expression * Expression)) : Prop :=
  match r, r' with
  | Ok (x, _), Ok (x', _) => tokens x = tokens x' /\ String_ env x = String_ env x'
  | Ok _, _ | _, Ok _ => False
  | _, _ => True
  end.

(** Two receivers with the same settings and the same items on the stack;
    the cells above the head and the open bindings may differ. *)
Definition alike (e e' : Expression) : Prop :=
  secondsPerInterval e = secondsPerInterval e'
  /\ performTimeSubstitutions e = performTimeSubstitutions e'
  /\ scratchHead e = scratchHead e'
  /\ length (scratch e) = length (scratch e')
  /\ length (isFloat e) = length (isFloat e')
  /\ forall j, 0 <= j < scratchHead e ->
       zindex (scratch e) j = zindex (scratch e') j
       /\ zindex (isFloat e) j = zindex (isFloat e') j.

Definition alikeR (r r' : result Expression) : Prop :=
  match r, r' with
  | Ok a, Ok a' => alike a a'
  | Ok _, _ | _, Ok _ => False
  | _, _ => True
  end.

(** The slices of [e] have length [N] and the head is within them. *)
Definition fits (N : nat) (e : Expression) : Prop :=
  0 <= scratchHead e <= Z.of_nat N
  /\ length (scratch e) = N /\ length (isFloat e) = N
  /\ Z.of_nat N < 2 ^ 63.

(** The [k] cells from [i] in [e] are those from [i'] in [e']. *)
Definition sameCells (e : Expression) (i : Z) (e' : Expression) (i' : Z) (k : Z) : Prop :=
  forall c, 0 <= c < k ->
    zindex (scratch e) (i + c) = zindex (scratch e') (i' + c)
    /\ zindex (isFloat e) (i + c) = zindex (isFloat e') (i' + c).

(** A case of the switch that yields one result for the operator's own
    operands, or gives up. *)
Definition simple (r : result action) : Prop :=
  match r with
  | Ok (Result _ n) => n = 0
  | Ok (StackUpdated _) => False
  | _ => True
  end.

(** What a token that is no operator leaves on the stack while no time
    is substituted: [None] for the empty token and for operators. *)
Definition resolved (env : Env) (c : gmap string binding) (spi : float) (s : string)
    : option value :=
  if String.eqb s "" then None
  else if isTimeName s then Some (VString s)
  else
    match assoc s (constantsAt spi) with
    | Some f => Some (VFloat f)
    | None =>
        if isOperator s then None
        else
          match ParseFloat env s with
          | Some x => Some (VFloat x)
          | None =>
              match c !! s with
              | Some (BFloat v) => Some (VFloat v)
              | _ => Some (VString s)
              end
          end
    end.

(** Every item of the stack is a float64 or a string, flagged as its type
    says, and a string that names an operator names a numeric one. *)
Definition tidy (e : Expression) : Prop :=
  forall j, 0 <= j < scratchHead e ->
    exists v, holds e j v (isFloat64 v) /\ plainToken v = true.

(** The items of the stack. *)
Definition stackOf (e : Expression) : list value :=
  take (Z.to_nat (scratchHead e)) (scratch e).

(** The program of TestPartialApplication, as New builds it. *)
Definition sumProgram : Expression :=
  match New Sample.env "a,b,c,d,+,+,+" [] with
  | Ok e => e
  | _ => inertProgram
  end.

Definition b_is_2 : gmap string goval := {["b" := GoInt 2]}.

Definition c_and_d : gmap string goval := {["c" := GoInt 3; "d" := GoInt 4]}.

(** What Partial returns for sumProgram when b is 2: a,2,c,d,+,+,+. *)
Definition sumAfterB : Expression :=
  match Partial Sample.env b_is_2 sumProgram with
  | Ok (x, _) => x
  | _ => sumProgram
  end.

(** ** Receivers that are alike *)

Lemma alike_refl e : alike e e.
Proof. unfold alike. repeat split; reflexivity. Qed.

Lemma alike_sym e e' : alike e e' -> alike e' e.
Proof.
  intros (H1 & H2 & H3 & H4 & H5 & H6). unfold alike. repeat split; try congruence.
  - symmetry. apply H6. lia.
  - symmetry. apply H6. lia.
Qed.

Lemma alike_trans e1 e2 e3 : alike e1 e2 -> alike e2 e3 -> alike e1 e3.
Proof.
  intros (H1 & H2 & H3 & H4 & H5 & H6) (G1 & G2 & G3 & G4 & G5 & G6).
  unfold alike. repeat split; try congruence.
  - rewrite (proj1 (H6 j H)). apply G6. lia.
  - rewrite (proj2 (H6 j H)). apply G6. lia.
Qed.

Lemma alike_openBindings e ob : alike (withOpenBindings e ob) e.
Proof. unfold alike. repeat split; reflexivity. Qed.

Lemma alike_fits N e e' : alike e e' -> fits N e -> fits N e'.
Proof.
  intros (H1 & H2 & H3 & H4 & H5 & H6) (F1 & F2 & F3 & F4).
  unfold fits. repeat split; try lia; congruence.
Qed.

Lemma fits_sized N e : fits N e -> sized e.
Proof. intros (F1 & F2 & F3 & F4). unfold sized, len. lia. Qed.

Lemma zindex_insert {A : Type} (l : list A) (i j : Z) (x : A) :
  0 <= i ->
  zindex (<[Z.to_nat i := x]> l) j
  = if (j =? i) && (i <? len l) then Some x else zindex l j.
Proof.
  intros Hi. unfold zindex, len.
  destruct (Z.ltb_spec j 0).
  - destruct (Z.eqb_spec j i); [lia|reflexivity].
  - destruct (Z.eqb_spec j i) as [->|Hne]; cbn [andb].
    + destruct (Z.ltb_spec i (Z.of_nat (length l))).
      * apply list_lookup_insert_eq. lia.
      * rewrite list_insert_ge by lia. reflexivity.
    + apply list_lookup_insert_ne. lia.
Qed.

Lemma push_cases e v fl :
  push e v fl
  = if (0 <=? scratchHead e) && (scratchHead e <? len (scratch e))
       && (scratchHead e <? len (isFloat e))
    then Ok (pushed e v fl) else Panic IndexOutOfRange.
Proof.
  unfold push, setScratch, setIsFloat, zstore, len.
  destruct (0 <=? scratchHead e) eqn:E1;
    destruct (scratchHead e <? Z.of_nat (length (scratch e))) eqn:E2;
    destruct (scratchHead e <? Z.of_nat (length (isFloat e))) eqn:E3;
    cbn [andb orPanic bind scratchHead withScratch isFloat];
    rewrite ?E1, ?E3; reflexivity.
Qed.

Lemma pushed_alike e e' v fl :
  alike e e' -> 0 <= scratchHead e ->
  alike (pushed e v fl) (pushed e' v fl).
Proof.
  intros (H1 & H2 & H3 & H4 & H5 & H6) Hh. unfold alike, pushed.
  cbn [secondsPerInterval performTimeSubstitutions scratchHead scratch isFloat
       withHead withIsFloat withScratch].
  rewrite !length_insert.
  repeat split; try congruence.
  - rewrite !zindex_insert by lia. unfold len. rewrite <- H3, <- H4.
    destruct ((j =? scratchHead e) && _) eqn:E; [reflexivity|].
    destruct (Z.eq_dec j (scratchHead e)) as [->|Hne].
    + (* the cell is out of range in both *)
      rewrite Z.eqb_refl in E. cbn [andb] in E.
      unfold zindex. destruct (Z.ltb_spec (scratchHead e) 0); [reflexivity|].
      apply Z.ltb_ge in E.
      rewrite !lookup_ge_None_2 by lia. reflexivity.
    + apply H6. lia.
  - rewrite !zindex_insert by lia. unfold len. rewrite <- H3, <- H5.
    destruct ((j =? scratchHead e) && _) eqn:E; [reflexivity|].
    destruct (Z.eq_dec j (scratchHead e)) as [->|Hne].
    + rewrite Z.eqb_refl in E. cbn [andb] in E.
      unfold zindex. destruct (Z.ltb_spec (scratchHead e) 0); [reflexivity|].
      apply Z.ltb_ge in E.
      rewrite !lookup_ge_None_2 by lia. reflexivity.
    + apply H6. lia.
Qed.

Lemma push_alike e e' v fl :
  alike e e' -> alikeR (push e v fl) (push e' v fl).
Proof.
  intros H. rewrite !push_cases. pose proof H as (H1 & H2 & H3 & H4 & H5 & H6).
  unfold len. rewrite <- H3, <- H4, <- H5.
  destruct (Z.leb_spec 0 (scratchHead e)); cbn [andb]; [|exact I].
  destruct (_ && _); [|exact I].
  apply pushed_alike; auto.
Qed.

Lemma replaceTop_alike k e e' v :
  alike e e' -> 0 <= scratchHead e - k -> 1 <= k ->
  alike (replaceTop k e v) (replaceTop k e' v).
Proof.
  intros (H1 & H2 & H3 & H4 & H5 & H6) Hh Hk. unfold alike, replaceTop.
  cbn [secondsPerInterval performTimeSubstitutions scratchHead scratch isFloat
       withHead withIsFloat withScratch].
  rewrite !length_insert. rewrite <- H3.
  repeat split; try congruence.
  - rewrite !zindex_insert by lia. unfold len. rewrite <- H4.
    destruct ((j =? scratchHead e - k) && _) eqn:E; [reflexivity|]. apply H6. lia.
  - rewrite !zindex_insert by lia. unfold len. rewrite <- H5.
    destruct ((j =? scratchHead e - k) && _) eqn:E; [reflexivity|]. apply H6. lia.
Qed.

Lemma alike_scratchAt e e' j :
  alike e e' -> 0 <= j < scratchHead e -> scratchAt e j = scratchAt e' j.
Proof. intros (_ & _ & _ & _ & _ & H) Hj. unfold scratchAt. now rewrite (proj1 (H j Hj)). Qed.

Lemma alike_isFloatAt e e' j :
  alike e e' -> 0 <= j < scratchHead e -> isFloatAt e j = isFloatAt e' j.
Proof. intros (_ & _ & _ & _ & _ & H) Hj. unfold isFloatAt. now rewrite (proj2 (H j Hj)). Qed.

Lemma alike_fuelOf e e' : alike e e' -> fuelOf e = fuelOf e'.
Proof. intros (_ & _ & _ & H4 & H5 & _). unfold fuelOf. now rewrite H4, H5. Qed.

(** ** Loops over the same cells *)

Lemma forLoop_ext {S : Type} (body body' : Z -> S -> result (S * bool)) (hi : Z) :
  forall (fuel : nat) (lo : Z) (s : S),
    (forall j s0, lo <= j < hi -> body j s0 = body' j s0) ->
    forLoop fuel lo hi s body = forLoop fuel lo hi s body'.
Proof.
  induction fuel as [|fuel IH]; intros lo s H; cbn [forLoop].
  - reflexivity.
  - destruct (Z.leb_spec hi lo); [reflexivity|].
    rewrite H by lia. destruct (body' lo s) as [[s' b]|err x|p]; cbn [bind snd fst];
      try reflexivity.
    destruct b; [reflexivity|]. apply IH. intros j s0 Hj. apply H. lia.
Qed.

Lemma floatCheck_alike e e' lo hi :
  alike e e' -> 0 <= lo -> hi <= scratchHead e ->
  floatCheck e lo hi = floatCheck e' lo hi.
Proof.
  intros H Hlo Hhi. unfold floatCheck. rewrite (alike_fuelOf e e' H).
  erewrite forLoop_ext; [reflexivity|].
  intros j [] Hj. cbv beta. rewrite (alike_scratchAt e e' j H) by lia. reflexivity.
Qed.

Lemma nonOperatorCheck_alike e e' lo hi :
  alike e e' -> 0 <= lo -> hi <= scratchHead e ->
  nonOperatorCheck e lo hi = nonOperatorCheck e' lo hi.
Proof.
  intros H Hlo Hhi. unfold nonOperatorCheck. rewrite (alike_fuelOf e e' H).
  erewrite forLoop_ext; [reflexivity|].
  intros j [] Hj. cbv beta.
  rewrite (alike_isFloatAt e e' j H) by lia.
  rewrite (alike_scratchAt e e' j H) by lia. reflexivity.
Qed.

(** ** The cases of the numeric operators *)

Lemma numericOps_arity op :
  In op numericOps -> exists t, arity op = Some t /\ 1 <= popCount t <= 3.
Proof.
  intros H. unfold numericOps in H. simpl in H.
  repeat (destruct H as [<-|H]; [eexists; split; [reflexivity|cbn; lia]|]).
  destruct H.
Qed.

Ltac unfold_cases :=
  unfold case_add, case_sub, case_mul, case_div, case_mod, case_POW,
         case_ADDNAN, case_ATAN2, case_ISINF, case_UN, case_IF, case_LIMIT,
         case_EQ, case_NE, case_GE, case_GT, case_LE, case_LT,
         case_MAX, case_MAXNAN, case_MIN, case_MINNAN, extremum,
         arith, relational, compareNaN, compareBoth, unary, withFloat,
         resultAt, resultF, bool01;
  cbv zeta.

(** A case reads the operands of its operator and nothing else. *)
Lemma case_local env b b' op t e i e' i' :
  In op numericOps -> arity op = Some t ->
  sameCells e i e' i' (popCount t) ->
  operatorCase env b op t e i = operatorCase env b' op t e' i'.
Proof.
  intros Hin Har Hc. unfold numericOps in Hin. simpl in Hin.
  repeat (destruct Hin as [<-|Hin];
    [ vm_compute in Har; injection Har as <-; cbn [popCount] in Hc;
      try (destruct (Hc 0 ltac:(lia)) as [Hs0 Hf0]; rewrite !Z.add_0_r in Hs0, Hf0);
      try (destruct (Hc 1 ltac:(lia)) as [Hs1 Hf1]);
      try (destruct (Hc 2 ltac:(lia)) as [Hs2 Hf2]);
      clear Hc;
      pick_case; unfold_cases;
      unfold floatAt, stringAt, scratchAt, isFloatAt;
      rewrite ?Hs0, ?Hf0, ?Hs1, ?Hf1, ?Hs2, ?Hf2;
      reflexivity
    | ]).
  destruct Hin.
Qed.

Lemma simple_bind {A : Type} (m : result A) (k : A -> result action) :
  (forall a, simple (k a)) -> simple (bind m k).
Proof. intros H. destruct m; cbn [bind]; [apply H|exact I|exact I]. Qed.

Ltac simple_step :=
  first
    [ apply simple_bind; intros
    | match goal with
      | |- simple (if ?c then _ else _) => destruct c
      end
    | exact I
    | reflexivity ].

(** A case of a numeric operator yields one result or gives up. *)
Lemma numeric_simple env b op t e i :
  In op numericOps -> arity op = Some t -> simple (operatorCase env b op t e i).
Proof.
  intros Hin Har. unfold numericOps in Hin. simpl in Hin.
  repeat (destruct Hin as [<-|Hin];
    [ vm_compute in Har; injection Har as <-;
      pick_case; unfold_cases; repeat simple_step
    | ]).
  destruct Hin.
Qed.

Lemma numeric_action env b op t e i act :
  In op numericOps -> arity op = Some t ->
  operatorCase env b op t e i = Ok act ->
  act = CannotSimplify \/ exists v, act = Result v 0.
Proof.
  intros Hin Har H. pose proof (numeric_simple env b op t e i Hin Har) as Hs.
  rewrite H in Hs. destruct act as [v n| |e'']; cbn in Hs.
  - right. exists v. now subst.
  - now left.
  - destruct Hs.
Qed.

(** On operands that are all numbers a case yields a number. *)
Lemma numeric_case env b op t e i :
  In op numericOps -> arity op = Some t ->
  (forall c, 0 <= c < popCount t -> exists a, holds e (i + c) (VFloat a) true) ->
  exists r, operatorCase env b op t e i = Ok (Result (VFloat r) 0).
Proof.
  intros Hin Har Hc. unfold numericOps in Hin. simpl in Hin.
  repeat (destruct Hin as [<-|Hin];
    [ vm_compute in Har; injection Har as <-; cbn [popCount] in Hc;
      try (destruct (Hc 0 ltac:(lia)) as [a0 H0]; rewrite !Z.add_0_r in H0);
      try (destruct (Hc 1 ltac:(lia)) as [a1 H1]);
      try (destruct (Hc 2 ltac:(lia)) as [a2 H2]);
      clear Hc;
      pick_case; unfold_cases;
      rewrite ?(holds_isFloatAt _ _ _ _ H0), ?(holds_floatAt _ _ _ _ H0),
              ?(holds_scratchAt _ _ _ _ H0);
      try rewrite ?(holds_isFloatAt _ _ _ _ H1), ?(holds_floatAt _ _ _ _ H1),
              ?(holds_scratchAt _ _ _ _ H1);
      try rewrite ?(holds_isFloatAt _ _ _ _ H2), ?(holds_floatAt _ _ _ _ H2),
              ?(holds_scratchAt _ _ _ _ H2);
      cbn [bind andb negb];
      repeat match goal with
             | |- context [if ?c then _ else _] => destruct c; cbn [bind andb negb]
             end;
      eexists; reflexivity
    | ]).
  destruct Hin.
Qed.

(** ** One operator *)

Lemma push_Ok e v fl e' :
  push e v fl = Ok e' ->
  e' = pushed e v fl
  /\ 0 <= scratchHead e < len (scratch e) /\ scratchHead e < len (isFloat e).
Proof.
  rewrite push_cases.
  destruct (Z.leb_spec 0 (scratchHead e)); cbn [andb]; [|discriminate].
  destruct (Z.ltb_spec (scratchHead e) (len (scratch e))); cbn [andb]; [|discriminate].
  destruct (Z.ltb_spec (scratchHead e) (len (isFloat e))); [|discriminate].
  intros [= <-]. auto.
Qed.

Lemma fits_pushed N e v fl :
  fits N e -> scratchHead e < Z.of_nat N -> fits N (pushed e v fl).
Proof.
  intros (F1 & F2 & F3 & F4) H. unfold fits, pushed.
  cbn [scratchHead scratch isFloat withHead withIsFloat withScratch].
  rewrite !length_insert. repeat split; auto; lia.
Qed.

Lemma fits_replaceTop N k e v :
  fits N e -> 1 <= k <= scratchHead e -> fits N (replaceTop k e v).
Proof.
  intros (F1 & F2 & F3 & F4) H. unfold fits, replaceTop.
  cbn [scratchHead scratch isFloat withHead withIsFloat withScratch].
  rewrite !length_insert. repeat split; auto; lia.
Qed.

Lemma fits_openBindings N e ob : fits N e -> fits N (withOpenBindings e ob).
Proof. exact (fun H => H). Qed.

(** What a numeric operator makes of the stack when it returns. *)
Lemma operator_outcome env c op t e e' N :
  In op numericOps -> arity op = Some t -> fits N e ->
  operator env c op t e = Ok e' ->
  1 <= popCount t <= scratchHead e
  /\ ((e' = pushed e (VString op) false /\ scratchHead e < Z.of_nat N)
      \/ exists v, e' = replaceTop (popCount t) e v).
Proof.
  intros Hin Har Hf H.
  destruct (numericOps_arity op Hin) as (t' & Har' & Hk).
  rewrite Har in Har'. injection Har' as <-.
  pose proof Hf as (F1 & F2 & F3 & F4).
  unfold operator in H. destruct (Z.ltb_spec (scratchHead e) (popCount t)); [discriminate|].
  split; [lia|].
  destruct (floatCheck _ _ _) as [b1| |]; cbn [bind] in H; try discriminate.
  destruct (nonOperatorCheck _ _ _) as [b2| |]; cbn [bind] in H; try discriminate.
  assert (Hpush : forall x, push e (VString op) false = Ok x ->
            x = pushed e (VString op) false /\ scratchHead e < Z.of_nat N).
  { intros x Hx. apply push_Ok in Hx as (-> & H1 & H2). unfold len in *. split; [reflexivity|lia]. }
  destruct (b1 || b2).
  - cbn [bind epilogue] in H. left. now apply Hpush.
  - destruct (operatorCase _ _ _ _ _ _) as [act| |] eqn:Hact; cbn [bind] in H;
      try discriminate.
    destruct (numeric_action _ _ _ _ _ _ _ Hin Har Hact) as [->|[v ->]].
    + cbn [epilogue] in H. left. now apply Hpush.
    + right. exists v.
      rewrite (epilogue_Result op t e v 0 (popCount t)) in H;
        [now injection H as <-|apply (fits_sized N), Hf|lia|lia|unfold len; lia
        |unfold len; lia|lia].
Qed.

(** A numeric operator does the same to receivers that are alike, whatever
    the bindings are. *)
Lemma operator_alike env c c' op t e e' N :
  In op numericOps -> arity op = Some t -> alike e e' -> fits N e ->
  alikeR (operator env c op t e) (operator env c' op t e').
Proof.
  intros Hin Har Ha Hf.
  destruct (numericOps_arity op Hin) as (t' & Har' & Hk).
  rewrite Har in Har'. injection Har' as <-.
  pose proof (arity_windows _ _ Har) as (Hf1 & Hf2 & Hn1 & Hn2 & Hp).
  pose proof Hf as (F1 & F2 & F3 & F4).
  pose proof Ha as (A1 & A2 & A3 & A4 & A5 & A6).
  unfold operator. rewrite <- A3.
  destruct (Z.ltb_spec (scratchHead e) (popCount t)); [exact I|].
  rewrite <- (floatCheck_alike e e') by (auto; lia).
  rewrite <- (nonOperatorCheck_alike e e') by (auto; lia).
  destruct (floatCheck _ _ _) as [b1| |]; cbn [bind]; try exact I.
  destruct (nonOperatorCheck _ _ _) as [b2| |]; cbn [bind]; try exact I.
  assert (Hcase : operatorCase env c op t e (scratchHead e - popCount t)
                  = operatorCase env c' op t e' (scratchHead e - popCount t)).
  { apply case_local; auto. intros k Hk'. apply A6. lia. }
  rewrite <- Hcase.
  destruct (b1 || b2).
  - cbn [bind epilogue]. now apply push_alike.
  - destruct (operatorCase env c op t e _) as [act| |] eqn:Hact; cbn [bind]; try exact I.
    destruct (numeric_action _ _ _ _ _ _ _ Hin Har Hact) as [->|[v ->]].
    + cbn [epilogue]. now apply push_alike.
    + rewrite (epilogue_Result op t e v 0 (popCount t));
        [|apply (fits_sized N), Hf|lia|lia|unfold len; lia|unfold len; lia|lia].
      rewrite (epilogue_Result op t e' v 0 (popCount t));
        [|apply (fits_sized N), (alike_fits N e e' Ha Hf)|lia|lia
         |unfold len; lia|unfold len; lia|lia].
      cbn [alikeR]. apply replaceTop_alike; auto; lia.
Qed.

Lemma numbersOnTop_holds e k :
  numbersOnTop e k = true ->
  forall c, 0 <= c < k -> exists a, holds e (scratchHead e - k + c) (VFloat a) true.
Proof.
  intros H c Hc. unfold numbersOnTop in H. rewrite forallb_forall in H.
  specialize (H (Z.to_nat c)). rewrite Z2Nat.id in H by lia.
  assert (Hin : In (Z.to_nat c) (seq 0 (Z.to_nat k))) by (apply in_seq; lia).
  specialize (H Hin). unfold holds.
  destruct (zindex (scratch e) _) as [[|a|s|n]|]; try discriminate.
  destruct (zindex (isFloat e) _) as [[|]|]; try discriminate.
  exists a. auto.
Qed.

(** On operands that are all numbers a numeric operator folds. *)
Lemma numeric_fold env c op t e N :
  In op numericOps -> arity op = Some t -> fits N e ->
  popCount t <= scratchHead e ->
  numbersOnTop e (popCount t) = true ->
  exists r,
    operatorCase env c op t e (scratchHead e - popCount t) = Ok (Result (VFloat r) 0)
    /\ operator env c op t e = Ok (replaceTop (popCount t) e (VFloat r)).
Proof.
  intros Hin Har Hf Hpop Hnum.
  destruct (numericOps_arity op Hin) as (t' & Har' & Hk).
  rewrite Har in Har'. injection Har' as <-.
  pose proof (arity_windows _ _ Har) as (Hf1 & Hf2 & Hn1 & Hn2 & Hp).
  pose proof Hf as (F1 & F2 & F3 & F4).
  pose proof (numbersOnTop_holds e _ Hnum) as Hh.
  assert (Hcell : forall j, scratchHead e - popCount t <= j < scratchHead e ->
            exists a, holds e j (VFloat a) true).
  { intros j Hj. destruct (Hh (j - (scratchHead e - popCount t))) as [a Ha]; [lia|].
    exists a. replace (scratchHead e - popCount t + (j - (scratchHead e - popCount t)))
      with j in Ha by lia. exact Ha. }
  destruct (numeric_case env c op t e (scratchHead e - popCount t) Hin Har) as [r Hr].
  { intros k Hk'. apply Hcell. lia. }
  exists r. split; [exact Hr|].
  rewrite (operator_proceeds env c op t e Har Hpop).
  - rewrite Hr. cbn [bind].
    apply epilogue_Result;
      [apply (fits_sized N), Hf|lia|lia|unfold len; lia|unfold len; lia|lia].
  - intros j Hj. destruct (Hcell j Hj) as [a Ha]. exists (VFloat a). auto.
  - intros (j & s & Hj & Hs). destruct (Hcell j) as [a [Ha _]]; [lia|]. congruence.
  - intros (j & s & Hj & Hs & _). destruct (Hcell j) as [a [Ha _]]; [lia|]. congruence.
Qed.

(** ** One token *)

Lemma plainToken_operator s t :
  plainToken (VString s) = true -> arity s = Some t -> In s numericOps.
Proof.
  intros H Har. cbn [plainToken] in H. unfold isOperator in H. rewrite Har in H.
  cbn [negb orb] in H. apply existsb_exists in H as (x & Hin & Hx).
  apply String.eqb_eq in Hx. now subst.
Qed.

Lemma numericOps_plain s : In s numericOps -> plainToken (VString s) = true.
Proof.
  intros H. cbn [plainToken]. apply orb_true_iff. right.
  apply existsb_exists. exists s. split; [exact H|apply String.eqb_refl].
Qed.

(** A string token while no time is substituted. *)
Lemma simplifyToken_string env c e tokIdx s :
  performTimeSubstitutions e = false ->
  match arity s with
  | Some t => simplifyToken env c noTime e tokIdx (VString s) = operator env c s t e
  | None =>
      match resolved env c (secondsPerInterval e) s with
      | Some v =>
          exists ob,
            simplifyToken env c noTime e tokIdx (VString s)
            = push (withOpenBindings e ob) v (isFloat64 v)
      | None =>
          simplifyToken env c noTime e tokIdx (VString s)
          = Err (ErrSyntax "empty token" []) e
      end
  end.
Proof.
  intros Hpt. destruct (arity s) as [t|] eqn:Har.
  { now apply simplifyToken_operator. }
  unfold simplifyToken.
  repeat match goal with
         | |- context [String.eqb s ?r] =>
             destruct (String.eqb_spec s r) as [->|?];
             [first
                [ reflexivity
                | cbv [resolved String.eqb Ascii.eqb Bool.eqb isTimeName orb assoc
                       constantsAt];
                  unfold pushTime, pushConst; cbn [isTimeSet noTime]; rewrite ?Hpt;
                  first [ exists (openBindings e); destruct e; reflexivity
                        | eexists; unfold incOpen; reflexivity ] ]|]
         end.
  unfold resolved.
  destruct (String.eqb_spec s "") as [?|_]; [congruence|].
  assert (Htime : isTimeName s = false).
  { unfold isTimeName.
    repeat match goal with
           | |- context [String.eqb s ?r] =>
               destruct (String.eqb_spec s r) as [?|_]; [congruence|]
           end. reflexivity. }
  rewrite Htime.
  assert (Hconst : assoc s (constantsAt (secondsPerInterval e)) = None).
  { unfold constantsAt, assoc.
    repeat match goal with
           | |- context [String.eqb ?r s] =>
               destruct (String.eqb_spec r s) as [?|_]; [congruence|]
           end. reflexivity. }
  rewrite Hconst. unfold isOperator. rewrite Har.
  destruct (ParseFloat env s).
  - exists (openBindings e). destruct e; reflexivity.
  - destruct (c !! s) as [[v|l]|].
    + exists (openBindings e). destruct e; reflexivity.
    + eexists. unfold incOpen. reflexivity.
    + eexists. unfold incOpen. reflexivity.
Qed.

Lemma resolved_shape env c spi s v :
  resolved env c spi s = Some v ->
  isOperator s = false /\ ((exists f, v = VFloat f) \/ v = VString s).
Proof.
  unfold resolved. destruct (String.eqb_spec s "") as [?|Hne]; [discriminate|].
  destruct (isTimeName s) eqn:Ht.
  { intros [= <-]. split; [|now right].
    unfold isTimeName in Ht.
    repeat (apply orb_true_iff in Ht as [Ht|Ht]);
      apply String.eqb_eq in Ht; subst; reflexivity. }
  destruct (assoc s (constantsAt spi)) as [f|] eqn:Hc.
  { intros [= <-]. split; [|left; eauto].
    unfold constantsAt, assoc in Hc.
    repeat match type of Hc with
           | context [String.eqb ?r s] =>
               destruct (String.eqb_spec r s) as [<-|_]; [reflexivity|]
           end. discriminate. }
  destruct (isOperator s); [discriminate|].
  destruct (ParseFloat env s); [intros [= <-]; split; [reflexivity|left; eauto]|].
  destruct (c !! s) as [[x|l]|]; intros [= <-]; split; try reflexivity; eauto.
Qed.

(** One token of a plain program: the head rises by one at most. *)
Lemma step_fits env c e tokIdx tok e' N :
  plainToken tok = true -> fits N e -> performTimeSubstitutions e = false ->
  simplifyToken env c noTime e tokIdx tok = Ok e' ->
  fits N e' /\ scratchHead e' <= scratchHead e + 1.
Proof.
  intros Hp Hf Hpt H.
  assert (Hpush : forall x ob v fl, push (withOpenBindings e ob) v fl = Ok x ->
            fits N x /\ scratchHead x <= scratchHead e + 1).
  { intros x ob v fl Hx. apply push_Ok in Hx as (-> & H1 & H2).
    pose proof Hf as (F1 & F2 & F3 & F4).
    cbn [withOpenBindings scratchHead scratch isFloat] in H1, H2. unfold len in *.
    split.
    - apply fits_pushed; [apply fits_openBindings, Hf|cbn [withOpenBindings scratchHead]; lia].
    - cbn [pushed withOpenBindings scratchHead withHead]. lia. }
  destruct tok as [|f|s|n]; try discriminate.
  - cbn [simplifyToken] in H.
    apply (Hpush e' (openBindings e) (VFloat f) true).
    destruct e; exact H.
  - pose proof (simplifyToken_string env c e tokIdx s Hpt) as Hs.
    destruct (arity s) as [t|] eqn:Har.
    + rewrite Hs in H. pose proof (plainToken_operator s t Hp Har) as Hin.
      destruct (operator_outcome env c s t e e' N Hin Har Hf H) as (Hk & [[-> Hr]|[v ->]]).
      * split; [now apply fits_pushed|cbn [pushed scratchHead withHead]; lia].
      * split; [now apply fits_replaceTop|cbn [replaceTop scratchHead withHead]; lia].
    + destruct (resolved env c (secondsPerInterval e) s) as [v|].
      * destruct Hs as [ob Hs]. rewrite Hs in H. eapply Hpush; eauto.
      * rewrite Hs in H. discriminate.
Qed.

(** One token does the same to receivers that are alike when the bindings
    resolve it alike. *)
Lemma step_alike env c c' e e' i i' tok N :
  plainToken tok = true -> alike e e' -> fits N e ->
  performTimeSubstitutions e = false ->
  (forall s, tok = VString s ->
     resolved env c (secondsPerInterval e) s = resolved env c' (secondsPerInterval e) s) ->
  alikeR (simplifyToken env c noTime e i tok) (simplifyToken env c' noTime e' i' tok).
Proof.
  intros Hp Ha Hf Hpt Hres.
  pose proof Ha as (A1 & A2 & A3 & A4 & A5 & A6).
  destruct tok as [|f|s|n]; try discriminate.
  - cbn [simplifyToken]. now apply push_alike.
  - pose proof (simplifyToken_string env c e i s Hpt) as Hs.
    pose proof (simplifyToken_string env c' e' i' s ltac:(congruence)) as Hs'.
    destruct (arity s) as [t|] eqn:Har.
    + rewrite Hs, Hs'. eapply operator_alike; eauto.
      eapply plainToken_operator; eauto.
    + rewrite <- A1, <- (Hres s eq_refl) in Hs'.
      destruct (resolved env c (secondsPerInterval e) s) as [v|].
      * destruct Hs as [ob ->]. destruct Hs' as [ob' ->].
        apply push_alike.
        eapply alike_trans; [apply alike_openBindings|].
        eapply alike_trans; [exact Ha|]. apply alike_sym, alike_openBindings.
      * rewrite Hs, Hs'. exact I.
Qed.

(** ** The items of the stack as a program *)

Lemma stackOf_pushed N e v fl :
  fits N e -> scratchHead e < Z.of_nat N ->
  stackOf (pushed e v fl) = (stackOf e ++ [v])%list.
Proof.
  intros (F1 & F2 & F3 & F4) H. unfold stackOf, pushed.
  cbn [scratchHead scratch withHead withIsFloat withScratch].
  replace (Z.to_nat (scratchHead e + 1)) with (Datatypes.S (Z.to_nat (scratchHead e)))
    by lia.
  rewrite (take_S_r _ _ v).
  - rewrite take_insert_ge by lia. reflexivity.
  - apply list_lookup_insert_eq. lia.
Qed.

Lemma stackOf_replaceTop N k e v :
  fits N e -> 1 <= k <= scratchHead e ->
  stackOf (replaceTop k e v)
  = (take (Z.to_nat (scratchHead e - k)) (stackOf e) ++ [v])%list.
Proof.
  intros (F1 & F2 & F3 & F4) H. unfold stackOf, replaceTop.
  cbn [scratchHead scratch withHead withIsFloat withScratch].
  replace (Z.to_nat (scratchHead e - k + 1))
    with (Datatypes.S (Z.to_nat (scratchHead e - k))) by lia.
  rewrite (take_S_r _ _ v).
  - rewrite take_insert_ge by lia. rewrite take_take.
    replace (Nat.min (Z.to_nat (scratchHead e - k)) (Z.to_nat (scratchHead e)))
      with (Z.to_nat (scratchHead e - k)) by lia.
    reflexivity.
  - apply list_lookup_insert_eq. lia.
Qed.

Lemma stackOf_lookup e (i : nat) v :
  stackOf e !! i = Some v ->
  0 <= Z.of_nat i < scratchHead e /\ zindex (scratch e) (Z.of_nat i) = Some v.
Proof.
  unfold stackOf. intros H. apply lookup_take_Some in H as [H Hi].
  split; [lia|]. unfold zindex. destruct (Z.ltb_spec (Z.of_nat i) 0); [lia|].
  now rewrite Nat2Z.id.
Qed.

Lemma stackOf_length N e : fits N e -> len (stackOf e) = scratchHead e.
Proof.
  intros (F1 & F2 & F3 & F4). unfold stackOf, len. rewrite length_take. lia.
Qed.

Lemma tidy_plain e :
  tidy e -> Forall (fun v => plainToken v = true) (stackOf e).
Proof.
  intros Ht. apply Forall_lookup. intros i v Hi.
  apply stackOf_lookup in Hi as [Hi Hv].
  destruct (Ht _ Hi) as (v' & [Hv' _] & Hp). congruence.
Qed.

Lemma tidy_pushed N e v fl :
  fits N e -> scratchHead e < Z.of_nat N -> tidy e ->
  plainToken v = true -> fl = isFloat64 v -> tidy (pushed e v fl).
Proof.
  intros (F1 & F2 & F3 & F4) H Ht Hp ->. unfold tidy, pushed, holds.
  cbn [scratchHead scratch isFloat withHead withIsFloat withScratch].
  intros j Hj. rewrite !zindex_insert by lia. unfold len.
  destruct (Z.eqb_spec j (scratchHead e)) as [->|Hne]; cbn [andb].
  - destruct (Z.ltb_spec (scratchHead e) (Z.of_nat (length (scratch e)))); [|lia].
    destruct (Z.ltb_spec (scratchHead e) (Z.of_nat (length (isFloat e)))); [|lia].
    exists v. auto.
  - apply Ht. lia.
Qed.

Lemma tidy_replaceTop N k e v :
  fits N e -> 1 <= k <= scratchHead e -> tidy e ->
  plainToken v = true -> tidy (replaceTop k e v).
Proof.
  intros (F1 & F2 & F3 & F4) H Ht Hp. unfold tidy, replaceTop, holds.
  cbn [scratchHead scratch isFloat withHead withIsFloat withScratch].
  intros j Hj. rewrite !zindex_insert by lia. unfold len.
  destruct (Z.eqb_spec j (scratchHead e - k)) as [->|Hne]; cbn [andb].
  - destruct (Z.ltb_spec (scratchHead e - k) (Z.of_nat (length (scratch e)))); [|lia].
    destruct (Z.ltb_spec (scratchHead e - k) (Z.of_nat (length (isFloat e)))); [|lia].
    exists v. auto.
  - apply Ht. lia.
Qed.

Lemma tidy_openBindings e ob : tidy e -> tidy (withOpenBindings e ob).
Proof. exact (fun H => H). Qed.

(** ** Runs *)

Lemma bind_Ok_r {A : Type} (m : result A) : bind m (fun a => Ok a) = m.
Proof. destruct m; reflexivity. Qed.

Lemma bind_assoc {A B C : Type} (m : result A) (f : A -> result B) (g : B -> result C) :
  bind (bind m f) g = bind m (fun a => bind (f a) g).
Proof. destruct m; reflexivity. Qed.

Lemma simplifyLoop_one env c tc tok i e :
  simplifyLoop env c tc [tok] i e = simplifyToken env c tc e i tok.
Proof. cbn [simplifyLoop]. apply bind_Ok_r. Qed.

Lemma step_config env c tc e i tok e' :
  simplifyToken env c tc e i tok = Ok e' ->
  secondsPerInterval e' = secondsPerInterval e
  /\ performTimeSubstitutions e' = performTimeSubstitutions e.
Proof.
  intros H. pose proof (framed_simplifyToken env c tc e i tok) as Hf.
  rewrite H in Hf. cbn in Hf. unfold sameConfig, config in Hf.
  injection Hf as _ -> _ -> _. auto.
Qed.

Section Runs.

Variable env : Env.
Variable N : nat.

(** A run over a plain program: the head rises by the number of its
    tokens at most. *)
Lemma run_bounds c : forall L idx x0 x,
  Forall (fun v => plainToken v = true) L ->
  fits N x0 -> performTimeSubstitutions x0 = false ->
  simplifyLoop env c noTime L idx x0 = Ok x ->
  fits N x /\ scratchHead x <= scratchHead x0 + len L
  /\ performTimeSubstitutions x = false
  /\ secondsPerInterval x = secondsPerInterval x0.
Proof.
  induction L as [|tok L IH]; intros idx x0 x HL Hf Hpt H.
  - cbn in H. injection H as <-. unfold len. cbn [length].
    split; [exact Hf|]. split; [lia|]. auto.
  - inversion HL as [|? ? Htok HL']; subst. cbn [simplifyLoop] in H.
    destruct (simplifyToken env c noTime x0 idx tok) as [x1| |] eqn:Hs;
      cbn [bind] in H; try discriminate.
    destruct (step_fits env c x0 idx tok x1 N Htok Hf Hpt Hs) as [Hf1 Hh1].
    destruct (step_config _ _ _ _ _ _ _ Hs) as [Hspi Hpts].
    destruct (IH (idx + 1) x1 x HL' Hf1 ltac:(congruence) H) as (G1 & G2 & G3 & G4).
    unfold len in *. cbn [length].
    split; [exact G1|]. split; [lia|]. split; [exact G3|]. congruence.
Qed.

(** A run over numbers pushes them. *)
Lemma run_floats c tc : forall T idx x0,
  Forall (fun v => isFloat64 v = true) T ->
  fits N x0 -> scratchHead x0 + len T <= Z.of_nat N ->
  exists x,
    simplifyLoop env c tc T idx x0 = Ok x
    /\ fits N x /\ scratchHead x = scratchHead x0 + len T
    /\ secondsPerInterval x = secondsPerInterval x0
    /\ performTimeSubstitutions x = performTimeSubstitutions x0
    /\ (forall j, 0 <= j < scratchHead x0 ->
          zindex (scratch x) j = zindex (scratch x0) j
          /\ zindex (isFloat x) j = zindex (isFloat x0) j)
    /\ (forall (i : nat) v, T !! i = Some v ->
          holds x (scratchHead x0 + Z.of_nat i) v true).
Proof.
  induction T as [|tok T IH]; intros idx x0 HT Hf Hroom.
  - exists x0. unfold len. cbn [length simplifyLoop].
    split; [reflexivity|]. split; [exact Hf|]. split; [lia|].
    split; [reflexivity|]. split; [reflexivity|]. split; [auto|].
    intros i v Hi. discriminate.
  - inversion HT as [|? ? Htok HT']; subst.
    destruct tok as [|a|s|n]; try discriminate.
    pose proof Hf as (F1 & F2 & F3 & F4).
    unfold len in Hroom. cbn [length] in Hroom.
    cbn [simplifyLoop simplifyToken].
    rewrite push_pushed by (unfold len; lia). cbn [bind].
    destruct (IH (idx + 1) (pushed x0 (VFloat a) true) HT') as
      (x & Hrun & G1 & G2 & G3 & G4 & G5 & G6).
    { apply fits_pushed; [exact Hf|lia]. }
    { cbn [pushed scratchHead withHead]. unfold len. lia. }
    exists x. cbn [pushed scratchHead withHead secondsPerInterval
                   performTimeSubstitutions withIsFloat withScratch] in G2, G3, G4.
    unfold len in *. cbn [length].
    split; [exact Hrun|]. split; [exact G1|]. split; [lia|].
    split; [exact G3|]. split; [exact G4|]. split.
    + intros j Hj.
      destruct (G5 j) as [H1 H2]; [cbn [pushed scratchHead withHead]; lia|].
      rewrite H1, H2. unfold pushed.
      cbn [scratch isFloat withHead withIsFloat withScratch].
      rewrite !zindex_insert by lia.
      destruct (Z.eqb_spec j (scratchHead x0)); [lia|]. cbn [andb]. auto.
    + intros i v Hi. destruct i as [|i]; cbn in Hi.
      * injection Hi as <-. replace (scratchHead x0 + Z.of_nat 0) with (scratchHead x0) by lia.
        destruct (G5 (scratchHead x0)) as [H1 H2]; [cbn [pushed scratchHead withHead]; lia|].
        unfold holds. rewrite H1, H2. unfold pushed.
        cbn [scratch isFloat withHead withIsFloat withScratch].
        rewrite !zindex_insert by lia. unfold len.
        rewrite Z.eqb_refl. cbn [andb].
        destruct (Z.ltb_spec (scratchHead x0) (Z.of_nat (length (scratch x0)))); [|lia].
        destruct (Z.ltb_spec (scratchHead x0) (Z.of_nat (length (isFloat x0)))); [|lia].
        auto.
      * specialize (G6 i v Hi). cbn [pushed scratchHead withHead] in G6.
        replace (scratchHead x0 + Z.of_nat (Datatypes.S i))
          with (scratchHead x0 + 1 + Z.of_nat i) by lia. exact G6.
Qed.

End Runs.

Lemma resolved_operator env c spi s :
  isOperator s = true -> resolved env c spi s = None.
Proof.
  intros H. destruct (resolved env c spi s) as [v|] eqn:Hr; [|reflexivity].
  apply resolved_shape in Hr as [Hr _]. congruence.
Qed.

Lemma holds_numbersOnTop e k :
  (forall c, 0 <= c < k -> exists a, holds e (scratchHead e - k + c) (VFloat a) true) ->
  numbersOnTop e k = true.
Proof.
  intros H. unfold numbersOnTop. apply forallb_forall. intros c Hc.
  apply in_seq in Hc. destruct (H (Z.of_nat c)) as (a & H1 & H2); [lia|].
  now rewrite H1, H2.
Qed.

Lemma alikeR_fails {r : result Expression} (u : result Expression) :
  (forall x, r <> Ok x) -> alikeR r u -> forall x, u <> Ok x.
Proof.
  intros Hr H x ->. destruct r as [y| |]; [now apply (Hr y)|exact H|exact H].
Qed.

(** ** Partial in two steps and in one *)

Section Composition.

Variable env : Env.
Variables c1 c2 cu : gmap string binding.
Variable N : nat.
(* where the second Partial starts *)
Variable S' : Expression.

Hypothesis Hresolve : forall spi s v,
  resolved env c1 spi s = Some v ->
  resolved env cu spi s
  = match v with VFloat f => Some (VFloat f) | _ => resolved env c2 spi s end.
Hypothesis HS'0 : scratchHead S' = 0.
Hypothesis HS'f : fits N S'.
Hypothesis HS'p : performTimeSubstitutions S' = false.

Lemma push_case t idx E1 E1n ob v U :
  fits N E1 -> tidy E1 -> scratchHead E1 < Z.of_nat N ->
  plainToken v = true ->
  push (withOpenBindings E1 ob) v (isFloat64 v) = Ok E1n ->
  (forall x u j, alike x u -> fits N x -> performTimeSubstitutions x = false ->
     secondsPerInterval u = secondsPerInterval E1 ->
     alikeR (simplifyToken env c2 noTime x j v) (simplifyToken env cu noTime u idx t)) ->
  alikeR (simplifyLoop env c2 noTime (stackOf E1) 0 S') U ->
  (forall u, U = Ok u -> secondsPerInterval u = secondsPerInterval E1) ->
  alikeR (simplifyLoop env c2 noTime (stackOf E1n) 0 S')
    (bind U (fun u => simplifyToken env cu noTime u idx t))
  /\ fits N E1n /\ tidy E1n /\ scratchHead E1n = scratchHead E1 + 1.
Proof.
  intros Hf Ht Hroom Hp Hpush Hstep HX HU.
  apply push_Ok in Hpush as (-> & _ & _).
  assert (Hst : stackOf (pushed (withOpenBindings E1 ob) v (isFloat64 v))
                = (stackOf E1 ++ [v])%list)
    by (rewrite (stackOf_pushed N); [reflexivity|exact Hf|exact Hroom]).
  split; [|split; [|split]].
  - rewrite Hst, simplifyLoop_app.
    destruct (simplifyLoop env c2 noTime (stackOf E1) 0 S') as [x| |] eqn:Hx.
    + destruct U as [u| |]; try contradiction. cbn [alikeR] in HX. cbn [bind].
      rewrite simplifyLoop_one.
      destruct (run_bounds env N c2 _ _ _ _ (tidy_plain E1 Ht) HS'f HS'p Hx)
        as (G1 & G2 & G3 & G4).
      apply Hstep; auto.
    + destruct U as [u| |]; try contradiction; exact I.
    + destruct U as [u| |]; try contradiction; exact I.
  - apply fits_pushed; [exact Hf|exact Hroom].
  - apply (tidy_pushed N); auto.
  - reflexivity.
Qed.

Lemma fold_case s t idx E1 E1n U :
  In s numericOps -> arity s = Some t ->
  fits N E1 -> tidy E1 ->
  numbersOnTop E1 (popCount t) = true -> popCount t <= scratchHead E1 ->
  operator env c1 s t E1 = Ok E1n ->
  alikeR (simplifyLoop env c2 noTime (stackOf E1) 0 S') U ->
  (forall u, U = Ok u -> performTimeSubstitutions u = false /\ fits N u) ->
  alikeR (simplifyLoop env c2 noTime (stackOf E1n) 0 S')
    (bind U (fun u => simplifyToken env cu noTime u idx (VString s)))
  /\ fits N E1n /\ tidy E1n /\ scratchHead E1n <= scratchHead E1.
Proof.
  intros Hin Har Hf Ht Hnum Hpop Hop HX HU.
  destruct (numericOps_arity s Hin) as (t' & Har' & Hk).
  rewrite Har in Har'. injection Har' as <-.
  destruct (numeric_fold env c1 s t E1 N Hin Har Hf Hpop Hnum) as (r & Hcase & Hop').
  rewrite Hop' in Hop. injection Hop as <-.
  pose proof Hf as (F1 & F2 & F3 & F4).
  pose proof (numbersOnTop_holds E1 _ Hnum) as Hcells.
  set (k := popCount t) in *. set (h := scratchHead E1) in *.
  split; [|split; [|split]].
  2:{ apply fits_replaceTop; [exact Hf|fold h; lia]. }
  2:{ apply (tidy_replaceTop N); auto. fold h. lia. }
  2:{ cbn [replaceTop scratchHead withHead]. fold h. lia. }
  rewrite (stackOf_replaceTop N) by (auto; fold h; lia). fold h.
  set (R0 := take (Z.to_nat (h - k)) (stackOf E1)).
  set (T := drop (Z.to_nat (h - k)) (stackOf E1)).
  assert (Hsplit : stackOf E1 = (R0 ++ T)%list) by (symmetry; apply take_drop).
  assert (HlenS : length (stackOf E1) = Z.to_nat h).
  { pose proof (stackOf_length N E1 Hf) as Hl. unfold len in Hl. fold h in Hl. lia. }
  assert (HlenR : len R0 = h - k).
  { unfold len, R0. rewrite length_take. lia. }
  assert (HlenT : len T = k).
  { unfold len, T. rewrite length_drop. lia. }
  assert (HT : forall (i : nat) v, T !! i = Some v ->
            exists a, v = VFloat a /\ holds E1 (h - k + Z.of_nat i) (VFloat a) true).
  { intros i v Hi. unfold T in Hi. rewrite lookup_drop in Hi.
    apply stackOf_lookup in Hi as [Hi Hv].
    destruct (Hcells (Z.of_nat i)) as (a & Ha1 & Ha2).
    { fold h in Hi. lia. }
    fold h k in Ha1, Ha2.
    replace (Z.of_nat (Z.to_nat (h - k) + i)) with (h - k + Z.of_nat i) in Hv by lia.
    exists a. split; [congruence|]. split; assumption. }
  assert (HTf : Forall (fun v => isFloat64 v = true) T).
  { apply Forall_lookup. intros i v Hi. destruct (HT i v Hi) as (a & -> & _). reflexivity. }
  assert (HR0 : Forall (fun v => plainToken v = true) R0).
  { unfold R0. apply Forall_take, tidy_plain, Ht. }
  rewrite Hsplit in HX. rewrite simplifyLoop_app in HX. rewrite simplifyLoop_app.
  destruct (simplifyLoop env c2 noTime R0 0 S') as [x0| |] eqn:Hx0; cbn [bind] in *.
  2:{ destruct U as [u| |]; try contradiction; exact I. }
  2:{ destruct U as [u| |]; try contradiction; exact I. }
  destruct (run_bounds env N c2 _ _ _ _ HR0 HS'f HS'p Hx0) as (G1 & G2 & G3 & G4).
  rewrite HS'0, HlenR in G2.
  destruct (run_floats env N c2 noTime T (0 + len R0) x0 HTf G1) as
    (x & Hx & X1 & X2 & X3 & X4 & X5 & X6); [lia|].
  rewrite Hx in HX. rewrite HlenT in X2.
  destruct U as [u| |]; try contradiction. cbn [alikeR] in HX. cbn [bind].
  destruct (HU u eq_refl) as (Up & Uf).
  pose proof HX as (A1 & A2 & A3 & A4 & A5 & A6).
  pose proof G1 as (g1 & g2 & g3 & g4).
  (* the operands of the one-step run *)
  assert (Hu : forall c, 0 <= c < k ->
            exists a, holds E1 (h - k + c) (VFloat a) true
                      /\ holds u (scratchHead u - k + c) (VFloat a) true).
  { intros c Hc. destruct (lookup_lt_is_Some_2 T (Z.to_nat c)) as [v Hv].
    { unfold len in HlenT. lia. }
    destruct (HT _ _ Hv) as (a & -> & Ha). rewrite Z2Nat.id in Ha by lia.
    exists a. split; [exact Ha|].
    pose proof (X6 _ _ Hv) as [Hx1 Hx2]. rewrite Z2Nat.id in Hx1, Hx2 by lia.
    destruct (A6 (scratchHead x0 + c)) as [B1 B2]; [lia|].
    rewrite <- A3, X2.
    replace (scratchHead x0 + k - k + c) with (scratchHead x0 + c) by lia.
    split; congruence. }
  rewrite (simplifyToken_operator env cu noTime u idx s t Har).
  destruct (numeric_fold env cu s t u N Hin Har Uf) as (r' & Hcase' & Hop'u).
  { fold k. lia. }
  { apply holds_numbersOnTop. intros c Hc. destruct (Hu c Hc) as (a & _ & Ha). eauto. }
  assert (Hsame : operatorCase env c1 s t E1 (h - k)
                  = operatorCase env cu s t u (scratchHead u - k)).
  { apply case_local; auto. intros c Hc. destruct (Hu c Hc) as (a & [H1 H2] & [H3 H4]).
    split; congruence. }
  fold k h in Hcase. fold k in Hcase'. rewrite Hcase, Hcase' in Hsame.
  injection Hsame as <-. rewrite Hop'u.
  rewrite simplifyLoop_one. cbn [simplifyToken].
  rewrite push_pushed by (unfold len; lia). cbn [alikeR].
  (* the two stacks *)
  fold k. unfold alike, pushed, replaceTop.
  cbn [secondsPerInterval performTimeSubstitutions scratchHead scratch isFloat
       withHead withIsFloat withScratch].
  rewrite !length_insert.
  assert (Hhu : scratchHead u - k = scratchHead x0) by lia.
  rewrite Hhu.
  split; [congruence|]. split; [congruence|]. split; [reflexivity|].
  split; [destruct Uf as (_ & ? & _); lia|].
  split; [destruct Uf as (_ & _ & ? & _); lia|].
  intros j Hj. rewrite !zindex_insert by lia.
  destruct Uf as (_ & U2 & U3 & _). unfold len. rewrite g2, g3, U2, U3.
  destruct (Z.eqb_spec j (scratchHead x0)) as [->|Hne]; cbn [andb].
  - destruct (Z.ltb_spec (scratchHead x0) (Z.of_nat N)); [auto|lia].
  - destruct (A6 j) as [B1 B2]; [lia|]. destruct (X5 j) as [C1 C2]; [lia|].
    split; congruence.
Qed.

(** One token of the first Partial, against the second Partial run on what
    the first has left so far and the single Partial run on the program. *)
Lemma sim_step t idx E1 E1n U :
  plainToken t = true ->
  simplifyToken env c1 noTime E1 idx t = Ok E1n ->
  match t with
  | VString s =>
      match arity s with
      | Some k =>
          (scratchHead E1 <? scratchHead E1n) || numbersOnTop E1 (popCount k) = true
      | None => True
      end
  | _ => True
  end ->
  fits N E1 -> tidy E1 -> performTimeSubstitutions E1 = false ->
  scratchHead E1 < Z.of_nat N ->
  alikeR (simplifyLoop env c2 noTime (stackOf E1) 0 S') U ->
  (forall u, U = Ok u ->
     secondsPerInterval u = secondsPerInterval E1
     /\ performTimeSubstitutions u = false /\ fits N u) ->
  alikeR (simplifyLoop env c2 noTime (stackOf E1n) 0 S')
    (bind U (fun u => simplifyToken env cu noTime u idx t))
  /\ fits N E1n /\ tidy E1n /\ scratchHead E1n <= scratchHead E1 + 1.
Proof.
  intros Hp Hstep Hok Hf Ht Hpt Hroom HX HU.
  assert (Hlift : forall E,
            alikeR (simplifyLoop env c2 noTime (stackOf E) 0 S')
              (bind U (fun u => simplifyToken env cu noTime u idx t))
            /\ fits N E /\ tidy E /\ scratchHead E = scratchHead E1 + 1 ->
            alikeR (simplifyLoop env c2 noTime (stackOf E) 0 S')
              (bind U (fun u => simplifyToken env cu noTime u idx t))
            /\ fits N E /\ tidy E /\ scratchHead E <= scratchHead E1 + 1).
  { intros E (H1 & H2 & H3 & H4). repeat split; auto; try apply H2. lia. }
  assert (HUs : forall u, U = Ok u -> secondsPerInterval u = secondsPerInterval E1)
    by (intros u Hu; apply (HU u Hu)).
  destruct t as [|f|s|n]; try discriminate.
  - (* a number *)
    cbn [simplifyToken] in Hstep.
    apply Hlift.
    refine (push_case (VFloat f) idx E1 E1n (openBindings E1) (VFloat f) U
              Hf Ht Hroom _ _ _ HX HUs).
    + reflexivity.
    + destruct E1; exact Hstep.
    + intros x u j Ha Hfx Hpx Hsu. cbn [simplifyToken]. now apply push_alike.
  - pose proof (simplifyToken_string env c1 E1 idx s Hpt) as Hs.
    destruct (arity s) as [t|] eqn:Har.
    + (* an operator *)
      rewrite Hs in Hstep. pose proof (plainToken_operator s t Hp Har) as Hin.
      destruct (operator_outcome env c1 s t E1 E1n N Hin Har Hf Hstep) as (Hk & Hout).
      destruct (numbersOnTop E1 (popCount t)) eqn:Hnum.
      * (* folded over numbers *)
        destruct (fold_case s t idx E1 E1n U)
          as (H1 & H2 & H3 & H4); auto; [lia|intros u Hu; apply (HU u Hu)|].
        repeat split; auto; try apply H2. lia.
      * (* pushed back *)
        rewrite orb_false_r in Hok. apply Z.ltb_lt in Hok.
        destruct Hout as [[-> _]|[v ->]].
        2:{ cbn [replaceTop scratchHead withHead] in Hok. lia. }
        apply Hlift.
        pose proof Hf as (F1 & F2 & F3 & F4).
        refine (push_case (VString s) idx E1 _ (openBindings E1) (VString s) U
                  Hf Ht Hroom _ _ _ HX HUs).
        -- exact Hp.
        -- cbn [isFloat64].
           replace (withOpenBindings E1 (openBindings E1)) with E1 by (destruct E1; reflexivity).
           apply push_pushed; unfold len; lia.
        -- intros x u j Ha Hfx Hpx Hsu.
           apply (step_alike env c2 cu x u j idx (VString s) N); auto.
           intros s0 [= <-].
           rewrite !resolved_operator; auto; unfold isOperator; now rewrite Har.
    + (* a name *)
      destruct (resolved env c1 (secondsPerInterval E1) s) as [v|] eqn:Hres.
      2:{ rewrite Hs in Hstep. discriminate. }
      destruct Hs as [ob Hs]. rewrite Hs in Hstep.
      pose proof (resolved_shape _ _ _ _ _ Hres) as [Hnop Hv].
      pose proof (Hresolve _ _ _ Hres) as Hu.
      apply Hlift.
      refine (push_case (VString s) idx E1 E1n ob v U Hf Ht Hroom _ _ _ HX HUs).
      * destruct Hv as [[f ->]| ->]; [reflexivity|].
        cbn [plainToken]. now rewrite Hnop.
      * exact Hstep.
      * intros x u j Ha Hfx Hpx Hsu.
        pose proof Ha as (A1 & A2 & A3 & A4 & A5 & A6).
        destruct Hv as [[f ->]| ->].
        -- (* resolved by the first bindings *)
           change (simplifyToken env c2 noTime x j (VFloat f)) with (push x (VFloat f) true).
           pose proof (simplifyToken_string env cu u idx s ltac:(congruence)) as Hsu'.
           rewrite Har, Hsu, Hu in Hsu'. destruct Hsu' as [ob' ->].
           apply push_alike.
           eapply alike_trans; [exact Ha|]. apply alike_sym, alike_openBindings.
        -- (* left to the second bindings *)
           apply (step_alike env c2 cu x u j idx (VString s) N); auto.
           intros s0 [= <-]. rewrite A1, Hsu. now rewrite Hu.
Qed.

(** The run of the first Partial, against the other two. *)
Lemma sim_run : forall P idx E1 E1' U,
  Forall (fun t => plainToken t = true) P ->
  simplifyLoop env c1 noTime P idx E1 = Ok E1' ->
  numericFolds env c1 P idx E1 = true ->
  fits N E1 -> tidy E1 -> performTimeSubstitutions E1 = false ->
  scratchHead E1 + len P <= Z.of_nat N ->
  alikeR (simplifyLoop env c2 noTime (stackOf E1) 0 S') U ->
  (forall u, U = Ok u ->
     secondsPerInterval u = secondsPerInterval E1
     /\ performTimeSubstitutions u = false /\ fits N u) ->
  alikeR (simplifyLoop env c2 noTime (stackOf E1') 0 S')
    (bind U (simplifyLoop env cu noTime P idx))
  /\ fits N E1' /\ tidy E1'.
Proof.
  induction P as [|t P IH]; intros idx E1 E1' U HP Hrun Hnum Hf Ht Hpt Hroom HX HU.
  - cbn in Hrun. injection Hrun as <-. cbn [simplifyLoop].
    rewrite bind_Ok_r. auto.
  - inversion HP as [|? ? Hpl HP']; subst.
    cbn [simplifyLoop] in Hrun. cbn [numericFolds] in Hnum.
    destruct (simplifyToken env c1 noTime E1 idx t) as [E1n| |] eqn:Hstep;
      cbn [bind] in Hrun; try discriminate.
    apply andb_true_iff in Hnum as [Hok Hnum].
    unfold len in Hroom. cbn [length] in Hroom.
    destruct (sim_step t idx E1 E1n U Hpl Hstep) as (H1 & H2 & H3 & H4); auto.
    { destruct t as [|f|s|n]; auto. destruct (arity s); auto. }
    { lia. }
    destruct (step_config _ _ _ _ _ _ _ Hstep) as [Hspi Hpts].
    destruct (IH (idx + 1) E1n E1'
                (bind U (fun u => simplifyToken env cu noTime u idx t)))
      as (G1 & G2 & G3); auto.
    { congruence. }
    { unfold len. lia. }
    { intros u' Hu'. destruct U as [u| |]; cbn [bind] in Hu'; try discriminate.
      destruct (HU u eq_refl) as (U1 & U2 & U3).
      destruct (step_config _ _ _ _ _ _ _ Hu') as [Hspi' Hpts'].
      destruct (step_fits env cu u idx t u' N Hpl U3 U2 Hu') as [U4 _].
      repeat split; try congruence; apply U4. }
    split; [|auto].
    cbn [simplifyLoop]. rewrite bind_assoc in G1. exact G1.
Qed.

End Composition.

(** ** Bindings given in two steps *)

Lemma coerced_lookup (b : gmap string goval) (c : gmap string binding) :
  coerceMapValuesToFloat64 b = Coerced c ->
  (forall k, c !! k = b !! k ≫= coerceOne)
  /\ (forall k v, b !! k = Some v -> is_Some (coerceOne v)).
Proof.
  intros Hb. destruct (coerceMap_list b) as (Hrun & Hmap & Hin).
  pose proof (coerceList_spec (reverse (map_to_list b))) as Hspec.
  rewrite <- Hrun, Hb in Hspec. destruct Hspec as [H1 H2]. split.
  - intros k. rewrite H1, Hmap. reflexivity.
  - intros k v Hk. apply (H2 k). now apply Hin.
Qed.

Lemma coerced_exists (b : gmap string goval) :
  (forall k v, b !! k = Some v -> is_Some (coerceOne v)) ->
  exists c, coerceMapValuesToFloat64 b = Coerced c.
Proof.
  intros Hall. destruct (coerceMap_list b) as (Hrun & Hmap & Hin).
  pose proof (coerceList_spec (reverse (map_to_list b))) as Hspec.
  rewrite <- Hrun in Hspec.
  destruct (coerceMapValuesToFloat64 b) as [c|err|p]; [eauto|..].
  - destruct Hspec as (k & v & t & Hk & _ & Hn & _).
    apply Hin in Hk. destruct (Hall k v Hk) as [x Hx]. congruence.
  - destruct Hspec as (k & Hk & _). apply Hin in Hk.
    destruct (Hall k GoNil Hk) as [x Hx]. discriminate.
Qed.

Lemma coerced_fails (b : gmap string goval) :
  (forall c, coerceMapValuesToFloat64 b <> Coerced c) ->
  exists k v, b !! k = Some v /\ coerceOne v = None.
Proof.
  intros Hno. destruct (coerceMap_list b) as (Hrun & Hmap & Hin).
  pose proof (coerceList_spec (reverse (map_to_list b))) as Hspec.
  rewrite <- Hrun in Hspec.
  destruct (coerceMapValuesToFloat64 b) as [c|err|p]; [now destruct (Hno c)|..].
  - destruct Hspec as (k & v & t & Hk & _ & Hn & _). apply Hin in Hk. eauto.
  - destruct Hspec as (k & Hk & _). apply Hin in Hk. exists k, GoNil. auto.
Qed.

(** Bindings that agree where both bind: the union resolves a name as the
    first map does, and as the second where the first leaves it open. *)
Lemma resolved_union env (b1 b2 : gmap string goval) (c1 c2 cu : gmap string binding) :
  (forall k v1 v2, b1 !! k = Some v1 -> b2 !! k = Some v2 -> v1 = v2) ->
  coerceMapValuesToFloat64 b1 = Coerced c1 ->
  coerceMapValuesToFloat64 b2 = Coerced c2 ->
  coerceMapValuesToFloat64 (b1 ∪ b2) = Coerced cu ->
  forall spi s v,
    resolved env c1 spi s = Some v ->
    resolved env cu spi s
    = match v with VFloat f => Some (VFloat f) | _ => resolved env c2 spi s end.
Proof.
  intros Hag H1 H2 Hu spi s v.
  destruct (coerced_lookup _ _ H1) as [L1 _].
  destruct (coerced_lookup _ _ H2) as [L2 _].
  destruct (coerced_lookup _ _ Hu) as [Lu _].
  assert (Hcu : cu !! s = match c1 !! s with Some x => Some x | None => c2 !! s end).
  { rewrite Lu, L1, L2.
    destruct (b1 !! s) as [v1|] eqn:E1.
    - rewrite (lookup_union_Some_l b1 b2 s v1 E1). cbn.
      destruct (coerceOne v1) as [x|] eqn:Ex; [reflexivity|].
      destruct (b2 !! s) as [v2|] eqn:E2; [|reflexivity].
      rewrite <- (Hag s v1 v2 E1 E2). cbn. now rewrite Ex.
    - rewrite (lookup_union_r b1 b2 s E1). reflexivity. }
  assert (Hagree : forall l, c1 !! s = Some (BSeries l) ->
            match c2 !! s with Some (BFloat _) => False | _ => True end).
  { intros l Hl. rewrite L1 in Hl. rewrite L2.
    destruct (b1 !! s) as [v1|] eqn:E1; [|discriminate]. cbn in Hl.
    destruct (b2 !! s) as [v2|] eqn:E2; [|exact I].
    rewrite <- (Hag s v1 v2 E1 E2). cbn. now rewrite Hl. }
  unfold resolved.
  destruct (String.eqb s ""); [discriminate|].
  destruct (isTimeName s); [now intros [= <-]|].
  destruct (assoc s (constantsAt spi)); [now intros [= <-]|].
  destruct (isOperator s); [discriminate|].
  destruct (ParseFloat env s); [now intros [= <-]|].
  rewrite Hcu.
  destruct (c1 !! s) as [[x|l]|] eqn:E1.
  - now intros [= <-].
  - intros [= <-]. specialize (Hagree l eq_refl).
    destruct (c2 !! s) as [[y|l']|]; [destruct Hagree|reflexivity|reflexivity].
  - now intros [= <-].
Qed.

Lemma union_coerced (b1 b2 : gmap string goval) (c1 : gmap string binding) :
  (forall k v1 v2, b1 !! k = Some v1 -> b2 !! k = Some v2 -> v1 = v2) ->
  coerceMapValuesToFloat64 b1 = Coerced c1 ->
  match coerceMapValuesToFloat64 b2 with
  | Coerced _ => exists cu, coerceMapValuesToFloat64 (b1 ∪ b2) = Coerced cu
  | _ => forall cu, coerceMapValuesToFloat64 (b1 ∪ b2) <> Coerced cu
  end.
Proof.
  intros Hag H1. destruct (coerced_lookup _ _ H1) as [_ A1].
  assert (Hbad : (forall c, coerceMapValuesToFloat64 b2 <> Coerced c) ->
            forall cu, coerceMapValuesToFloat64 (b1 ∪ b2) <> Coerced cu).
  { intros Hno cu Hu. destruct (coerced_lookup _ _ Hu) as [_ Au].
    destruct (coerced_fails b2 Hno) as (k & v & Hk & Hv).
    destruct (b1 !! k) as [v1|] eqn:E1.
    - rewrite <- (Hag k v1 v E1 Hk) in Hv. destruct (A1 k v1 E1) as [x Hx]. congruence.
    - destruct (Au k v) as [x Hx]; [|congruence].
      rewrite (lookup_union_r b1 b2 k E1). exact Hk. }
  destruct (coerceMapValuesToFloat64 b2) as [c2|err|p] eqn:H2.
  - destruct (coerced_lookup _ _ H2) as [_ A2].
    apply coerced_exists. intros k v Hk.
    apply lookup_union_Some_raw in Hk as [Hk|[_ Hk]]; eauto.
  - apply Hbad. intros c. discriminate.
  - apply Hbad. intros c. discriminate.
Qed.

(** ** Partial, as a run *)

Lemma Partial_unfold env b e :
  Partial env b e
  = if scratchSize e <? 0 then Panic MakeSliceCap
    else
      match coerceMapValuesToFloat64 b with
      | CoerceErr err => Err err e
      | CoercePanic p => Panic p
      | Coerced c =>
          match simplifyLoop env c noTime (tokens e) 0 (fresh e) with
          | Err err _ => Err err e
          | Panic p => Panic p
          | Ok x =>
              if (0 <=? scratchHead x) && (scratchHead x <=? len (tokens x)) then
                let shrunk := take (Z.to_nat (scratchHead x)) (tokens x) in
                let k := Nat.min (length shrunk) (length (scratch x)) in
                Ok (withTokens
                      (withPerformTimeSubstitutions x (performTimeSubstitutions e))
                      (take k (scratch x) ++ drop k shrunk), e)
              else Panic SliceBounds
          end
      end.
Proof.
  unfold Partial, make, simplify. destruct (scratchSize e <? 0); [reflexivity|].
  cbn [bind]. destruct (coerceMapValuesToFloat64 b) as [c|err|p]; reflexivity.
Qed.

Lemma fresh_fits e :
  0 <= scratchSize e < 2 ^ 63 -> fits (Z.to_nat (scratchSize e)) (fresh e).
Proof.
  intros H. unfold fits, fresh. cbn [scratchHead scratch isFloat].
  rewrite !length_replicate. repeat split; lia.
Qed.

Lemma fresh_tidy e : tidy (fresh e).
Proof. intros j Hj. cbn [fresh scratchHead] in Hj. lia. Qed.

Lemma run_config env c toks idx e x :
  simplifyLoop env c noTime toks idx e = Ok x -> config x = config e.
Proof.
  intros H. pose proof (framed_simplifyLoop env c noTime toks idx e) as Hf.
  rewrite H in Hf. exact Hf.
Qed.

(** What Partial keeps of a run that ends within the program's length. *)
Lemma kept_tokens N x :
  fits N x -> scratchHead x <= len (tokens x) ->
  (let shrunk := take (Z.to_nat (scratchHead x)) (tokens x) in
   let k := Nat.min (length shrunk) (length (scratch x)) in
   take k (scratch x) ++ drop k shrunk)%list
  = stackOf x.
Proof.
  intros (F1 & F2 & F3 & F4) H. cbv zeta. unfold len in H.
  rewrite length_take.
  replace (Nat.min (Nat.min (Z.to_nat (scratchHead x)) (length (tokens x)))
             (length (scratch x)))
    with (Z.to_nat (scratchHead x)) by lia.
  rewrite drop_ge by (rewrite length_take; lia).
  rewrite app_nil_r. reflexivity.
Qed.

Lemma alike_stackOf N x u : alike x u -> fits N x -> stackOf x = stackOf u.
Proof.
  intros (A1 & A2 & A3 & A4 & A5 & A6) (F1 & F2 & F3 & F4). unfold stackOf.
  rewrite <- A3. apply list_eq. intros i.
  destruct (decide (i < Z.to_nat (scratchHead x))%nat) as [Hi|Hi].
  - rewrite !lookup_take_lt by lia.
    destruct (A6 (Z.of_nat i)) as [B _]; [lia|]. unfold zindex in B.
    destruct (Z.ltb_spec (Z.of_nat i) 0); [lia|]. now rewrite Nat2Z.id in B.
  - rewrite !lookup_take_ge by lia. reflexivity.
Qed.

(** C6, amended. Take a program made of numbers, names and the numeric
    operators of fixed arity, and bindings b1 and b2 that agree on the
    names both bind. If Partial with b1 succeeds and every operator it
    folds has numbers for all its operands, then Partial of its result
    with b2 and Partial of the program with the union of b1 and b2 both
    fail, or return Expressions with the same tokens and the same
    rendering. In particular Partial of the result with b1 again returns
    the tokens of the result. *)
Theorem Partial_composes
    (env : Env) (b1 b2 : gmap string goval) (e e1 r : Expression) :
  forallb plainToken (tokens e) = true ->
  len (tokens e) <= scratchSize e -> scratchSize e < 2 ^ 63 ->
  (forall k v1 v2, b1 !! k = Some v1 -> b2 !! k = Some v2 -> v1 = v2) ->
  Partial env b1 e = Ok (e1, r) ->
  foldsOnlyNumbers env b1 e = true ->
  sameResidual env (Partial env b2 e1) (Partial env (b1 ∪ b2) e)
  /\ sameResidual env (Partial env b1 e1) (Ok (e1, e1)).
Proof.
  intros Hplain Hsize Hmax Hagree H1 Hnum.
  assert (Hsz : 0 <= scratchSize e < 2 ^ 63) by (unfold len in Hsize; lia).
  set (N := Z.to_nat (scratchSize e)).
  (* the first Partial *)
  rewrite Partial_unfold in H1.
  destruct (Z.ltb_spec (scratchSize e) 0); [lia|].
  unfold foldsOnlyNumbers in Hnum.
  destruct (coerceMapValuesToFloat64 b1) as [c1| |] eqn:Hc1; try discriminate.
  destruct (simplifyLoop env c1 noTime (tokens e) 0 (fresh e)) as [E1| |] eqn:Hrun1;
    try discriminate.
  pose proof (run_config _ _ _ _ _ _ Hrun1) as Hcfg1.
  unfold config in Hcfg1. cbn [fresh delimiter secondsPerInterval tokens
    performTimeSubstitutions scratchSize] in Hcfg1.
  injection Hcfg1 as Hd1 Hspi1 Htok1 Hpt1 Hss1.
  destruct (Z.leb_spec 0 (scratchHead E1)); cbn [andb] in H1; [|discriminate].
  destruct (Z.leb_spec (scratchHead E1) (len (tokens E1))); [|discriminate].
  injection H1 as He1 _.
  rewrite forallb_forall in Hplain.
  assert (HplainS : Forall (fun t => plainToken t = true) (tokens e))
    by (apply Forall_forall; intros x Hx; apply Hplain; now apply list_elem_of_In).
  (* what is common to any second map that agrees with the first *)
  assert (Hmain : forall b,
            (forall k v1 v2, b1 !! k = Some v1 -> b !! k = Some v2 -> v1 = v2) ->
            sameResidual env (Partial env b e1) (Partial env (b1 ∪ b) e)).
  { intros b Hag.
    pose proof (union_coerced b1 b c1 Hag Hc1) as Hu.
    rewrite !Partial_unfold.
    assert (Hss : scratchSize e1 = scratchSize e) by (rewrite <- He1; exact Hss1).
    rewrite Hss. destruct (Z.ltb_spec (scratchSize e) 0); [lia|].
    destruct (coerceMapValuesToFloat64 b) as [c2|err|p] eqn:Hc2.
    2:{ destruct (coerceMapValuesToFloat64 (b1 ∪ b)) as [cu| |]; [now destruct (Hu cu)|exact I|exact I]. }
    2:{ destruct (coerceMapValuesToFloat64 (b1 ∪ b)) as [cu| |]; [now destruct (Hu cu)|exact I|exact I]. }
    destruct Hu as [cu Hcu]. rewrite Hcu.
    pose proof (resolved_union env b1 b c1 c2 cu Hag Hc1 Hc2 Hcu) as Hres.
    assert (Hfit1 : fits N E1 /\ tidy E1).
    { destruct (sim_run env c1 c1 c1 N (fresh e)
                  ltac:(intros spi s v Hv; rewrite Hv; destruct v; reflexivity)
                  eq_refl (fresh_fits e Hsz) eq_refl
                  (tokens e) 0 (fresh e) E1 (Ok (fresh e)))
        as (_ & G2 & G3); auto.
      - apply fresh_fits, Hsz.
      - apply fresh_tidy.
      - cbn [fresh scratchHead]. unfold N. lia.
      - change (stackOf (fresh e)) with (@nil value). cbn [simplifyLoop alikeR].
        apply alike_refl.
      - intros u [= <-]. split; [reflexivity|]. split; [reflexivity|].
        apply fresh_fits, Hsz. }
    destruct Hfit1 as [Hfit1 Htidy1].
    assert (Htok_e1 : tokens e1 = stackOf E1).
    { rewrite <- He1. cbn [withTokens tokens]. apply (kept_tokens N); auto. }
    assert (HS' : fits N (fresh e1)).
    { unfold N. rewrite <- Hss. apply fresh_fits. lia. }
    destruct (sim_run env c1 c2 cu N (fresh e1) Hres eq_refl HS' eq_refl
                (tokens e) 0 (fresh e) E1 (Ok (fresh e)))
      as (Hsim & _ & _); auto.
    { apply fresh_fits, Hsz. }
    { apply fresh_tidy. }
    { cbn [fresh scratchHead]. unfold N. lia. }
    { change (stackOf (fresh e)) with (@nil value). cbn [simplifyLoop alikeR].
      unfold alike. cbn [fresh secondsPerInterval performTimeSubstitutions scratchHead
                         scratch isFloat].
      rewrite !length_replicate, Hss.
      assert (Hspi : secondsPerInterval e1 = secondsPerInterval e)
        by (rewrite <- He1; exact Hspi1).
      repeat split; auto. }
    { intros u [= <-]. split; [reflexivity|]. split; [reflexivity|].
      apply fresh_fits, Hsz. }
    cbn [bind] in Hsim. rewrite Htok_e1.
    destruct (simplifyLoop env c2 noTime (stackOf E1) 0 (fresh e1)) as [x| |] eqn:Hx;
      destruct (simplifyLoop env cu noTime (tokens e) 0 (fresh e)) as [u| |] eqn:Hu';
      try contradiction; try exact I.
    cbn [alikeR] in Hsim.
    destruct (run_bounds env N c2 _ _ _ _ (tidy_plain E1 Htidy1) HS' eq_refl Hx)
      as (X1 & X2 & X3 & X4).
    pose proof (run_config _ _ _ _ _ _ Hx) as Hcx.
    pose proof (run_config _ _ _ _ _ _ Hu') as Hcu'.
    unfold config in Hcx, Hcu'.
    cbn [fresh delimiter secondsPerInterval tokens performTimeSubstitutions
         scratchSize] in Hcx, Hcu'.
    injection Hcx as Hdx _ Htx _ _. injection Hcu' as Hdu _ Htu _ _.
    pose proof Hsim as (A1 & A2 & A3 & A4 & A5 & A6).
    pose proof X1 as (x1 & x2 & x3 & x4).
    pose proof (stackOf_length N E1 Hfit1) as HlenE1.
    cbn [fresh scratchHead] in X2.
    rewrite Htx, Htu, Htok_e1, <- A3.
    destruct (Z.leb_spec 0 (scratchHead x)); [|lia].
    destruct (Z.leb_spec (scratchHead x) (len (stackOf E1))); [|lia].
    rewrite Htok1 in *.
    destruct (Z.leb_spec (scratchHead x) (len (tokens e))); [|lia].
    cbn [andb sameResidual].
    assert (Hkx : (take
                     (Nat.min (length (take (Z.to_nat (scratchHead x)) (stackOf E1)))
                        (length (scratch x))) (scratch x) ++
                   drop
                     (Nat.min (length (take (Z.to_nat (scratchHead x)) (stackOf E1)))
                        (length (scratch x)))
                     (take (Z.to_nat (scratchHead x)) (stackOf E1)))%list
                  = stackOf x).
    { rewrite <- Htok_e1, <- Htx. apply (kept_tokens N); auto.
      rewrite Htx, Htok_e1. lia. }
    assert (Hku : (take
                     (Nat.min (length (take (Z.to_nat (scratchHead x)) (tokens e)))
                        (length (scratch u))) (scratch u) ++
                   drop
                     (Nat.min (length (take (Z.to_nat (scratchHead x)) (tokens e)))
                        (length (scratch u)))
                     (take (Z.to_nat (scratchHead x)) (tokens e)))%list
                  = stackOf u).
    { rewrite A3. rewrite <- Htu. apply (kept_tokens N).
      - apply (alike_fits N x u); auto.
      - rewrite Htu. lia. }
    cbv zeta. rewrite Hkx, Hku.
    assert (Hst : stackOf x = stackOf u) by (apply (alike_stackOf N); auto).
    split.
    - cbn [withTokens tokens]. exact Hst.
    - unfold String_. cbn [withTokens tokens delimiter withPerformTimeSubstitutions].
      rewrite Hst, Hdx, Hdu. rewrite <- He1. cbn [withTokens delimiter
        withPerformTimeSubstitutions]. now rewrite Hd1. }
  split.
  - apply Hmain, Hagree.
  - specialize (Hmain b1 ltac:(intros k v1 v2 Ha Hb; congruence)).
    rewrite map_union_idemp in Hmain.
    rewrite (Partial_unfold env b1 e), Hc1, Hrun1 in Hmain.
    destruct (Z.ltb_spec (scratchSize e) 0); [lia|].
    destruct (Z.leb_spec 0 (scratchHead E1)); [|lia].
    destruct (Z.leb_spec (scratchHead E1) (len (tokens E1))); [|lia].
    cbn [andb] in Hmain. cbv zeta in Hmain. rewrite He1 in Hmain.
    destruct (Partial env b1 e1) as [[x y]| |]; exact Hmain.
Qed.

(** C6, witness: a,b,c,d,+,+,+ with b bound first, then c and d. *)
Lemma Partial_composes_witness :
  sameResidual Sample.env
    (Partial Sample.env c_and_d sumAfterB)
    (Partial Sample.env (b_is_2 ∪ c_and_d) sumProgram)
  /\ sameResidual Sample.env
       (Partial Sample.env b_is_2 sumAfterB) (Ok (sumAfterB, sumAfterB)).
Proof.
  refine (Partial_composes Sample.env b_is_2 c_and_d sumProgram sumAfterB _
            _ _ _ _ _ _).
  - vm_compute; reflexivity.
  - vm_compute; discriminate.
  - vm_compute; reflexivity.
  - intros k v1 v2 H1 H2.
    unfold b_is_2 in H1.
    apply lookup_singleton_Some in H1 as [<- _].
    vm_compute in H2; discriminate.
  - vm_compute; reflexivity.
  - vm_compute; reflexivity.
Defined.

(** The steps of TestPartialApplication: binding b, then c and d, leaves
    a,9,+, and so does binding the three at once. *)
Example Partial_by_steps :
  rendered (andThen b_is_2 (New Sample.env "a,b,c,d,+,+,+" []))
    = Some "a,2,c,d,+,+,+"
  /\ rendered (andThen c_and_d (andThen b_is_2 (New Sample.env "a,b,c,d,+,+,+" [])))
    = Some "a,9,+"
  /\ rendered (andThen (b_is_2 ∪ c_and_d) (New Sample.env "a,b,c,d,+,+,+" []))
    = Some "a,9,+".
Proof. repeat split; vm_compute; reflexivity. Qed.
